(** * Lossless Video Cutter: selection model, task planner, executor, progress parser

    A shallow embedding of the editing core of the application:
    - [main.py]: the selection callbacks of [MainWindow], the planning part
      of [on_save_video], [on_keyframe_tag_clicked] and [update_ui_state];
    - [ui_timeline.py]: [TimelineWidget.toggle_keyframe_selection] and
      [mousePressEvent];
    - [worker_threads.py]: [VideoProcessorWorker.run] and
      [VideoProberWorker.run];
    - [ffmpeg_utils.py]: [time_str_to_seconds] and the progress branch of
      [FfmpegProcess.run]; [get_video_duration], [get_video_fps],
      [get_video_dimensions] and [get_keyframes].

    Numbers.  Every time value of the program is a Python [float], an IEEE
    754 binary64 number.  The development has two layers.

    The first models a float as an exact rational [Q], with inf and nan apart
    where the source can produce them: comparisons are the ones of the
    source, arithmetic is exact.  It carries the properties that do not turn
    on how an operation rounds: the order and the structure of the lists the
    code builds, which branch a callback takes once its test is decided, the
    protocol of the signals, the range of the progress values, the paths.

    The second, [B64], has the functions whose result turns on an addition, a
    subtraction, a division, a threshold or a conversion once more, on the
    floats of the machine ([PrimFloat.float]): every operation rounds as
    binary64 does, the literals are the doubles Python reads, [float(...)] of
    a decimal string is the nearest double, [int(...)] and the conversion of
    an [int] raise what Python raises.  The properties of the thresholds
    (0.01, 0.05, 0.1, 0.001) and of the progress percentage are stated and
    proved on this layer.

    Statements that say a list "is exactly" some list use Leibniz equality:
    the code only copies the numbers it is given, it never renormalises them.

    Strings are modelled on their ASCII characters; paths follow [posixpath].

    The world.  The external encoder, the file system and the thread that calls
    [cancel()] are an [environment] the worker reads: the outcome of each
    encoder run, of each file system call, and the first read of the
    cancellation flag that sees it set.  The Qt widgets and dialogs are reduced
    to the values the code reads from them.  The probing functions are given
    what [json.loads] and [subprocess.run] return; Python's dynamic typing is
    kept: an operation on a value of the wrong kind raises the exception
    Python raises. *)

From Stdlib Require Import QArith Qround Qabs Qminmax List Bool String Ascii ZArith Lia Lqa.
From Stdlib Require Import DecimalString DecimalNat.
From Stdlib Require Import Sorting.Sorted Sorting.Permutation SetoidList.
From Stdlib Require Floats.
Import ListNotations.
Local Open Scope Q_scope.

(** ** Python numeric builtins on floats *)

Module Py.

(** [a < b] on floats. *)
Definition ltb (a b : Q) : bool := negb (Qle_bool b a).

(** [a <= b] on floats. *)
Definition leb (a b : Q) : bool := Qle_bool a b.

(** [a == b] on floats. *)
Definition eqb (a b : Q) : bool := Qeq_bool a b.

(** [max(a, b)]: the first argument is kept unless the second is strictly
    greater. *)
Definition max (a b : Q) : Q := if ltb a b then b else a.

(** [min(a, b)]: the first argument is kept unless the second is strictly
    smaller. *)
Definition min (a b : Q) : Q := if ltb b a then b else a.

(** [a < b] on 2-tuples of floats: the first component where the tuples differ
    decides. *)
Definition tuple_ltb (a b : Q * Q) : bool :=
  if eqb (fst a) (fst b) then ltb (snd a) (snd b) else ltb (fst a) (fst b).

Section Sort.
Context {A : Type}.
(** [lt x y] is the comparison [x < y] the sort uses (on the keys). *)
Variable lt : A -> A -> bool.

(** [list.sort] and [sorted] are stable; a stable sort is determined by its
    comparison, so it is modelled by stable insertion: an element moves past
    exactly the elements that are strictly smaller. *)
Fixpoint insert (x : A) (l : list A) : list A :=
  match l with
  | [] => [x]
  | y :: l' => if lt y x then y :: insert x l' else x :: y :: l'
  end.

Definition sort (l : list A) : list A := fold_right insert [] l.
End Sort.

(** [l.sort()] / [sorted(l)] on a list of 2-tuples. *)
Definition sorted_tuples (l : list (Q * Q)) : list (Q * Q) := sort tuple_ltb l.

(** [sorted(l, key=lambda x: x[0])]. *)
Definition sorted_by_first (l : list (Q * Q)) : list (Q * Q) :=
  sort (fun a b => ltb (fst a) (fst b)) l.

(** [sorted(l)] on a list of floats. *)
Definition sorted_floats (l : list Q) : list Q := sort ltb l.

End Py.

(** ** Selection model ([MainWindow], main.py) *)

(** The fields of [MainWindow] the selection callbacks and the planner read
    and write. *)
Record MainWindow : Type := mkMainWindow {
  selections : list (Q * Q);
  current_selection_start : option Q;
  video_duration : Q
}.

Definition set_selections (l : list (Q * Q)) (w : MainWindow) : MainWindow :=
  {| selections := l;
     current_selection_start := current_selection_start w;
     video_duration := video_duration w |}.

Definition set_current_selection_start (o : option Q) (w : MainWindow) : MainWindow :=
  {| selections := selections w;
     current_selection_start := o;
     video_duration := video_duration w |}.

(** A freshly loaded video: no selection, no pending start. *)
Definition new_session (duration : Q) : MainWindow :=
  {| selections := []; current_selection_start := None; video_duration := duration |}.

(** What the user is shown by a selection callback. *)
Inductive feedback : Type :=
| SelectionStartCancelled        (* status "Selection start cancelled." *)
| SelectionStarted               (* status "Selection started at: ..." *)
| NoActiveSelection              (* on_end_selection: silent return *)
| InvalidSelection               (* warning box "Invalid Selection" *)
| SegmentSelected                (* status "Segment selected: ..." *)
| SelectionRemoved (r : Q * Q)   (* status "Selection ... removed." *)
| AllSelectionsCleared           (* status "All selections cleared." *)
| CurrentStartCancelled          (* status "Current selection start cancelled." *)
| NoSelectionsToClear.           (* status "No selections to clear." *)

(** [on_begin_selection]; [t] is [_get_current_playhead_time_sec()]. *)
Definition on_begin_selection (t : Q) (w : MainWindow) : feedback * MainWindow :=
  match current_selection_start w with
  | Some _ => (SelectionStartCancelled, set_current_selection_start None w)
  | None => (SelectionStarted, set_current_selection_start (Some t) w)
  end.

(** [on_end_selection]; [t] is the playhead time read as [end_time]. *)
Definition on_end_selection (t : Q) (w : MainWindow) : feedback * MainWindow :=
  match current_selection_start w with
  | None => (NoActiveSelection, w)
  | Some start_time =>
      if Py.leb t (start_time + 0.01) then (InvalidSelection, w)
      else
        let new_selection := (start_time, t) in
        let w1 := set_selections (Py.sorted_tuples (selections w ++ [new_selection])) w in
        (SegmentSelected, set_current_selection_start None w1)
  end.

(** [start <= current_time <= end]. *)
Definition playhead_inside (t : Q) (r : Q * Q) : bool :=
  Py.leb (fst r) t && Py.leb t (snd r).

(** The [for ... enumerate(self.selections)] loop of [on_undo_selection]:
    deletes the first range the playhead is inside and breaks; [None] when the
    loop ends without a deletion ([removed_specific] stays [False]). *)
Fixpoint undo_scan (t : Q) (l : list (Q * Q)) : option (Q * Q * list (Q * Q)) :=
  match l with
  | [] => None
  | r :: l' =>
      if playhead_inside t r then Some (r, l')
      else match undo_scan t l' with
           | Some (x, l'') => Some (x, r :: l'')
           | None => None
           end
  end.

(** [on_undo_selection]; [t] is the playhead time. *)
Definition on_undo_selection (t : Q) (w : MainWindow) : feedback * MainWindow :=
  match undo_scan t (selections w) with
  | Some (r, l) => (SelectionRemoved r, set_selections l w)
  | None =>
      match selections w with
      | _ :: _ => (AllSelectionsCleared, set_selections [] w)
      | [] =>
          match current_selection_start w with
          | Some _ => (CurrentStartCancelled, set_current_selection_start None w)
          | None => (NoSelectionsToClear, w)
          end
      end
  end.

(** A user action on the selection model, with the playhead time at which it
    happens. *)
Inductive action : Type :=
| BeginMark (t : Q)
| EndMark (t : Q).

Definition perform (w : MainWindow) (a : action) : MainWindow :=
  match a with
  | BeginMark t => snd (on_begin_selection t w)
  | EndMark t => snd (on_end_selection t w)
  end.

Definition perform_all (w : MainWindow) (acts : list action) : MainWindow :=
  fold_left perform acts w.

(** ** Keyframe tags ([TimelineWidget], ui_timeline.py) *)

(** A Python [set] of floats.  Membership is decided by [==]; the iteration
    order of a set is unspecified and every reader of these sets goes through
    [sorted], so the order of the carrier list is not observable. *)
Module FloatSet.

Definition t : Type := list Q.

Definition empty : t := [].

(** [x in s] *)
Definition mem (x : Q) (s : t) : bool := existsb (Py.eqb x) s.

(** [s.add(x)] *)
Definition add (x : Q) (s : t) : t := if mem x s then s else s ++ [x].

(** [s.remove(x)], for an [x] that is a member. *)
Definition remove (x : Q) (s : t) : t := filter (fun y => negb (Py.eqb x y)) s.

(** [set(iterable)] *)
Definition of_list (l : list Q) : t := fold_left (fun s x => add x s) l empty.

(** [list(s)] *)
Definition elements (s : t) : list Q := s.

End FloatSet.

Record TimelineWidget : Type := mkTimelineWidget {
  _duration : Q;
  _keyframes : list Q;
  _selected_keyframes : FloatSet.t
}.

(** The state of the search loop of [toggle_keyframe_selection]:
    [closest_kf] ([None] at the start) and [min_diff], whose initial value
    [float('inf')] is [None] here: every difference is below it. *)
Definition closest_state : Type := (option Q * option Q)%type.

Definition diff_below (diff : Q) (min_diff : option Q) : bool :=
  match min_diff with
  | None => true
  | Some m => Py.ltb diff m
  end.

(** One iteration of [for kf_time in self._keyframes]. *)
Definition closest_step (time_sec : Q) (st : closest_state) (kf_time : Q) : closest_state :=
  let diff := Qabs (kf_time - time_sec) in
  if Py.ltb diff 0.1 then
    if diff_below diff (snd st) then (Some kf_time, Some diff) else st
  else st.

Definition find_closest_kf (time_sec : Q) (keyframes : list Q) : option Q :=
  fst (fold_left (closest_step time_sec) keyframes (None, None)).

(** [toggle_keyframe_selection]: the returned boolean and the widget after
    the call. *)
Definition toggle_keyframe_selection (time_sec : Q) (tw : TimelineWidget)
  : bool * TimelineWidget :=
  match find_closest_kf time_sec (_keyframes tw) with
  | Some closest_kf =>
      let sel := _selected_keyframes tw in
      let sel' := if FloatSet.mem closest_kf sel
                  then FloatSet.remove closest_kf sel
                  else FloatSet.add closest_kf sel in
      (true, {| _duration := _duration tw;
                _keyframes := _keyframes tw;
                _selected_keyframes := sel' |})
  | None => (false, tw)
  end.

(** [get_selected_keyframes] *)
Definition get_selected_keyframes (tw : TimelineWidget) : list Q :=
  Py.sorted_floats (FloatSet.elements (_selected_keyframes tw)).

(** ** Output format registry (app_config.py) *)

Local Open Scope string_scope.

Record format_details : Type := mkFormat {
  ext : option string;              (* [None]: use the source's extension *)
  ffmpeg_args : list string;
  is_audio_only : bool;
  is_gif : bool;
  needs_reencode : bool
}.

Definition OUTPUT_FORMATS : list (string * format_details) :=
  [ ("Original Format (Lossless)",
     mkFormat None ["-c"; "copy"; "-map"; "0"] false false false);
    ("MP4 (H.264 + AAC)",
     mkFormat (Some ".mp4")
       ["-c:v"; "libx264"; "-preset"; "medium"; "-crf"; "23"; "-c:a"; "aac";
        "-b:a"; "128k"; "-movflags"; "+faststart"] false false true);
    ("MKV (H.264 + AAC)",
     mkFormat (Some ".mkv")
       ["-c:v"; "libx264"; "-preset"; "medium"; "-crf"; "23"; "-c:a"; "aac";
        "-b:a"; "128k"] false false true);
    ("AVI (Xvid + MP3)",
     mkFormat (Some ".avi")
       ["-c:v"; "libxvid"; "-qscale:v"; "4"; "-c:a"; "libmp3lame"; "-qscale:a"; "4"]
       false false true);
    ("MP3 (Audio Only)",
     mkFormat (Some ".mp3")
       ["-vn"; "-c:a"; "libmp3lame"; "-qscale:a"; "2"; "-ar"; "44100"; "-ac"; "2"]
       true false true);
    ("GIF (Animated)",
     mkFormat (Some ".gif")
       ["-vf"; "fps=10,scale=480:-1:flags=lanczos"; "-loop"; "0"] false true true) ].

Definition TEMP_DIR_NAME : string := "lossless_cutter_temp".

(** [OUTPUT_FORMATS[key]]; [None] is the [KeyError]. *)
Fixpoint lookup_format (key : string) (table : list (string * format_details))
  : option format_details :=
  match table with
  | [] => None
  | (k, d) :: table' => if String.eqb k key then Some d else lookup_format key table'
  end.

(** ** Encode tasks *)

(** The task dictionaries built by [on_save_video].  A ["concat"] task has the
    key ["segments"], a ["single_cut"] task the keys ["start_time"] and
    ["end_time"]; ["gif_scale_w"] is present for the animated-image format
    only. *)
Inductive task : Type :=
| Concat (output_path output_format_key : string) (segments : list (Q * Q))
         (gif_scale_w : option Z)
| SingleCut (output_path output_format_key : string) (start_time end_time : option Q)
            (gif_scale_w : option Z).

Definition task_output_path (t : task) : string :=
  match t with
  | Concat p _ _ _ => p
  | SingleCut p _ _ _ _ => p
  end.

Definition task_is_concat (t : task) : bool :=
  match t with
  | Concat _ _ _ _ => true
  | SingleCut _ _ _ _ _ => false
  end.

(** ** Task planner ([on_save_video], main.py) *)

Local Close Scope string_scope.

Definition min_segment_duration : Q := 0.05.

(** [max(0.0, min(x, self.video_duration))] *)
Definition clamp_to_video (duration x : Q) : Q := Py.max 0 (Py.min x duration).

(** The body of [for remove_start, remove_end in sorted_removed_selections];
    the loop state is [(segments_to_keep, current_pos)]. *)
Definition removal_step (duration : Q) (st : list (Q * Q) * Q) (r : Q * Q)
  : list (Q * Q) * Q :=
  let '(segments_to_keep, current_pos) := st in
  let remove_start := clamp_to_video duration (fst r) in
  let remove_end := clamp_to_video duration (snd r) in
  let segments_to_keep :=
    if Py.ltb current_pos remove_start then
      let segment_duration := remove_start - current_pos in
      if Py.leb min_segment_duration segment_duration
      then segments_to_keep ++ [(current_pos, remove_start)]
      else segments_to_keep
    else segments_to_keep in
  (segments_to_keep, Py.max current_pos remove_end).

(** [_get_segments_to_keep_for_removal] *)
Definition _get_segments_to_keep_for_removal (w : MainWindow) : list (Q * Q) :=
  match selections w with
  | [] => []
  | _ :: _ =>
      if Py.leb (video_duration w) 0 then [(0, video_duration w)]
      else
        let sorted_removed_selections := Py.sorted_by_first (selections w) in
        let '(segments_to_keep, current_pos) :=
          fold_left (removal_step (video_duration w)) sorted_removed_selections ([], 0) in
        if Py.ltb current_pos (video_duration w) then
          let segment_duration := video_duration w - current_pos in
          if Py.leb min_segment_duration segment_duration
          then segments_to_keep ++ [(current_pos, video_duration w)]
          else segments_to_keep
        else segments_to_keep
  end.

(** What [on_save_video] does besides building tasks: the dialogs that end it
    early. *)
Inductive save_outcome : Type :=
| NoSelections              (* information box "No Selections" *)
| NoVideoDuration           (* warning box "No video duration. Cannot process." *)
| NothingToSave             (* information box "Nothing to Save" *)
| NoTagsSelected            (* information box "No Tags Selected" *)
| DialogCancelled           (* the file or directory dialog was dismissed *)
| NoTasks                   (* status "No tasks to perform ..." *)
| StartWorker (output_tasks : list task).

(** The [segments_for_concat] of save actions 0 (keep) and 1 (remove);
    [inl] is an early return. *)
Definition segments_for_concat (save_action_id : Z) (w : MainWindow)
  : save_outcome + list (Q * Q) :=
  if (save_action_id =? 0)%Z then
    match selections w with
    | [] => inl NoSelections
    | _ :: _ => inr (Py.sorted_tuples (selections w))
    end
  else
    match selections w with
    | [] =>
        if Py.leb (video_duration w) 0 then inl NoVideoDuration
        else inr [(0, video_duration w)]
    | _ :: _ =>
        match _get_segments_to_keep_for_removal w with
        | [] => inl NothingToSave
        | segs => inr segs
        end
    end.

(** The split points of save action 3:
    [sorted(list(set(p for p in [0.0] + selected_tags + [d] if p <= d + 0.001)))]. *)
Definition split_points (selected_tags : list Q) (duration : Q) : list Q :=
  let points := [0] ++ selected_tags ++ [duration] in
  Py.sorted_floats
    (FloatSet.elements
       (FloatSet.of_list (filter (fun p => Py.leb p (duration + 0.001)) points))).

(** What [on_save_video] reads besides the selection model: the widgets, the
    loaded file and the answer of the dialog it opens. *)
Record save_request : Type := mkSaveRequest {
  save_action_id : Z;               (* [save_action_group.checkedId()] *)
  output_format_key : string;       (* [output_format_combo.currentText()] *)
  base_output_filename : string;    (* [splitext(basename(current_video_path))[0]] *)
  source_ext : string;              (* [splitext(current_video_path)[1]] *)
  dialog_answer : string;           (* chosen file or directory, empty if dismissed *)
  video_width : option Z            (* [get_video_dimensions(video_info)[0]];
                                       [None] when [video_info] is empty *)
}.

(** [str(n)] for a non-negative integer. *)
Definition str_of_nat (n : nat) : string := NilEmpty.string_of_uint (Nat.to_uint n).

Definition ends_with_slash (s : string) : bool :=
  match rev (list_ascii_of_string s) with
  | c :: _ => Ascii.eqb c "/"
  | [] => false
  end.

(** [os.path.join(a, b)] (posixpath). *)
Definition path_join (a b : string) : string :=
  match b with
  | String c _ => if Ascii.eqb c "/" then b
                  else if ends_with_slash a || String.eqb a "" then (a ++ b)%string
                  else (a ++ "/" ++ b)%string
  | EmptyString => if ends_with_slash a || String.eqb a "" then a else (a ++ "/")%string
  end.

(** The ["gif_scale_w"] entry: [min(w if w > 0 else 480, 480)], set when the
    format is the animated image and [video_info] is there. *)
Definition gif_scale (d : format_details) (rq : save_request) : option Z :=
  if is_gif d then
    match video_width rq with
    | Some w => Some (Z.min (if (0 <? w)%Z then w else 480%Z) 480)
    | None => None
    end
  else None.

(** The tasks of save action 2: one per selection, in list order. *)
Fixpoint selection_split_loop (mk : nat -> Q -> Q -> task) (i : nat)
  (sels : list (Q * Q)) : list task :=
  match sels with
  | [] => []
  | (start_t, end_t) :: sels' =>
      mk (i + 1)%nat start_t end_t :: selection_split_loop mk (S i) sels'
  end.

(** The loop [for i in range(len(split_points) - 1)] of save action 3 over
    consecutive points: both bounds are clamped to the video, a span below 0.05
    is skipped by [continue], [processed_segments_count] numbers the tasks
    that are built. *)
Fixpoint tag_split_loop (mk : nat -> Q -> Q -> task) (duration : Q)
  (processed_segments_count : nat) (points : list Q) : list task :=
  match points with
  | [] => []
  | p :: rest =>
      match rest with
      | [] => []
      | q :: _ =>
          let start_t := clamp_to_video duration p in
          let end_t := clamp_to_video duration q in
          if Py.ltb (end_t - start_t) 0.05
          then tag_split_loop mk duration processed_segments_count rest
          else
            let processed_segments_count := (processed_segments_count + 1)%nat in
            mk processed_segments_count start_t end_t
              :: tag_split_loop mk duration processed_segments_count rest
      end
  end.

(** [on_save_video], up to the start of the worker. *)
Definition on_save_video (rq : save_request) (w : MainWindow) (tw : TimelineWidget)
  : option save_outcome :=
  match lookup_format (output_format_key rq) OUTPUT_FORMATS with
  | None => None                    (* [KeyError] *)
  | Some output_format_details =>
      let default_ext :=
        match ext output_format_details with
        | Some e => e
        | None => source_ext rq
        end in
      let single_cut (infix : string) (n : nat) (start_t end_t : Q) : task :=
        SingleCut
          (path_join (dialog_answer rq)
             (base_output_filename rq ++ infix ++ str_of_nat n ++ default_ext)%string)
          (output_format_key rq) (Some start_t) (Some end_t)
          (gif_scale output_format_details rq) in
      let start (output_tasks : list task) : save_outcome :=
        match output_tasks with
        | [] => NoTasks
        | _ :: _ => StartWorker output_tasks
        end in
      let id := save_action_id rq in
      if ((id =? 0) || (id =? 1))%Z then
        match segments_for_concat id w with
        | inl early => Some early
        | inr segs =>
            if String.eqb (dialog_answer rq) "" then Some DialogCancelled
            else Some (start [Concat (dialog_answer rq) (output_format_key rq) segs
                                (gif_scale output_format_details rq)])
        end
      else if (id =? 2)%Z then
        match selections w with
        | [] => Some NoSelections
        | _ :: _ =>
            if String.eqb (dialog_answer rq) "" then Some DialogCancelled
            else Some (start (selection_split_loop (single_cut "_part_"%string) 0 (selections w)))
        end
      else if (id =? 3)%Z then
        let selected_tags := Py.sorted_floats (get_selected_keyframes tw) in
        match selected_tags with
        | [] => Some NoTagsSelected
        | _ :: _ =>
            if String.eqb (dialog_answer rq) "" then Some DialogCancelled
            else Some (start (tag_split_loop (single_cut "_tag_split_"%string) (video_duration w) 0
                                (split_points selected_tags (video_duration w))))
        end
      else Some NoTasks
  end.

(** ** Progress parser (ffmpeg_utils.py) *)

(** Python strings are modelled on their ASCII characters. *)
Module Str.

Local Open Scope char_scope.

Definition code (c : ascii) : nat := nat_of_ascii c.

(** [c.isspace()]: tab, line feed, vertical tab, form feed, carriage return,
    the four separators 28..31, and the blank. *)
Definition is_space (c : ascii) : bool :=
  ((9 <=? code c) && (code c <=? 13) || (28 <=? code c) && (code c <=? 31)
   || (code c =? 32))%nat.

(** [\d], a decimal digit. *)
Definition is_digit (c : ascii) : bool := ((48 <=? code c) && (code c <=? 57))%nat.

Definition digit_value (c : ascii) : Z := Z.of_nat (code c - 48).

Fixpoint lstrip (l : list ascii) : list ascii :=
  match l with
  | c :: l' => if is_space c then lstrip l' else l
  | [] => []
  end.

(** [s.strip()] *)
Definition strip (l : list ascii) : list ascii := rev (lstrip (rev (lstrip l))).

(** [s.split(sep)] for a one-character separator: never empty. *)
Fixpoint split (sep : ascii) (l : list ascii) : list (list ascii) :=
  match l with
  | [] => [[]]
  | c :: l' =>
      if Ascii.eqb c sep then [] :: split sep l'
      else match split sep l' with
           | p :: ps => (c :: p) :: ps
           | [] => [[c]]
           end
  end.

(** [c.lower()] on ASCII letters. *)
Definition lower (c : ascii) : ascii :=
  if ((65 <=? code c) && (code c <=? 90))%nat then ascii_of_nat (code c + 32) else c.

Definition eqb (a b : list ascii) : bool :=
  String.eqb (string_of_list_ascii a) (string_of_list_ascii b).

End Str.

(** A Python float as the parser can produce it. *)
Inductive pyfloat : Type :=
| Finite (q : Q)
| Infinity (negative : bool)
| NaN.

Module Parse.

Local Open Scope char_scope.

(** The [digitpart] of Python's numeric literals: digits, with single
    underscores allowed between two digits.  Returns the value and the number
    of digits; [None] when the characters are not a digitpart. *)
Fixpoint digitpart (acc : Z) (count : nat) (after_digit : bool) (l : list ascii)
  : option (Z * nat) :=
  match l with
  | [] => if after_digit then Some (acc, count) else None
  | c :: l' =>
      if Str.is_digit c then digitpart (acc * 10 + Str.digit_value c) (S count) true l'
      else if Ascii.eqb c "_" then
        if after_digit then digitpart acc count false l' else None
      else None
  end.

Definition digits (l : list ascii) : option (Z * nat) := digitpart 0 0 false l.

(** An optional sign: [true] for a minus. *)
Definition sign (l : list ascii) : bool * list ascii :=
  match l with
  | c :: l' =>
      if Ascii.eqb c "-" then (true, l')
      else if Ascii.eqb c "+" then (false, l')
      else (false, l)
  | [] => (false, [])
  end.

Definition signed (negative : bool) (z : Z) : Z := if negative then (- z)%Z else z.

(** [int(s)] in base 10; [None] is the [ValueError]. *)
Definition py_int (s : list ascii) : option Z :=
  let (negative, body) := sign (Str.strip s) in
  match digits body with
  | Some (v, _) => Some (signed negative v)
  | None => None
  end.

(** The part of [l] before the first character satisfying [p], and what
    follows that character, if there is one. *)
Fixpoint break (p : ascii -> bool) (l : list ascii) : list ascii * option (list ascii) :=
  match l with
  | [] => ([], None)
  | c :: l' =>
      if p c then ([], Some l')
      else let (a, b) := break p l' in (c :: a, b)
  end.

(** [number ::= [digitpart] "." digitpart | digitpart ["."]] *)
Definition number (l : list ascii) : option Q :=
  match break (fun c => Ascii.eqb c ".") l with
  | (ip, None) =>
      match digits ip with
      | Some (v, _) => Some (inject_Z v)
      | None => None
      end
  | (ip, Some fp) =>
      match ip, fp with
      | [], [] => None
      | _ :: _, [] =>
          match digits ip with
          | Some (v, _) => Some (inject_Z v)
          | None => None
          end
      | [], _ :: _ =>
          match digits fp with
          | Some (f, n) => Some (inject_Z f / inject_Z (10 ^ Z.of_nat n))
          | None => None
          end
      | _ :: _, _ :: _ =>
          match digits ip, digits fp with
          | Some (v, _), Some (f, n) =>
              Some (inject_Z v + inject_Z f / inject_Z (10 ^ Z.of_nat n))
          | _, _ => None
          end
      end
  end.

(** [exponent ::= ("e" | "E") [sign] digitpart], after the letter. *)
Definition exponent (l : list ascii) : option Z :=
  let (negative, body) := sign l in
  match digits body with
  | Some (v, _) => Some (signed negative v)
  | None => None
  end.

Definition floatnumber (l : list ascii) : option Q :=
  match break (fun c => Ascii.eqb (Str.lower c) "e") l with
  | (m, None) => number m
  | (m, Some e) =>
      match number m, exponent e with
      | Some q, Some z => Some (q * inject_Z 10 ^ z)
      | _, _ => None
      end
  end.

(** [float(s)]; [None] is the [ValueError]. *)
Definition py_float (s : list ascii) : option pyfloat :=
  let (negative, body) := sign (Str.strip s) in
  let low := map Str.lower body in
  if Str.eqb low (list_ascii_of_string "inf")
     || Str.eqb low (list_ascii_of_string "infinity")
  then Some (Infinity negative)
  else if Str.eqb low (list_ascii_of_string "nan") then Some NaN
  else match floatnumber body with
       | Some q => Some (Finite (if negative then - q else q))
       | None => None
       end.

End Parse.

(** [n + x] for an integer [n] and a float [x]. *)
Definition int_plus_float (n : Z) (x : pyfloat) : pyfloat :=
  match x with
  | Finite q => Finite (inject_Z n + q)
  | other => other
  end.

(** The [try] block of [time_str_to_seconds] on the split string: [None] is a
    [ValueError] raised by [int] or [float], [Some None] is the end of the
    block with no [return] taken (more than three parts). *)
Definition time_parts_to_seconds (parts : list (list ascii)) : option (option pyfloat) :=
  match parts with
  | [p0; p1; p2] =>
      match Parse.py_int p0, Parse.py_int p1, Parse.py_float p2 with
      | Some h, Some m, Some s_ms => Some (Some (int_plus_float (h * 3600 + m * 60) s_ms))
      | _, _, _ => None
      end
  | [p0; p1] =>
      match Parse.py_int p0, Parse.py_float p1 with
      | Some m, Some s_ms => Some (Some (int_plus_float (m * 60) s_ms))
      | _, _ => None
      end
  | [p0] =>
      match Parse.py_float p0 with
      | Some s => Some (Some s)
      | None => None
      end
  | _ => Some None
  end.

(** [time_str_to_seconds]: the [except ValueError] branch prints a warning and
    falls through to the final [return 0.0].  The argument is a [str], so the
    [isinstance] guard is never taken. *)
Definition time_str_to_seconds (time_str : string) : pyfloat :=
  match time_parts_to_seconds (Str.split ":" (list_ascii_of_string time_str)) with
  | Some (Some seconds) => seconds
  | Some None => Finite 0
  | None => Finite 0
  end.

(** [FFMPEG_TIME_REGEX = r"time=(\d{2}:\d{2}:\d{2}\.\d{2,})"] *)
Module TimeRegex.

Local Open Scope char_scope.

(** A literal character of the pattern. *)
Definition lit (c : ascii) (l : list ascii) : option (list ascii) :=
  match l with
  | x :: l' => if Ascii.eqb x c then Some l' else None
  | [] => None
  end.

(** [\d{2}] *)
Definition two_digits (l : list ascii) : option (list ascii * list ascii) :=
  match l with
  | a :: b :: l' => if Str.is_digit a && Str.is_digit b then Some ([a; b], l') else None
  | _ => None
  end.

(** The longest run of digits at the head of [l]. *)
Fixpoint digit_run (l : list ascii) : list ascii :=
  match l with
  | c :: l' => if Str.is_digit c then c :: digit_run l' else []
  | [] => []
  end.

Definition bind {A B} (o : option A) (f : A -> option B) : option B :=
  match o with
  | Some a => f a
  | None => None
  end.

(** A match of the whole pattern at the head of [l]: group 1. *)
Definition match_here (l : list ascii) : option (list ascii) :=
  bind (lit "t" l) (fun l =>
  bind (lit "i" l) (fun l =>
  bind (lit "m" l) (fun l =>
  bind (lit "e" l) (fun l =>
  bind (lit "=" l) (fun l =>
  bind (two_digits l) (fun '(hh, l) =>
  bind (lit ":" l) (fun l =>
  bind (two_digits l) (fun '(mm, l) =>
  bind (lit ":" l) (fun l =>
  bind (two_digits l) (fun '(ss, l) =>
  bind (lit "." l) (fun l =>
  let ff := digit_run l in
  if (2 <=? List.length ff)%nat
  then Some (hh ++ [":"] ++ mm ++ [":"] ++ ss ++ ["."] ++ ff)
  else None))))))))))).

(** [re.search(FFMPEG_TIME_REGEX, s)]: group 1 of the leftmost match. *)
Fixpoint search (l : list ascii) : option (list ascii) :=
  match match_here l with
  | Some tok => Some tok
  | None =>
      match l with
      | [] => None
      | _ :: l' => search l'
      end
  end.

End TimeRegex.

(** [int(x)] on a finite float: truncation towards zero. *)
Definition int_of_float (q : Q) : Z := Z.quot (Qnum q) (Z.pos (Qden q)).

(** What the progress branch of the read loop of [FfmpegProcess.run] does with
    one line of output. *)
Inductive line_progress : Type :=
| NoProgress                                  (* the [if]s are not taken *)
| Progress (percentage : Z) (msg : string)    (* [progress_callback(percentage, msg)] *)
| IntRaises.                                  (* [int] of a non-finite float *)

(** [has_callback] is the truth value of [progress_callback]. *)
Definition progress_of_line (has_callback : bool) (total_duration : option Q)
  (line : string) : line_progress :=
  let line_strip := Str.strip (list_ascii_of_string line) in
  match total_duration with
  | Some total =>
      if has_callback && negb (Py.eqb total 0) && Py.ltb 0 total then
        match TimeRegex.search line_strip with
        | Some tok =>
            let current_time_str := string_of_list_ascii tok in
            match time_str_to_seconds current_time_str with
            | Finite current_time_sec =>
                let percentage := Z.min 100 (int_of_float (current_time_sec / total * 100)) in
                Progress percentage ("Encoding... " ++ current_time_str)%string
            | _ => IntRaises
            end
        | None => NoProgress
        end
      else NoProgress
  | None => NoProgress
  end.

(** ** Encode task executor ([VideoProcessorWorker.run], worker_threads.py) *)

Local Open Scope string_scope.

(** An encoder command line.  The trim bounds are kept as numbers: [str] of a
    float is not modelled. *)
Inductive ffmpeg_command : Type :=
| CutCommand (input : string) (ss to : option Q) (args : list string) (output : string)
    (* ffmpeg -y -i input [-ss ss] [-to to] args output *)
| ConcatCommand (list_path : string) (args : list string) (output : string).
    (* ffmpeg -y -f concat -safe 0 -i list_path args output *)

(** What the worker emits: its four signals, and what it prints. *)
Inductive event : Type :=
| progress_update (percentage : Z) (msg : string)
| segment_processed (current_segment total_segments : nat) (output_path : string)
| finished (msg : string)
| error (msg : string)
| print (line : string)
| print_exc.                      (* [traceback.print_exc()] *)

(** One run of the external encoder, as [FfmpegProcess.run] sees it: the lines
    it reads, whether the process was started and exited with code 0, and the
    text [get_error_message()] returns otherwise (built from the output by
    [FfmpegProcess.run]; that construction is not modelled). *)
Record ffmpeg_result : Type := mkFfmpegResult {
  output_lines : list string;
  exit_ok : bool;
  diagnostic : string
}.

(** Everything outside the worker that [run] depends on. *)
Record environment : Type := mkEnvironment {
  input_filepath : string;
  input_ext : string;               (* [os.path.splitext(input_filepath)[1]] *)
  gettempdir : string;              (* [tempfile.gettempdir()] *)
  getpid : nat;                     (* [os.getpid()] *)
  cancelled_from : option nat;      (* the first read of [_is_cancelled] that
                                       sees [True]; [cancel()] never resets it *)
  ffmpeg : nat -> ffmpeg_result;    (* the n-th encoder run of this worker *)
  makedirs_error : nat -> option string;  (* by task index: [os.makedirs] raises *)
  open_error : nat -> option string;      (* by task index: writing the list raises *)
  rmtree_error : option string            (* [shutil.rmtree] raises *)
}.

Inductive exn : Type :=
| OperationCancelledError (msg : string)
| FfmpegProcessingError (msg : string)
| OtherException (msg : string).

Record worker_state : Type := mkWorkerState {
  emitted : list event;             (* oldest first *)
  temp_dir_exists : bool;           (* the temporary directory of this process *)
  temp_concat_dir : option string;  (* the local variable; [None] at the start *)
  loop_index : option nat;          (* the local variable [i] *)
  flag_reads : nat;                 (* reads of [_is_cancelled] so far *)
  ffmpeg_runs : nat;                (* encoder runs so far *)
  launched : list ffmpeg_command;   (* the commands run, oldest first *)
  concat_list : option (list string)  (* the lines of concat_list.txt *)
}.

(** The worker monad: state passing, with the two ways a block of [run] can
    end early. *)
Inductive result (A : Type) : Type :=
| Done (a : A)
| Raised (e : exn)
| Returned.                       (* the [return] inside the loop *)
Arguments Done {A} a.
Arguments Raised {A} e.
Arguments Returned {A}.

Definition M (A : Type) : Type := worker_state -> result A * worker_state.

Definition ret {A} (a : A) : M A := fun st => (Done a, st).

Definition bindM {A B} (m : M A) (f : A -> M B) : M B :=
  fun st =>
    match m st with
    | (Done a, st') => f a st'
    | (Raised e, st') => (Raised e, st')
    | (Returned, st') => (Returned, st')
    end.

Notation "x <- m ;; k" := (bindM m (fun x => k))
  (at level 61, m at next level, right associativity).
Notation "m ;;; k" := (bindM m (fun _ => k))
  (at level 61, right associativity).

Definition raise {A} (e : exn) : M A := fun st => (Raised e, st).

Definition return_ {A} : M A := fun st => (Returned, st).

Definition modify (f : worker_state -> worker_state) : M unit :=
  fun st => (Done tt, f st).

Definition add_event (e : event) (st : worker_state) : worker_state :=
  mkWorkerState (emitted st ++ [e]) (temp_dir_exists st) (temp_concat_dir st)
    (loop_index st) (flag_reads st) (ffmpeg_runs st) (launched st) (concat_list st).

Definition emit (e : event) : M unit := modify (add_event e).

Fixpoint emit_all (es : list event) : M unit :=
  match es with
  | [] => ret tt
  | e :: es' => emit e ;;; emit_all es'
  end.

(** Reading [self._is_cancelled]. *)
Definition is_cancelled (env : environment) : M bool :=
  fun st =>
    let seen := match cancelled_from env with
                | Some n => (n <=? flag_reads st)%nat
                | None => false
                end in
    (Done seen,
     mkWorkerState (emitted st) (temp_dir_exists st) (temp_concat_dir st)
       (loop_index st) (S (flag_reads st)) (ffmpeg_runs st) (launched st)
       (concat_list st)).

Definition set_loop_index (i : nat) : M unit :=
  modify (fun st =>
    mkWorkerState (emitted st) (temp_dir_exists st) (temp_concat_dir st)
      (Some i) (flag_reads st) (ffmpeg_runs st) (launched st) (concat_list st)).

Definition set_temp_concat_dir (d : string) : M unit :=
  modify (fun st =>
    mkWorkerState (emitted st) (temp_dir_exists st) (Some d)
      (loop_index st) (flag_reads st) (ffmpeg_runs st) (launched st) (concat_list st)).

Definition set_temp_dir_exists (b : bool) (st : worker_state) : worker_state :=
  mkWorkerState (emitted st) b (temp_concat_dir st)
    (loop_index st) (flag_reads st) (ffmpeg_runs st) (launched st) (concat_list st).

(** [os.makedirs(temp_concat_dir, exist_ok=True)] in task [i]. *)
Definition makedirs (env : environment) (i : nat) : M unit :=
  match makedirs_error env i with
  | Some text => raise (OtherException text)
  | None => modify (set_temp_dir_exists true)
  end.

(** Writing concat_list.txt in task [i]. *)
Definition write_concat_list (env : environment) (i : nat) (lines : list string) : M unit :=
  match open_error env i with
  | Some text => raise (OtherException text)
  | None =>
      modify (fun st =>
        mkWorkerState (emitted st) (temp_dir_exists st) (temp_concat_dir st)
          (loop_index st) (flag_reads st) (ffmpeg_runs st) (launched st) (Some lines))
  end.

(** A progress callback of the worker: each of the three emits
    [progress_update] once; the callback is given by the arguments of that
    emission. *)
Definition progress_callback_t : Type := Z -> string -> Z * string.

Definition call (callback : progress_callback_t) (percentage : Z) (msg : string) : event :=
  progress_update (fst (callback percentage msg)) (snd (callback percentage msg)).

(** The read loop of [FfmpegProcess.run]: the emissions of the callback for the
    lines, in order, and whether [int] raised on the way (which ends the
    loop). *)
Fixpoint read_lines (has_callback : bool) (total_duration : option Q)
  (callback : progress_callback_t) (lines : list string) : list event * bool :=
  match lines with
  | [] => ([], false)
  | line :: lines' =>
      match progress_of_line has_callback total_duration line with
      | NoProgress => read_lines has_callback total_duration callback lines'
      | Progress percentage msg =>
          let (es, raised) := read_lines has_callback total_duration callback lines' in
          (call callback percentage msg :: es, raised)
      | IntRaises => ([], true)
      end
  end.

(** [FfmpegProcess(cmd, total_duration).run(progress_callback)] followed by
    [get_error_message()]. *)
Definition FfmpegProcess_run (env : environment) (cmd : ffmpeg_command)
  (total_duration : option Q) (progress_callback : option progress_callback_t)
  : M (bool * string) :=
  fun st =>
    let r := ffmpeg env (ffmpeg_runs st) in
    let has_callback := match progress_callback with Some _ => true | None => false end in
    let callback := match progress_callback with
                    | Some f => f
                    | None => pair
                    end in
    let (es, raised) := read_lines has_callback total_duration callback (output_lines r) in
    let st' :=
      mkWorkerState (emitted st ++ es) (temp_dir_exists st) (temp_concat_dir st)
        (loop_index st) (flag_reads st) (S (ffmpeg_runs st)) (launched st ++ [cmd])
        (concat_list st) in
    if raised
    then (Done (false, "An unexpected error occurred while running ffmpeg: "
                         ++ "cannot convert float to integer"), st')
    else (Done (exit_ok r, diagnostic r), st').

(** [os.path.basename] (posixpath): what follows the last slash. *)
Fixpoint basename_chars (acc l : list ascii) : list ascii :=
  match l with
  | [] => acc
  | c :: l' => if Ascii.eqb c "/" then basename_chars [] l' else basename_chars (acc ++ [c]) l'
  end.

Definition basename (p : string) : string :=
  string_of_list_ascii (basename_chars [] (list_ascii_of_string p)).

Definition starts_with_dot (s : string) : bool :=
  match s with
  | String c _ => Ascii.eqb c "."
  | EmptyString => false
  end.

(** The extension of the temporary segment files. *)
Definition temp_segment_ext (env : environment) (d : format_details) : string :=
  let temp_ext := if negb (needs_reencode d) then Some (input_ext env) else ext d in
  let temp_ext := match temp_ext with
                  | Some e => if negb (String.eqb e "") && negb (starts_with_dot e)
                              then Some ("." ++ e) else Some e
                  | None => None
                  end in
  match temp_ext with
  | Some e => if String.eqb e "" then ".tmp" else e
  | None => ".tmp"
  end.

Local Open Scope Q_scope.

Definition Qnat (n : nat) : Q := inject_Z (Z.of_nat n).

(** The loop [for seg_idx, (seg_start, seg_end) in enumerate(segments_to_concat)];
    returns [temp_segment_files]. *)
Fixpoint cut_segments (env : environment) (d : format_details) (dir : string)
  (i total_tasks n_segments seg_idx : nat) (segs : list (Q * Q)) : M (list string) :=
  match segs with
  | [] => ret []
  | (seg_start, seg_end) :: segs' =>
      c <- is_cancelled env ;;
      if c : bool
      then raise (OperationCancelledError "Cancelled during segment cutting for concat.")
      else
        let seg_duration := seg_end - seg_start in
        let temp_segment_path :=
          path_join dir ("segment_" ++ str_of_nat seg_idx ++ temp_segment_ext env d)%string in
        let cmd := CutCommand (input_filepath env) (Some seg_start) (Some seg_end)
                     (ffmpeg_args d) temp_segment_path in
        let overall_progress_start_for_cutting :=
          int_of_float (Qnat i / Qnat total_tasks * 100) in
        let progress_span_for_cutting_one_segment :=
          (1 / Qnat total_tasks) * (1 / Qnat n_segments) * 50 in
        let seg_progress_callback (percentage : Z) (msg : string) : Z * string :=
          pair
            (int_of_float (inject_Z overall_progress_start_for_cutting
                           + Qnat seg_idx * progress_span_for_cutting_one_segment
                           + inject_Z percentage / 100 * progress_span_for_cutting_one_segment))
            ("Task " ++ str_of_nat (i + 1) ++ ", Segment " ++ str_of_nat (seg_idx + 1)
               ++ ": " ++ msg)%string in
        r <- FfmpegProcess_run env cmd
               (if needs_reencode d then Some seg_duration else None)
               (if needs_reencode d then Some seg_progress_callback else None) ;;
        if fst r
        then
          files <- cut_segments env d dir i total_tasks n_segments (S seg_idx) segs' ;;
          ret (temp_segment_path :: files)
        else
          raise (FfmpegProcessingError
                   ("Failed to cut segment " ++ str_of_nat (seg_idx + 1) ++ ": " ++ snd r)%string)
  end.

(** [sum(s[1] - s[0] for s in segments_to_concat)] *)
Definition sum_durations (segs : list (Q * Q)) : Q :=
  fold_left (fun acc s => acc + (snd s - fst s)) segs 0.

(** The arguments of the final join. *)
Definition concat_args (d : format_details) : option (list string) :=
  if is_gif d && negb (needs_reencode d) then
    match lookup_format "GIF (Animated)" OUTPUT_FORMATS with
    | Some g => Some (ffmpeg_args g)
    | None => None
    end
  else if negb (needs_reencode d) then Some ["-c"; "copy"]%string
  else Some (ffmpeg_args d).

(** The body of the task loop for task number [i] (from 0), after the
    cancellation check. *)
Definition run_task (env : environment) (i total_tasks : nat) (task_info : task) : M unit :=
  let output_path := task_output_path task_info in
  let output_format_key :=
    match task_info with
    | Concat _ k _ _ => k
    | SingleCut _ k _ _ _ => k
    end in
  match lookup_format output_format_key OUTPUT_FORMATS with
  | None => raise (OtherException ("'" ++ output_format_key ++ "'")%string)
  | Some d =>
      emit (progress_update 0
              ("Processing segment " ++ str_of_nat (i + 1) ++ " of "
                 ++ str_of_nat total_tasks ++ ": " ++ basename output_path)%string) ;;;
      match task_info with
      | Concat _ _ segments_to_concat _ =>
          let dir := path_join (gettempdir env)
                       (TEMP_DIR_NAME ++ "_" ++ str_of_nat (getpid env))%string in
          set_temp_concat_dir dir ;;;
          makedirs env i ;;;
          let temp_files_list_path := path_join dir "concat_list.txt" in
          temp_segment_files <-
            cut_segments env d dir i total_tasks (List.length segments_to_concat) 0
              segments_to_concat ;;
          write_concat_list env i
            (map (fun p => "file '" ++ p ++ "'")%string temp_segment_files) ;;;
          let overall_progress_start_for_concat_step :=
            (int_of_float (Qnat i / Qnat total_tasks * 100) + 50)%Z in
          match concat_args d with
          | None => raise (OtherException "'GIF (Animated)'")
          | Some args =>
              let concat_cmd := ConcatCommand temp_files_list_path args output_path in
              let concat_reencode_duration :=
                if needs_reencode d then Some (sum_durations segments_to_concat) else None in
              let concat_progress_callback (percentage : Z) (msg : string) : Z * string :=
                pair
                  (int_of_float (inject_Z overall_progress_start_for_concat_step
                                 + inject_Z percentage / 100 * (50 / Qnat total_tasks)))
                  ("Task " ++ str_of_nat (i + 1) ++ ", Finalizing: " ++ msg)%string in
              r <- FfmpegProcess_run env concat_cmd concat_reencode_duration
                     (if needs_reencode d || (is_gif d && negb (needs_reencode d))
                      then Some concat_progress_callback else None) ;;
              if fst r
              then emit (segment_processed (i + 1) total_tasks output_path)
              else raise (FfmpegProcessingError ("Concatenation failed: " ++ snd r)%string)
          end
      | SingleCut _ _ start_time end_time _ =>
          let cmd := CutCommand (input_filepath env) start_time end_time
                       (ffmpeg_args d) output_path in
          let segment_duration :=
            match start_time, end_time with
            | Some s, Some e => Some (e - s)
            | None, Some e => Some e
            | _, None => None
            end in
          let overall_progress_start_for_segment :=
            int_of_float (Qnat i / Qnat total_tasks * 100) in
          let progress_span_for_segment := (1 / Qnat total_tasks) * 100 in
          let single_cut_progress_callback (percentage : Z) (msg : string) : Z * string :=
            pair
              (int_of_float (inject_Z overall_progress_start_for_segment
                             + inject_Z percentage / 100 * progress_span_for_segment))
              ("Task " ++ str_of_nat (i + 1) ++ "/" ++ str_of_nat total_tasks
                 ++ ": " ++ msg)%string in
          r <- FfmpegProcess_run env cmd
                 (if needs_reencode d then segment_duration else None)
                 (if needs_reencode d then Some single_cut_progress_callback else None) ;;
          if fst r
          then emit (segment_processed (i + 1) total_tasks output_path)
          else raise (FfmpegProcessingError
                        ("Processing failed for " ++ basename output_path ++ ": "
                           ++ snd r)%string)
      end
  end.

(** [for i, task_info in enumerate(self.output_tasks)], from task number [i]. *)
Fixpoint task_loop (env : environment) (total_tasks i : nat) (tasks : list task) : M unit :=
  match tasks with
  | [] => ret tt
  | task_info :: tasks' =>
      set_loop_index i ;;;
      c <- is_cancelled env ;;
      if c : bool
      then emit (finished "Operation cancelled.") ;;; return_
      else run_task env i total_tasks task_info ;;; task_loop env total_tasks (S i) tasks'
  end.

(** The summary emitted after the loop. *)
Definition completion_message (output_tasks : list task) : string :=
  match output_tasks with
  | [t] => task_output_path t
  | t :: _ =>
      if task_is_concat t then task_output_path t
      else ("Successfully processed " ++ str_of_nat (List.length output_tasks)
              ++ " segment(s).")%string
  | [] => ("Successfully processed " ++ str_of_nat 0 ++ " segment(s).")%string
  end.

(** The [try] block of [run]. *)
Definition try_block (env : environment) (output_tasks : list task) : M unit :=
  task_loop env (List.length output_tasks) 0 output_tasks ;;;
  emit (finished (completion_message output_tasks)).

(** The [except] clauses of [run]. *)
Definition handle (env : environment) (e : exn) (st : worker_state) : worker_state :=
  match e with
  | OperationCancelledError msg =>
      add_event (error (if String.eqb msg "" then "Operation cancelled." else msg)) st
  | FfmpegProcessingError msg => add_event (error msg) st
  | OtherException msg =>
      let i := match loop_index st with
               | Some i => str_of_nat i
               | None => "-1"%string
               end in
      add_event (error ("An unexpected error occurred in processing: " ++ msg)%string)
        (add_event print_exc
           (add_event (print ("Exception in VideoProcessorWorker for "
                                ++ input_filepath env ++ ", task " ++ i ++ ":")%string) st))
  end.

(** The [finally] clause of [run]. *)
Definition cleanup (env : environment) (st : worker_state) : worker_state :=
  match temp_concat_dir st with
  | Some dir =>
      if temp_dir_exists st then
        match rmtree_error env with
        | None => set_temp_dir_exists false st
        | Some e_rm =>
            add_event (print ("Warning: Could not remove temp directory " ++ dir ++ ": "
                                ++ e_rm)%string) st
        end
      else st
  | None => st
  end.

(** The state in which [run] starts; [exists] tells whether the temporary
    directory of this process is already there. *)
Definition initial_state (exists_ : bool) : worker_state :=
  mkWorkerState [] exists_ None None 0 0 [] None.

(** The [try] block with its [except] clauses: the state when the [finally]
    clause is entered. *)
Definition try_except (env : environment) (output_tasks : list task) (st : worker_state)
  : worker_state :=
  let (r, st1) := try_block env output_tasks st in
  match r with
  | Raised e => handle env e st1
  | Done _ => st1
  | Returned => st1
  end.

(** [VideoProcessorWorker.run] *)
Definition run (env : environment) (output_tasks : list task) (st : worker_state)
  : worker_state :=
  cleanup env (try_except env output_tasks st).

(** ** Further callbacks of [MainWindow] (main.py) *)

Local Close Scope string_scope.

(** [on_undo_current_selection_if_playhead_inside] (the Delete key): the same
    scan as [on_undo_selection], and nothing else; [None] when no status
    message is shown. *)
Definition on_undo_current_selection_if_playhead_inside (t : Q) (w : MainWindow)
  : option feedback * MainWindow :=
  match undo_scan t (selections w) with
  | Some (r, l) => (Some (SelectionRemoved r), set_selections l w)
  | None => (None, w)
  end.

(** The four selection actions of the user, each with the playhead time at
    which it happens. *)
Inductive ui_action : Type :=
| PressBegin (t : Q)
| PressEnd (t : Q)
| PressUndo (t : Q)
| PressDelete (t : Q).

Definition apply_action (w : MainWindow) (a : ui_action) : MainWindow :=
  match a with
  | PressBegin t => snd (on_begin_selection t w)
  | PressEnd t => snd (on_end_selection t w)
  | PressUndo t => snd (on_undo_selection t w)
  | PressDelete t => snd (on_undo_current_selection_if_playhead_inside t w)
  end.

Definition apply_actions (w : MainWindow) (acts : list ui_action) : MainWindow :=
  fold_left apply_action acts w.

(** [on_keyframe_tag_clicked], as far as the widget is concerned: a sequence
    of clicks on the tags of the timeline. *)
Definition click_tags (tw : TimelineWidget) (clicks : list Q) : TimelineWidget :=
  fold_left (fun tw t => snd (toggle_keyframe_selection t tw)) clicks tw.

(** [set_keyframes] followed by [clear_selected_keyframes]: the widget after a
    video has been loaded. *)
Definition loaded_timeline (duration : Q) (keyframes : list Q) : TimelineWidget :=
  {| _duration := Py.max 0 duration;
     _keyframes := Py.sorted_floats keyframes;
     _selected_keyframes := FloatSet.empty |}.

(** What [update_ui_state] sets: whether each control is enabled, and whether
    the begin button shows "Cancel Current Selection". *)
Record ui_controls : Type := mkUiControls {
  _frame_step_buttons_enabled : bool;
  add_file_button : bool;
  playhead_slider : bool;
  timeline_widget : bool;
  play_pause_button : bool;         (* when there is such a button *)
  begin_selection_button : bool;
  end_selection_button : bool;
  undo_selection_button : bool;
  output_format_combo : bool;
  save_keep_selections_radio : bool;
  save_remove_selections_radio : bool;
  split_by_selections_radio : bool;
  split_by_tags_radio : bool;
  save_video_button : bool;
  begin_button_cancels : bool
}.

(** Python's [bool(l)] for a list. *)
Definition nonempty {A : Type} (l : list A) : bool :=
  match l with
  | [] => false
  | _ :: _ => true
  end.

(** [update_ui_state]; [has_path] is the truth value of [current_video_path],
    [is_processing] tells whether the prober or the processor is running,
    [checked_id] is [save_action_group.checkedId()]. *)
Definition update_ui_state (has_path : bool) (video_fps : Q) (is_processing : bool)
  (checked_id : Z) (w : MainWindow) (tw : TimelineWidget) : ui_controls :=
  let has_video := has_path && Py.ltb 0 (video_duration w) in
  let has_valid_fps := has_video && Py.ltb 0 video_fps in
  let has_start := match current_selection_start w with
                   | Some _ => true
                   | None => false
                   end in
  let has_selections := nonempty (selections w) in
  let has_selected_tags := nonempty (get_selected_keyframes tw) in
  let can_save :=
    if has_video && negb is_processing then
      if (checked_id =? 0)%Z && has_selections then true
      else if (checked_id =? 1)%Z && has_selections then true
      else if (checked_id =? 2)%Z && has_selections then true
      else if (checked_id =? 3)%Z && has_selected_tags then true
      else false
    else false in
  {| _frame_step_buttons_enabled := has_valid_fps && negb is_processing;
     add_file_button := negb is_processing;
     playhead_slider := has_video && negb is_processing;
     timeline_widget := has_video && negb is_processing;
     play_pause_button := has_video && negb is_processing;
     begin_selection_button := has_video && negb is_processing;
     end_selection_button := has_video && negb is_processing && has_start;
     undo_selection_button :=
       has_video && negb is_processing && (has_selections || has_start);
     output_format_combo := has_video && negb is_processing;
     save_keep_selections_radio := has_video && negb is_processing && has_selections;
     save_remove_selections_radio := has_video && negb is_processing && has_selections;
     split_by_selections_radio := has_video && negb is_processing && has_selections;
     split_by_tags_radio := has_video && negb is_processing && has_selected_tags;
     save_video_button := can_save;
     begin_button_cancels := has_start |}.

(** ** Probing the video (ffmpeg_utils.py; [VideoProberWorker], worker_threads.py) *)

Local Open Scope string_scope.

(** A value as [json.loads] returns it.  The entries of an object are kept in
    a list and a key is looked up from the front.  The parser itself is not
    modelled: the probing functions are given the parsed value. *)
#[warnings="-register-all"]
Inductive json : Type :=
| JNull
| JBool (b : bool)
| JInt (n : Z)
| JFloat (x : pyfloat)
| JStr (s : string)
| JList (items : list json)
| JDict (entries : list (string * json)).

(** The exceptions the probing code can meet; [OSError] stands for what
    [subprocess.run] raises besides the two the code names. *)
Inductive pyerr : Type :=
| ValueError
| TypeError
| AttributeError
| KeyError
| OverflowError
| OSError.

(** What evaluating a piece of Python ends in. *)
Inductive outcome (A : Type) : Type :=
| Returns (a : A)
| Raises (e : pyerr).
Arguments Returns {A} a.
Arguments Raises {A} e.

Definition and_then {A B : Type} (m : outcome A) (k : A -> outcome B) : outcome B :=
  match m with
  | Returns a => k a
  | Raises e => Raises e
  end.

Notation "x <~ m ;; k" := (and_then m (fun x => k))
  (at level 61, m at next level, right associativity).

(** Comparisons of floats that may be infinite or nan. *)
Module PyFloat.

(** [a < b]: false when one of them is nan. *)
Definition ltb (a b : pyfloat) : bool :=
  match a, b with
  | NaN, _ => false
  | _, NaN => false
  | Finite p, Finite q => Py.ltb p q
  | Finite _, Infinity negative => negb negative
  | Infinity negative, Finite _ => negative
  | Infinity n1, Infinity n2 => n1 && negb n2
  end.

(** [a == b]: false when one of them is nan. *)
Definition eqb (a b : pyfloat) : bool :=
  match a, b with
  | Finite p, Finite q => Py.eqb p q
  | Infinity n1, Infinity n2 => Bool.eqb n1 n2
  | _, _ => false
  end.

(** [a <= b] *)
Definition leb (a b : pyfloat) : bool := ltb a b || eqb a b.

(** [float(n)] of an integer raises [OverflowError] when the nearest float
    of [n] would be beyond the largest one. *)
Definition int_too_large (n : Z) : bool := (2 ^ 1024 - 2 ^ 970 <=? Z.abs n)%Z.

(** [set(l)]: one element of each class of equal floats, every nan. *)
Definition set_of_list (l : list pyfloat) : list pyfloat :=
  fold_left (fun s x => if existsb (eqb x) s then s else (s ++ [x])%list) l [].

(** [sorted(list(set(l)))].  For a list that holds a nan the order
    [list.sort] leaves is not the one of this definition. *)
Definition sorted_set (l : list pyfloat) : list pyfloat := Py.sort ltb (set_of_list l).

End PyFloat.

(** Python's operations on the values of [json.loads]. *)
Module Json.

(** [bool(v)] *)
Definition truthy (v : json) : bool :=
  match v with
  | JNull => false
  | JBool b => b
  | JInt n => negb (n =? 0)%Z
  | JFloat (Finite q) => negb (Py.eqb q 0)
  | JFloat _ => true
  | JStr s => negb (String.eqb s "")
  | JList items => nonempty items
  | JDict entries => nonempty entries
  end.

(** [v == s] for a string [s] *)
Definition eq_str (v : json) (s : string) : bool :=
  match v with
  | JStr t => String.eqb t s
  | _ => false
  end.

(** [k in s] on strings *)
Fixpoint substring_of (k s : string) : bool :=
  if String.prefix k s then true
  else match s with
       | EmptyString => false
       | String _ s' => substring_of k s'
       end.

(** The value under [k] in the entries of an object. *)
Fixpoint lookup (k : string) (entries : list (string * json)) : option json :=
  match entries with
  | [] => None
  | (k', v) :: rest => if String.eqb k' k then Some v else lookup k rest
  end.

(** [k in v] for a string [k] *)
Definition contains (k : string) (v : json) : outcome bool :=
  match v with
  | JDict entries => Returns (match lookup k entries with Some _ => true | None => false end)
  | JList items => Returns (existsb (fun x => eq_str x k) items)
  | JStr s => Returns (substring_of k s)
  | _ => Raises TypeError
  end.

(** [v[k]] for a string [k] *)
Definition getitem (k : string) (v : json) : outcome json :=
  match v with
  | JDict entries =>
      match lookup k entries with
      | Some x => Returns x
      | None => Raises KeyError
      end
  | _ => Raises TypeError
  end.

(** [v.get(k, default)] *)
Definition get (k : string) (default : json) (v : json) : outcome json :=
  match v with
  | JDict entries =>
      match lookup k entries with
      | Some x => Returns x
      | None => Returns default
      end
  | _ => Raises AttributeError
  end.

(** The values [for x in v] goes through. *)
Definition iterate (v : json) : outcome (list json) :=
  match v with
  | JList items => Returns items
  | JDict entries => Returns (map (fun e => JStr (fst e)) entries)
  | JStr s => Returns (map (fun c => JStr (String c EmptyString)) (list_ascii_of_string s))
  | _ => Raises TypeError
  end.

(** [float(v)] *)
Definition float_ (v : json) : outcome pyfloat :=
  match v with
  | JStr s =>
      match Parse.py_float (list_ascii_of_string s) with
      | Some x => Returns x
      | None => Raises ValueError
      end
  | JInt n =>
      if PyFloat.int_too_large n then Raises OverflowError
      else Returns (Finite (inject_Z n))
  | JFloat x => Returns x
  | JBool b => Returns (Finite (if b then 1 else 0))
  | _ => Raises TypeError
  end.

(** [int(v)] *)
Definition int_ (v : json) : outcome Z :=
  match v with
  | JStr s =>
      match Parse.py_int (list_ascii_of_string s) with
      | Some n => Returns n
      | None => Raises ValueError
      end
  | JInt n => Returns n
  | JFloat (Finite q) => Returns (int_of_float q)
  | JFloat (Infinity _) => Raises OverflowError
  | JFloat NaN => Raises ValueError
  | JBool b => Returns (if b then 1 else 0)%Z
  | _ => Raises TypeError
  end.

End Json.

(** [except (ValueError, TypeError)] *)
Definition value_or_type_error (e : pyerr) : bool :=
  match e with
  | ValueError | TypeError => true
  | _ => false
  end.

(** The first part of [get_video_duration]: [duration] after the [if] on the
    ["format"] entry.  The handler of the [try] prints
    [video_info['format'].get('duration')], which raises when the entry is not
    an object. *)
Definition format_duration (video_info : json) : outcome pyfloat :=
  if Json.truthy video_info then
    has_format <~ Json.contains "format" video_info ;;
    if has_format : bool then
      format <~ Json.getitem "format" video_info ;;
      has_duration <~ Json.contains "duration" format ;;
      if has_duration : bool then
        let handler : outcome pyfloat :=
          _ <~ Json.get "duration" JNull format ;; Returns (Finite 0) in
        match Json.getitem "duration" format with
        | Returns duration_str =>
            if Json.truthy duration_str && negb (Json.eq_str duration_str "N/A") then
              match Json.float_ duration_str with
              | Returns duration => Returns duration
              | Raises e => if value_or_type_error e then handler else Raises e
              end
            else Returns (Finite 0)
        | Raises e => if value_or_type_error e then handler else Raises e
        end
      else Returns (Finite 0)
    else Returns (Finite 0)
  else Returns (Finite 0).

(** The loop [for stream in video_info["streams"]] of [get_video_duration]:
    [max_stream_duration] after the streams. *)
Fixpoint max_stream_duration_loop (max_stream_duration : pyfloat) (streams : list json)
  : outcome pyfloat :=
  match streams with
  | [] => Returns max_stream_duration
  | stream :: rest =>
      has_duration <~ Json.contains "duration" stream ;;
      if has_duration : bool then
        match Json.getitem "duration" stream with
        | Returns stream_dur_str =>
            if Json.truthy stream_dur_str && negb (Json.eq_str stream_dur_str "N/A") then
              match Json.float_ stream_dur_str with
              | Returns stream_dur =>
                  max_stream_duration_loop
                    (if PyFloat.ltb max_stream_duration stream_dur
                     then stream_dur else max_stream_duration) rest
              | Raises e =>
                  if value_or_type_error e
                  then max_stream_duration_loop max_stream_duration rest
                  else Raises e
              end
            else max_stream_duration_loop max_stream_duration rest
        | Raises e =>
            if value_or_type_error e
            then max_stream_duration_loop max_stream_duration rest
            else Raises e
        end
      else max_stream_duration_loop max_stream_duration rest
  end.

(** [get_video_duration] *)
Definition get_video_duration (video_info : json) : outcome pyfloat :=
  duration <~ format_duration video_info ;;
  from_streams <~
    (if PyFloat.leb duration (Finite 0) && Json.truthy video_info then
       has_streams <~ Json.contains "streams" video_info ;;
       if has_streams : bool then
         streams <~ Json.getitem "streams" video_info ;;
         items <~ Json.iterate streams ;;
         max_stream_duration <~ max_stream_duration_loop (Finite 0) items ;;
         Returns (if PyFloat.ltb (Finite 0) max_stream_duration
                  then Some max_stream_duration else None)
       else Returns None
     else Returns None) ;;
  match from_streams with
  | Some max_stream_duration => Returns max_stream_duration
  | None => Returns (if PyFloat.ltb (Finite 0) duration then duration else Finite 0)
  end.

(** [num, den = map(int, s.split('/'))] and the [if den != 0] that follows,
    inside the [try]: the rate, or [None] when [den] is 0.  The division
    [float(num) / den] turns both integers into floats. *)
Definition parse_frame_rate (s : string) : outcome (option Q) :=
  match Str.split "/" (list_ascii_of_string s) with
  | [a; b] =>
      match Parse.py_int a, Parse.py_int b with
      | Some num, Some den =>
          if (den =? 0)%Z then Returns None
          else if PyFloat.int_too_large num || PyFloat.int_too_large den
               then Raises OverflowError
          else Returns (Some (inject_Z num / inject_Z den))
      | _, _ => Raises ValueError
      end
  | _ => Raises ValueError
  end.

(** One of the two attempts of [get_video_fps] on the value of a frame rate
    entry: the rate to return, or [None] to go on.  A value that is not a
    string has no [split]. *)
Definition frame_rate_of (frame_rate_str : json) : outcome (option Q) :=
  if Json.truthy frame_rate_str && negb (Json.eq_str frame_rate_str "0/0") then
    match frame_rate_str with
    | JStr s =>
        match parse_frame_rate s with
        | Returns rate => Returns rate
        | Raises ValueError => Returns None
        | Raises e => Raises e
        end
    | _ => Raises AttributeError
    end
  else Returns None.

(** The loop of [get_video_fps]; falling out of it returns 0.0. *)
Fixpoint fps_loop (streams : list json) : outcome Q :=
  match streams with
  | [] => Returns 0
  | stream :: rest =>
      codec_type <~ Json.get "codec_type" JNull stream ;;
      if Json.eq_str codec_type "video" then
        avg_frame_rate_str <~ Json.get "avg_frame_rate" JNull stream ;;
        avg <~ frame_rate_of avg_frame_rate_str ;;
        match avg with
        | Some rate => Returns rate
        | None =>
            r_frame_rate_str <~ Json.get "r_frame_rate" JNull stream ;;
            r <~ frame_rate_of r_frame_rate_str ;;
            match r with
            | Some rate => Returns rate
            | None => Returns 0
            end
        end
      else fps_loop rest
  end.

(** [get_video_fps] *)
Definition get_video_fps (video_info : json) : outcome Q :=
  if Json.truthy video_info then
    has_streams <~ Json.contains "streams" video_info ;;
    if has_streams : bool then
      streams <~ Json.getitem "streams" video_info ;;
      items <~ Json.iterate streams ;;
      fps_loop items
    else Returns 0
  else Returns 0.

(** The loop of [get_video_dimensions]; falling out of it returns [(0, 0)]. *)
Fixpoint dimensions_loop (streams : list json) : outcome (Z * Z) :=
  match streams with
  | [] => Returns (0, 0)%Z
  | stream :: rest =>
      codec_type <~ Json.get "codec_type" JNull stream ;;
      if Json.eq_str codec_type "video" then
        width_value <~ Json.get "width" (JInt 0) stream ;;
        width <~ Json.int_ width_value ;;
        height_value <~ Json.get "height" (JInt 0) stream ;;
        height <~ Json.int_ height_value ;;
        if (0 <? width)%Z && (0 <? height)%Z then Returns (width, height)
        else dimensions_loop rest
      else dimensions_loop rest
  end.

(** [get_video_dimensions] *)
Definition get_video_dimensions (video_info : json) : outcome (Z * Z) :=
  if Json.truthy video_info then
    has_streams <~ Json.contains "streams" video_info ;;
    if has_streams : bool then
      streams <~ Json.getitem "streams" video_info ;;
      items <~ Json.iterate streams ;;
      dimensions_loop items
    else Returns (0, 0)%Z
  else Returns (0, 0)%Z.

(** How the [subprocess.run] of [get_keyframes] ends (text mode, [check=True]). *)
Inductive ffprobe_result : Type :=
| Completed (stdout : string)
| CalledProcessError (stderr : string)    (* a non-zero exit code *)
| FileNotFoundError
| OtherProbeError.                        (* any other exception *)

(** The floats [get_keyframes] appends, in the order of the lines. *)
Definition keyframe_values (stdout : string) : list pyfloat :=
  let raw_output := Str.strip (list_ascii_of_string stdout) in
  match raw_output with
  | [] => []
  | _ :: _ =>
      flat_map
        (fun line =>
           match line with
           | [] => []
           | _ :: _ =>
               match Parse.py_float line with
               | Some x => [x]
               | None => []          (* [ValueError]: a warning is printed *)
               end
           end)
        (Str.split "010"%char raw_output)
  end.

(** [get_keyframes].  The handler of [CalledProcessError] prints
    [e.stderr.decode() if e.stderr else 'N/A']; in text mode [e.stderr] is a
    [str], which has no [decode]. *)
Definition get_keyframes (probe : ffprobe_result) : outcome (list pyfloat) :=
  match probe with
  | Completed stdout => Returns (PyFloat.sorted_set (keyframe_values stdout))
  | CalledProcessError stderr =>
      if String.eqb stderr "" then Returns [] else Raises AttributeError
  | FileNotFoundError => Returns []
  | OtherProbeError => Returns []
  end.

(** What [VideoProberWorker.run] depends on. *)
Record probe_environment : Type := mkProbeEnvironment {
  filepath : string;
  video_info_probe : outcome (option json);   (* [get_video_info(filepath)] *)
  keyframes_probe : ffprobe_result
}.

(** The signals of [VideoProberWorker]; [probe_exception] is the [error]
    emitted by the [except Exception] clause, whose text ends in [str(e)]. *)
Inductive probe_signal : Type :=
| info_ready (video_info : json)
| duration_ready (duration : pyfloat)
| fps_ready (fps : Q)
| keyframes_ready (keyframes : list pyfloat)
| probe_error (msg : string)
| probe_exception (e : pyerr).

(** The loop over the streams in [VideoProberWorker.run]:
    [max_stream_duration] and [stream_duration_found] after the streams. *)
Fixpoint prober_stream_loop (state : pyfloat * bool) (streams : list json)
  : outcome (pyfloat * bool) :=
  match streams with
  | [] => Returns state
  | stream :: rest =>
      has_duration <~ Json.contains "duration" stream ;;
      if has_duration : bool then
        match (v <~ Json.getitem "duration" stream ;; Json.float_ v) with
        | Returns stream_dur =>
            prober_stream_loop
              (if PyFloat.ltb (fst state) stream_dur then (stream_dur, true) else state)
              rest
        | Raises ValueError => prober_stream_loop state rest
        | Raises e => Raises e
        end
      else prober_stream_loop state rest
  end.

(** The branch [if duration <= 0] of [VideoProberWorker.run]: the duration it
    settles on, or the message of the error it emits before returning. *)
Definition prober_fallback (env : probe_environment) (video_info : json)
  : outcome (string + pyfloat) :=
  if Json.truthy video_info then
    has_streams <~ Json.contains "streams" video_info ;;
    if has_streams : bool then
      streams <~ Json.getitem "streams" video_info ;;
      items <~ Json.iterate streams ;;
      state <~ prober_stream_loop (Finite 0, false) items ;;
      if snd state && PyFloat.ltb (Finite 0) (fst state) then Returns (inr (fst state))
      else Returns (inl ("Could not determine video duration or duration is zero for: "
                           ++ basename (filepath env)))
    else Returns (inl ("Could not determine video duration (no format or stream duration) for: "
                         ++ basename (filepath env)))
  else Returns (inl ("Could not determine video duration (no format or stream duration) for: "
                       ++ basename (filepath env))).

(** [VideoProberWorker.run]: the signals it emits, in order. *)
Definition VideoProberWorker_run (env : probe_environment) : list probe_signal :=
  match video_info_probe env with
  | Raises e => [probe_exception e]
  | Returns None =>
      [probe_error ("Could not probe video information for: " ++ basename (filepath env))]
  | Returns (Some video_info) =>
      if negb (Json.truthy video_info) then
        [probe_error ("Could not probe video information for: " ++ basename (filepath env))]
      else
        let emitted1 := [info_ready video_info] in
        match get_video_duration video_info with
        | Raises e => (emitted1 ++ [probe_exception e])%list
        | Returns duration =>
            match (if PyFloat.leb duration (Finite 0)
                   then prober_fallback env video_info
                   else Returns (inr duration)) with
            | Raises e => (emitted1 ++ [probe_exception e])%list
            | Returns (inl msg) => (emitted1 ++ [probe_error msg])%list
            | Returns (inr duration) =>
                let emitted2 := (emitted1 ++ [duration_ready duration])%list in
                match get_video_fps video_info with
                | Raises e => (emitted2 ++ [probe_exception e])%list
                | Returns fps =>
                    let emitted3 :=
                      (emitted2 ++ [fps_ready (if Py.leb fps 0 then 0 else fps)])%list in
                    match get_keyframes (keyframes_probe env) with
                    | Raises e => (emitted3 ++ [probe_exception e])%list
                    | Returns keyframes => (emitted3 ++ [keyframes_ready keyframes])%list
                    end
                end
            end
        end
  end.

Local Close Scope string_scope.

(** ** Clicks on the timeline (ui_timeline.py, main.py) *)

(** [_time_to_x]; [width] is [self.width()]. *)
Definition _time_to_x (tw : TimelineWidget) (width : Z) (time_sec : Q) : Q :=
  if Py.eqb (_duration tw) 0 then 0 else time_sec / _duration tw * inject_Z width.

(** [_x_to_time] *)
Definition _x_to_time (tw : TimelineWidget) (width : Z) (x_pos : Q) : Q :=
  if (width =? 0)%Z then 0 else x_pos / inject_Z width * _duration tw.

(** The two signals of [TimelineWidget]. *)
Inductive timeline_signal : Type :=
| playhead_pos_changed_by_click (time_sec : Q)
| keyframe_tag_clicked (kf_time : Q).

(** The loop of [mousePressEvent] over the keyframes: the first keyframe whose
    marker is less than [_tag_clickable_radius] (5) away from the click, for a
    click low enough ([_keyframe_marker_height] is 15). *)
Fixpoint tag_under_click (tw : TimelineWidget) (width height : Z) (x y : Q)
  (keyframes : list Q) : option Q :=
  match keyframes with
  | [] => None
  | kf_time :: rest =>
      let x_kf := _time_to_x tw width kf_time in
      if Py.ltb (Qabs (x - x_kf)) 5 && Py.ltb (inject_Z (height - 15 - 5 * 2)) y
      then Some kf_time
      else tag_under_click tw width height x y rest
  end.

(** [mousePressEvent]: the signal it emits, if any.  [left] tells whether the
    left button was pressed, [(x, y)] is [event.position()], [width] and
    [height] are the size of the widget. *)
Definition mousePressEvent (left : bool) (x y : Q) (width height : Z) (tw : TimelineWidget)
  : option timeline_signal :=
  if left then
    let clicked_time := _x_to_time tw width x in
    match tag_under_click tw width height x y (_keyframes tw) with
    | Some kf_time => Some (keyframe_tag_clicked kf_time)
    | None => Some (playhead_pos_changed_by_click clicked_time)
    end
  else None.

(** The status message of [on_keyframe_tag_clicked]. *)
Inductive tag_feedback : Type :=
| TagSelected                    (* "Keyframe at ... selected for splitting." *)
| TagDeselected.                 (* "Keyframe at ... deselected." *)

(** [on_keyframe_tag_clicked], the slot of [keyframe_tag_clicked] (the
    timeline widget is there): the message shown, if any, and the widget
    after the call. *)
Definition on_keyframe_tag_clicked (kf_time : Q) (tw : TimelineWidget)
  : option tag_feedback * TimelineWidget :=
  let (toggled, tw') := toggle_keyframe_selection kf_time tw in
  if toggled then
    (Some (if existsb (Py.eqb kf_time) (get_selected_keyframes tw')
           then TagSelected else TagDeselected), tw')
  else (None, tw').

(** ** The arithmetic of the program in binary64

    The functions of the program whose result depends on an addition, a
    subtraction, a multiplication or a division of floats, on [float(...)] or
    on [int(...)], once more, this time on the floats of the machine: a Python
    [float] is an IEEE 754 binary64 number ([PrimFloat.float]), every
    operation rounds to nearest, ties to even, and the literals [0.01],
    [0.05], [0.1] and [0.001] are the doubles nearest to these decimals. *)

Set Warnings "-inexact-float".

Module B64.
Import PrimFloat SpecFloat FloatOps.
Local Open Scope float_scope.

(** *** Conversions *)

(** The double nearest to the rational [q >= 0], ties to even, infinity when
    it is out of range: [q] is cut at 1080 binary places with a sticky last
    bit, which is below every place a double has, and rounded once. *)
Definition nearest_nonneg (q : Q) : float :=
  let (quo, rem) := Z.div_eucl (Qnum q * 2 ^ 1080) (Z.pos (Qden q)) in
  let sticky := if (rem =? 0)%Z then 0%Z else 1%Z in
  SF2Prim (binary_normalize prec emax (2 * quo + sticky) (-1081) false).

Definition nearest (q : Q) : float :=
  if (Qnum q <? 0)%Z then - nearest_nonneg (- q) else nearest_nonneg q.

(** The conversion of an [int] to [float], by [float(n)] and for the [int]
    operand of an operation with a float: the nearest double, ties to even,
    [OverflowError] when that is out of range.  An [int] below 2^63 in
    absolute value is in range; it is converted as the machine converts a
    64-bit integer. *)
Definition float_of_int (n : Z) : outcome float :=
  if (Z.abs n <? 2 ^ 63)%Z then
    let x := of_uint63 (Uint63Axioms.of_Z (Z.abs n)) in
    Returns (if (n <? 0)%Z then - x else x)
  else
    let x := nearest (inject_Z n) in
    if is_infinity x then Raises OverflowError else Returns x.

(** [float(s)] for a string: the decimal the literal denotes, rounded, with
    the sign of the literal; [None] is the [ValueError]. *)
Definition float_of_str (s : list ascii) : option float :=
  let (negative, _) := Parse.sign (Str.strip s) in
  match Parse.py_float s with
  | Some (Finite q) => Some (if negative then - nearest (- q) else nearest q)
  | Some (Infinity neg) => Some (if neg then neg_infinity else infinity)
  | Some NaN => Some nan
  | None => None
  end.

(** [int(x)]: truncation towards zero. *)
Definition int_of_float (x : float) : outcome Z :=
  match Prim2SF x with
  | S754_nan => Raises ValueError
  | S754_infinity _ => Raises OverflowError
  | S754_zero _ => Returns 0%Z
  | S754_finite s m e =>
      let v := if (0 <=? e)%Z then (Z.pos m * 2 ^ e)%Z else Z.shiftr (Z.pos m) (- e) in
      Returns (if s then (- v)%Z else v)
  end.

(** [bool(x)] *)
Definition truthy (x : float) : bool := negb (x =? 0).

(** *** Builtins on floats *)

(** [max(a, b)]: the first argument is kept unless the second is strictly
    greater. *)
Definition max (a b : float) : float := if a <? b then b else a.

(** [min(a, b)]: the first argument is kept unless the second is strictly
    smaller. *)
Definition min (a b : float) : float := if b <? a then b else a.

(** [a < b] on 2-tuples of floats. *)
Definition tuple_ltb (a b : float * float) : bool :=
  if fst a =? fst b then snd a <? snd b else fst a <? fst b.

(** [l.sort()] / [sorted(l)] on a list of 2-tuples.  The sorts are the stable
    sort of the exact layer; on a list that holds no nan they order as
    [list.sort] does. *)
Definition sorted_tuples (l : list (float * float)) : list (float * float) :=
  Py.sort tuple_ltb l.

(** [sorted(l, key=lambda x: x[0])]. *)
Definition sorted_by_first (l : list (float * float)) : list (float * float) :=
  Py.sort (fun a b => fst a <? fst b) l.

(** [sorted(l)] on a list of floats. *)
Definition sorted_floats (l : list float) : list float := Py.sort ltb l.

(** *** Selection model ([MainWindow], main.py) *)

Record MainWindow : Type := mkMainWindow {
  selections : list (float * float);
  current_selection_start : option float;
  video_duration : float
}.

Definition set_selections (l : list (float * float)) (w : MainWindow) : MainWindow :=
  {| selections := l;
     current_selection_start := current_selection_start w;
     video_duration := video_duration w |}.

Definition set_current_selection_start (o : option float) (w : MainWindow) : MainWindow :=
  {| selections := selections w;
     current_selection_start := o;
     video_duration := video_duration w |}.

Definition new_session (duration : float) : MainWindow :=
  {| selections := []; current_selection_start := None; video_duration := duration |}.

(** [_get_current_playhead_time_sec]: [position / 1000.0] for the position in
    milliseconds the player or the slider reports, an integer of at most 64
    bits, which the division converts without overflow. *)
Definition _get_current_playhead_time_sec (position : Z) : float :=
  let x := of_uint63 (Uint63Axioms.of_Z (Z.abs position)) in
  (if (position <? 0)%Z then - x else x) / 1000.

(** [on_begin_selection]; [t] is [_get_current_playhead_time_sec()]. *)
Definition on_begin_selection (t : float) (w : MainWindow) : feedback * MainWindow :=
  match current_selection_start w with
  | Some _ => (SelectionStartCancelled, set_current_selection_start None w)
  | None => (SelectionStarted, set_current_selection_start (Some t) w)
  end.

(** [on_end_selection]; [t] is the playhead time read as [end_time]. *)
Definition on_end_selection (t : float) (w : MainWindow) : feedback * MainWindow :=
  match current_selection_start w with
  | None => (NoActiveSelection, w)
  | Some start_time =>
      if t <=? start_time + 0.01 then (InvalidSelection, w)
      else
        let new_selection := (start_time, t) in
        let w1 := set_selections (sorted_tuples (selections w ++ [new_selection])) w in
        (SegmentSelected, set_current_selection_start None w1)
  end.

Inductive action : Type :=
| BeginMark (t : float)
| EndMark (t : float).

Definition perform (w : MainWindow) (a : action) : MainWindow :=
  match a with
  | BeginMark t => snd (on_begin_selection t w)
  | EndMark t => snd (on_end_selection t w)
  end.

Definition perform_all (w : MainWindow) (acts : list action) : MainWindow :=
  fold_left perform acts w.

(** *** Keyframe tags ([TimelineWidget], ui_timeline.py) *)

(** A Python [set] of floats: membership by [==], a member is not replaced by
    an equal one; read through [sorted] only. *)
Module FloatSet.

Definition t : Type := list float.

Definition empty : t := [].

(** [x in s] *)
Definition mem (x : float) (s : t) : bool := existsb (eqb x) s.

(** [s.add(x)] *)
Definition add (x : float) (s : t) : t := if mem x s then s else (s ++ [x])%list.

(** [s.remove(x)], for an [x] that is a member. *)
Definition remove (x : float) (s : t) : t := filter (fun y => negb (x =? y)) s.

(** [set(iterable)] *)
Definition of_list (l : list float) : t := fold_left (fun s x => add x s) l empty.

(** [list(s)] *)
Definition elements (s : t) : list float := s.

End FloatSet.

Record TimelineWidget : Type := mkTimelineWidget {
  _duration : float;
  _keyframes : list float;
  _selected_keyframes : FloatSet.t
}.

(** The state of the search loop of [toggle_keyframe_selection]:
    [(closest_kf, min_diff)], at the start [(None, float('inf'))]. *)
Definition closest_state : Type := (option float * float)%type.

(** One iteration of [for kf_time in self._keyframes]. *)
Definition closest_step (time_sec : float) (st : closest_state) (kf_time : float)
  : closest_state :=
  let diff := abs (kf_time - time_sec) in
  if diff <? 0.1 then
    if diff <? snd st then (Some kf_time, diff) else st
  else st.

Definition find_closest_kf (time_sec : float) (keyframes : list float) : option float :=
  fst (fold_left (closest_step time_sec) keyframes (None, infinity)).

(** [toggle_keyframe_selection]: the returned boolean and the widget after
    the call. *)
Definition toggle_keyframe_selection (time_sec : float) (tw : TimelineWidget)
  : bool * TimelineWidget :=
  match find_closest_kf time_sec (_keyframes tw) with
  | Some closest_kf =>
      let sel := _selected_keyframes tw in
      let sel' := if FloatSet.mem closest_kf sel
                  then FloatSet.remove closest_kf sel
                  else FloatSet.add closest_kf sel in
      (true, {| _duration := _duration tw;
                _keyframes := _keyframes tw;
                _selected_keyframes := sel' |})
  | None => (false, tw)
  end.

(** [get_selected_keyframes] *)
Definition get_selected_keyframes (tw : TimelineWidget) : list float :=
  sorted_floats (FloatSet.elements (_selected_keyframes tw)).

(** *** Task planner ([on_save_video], main.py) *)

(** The task dictionaries, as in the exact model, with binary64 bounds. *)
Inductive task : Type :=
| Concat (output_path output_format_key : string) (segments : list (float * float))
         (gif_scale_w : option Z)
| SingleCut (output_path output_format_key : string) (start_time end_time : option float)
            (gif_scale_w : option Z).

Definition min_segment_duration : float := 0.05.

(** [max(0.0, min(x, self.video_duration))] *)
Definition clamp_to_video (duration x : float) : float := max 0 (min x duration).

(** The body of [for remove_start, remove_end in sorted_removed_selections];
    the loop state is [(segments_to_keep, current_pos)]. *)
Definition removal_step (duration : float) (st : list (float * float) * float)
  (r : float * float) : list (float * float) * float :=
  let '(segments_to_keep, current_pos) := st in
  let remove_start := clamp_to_video duration (fst r) in
  let remove_end := clamp_to_video duration (snd r) in
  let segments_to_keep :=
    if current_pos <? remove_start then
      let segment_duration := remove_start - current_pos in
      if min_segment_duration <=? segment_duration
      then (segments_to_keep ++ [(current_pos, remove_start)])%list
      else segments_to_keep
    else segments_to_keep in
  (segments_to_keep, max current_pos remove_end).

(** [_get_segments_to_keep_for_removal].  The [0] of [(0, self.video_duration)]
    is the integer of the source; it is held as the float it equals. *)
Definition _get_segments_to_keep_for_removal (w : MainWindow) : list (float * float) :=
  match selections w with
  | [] => []
  | _ :: _ =>
      if video_duration w <=? 0 then [(0, video_duration w)]
      else
        let sorted_removed_selections := sorted_by_first (selections w) in
        let '(segments_to_keep, current_pos) :=
          fold_left (removal_step (video_duration w)) sorted_removed_selections ([], 0) in
        if current_pos <? video_duration w then
          let segment_duration := video_duration w - current_pos in
          if min_segment_duration <=? segment_duration
          then (segments_to_keep ++ [(current_pos, video_duration w)])%list
          else segments_to_keep
        else segments_to_keep
  end.

(** The [segments_for_concat] of save actions 0 (keep) and 1 (remove);
    [inl] is an early return. *)
Definition segments_for_concat (save_action_id : Z) (w : MainWindow)
  : save_outcome + list (float * float) :=
  if (save_action_id =? 0)%Z then
    match selections w with
    | [] => inl NoSelections
    | _ :: _ => inr (sorted_tuples (selections w))
    end
  else
    match selections w with
    | [] =>
        if video_duration w <=? 0 then inl NoVideoDuration
        else inr [(0, video_duration w)]
    | _ :: _ =>
        match _get_segments_to_keep_for_removal w with
        | [] => inl NothingToSave
        | segs => inr segs
        end
    end.

(** The split points of save action 3:
    [sorted(list(set(p for p in [0.0] + selected_tags + [d] if p <= d + 0.001)))]. *)
Definition split_points (selected_tags : list float) (duration : float) : list float :=
  let points := ([0] ++ selected_tags ++ [duration])%list in
  sorted_floats
    (FloatSet.elements
       (FloatSet.of_list (filter (fun p => p <=? duration + 0.001) points))).

(** The tasks of save action 2: one per selection, in list order. *)
Fixpoint selection_split_loop (mk : nat -> float -> float -> task) (i : nat)
  (sels : list (float * float)) : list task :=
  match sels with
  | [] => []
  | (start_t, end_t) :: sels' =>
      mk (i + 1)%nat start_t end_t :: selection_split_loop mk (S i) sels'
  end.

(** The loop [for i in range(len(split_points) - 1)] of save action 3 over
    consecutive points: both bounds are clamped to the video, a span whose
    computed length is below 0.05 is skipped by [continue],
    [processed_segments_count] numbers the tasks that are built. *)
Fixpoint tag_split_loop (mk : nat -> float -> float -> task) (duration : float)
  (processed_segments_count : nat) (points : list float) : list task :=
  match points with
  | [] => []
  | p :: rest =>
      match rest with
      | [] => []
      | q :: _ =>
          let start_t := clamp_to_video duration p in
          let end_t := clamp_to_video duration q in
          if end_t - start_t <? 0.05
          then tag_split_loop mk duration processed_segments_count rest
          else
            let processed_segments_count := (processed_segments_count + 1)%nat in
            mk processed_segments_count start_t end_t
              :: tag_split_loop mk duration processed_segments_count rest
      end
  end.

(** What [on_save_video] ends in: a dialog that ends it early, or the plan the
    worker is started with. *)
Inductive save_result : Type :=
| Early (o : save_outcome)
| Start (output_tasks : list task).

(** [on_save_video], up to the start of the worker; [None] is the [KeyError]
    of an unknown format. *)
Definition on_save_video (rq : save_request) (w : MainWindow) (tw : TimelineWidget)
  : option save_result :=
  match lookup_format (output_format_key rq) OUTPUT_FORMATS with
  | None => None
  | Some output_format_details =>
      let default_ext :=
        match ext output_format_details with
        | Some e => e
        | None => source_ext rq
        end in
      let single_cut (infix : string) (n : nat) (start_t end_t : float) : task :=
        SingleCut
          (path_join (dialog_answer rq)
             (base_output_filename rq ++ infix ++ str_of_nat n ++ default_ext)%string)
          (output_format_key rq) (Some start_t) (Some end_t)
          (gif_scale output_format_details rq) in
      let start (output_tasks : list task) : save_result :=
        match output_tasks with
        | [] => Early NoTasks
        | _ :: _ => Start output_tasks
        end in
      let id := save_action_id rq in
      if ((id =? 0) || (id =? 1))%Z then
        match segments_for_concat id w with
        | inl early => Some (Early early)
        | inr segs =>
            if String.eqb (dialog_answer rq) "" then Some (Early DialogCancelled)
            else Some (start [Concat (dialog_answer rq) (output_format_key rq) segs
                                (gif_scale output_format_details rq)])
        end
      else if (id =? 2)%Z then
        match selections w with
        | [] => Some (Early NoSelections)
        | _ :: _ =>
            if String.eqb (dialog_answer rq) "" then Some (Early DialogCancelled)
            else Some (start (selection_split_loop (single_cut "_part_"%string) 0
                                (selections w)))
        end
      else if (id =? 3)%Z then
        let selected_tags := sorted_floats (get_selected_keyframes tw) in
        match selected_tags with
        | [] => Some (Early NoTagsSelected)
        | _ :: _ =>
            if String.eqb (dialog_answer rq) "" then Some (Early DialogCancelled)
            else Some (start (tag_split_loop (single_cut "_tag_split_"%string)
                                (video_duration w) 0
                                (split_points selected_tags (video_duration w))))
        end
      else Some (Early NoTasks)
  end.

(** *** Progress parser (ffmpeg_utils.py) *)

(** [n + x] for an [int] and a [float]: the [int] is converted first. *)
Definition int_plus_float (n : Z) (x : float) : outcome float :=
  y <~ float_of_int n ;; Returns (y + x).

(** [time_str_to_seconds]: a [ValueError] of [int] or [float] is caught and the
    function returns [0.0], as it does for more than three parts; the
    [OverflowError] of an [int] too large for a float is not caught. *)
Definition time_str_to_seconds (time_str : string) : outcome float :=
  match Str.split ":" (list_ascii_of_string time_str) with
  | [p0; p1; p2] =>
      match Parse.py_int p0, Parse.py_int p1, float_of_str p2 with
      | Some h, Some m, Some s_ms => int_plus_float (h * 3600 + m * 60) s_ms
      | _, _, _ => Returns 0
      end
  | [p0; p1] =>
      match Parse.py_int p0, float_of_str p1 with
      | Some m, Some s_ms => int_plus_float (m * 60) s_ms
      | _, _ => Returns 0
      end
  | [p0] =>
      match float_of_str p0 with
      | Some s => Returns s
      | None => Returns 0
      end
  | _ => Returns 0
  end.

(** What the progress branch of the read loop of [FfmpegProcess.run] does with
    one line of output. *)
Inductive line_progress : Type :=
| NoProgress                                  (* the [if]s are not taken *)
| Progress (percentage : Z) (msg : string)    (* [progress_callback(percentage, msg)] *)
| Raised (e : pyerr).                         (* an exception leaves the loop *)

(** [has_callback] is the truth value of [progress_callback]. *)
Definition progress_of_line (has_callback : bool) (total_duration : option float)
  (line : string) : line_progress :=
  let line_strip := Str.strip (list_ascii_of_string line) in
  match total_duration with
  | Some total =>
      if has_callback && truthy total && (0 <? total) then
        match TimeRegex.search line_strip with
        | Some tok =>
            let current_time_str := string_of_list_ascii tok in
            match time_str_to_seconds current_time_str with
            | Returns current_time_sec =>
                match int_of_float (current_time_sec / total * 100) with
                | Returns n =>
                    Progress (Z.min 100 n) ("Encoding... " ++ current_time_str)%string
                | Raises e => Raised e
                end
            | Raises e => Raised e
            end
        | None => NoProgress
        end
      else NoProgress
  | None => NoProgress
  end.

End B64.

Set Warnings "+inexact-float".

(** * Specification-level notions *)

Local Close Scope string_scope.

(** A range is well formed when it ends after it starts. *)
Definition well_formed (r : Q * Q) : Prop := fst r < snd r.

(** [l] is ascending by start. *)
Definition sorted_by_start (l : list (Q * Q)) : Prop :=
  StronglySorted (fun a b => fst a <= fst b) l.

(** The playhead time [t] lies in the range [r], bounds included. *)
Definition contains (r : Q * Q) (t : Q) : Prop := fst r <= t /\ t <= snd r.

(** [x] may stand before [y] in a list sorted with the comparison [lt]: [y] is
    not strictly smaller. *)
Definition not_after {A : Type} (lt : A -> A -> bool) (x y : A) : Prop := lt y x = false.

(** *** RemoveSelections, as the planner is described

    Walk the ranges, sorted by start, with a cursor that starts at 0.  Each
    range is clamped to the video; a gap between the cursor and the start of
    the range is kept when it is at least 0.05 long; the cursor advances to the
    larger of itself and the end of the range.  After the walk the rest of the
    video is kept under the same length filter.  With no range at all the
    whole video is kept. *)

Definition keep_if_long (a b : Q) : list (Q * Q) :=
  if Qlt_le_dec (b - a) 0.05 then [] else [(a, b)].

Fixpoint complement_walk (duration cursor : Q) (ranges : list (Q * Q)) : list (Q * Q) :=
  match ranges with
  | [] => if Qlt_le_dec cursor duration then keep_if_long cursor duration else []
  | (rs, re) :: rest =>
      let rs := Qmax 0 (Qmin rs duration) in
      let re := Qmax 0 (Qmin re duration) in
      (if Qlt_le_dec cursor rs then keep_if_long cursor rs else [])
        ++ complement_walk duration (Qmax cursor re) rest
  end.

(** Each segment ends before the next one starts. *)
Definition disjoint_ascending (l : list (Q * Q)) : Prop :=
  StronglySorted (fun a b => snd a <= fst b) l.

(** The starts are strictly increasing. *)
Definition strictly_ascending (l : list (Q * Q)) : Prop :=
  StronglySorted (fun a b => fst a < fst b) l.

(** *** SplitByTags, as the planner is described *)

(** The consecutive pairs of a list of points. *)
Fixpoint consecutive_pairs (points : list Q) : list (Q * Q) :=
  match points with
  | [] => []
  | p :: rest =>
      match rest with
      | [] => []
      | q :: _ => (p, q) :: consecutive_pairs rest
      end
  end.

Definition long_enough (s : Q * Q) : bool :=
  if Qlt_le_dec (snd s - fst s) 0.05 then false else true.

(** The spans with both points first moved into the video. *)
Definition clamped_spans (duration : Q) (points : list Q) : list (Q * Q) :=
  filter long_enough
    (map (fun s => (Qmax 0 (Qmin (fst s) duration), Qmax 0 (Qmin (snd s) duration)))
       (consecutive_pairs points)).

(** The trim bounds of a single-cut task. *)
Definition task_bounds (t : task) : option (Q * Q) :=
  match t with
  | SingleCut _ _ (Some s) (Some e) _ => Some (s, e)
  | _ => None
  end.

(** *** Keyframe tags *)

(** The keyframe [kf] is within the click tolerance of the time [t]. *)
Definition within_tolerance (t kf : Q) : Prop := Qabs (kf - t) < 0.1.

(** What the search loop of [toggle_keyframe_selection] has established after
    the keyframes [seen]. *)
Definition closest_invariant (t : Q) (seen : list Q) (st : closest_state) : Prop :=
  match st with
  | (None, None) => forall k, In k seen -> ~ within_tolerance t k
  | (Some c, Some m) =>
      m = Qabs (c - t) /\ In c seen /\ within_tolerance t c /\
      forall k, In k seen -> Qabs (c - t) <= Qabs (k - t)
  | _ => False
  end.

(** *** Progress parser *)

(** The number written by a string of decimal digits. *)
Definition number_of (ds : list ascii) : Z :=
  fold_left (fun acc c => (acc * 10 + Str.digit_value c)%Z) ds 0%Z.

Definition all_digits (ds : list ascii) : Prop := Forall (fun c => Str.is_digit c = true) ds.

(** A time token [HH:MM:SS.ff] with its four digit groups. *)
Definition time_token (hh mm ss ff : list ascii) : list ascii :=
  hh ++ [":"%char] ++ mm ++ [":"%char] ++ ss ++ ["."%char] ++ ff.

(** [h*3600 + m*60 + s] for the token with these digit groups. *)
Definition token_seconds (hh mm ss ff : list ascii) : Q :=
  inject_Z (number_of hh) * 3600 + inject_Z (number_of mm) * 60
  + (inject_Z (number_of ss)
     + inject_Z (number_of ff) / inject_Z (10 ^ Z.of_nat (List.length ff))).


(** *** Executor *)

(** The signals among the events (what the controller receives). *)
Definition is_signal (e : event) : bool :=
  match e with
  | progress_update _ _ | segment_processed _ _ _ | finished _ | error _ => true
  | print _ | print_exc => false
  end.

Definition signals (es : list event) : list event := filter is_signal es.

(** The terminal report of a run: the last [finished] or [error] emitted. *)
Definition is_terminal (e : event) : bool :=
  match e with
  | finished _ | error _ => true
  | _ => false
  end.

Definition terminal_report (st : worker_state) : option event :=
  hd_error (rev (filter is_terminal (emitted st))).

(** The number of tasks reported as processed. *)
Definition is_segment_processed (e : event) : bool :=
  match e with
  | segment_processed _ _ _ => true
  | _ => false
  end.

Definition processed_count (st : worker_state) : nat :=
  List.length (filter is_segment_processed (emitted st)).

(** The local variable [temp_concat_dir] has been assigned. *)
Definition dir_assigned (st : worker_state) : Prop := temp_concat_dir st <> None.

(** The next read of [_is_cancelled] sees the flag set. *)
Definition cancel_pending (env : environment) (st : worker_state) : Prop :=
  exists n, cancelled_from env = Some n /\ (n <= flag_reads st)%nat.

(** What the [try] block may do to the state between two points: the variable
    [temp_concat_dir] stays assigned once it is; as long as it is not, the
    directory is not touched; events are only appended, and none of them is an
    [error]. *)
Definition try_step (st st' : worker_state) : Prop :=
  (dir_assigned st -> dir_assigned st') /\
  (~ dir_assigned st' -> temp_dir_exists st' = temp_dir_exists st) /\
  exists es, emitted st' = emitted st ++ es /\
             Forall (fun e => forall m, e <> error m) es.

(** The events a step appends do not report a task as processed. *)
Definition quiet_step (st st' : worker_state) : Prop :=
  processed_count st' = processed_count st.

(** *** Example runs *)

(** An encoder that always succeeds and prints one progress line. *)
Definition encoder_ok : ffmpeg_result :=
  mkFfmpegResult ["frame=25 fps=25 time=00:00:01.00 bitrate=1kbits/s"%string] true
    EmptyString.

(** An encoder that always fails. *)
Definition encoder_failing : ffmpeg_result :=
  mkFfmpegResult ["Error opening input"%string] false
    "FFmpeg failed (code 1): Error opening input"%string.

(** An environment in which the flag is seen from the read [cancel] on, every
    encoder run ends as [encoder] says, and the file system operations succeed
    except the removal, which fails with [rm] if given. *)
Definition example_env (cancel : option nat) (encoder : ffmpeg_result)
  (rm : option string) : environment :=
  mkEnvironment "/in/video.mkv"%string ".mkv"%string "/tmp"%string 4242 cancel
    (fun _ => encoder) (fun _ => None) (fun _ => None) rm.

(** Five single cuts with re-encoding. *)
Definition five_cuts : list task :=
  map (fun n => SingleCut ("/out/video_part_" ++ str_of_nat n ++ ".mp4")%string
                  "MP4 (H.264 + AAC)"%string (Some (Qnat n)) (Some (Qnat n + 1)) None)
    [1; 2; 3; 4; 5]%nat.

(** One concat task over three segments, stream copy. *)
Definition one_concat : list task :=
  [Concat "/out/video_edited.mkv"%string "Original Format (Lossless)"%string
     [(0, 2); (4, 6); (7, 8)] None].

(** *** Selection list *)

(** The selection list is in the order [list.sort] leaves it in. *)
Definition tuple_sorted (l : list (Q * Q)) : Prop :=
  StronglySorted (not_after Py.tuple_ltb) l.

(** *** Plans *)

(** The single-cut task [on_save_video] builds for part number [n]; [infix] is
    ["_part_"] or ["_tag_split_"]. *)
Definition planned_single_cut (rq : save_request) (fmt : format_details)
  (infix : string) (n : nat) (start_t end_t : Q) : task :=
  SingleCut
    (path_join (dialog_answer rq)
       (base_output_filename rq ++ infix ++ str_of_nat n
          ++ match ext fmt with Some e => e | None => source_ext rq end)%string)
    (output_format_key rq) (Some start_t) (Some end_t) (gif_scale fmt rq).

(** The ["output_format_key"] of a task. *)
Definition task_format_key (t : task) : string :=
  match t with
  | Concat _ k _ _ => k
  | SingleCut _ k _ _ _ => k
  end.

(** A task the executor can run without a missing key or an empty concat. *)
Definition runnable (t : task) : Prop :=
  lookup_format (task_format_key t) OUTPUT_FORMATS <> None /\
  match t with
  | Concat _ _ segs _ => segs <> []
  | SingleCut _ _ s e _ => s <> None /\ e <> None
  end.

(** *** Triples for the worker monad *)

(** From a state satisfying [pre], the computation [m] ends in a result and a
    state satisfying [post].  (Every computation of the monad ends: it is a
    function.) *)
Definition hoare {A : Type} (pre : worker_state -> Prop) (m : M A)
  (post : result A -> worker_state -> Prop) : Prop :=
  forall st r st', pre st -> m st = (r, st') -> post r st'.

(** No terminal signal has been emitted. *)
Definition not_terminated (st : worker_state) : Prop :=
  filter is_terminal (emitted st) = [].

(** The last event is the one terminal signal emitted. *)
Definition just_terminated (st : worker_state) : Prop :=
  exists es e, emitted st = es ++ [e] /\ is_terminal e = true /\
               filter is_terminal es = [].

(** The encoder runs are counted, and every one of them succeeded. *)
Definition all_runs_ok (env : environment) (st : worker_state) : Prop :=
  ffmpeg_runs st = List.length (launched st) /\
  forall n, (n < List.length (launched st))%nat -> exit_ok (ffmpeg env n) = true.

(** The encoder runs are counted, and every one but possibly the last
    succeeded. *)
Definition only_last_run_failed (env : environment) (st : worker_state) : Prop :=
  ffmpeg_runs st = List.length (launched st) /\
  forall n, (S n < List.length (launched st))%nat -> exit_ok (ffmpeg env n) = true.

(** What holds where a block of the task loop ends: after a normal end no
    terminal signal is out and every encoder run succeeded; an exception
    leaves at most the last run failed; the [return] comes right after the
    [finished] of the cancellation. *)
Definition loop_post (env : environment) {A : Type} (r : result A) (st : worker_state)
  : Prop :=
  match r with
  | Done _ => not_terminated st /\ all_runs_ok env st
  | Raised _ => not_terminated st /\ only_last_run_failed env st
  | Returned => just_terminated st /\ all_runs_ok env st
  end.

Definition loop_pre (env : environment) (st : worker_state) : Prop :=
  not_terminated st /\ all_runs_ok env st.

(** An environment in which nothing goes wrong and nobody cancels. *)
Definition trouble_free (env : environment) : Prop :=
  cancelled_from env = None /\
  (forall n, exit_ok (ffmpeg env n) = true) /\
  (forall i, makedirs_error env i = None) /\
  (forall i, open_error env i = None).

(** The format key of the task is in the table. *)
Definition known_format (t : task) : Prop :=
  lookup_format (task_format_key t) OUTPUT_FORMATS <> None.

(** No cut of the task is shorter than a millisecond, so that the quotient
    of a position in it by its length is far below the largest float. *)
Definition no_instant_cut (t : task) : Prop :=
  match t with
  | Concat _ _ segments _ => Forall (fun s => 0.001 <= snd s - fst s) segments
  | SingleCut _ _ (Some s) (Some e) _ => 0.001 <= e - s
  | SingleCut _ _ None (Some e) _ => 0.001 <= e
  | SingleCut _ _ _ None _ => True
  end.

(** The encoder runs a task takes when nothing fails: one per segment and one
    for the join, or the one cut. *)
Definition encoder_runs (t : task) : nat :=
  match t with
  | Concat _ _ segs _ => S (List.length segs)
  | SingleCut _ _ _ _ _ => 1%nat
  end.

(** *** Progress values *)

(** A progress event carries a percentage the progress bar can show. *)
Definition percent_ok (e : event) : Prop :=
  match e with
  | progress_update percentage _ => (0 <= percentage <= 100)%Z
  | _ => True
  end.

Definition percents_ok (st : worker_state) : Prop := Forall percent_ok (emitted st).

(** The computation emits no progress outside 0..100. *)
Definition keeps_percents {A : Type} (m : M A) : Prop :=
  hoare percents_ok m (fun _ st => percents_ok st).

(** A callback that maps the percentages of one encoder run into 0..100. *)
Definition bounded_callback (callback : progress_callback_t) : Prop :=
  forall percentage msg,
    (0 <= percentage <= 100)%Z -> (0 <= fst (callback percentage msg) <= 100)%Z.

(** Task number [i] of [total] is one whose progress stays in range: any
    single cut, and a concat task in the first half of the list. *)
Definition progress_fits (total i : nat) (t : task) : Prop :=
  (i < total)%nat /\
  match t with
  | Concat _ _ _ _ => (2 * i + 1 <= total)%nat
  | SingleCut _ _ _ _ _ => True
  end.

(** The tasks from number [i] on fit. *)
Fixpoint all_fit (total i : nat) (tasks : list task) : Prop :=
  match tasks with
  | [] => True
  | t :: tasks' => progress_fits total i t /\ all_fit total (S i) tasks'
  end.

(** The [segment_processed] events emitted so far are [l]. *)
Definition reported (l : list event) (st : worker_state) : Prop :=
  filter is_segment_processed (emitted st) = l.

(** The [segment_processed] events of the tasks from number [i] on, when all
    of them run to their end. *)
Fixpoint reports (total i : nat) (tasks : list task) : list event :=
  match tasks with
  | [] => []
  | t :: tasks' =>
      segment_processed (i + 1) total (task_output_path t) :: reports total (S i) tasks'
  end.

(** *** Probing *)

Definition is_dict (v : json) : bool :=
  match v with
  | JDict _ => true
  | _ => false
  end.

(** The shape of what ffprobe prints: an object whose ["format"], if there is
    one, is an object, and whose ["streams"], if there are, are a list of
    objects. *)
Definition ffprobe_shaped (video_info : json) : bool :=
  match video_info with
  | JDict entries =>
      match Json.lookup "format" entries with
      | Some format => is_dict format
      | None => true
      end
      && match Json.lookup "streams" entries with
         | Some (JList items) => forallb is_dict items
         | Some _ => false
         | None => true
         end
  | _ => false
  end.

(** A duration is announced only when it is positive, a frame rate only when
    it is not negative. *)
Definition probe_signal_ok (s : probe_signal) : Prop :=
  match s with
  | duration_ready duration => PyFloat.ltb (Finite 0) duration = true
  | fps_ready fps => 0 <= fps
  | _ => True
  end.

Definition is_probe_failure (s : probe_signal) : bool :=
  match s with
  | probe_error _ | probe_exception _ => true
  | _ => false
  end.

(** The sequences of signals of a probing run: the four results in their
    order, or a beginning of them followed by one error. *)
Definition probe_trace_ok (signals : list probe_signal) : Prop :=
  (exists video_info duration fps keyframes,
     signals = [info_ready video_info; duration_ready duration; fps_ready fps;
                keyframes_ready keyframes]) \/
  (exists results failure,
     signals = results ++ [failure] /\ is_probe_failure failure = true /\
     exists video_info duration fps,
       results = firstn (List.length results)
                   [info_ready video_info; duration_ready duration; fps_ready fps]).

(** The example of a probed file. *)
Definition example_video_info : json :=
  JDict [("format"%string, JDict [("duration"%string, JStr "12.500000")]);
         ("streams"%string,
          JList [JDict [("codec_type"%string, JStr "video");
                        ("avg_frame_rate"%string, JStr "30000/1001");
                        ("r_frame_rate"%string, JStr "30/1");
                        ("width"%string, JInt 1920); ("height"%string, JInt 1080);
                        ("duration"%string, JStr "12.4")];
                 JDict [("codec_type"%string, JStr "audio");
                        ("duration"%string, JStr "12.5")]])].

(** A stream object whose ["codec_type"] is ["video"]. *)
Definition is_video_stream (v : json) : bool :=
  match v with
  | JDict entries =>
      match Json.lookup "codec_type" entries with
      | Some codec_type => Json.eq_str codec_type "video"
      | None => false
      end
  | _ => false
  end.

(** A stream object of another kind. *)
Definition is_other_stream (v : json) : bool := is_dict v && negb (is_video_stream v).

(** [a < b] holds. *)
Definition float_lt (a b : pyfloat) : Prop := PyFloat.ltb a b = true.

(** [x in l] on floats. *)
Definition float_in (x : pyfloat) (l : list pyfloat) : bool := existsb (PyFloat.eqb x) l.

(** ** Binary64 *)

Section Binary64Notions.
Import PrimFloat.

(** *** Binary64: order *)

(** The place of a float in the order of the floats: an integer that grows
    with the float, the two zeros at 0, the infinities at the two ends. *)
Definition SFrank (f : SpecFloat.spec_float) : Z :=
  match f with
  | SpecFloat.S754_zero _ => 0
  | SpecFloat.S754_infinity s => if s then - 2 ^ 63 else 2 ^ 63
  | SpecFloat.S754_nan => 0
  | SpecFloat.S754_finite s m e =>
      let r := (Z.pos m + (e + 1074) * 2 ^ 52)%Z in
      if s then (- r)%Z else r
  end.

Definition rank (x : PrimFloat.float) : Z := SFrank (FloatOps.Prim2SF x).

(** [x] is a number: not a nan. *)
Definition number (x : PrimFloat.float) : Prop := PrimFloat.is_nan x = false.

(** *** Binary64: signs *)





Local Open Scope float_scope.
Set Warnings "-inexact-float".

(** *** Binary64: notions *)

(** The value of a double, exactly (0 for one that is not finite). *)
Definition exact (x : float) : Q :=
  match FloatOps.Prim2SF x with
  | SpecFloat.S754_finite s m e =>
      let v := if (0 <=? e)%Z then inject_Z (Z.pos m * 2 ^ e)%Z
               else (Z.pos m # (2 ^ Z.to_pos (- e)))%Q in
      if s then (- v)%Q else v
  | _ => 0%Q
  end.

(** [l] is ascending by start, in the order of the floats. *)
Definition ascending_by_start (l : list (float * float)) : Prop :=
  StronglySorted (fun a b => (fst a <=? fst b) = true) l.

(** Every start of [l] is a number. *)
Definition starts_are_numbers (l : list (float * float)) : Prop :=
  Forall (fun r => number (fst r)) l.

(** *** Binary64: RemoveSelections, as the planner is described

    The walk of the description on doubles: the gap between the cursor and
    the start of a range is kept when the cursor is before that start and the
    computed difference is at least 0.05. *)

Definition kept_gap (a b : float) : list (float * float) :=
  if a <? b then if 0.05 <=? b - a then [(a, b)] else [] else [].

Fixpoint cursor_walk (duration cursor : float) (ranges : list (float * float))
  : list (float * float) :=
  match ranges with
  | [] => kept_gap cursor duration
  | (rs, re) :: rest =>
      kept_gap cursor (B64.clamp_to_video duration rs)
        ++ cursor_walk duration (B64.max cursor (B64.clamp_to_video duration re)) rest
  end.

Definition kept_segments (ranges : list (float * float)) (duration : float)
  : list (float * float) :=
  match ranges with
  | [] => [(0, duration)]
  | _ :: _ => cursor_walk duration 0 (B64.sorted_by_first ranges)
  end.

(** Two ranges start at the same time. *)
Definition equal_starts (a b : float * float) : Prop := (fst a =? fst b) = true.

(** A range ends after it starts. *)
Definition ends_after_start (r : float * float) : Prop := (fst r <? snd r) = true.

(** The starts are strictly increasing. *)
Definition starts_increase (l : list (float * float)) : Prop :=
  StronglySorted (fun a b => (fst a <? fst b) = true) l.

(** Each segment ends before the next one starts. *)
Definition one_after_another (l : list (float * float)) : Prop :=
  StronglySorted (fun a b => (snd a <=? fst b) = true) l.

(** *** Binary64: SplitByTags, as the planner is described *)

(** Two floats are equal as [==] has it. *)
Definition same_float (a b : float) : Prop := (a =? b) = true.

(** The consecutive pairs of a list of points. *)
Fixpoint neighbours (points : list float) : list (float * float) :=
  match points with
  | [] => []
  | p :: rest =>
      match rest with
      | [] => []
      | q :: _ => (p, q) :: neighbours rest
      end
  end.

(** The computed length of the span is not below 0.05. *)
Definition spans_enough (s : float * float) : bool := negb (snd s - fst s <? 0.05).

(** The spans of the description: the consecutive pairs of points whose
    computed length is not below 0.05. *)
Definition spans_as_described (points : list float) : list (float * float) :=
  filter spans_enough (neighbours points).

(** The spans with both points first moved into the video. *)
Definition spans_in_video (duration : float) (points : list float) : list (float * float) :=
  filter spans_enough
    (map (fun s => (B64.clamp_to_video duration (fst s), B64.clamp_to_video duration (snd s)))
       (neighbours points)).

(** The trim bounds of a single-cut task. *)
Definition trim_bounds (t : B64.task) : option (float * float) :=
  match t with
  | B64.SingleCut _ _ (Some s) (Some e) _ => Some (s, e)
  | _ => None
  end.

(** The points are strictly increasing. *)
Definition points_increase (l : list float) : Prop :=
  StronglySorted (fun a b => (a <? b) = true) l.

(** *** Binary64: keyframe tags *)



(** *** Binary64: progress parser *)


End Binary64Notions.

(** * Properties *)

(** ** Comparisons *)

Lemma ltb_lt (a b : Q) : Py.ltb a b = true <-> a < b.
Proof.
  unfold Py.ltb. rewrite negb_true_iff. split; intro H.
  - apply Qnot_le_lt. intro Hle. apply Qle_bool_iff in Hle. congruence.
  - destruct (Qle_bool b a) eqn:E; [|reflexivity].
    apply Qle_bool_iff in E. exfalso. apply (Qlt_not_le _ _ H E).
Qed.

Lemma ltb_ge (a b : Q) : Py.ltb a b = false <-> b <= a.
Proof.
  unfold Py.ltb. rewrite negb_false_iff. apply Qle_bool_iff.
Qed.

Lemma leb_le (a b : Q) : Py.leb a b = true <-> a <= b.
Proof. apply Qle_bool_iff. Qed.

Lemma leb_gt (a b : Q) : Py.leb a b = false <-> b < a.
Proof.
  unfold Py.leb. split; intro H.
  - apply Qnot_le_lt. intro Hle. apply Qle_bool_iff in Hle. congruence.
  - destruct (Qle_bool a b) eqn:E; [|reflexivity].
    apply Qle_bool_iff in E. exfalso. apply (Qlt_not_le _ _ H E).
Qed.

Lemma eqb_eq (a b : Q) : Py.eqb a b = true <-> a == b.
Proof. apply Qeq_bool_iff. Qed.

Lemma eqb_neq (a b : Q) : Py.eqb a b = false <-> ~ a == b.
Proof.
  unfold Py.eqb. split; intro H.
  - intro E. apply Qeq_bool_iff in E. congruence.
  - destruct (Qeq_bool a b) eqn:E; [|reflexivity].
    apply Qeq_bool_iff in E. contradiction.
Qed.

(** Case analysis on a comparison of the code, leaving the order fact. *)
Ltac by_cases_on b :=
  let E := fresh "E" in
  destruct b eqn:E;
  [ first [ apply ltb_lt in E | apply leb_le in E | apply eqb_eq in E ]
  | first [ apply ltb_ge in E | apply leb_gt in E | apply eqb_neq in E ] ].

Lemma playhead_inside_contains (t : Q) (r : Q * Q) :
  playhead_inside t r = true <-> contains r t.
Proof.
  unfold playhead_inside, contains. rewrite andb_true_iff, !leb_le. tauto.
Qed.

(** ** The stable sort *)

Section SortFacts.
Context {A : Type} (lt : A -> A -> bool).

Lemma insert_permutation (x : A) (l : list A) :
  Permutation (Py.insert lt x l) (x :: l).
Proof.
  induction l as [|y l IH]; simpl.
  - apply Permutation_refl.
  - destruct (lt y x).
    + eapply perm_trans; [apply perm_skip, IH | apply perm_swap].
    + apply Permutation_refl.
Qed.

Lemma sort_permutation (l : list A) : Permutation (Py.sort lt l) l.
Proof.
  induction l as [|x l IH]; simpl.
  - apply perm_nil.
  - eapply perm_trans; [apply insert_permutation | apply perm_skip, IH].
Qed.

Hypothesis lt_asym : forall x y, lt x y = true -> lt y x = false.

Lemma insert_sorted (x : A) (l : list A) :
  Sorted (not_after lt) l -> Sorted (not_after lt) (Py.insert lt x l).
Proof.
  induction l as [|y l IH]; simpl; intro Hs.
  - repeat constructor.
  - destruct (lt y x) eqn:E.
    + inversion Hs as [|? ? Hl Hhd]; subst.
      constructor; [apply IH, Hl|].
      destruct l as [|z l]; simpl.
      * constructor. apply lt_asym, E.
      * inversion Hhd; subst. destruct (lt z x); constructor.
        -- assumption.
        -- apply lt_asym, E.
    + constructor; [assumption|]. constructor. exact E.
Qed.

Lemma sort_sorted (l : list A) : Sorted (not_after lt) (Py.sort lt l).
Proof.
  induction l as [|x l IH]; simpl.
  - constructor.
  - apply insert_sorted, IH.
Qed.
End SortFacts.

Lemma tuple_ltb_asym (a b : Q * Q) :
  Py.tuple_ltb a b = true -> Py.tuple_ltb b a = false.
Proof.
  unfold Py.tuple_ltb. intro H.
  by_cases_on (Py.eqb (fst a) (fst b)).
  - assert (E' : Py.eqb (fst b) (fst a) = true) by (apply eqb_eq; symmetry; exact E).
    rewrite E'. apply ltb_lt in H. apply ltb_ge. lra.
  - assert (E' : Py.eqb (fst b) (fst a) = false)
      by (apply eqb_neq; intro X; apply E; symmetry; exact X).
    rewrite E'. apply ltb_lt in H. apply ltb_ge. lra.
Qed.

Lemma tuple_not_after_start (a b : Q * Q) :
  not_after Py.tuple_ltb a b -> fst a <= fst b.
Proof.
  unfold not_after, Py.tuple_ltb. intro H.
  by_cases_on (Py.eqb (fst b) (fst a)).
  - lra.
  - apply ltb_ge in H. exact H.
Qed.

Lemma Sorted_by_start_strong (l : list (Q * Q)) :
  Sorted (fun a b => fst a <= fst b) l -> sorted_by_start l.
Proof.
  apply Sorted_StronglySorted. intros a b c Hab Hbc. lra.
Qed.

Lemma Sorted_weaken {A : Type} (R S : A -> A -> Prop) (l : list A) :
  (forall a b, R a b -> S a b) -> Sorted R l -> Sorted S l.
Proof.
  intros HRS Hs. induction Hs as [|a l Hl IH Hhd]; constructor.
  - exact IH.
  - destruct Hhd; constructor. apply HRS. assumption.
Qed.

Lemma sorted_tuples_by_start (l : list (Q * Q)) : sorted_by_start (Py.sorted_tuples l).
Proof.
  apply Sorted_by_start_strong.
  apply Sorted_weaken with (R := not_after Py.tuple_ltb).
  - apply tuple_not_after_start.
  - apply sort_sorted. apply tuple_ltb_asym.
Qed.

Lemma sorted_by_first_by_start (l : list (Q * Q)) : sorted_by_start (Py.sorted_by_first l).
Proof.
  apply Sorted_by_start_strong.
  apply Sorted_weaken with (R := not_after (fun a b => Py.ltb (fst a) (fst b))).
  - unfold not_after. intros a b H. apply ltb_ge in H. exact H.
  - apply sort_sorted. intros x y H. apply ltb_lt in H. apply ltb_ge. lra.
Qed.

(** ** Selection model *)

Lemma undo_scan_first (t : Q) (l1 l2 : list (Q * Q)) (r : Q * Q) :
  Forall (fun x => ~ contains x t) l1 -> contains r t ->
  undo_scan t (l1 ++ r :: l2) = Some (r, l1 ++ l2).
Proof.
  intros Hnot Hin. induction Hnot as [|x l1 Hx Hl1 IH]; simpl.
  - apply playhead_inside_contains in Hin. rewrite Hin. reflexivity.
  - destruct (playhead_inside t x) eqn:E.
    + apply playhead_inside_contains in E. contradiction.
    + rewrite IH. reflexivity.
Qed.

Lemma undo_scan_none (t : Q) (l : list (Q * Q)) :
  Forall (fun x => ~ contains x t) l -> undo_scan t l = None.
Proof.
  intro Hnot. induction Hnot as [|x l Hx Hl IH]; simpl.
  - reflexivity.
  - destruct (playhead_inside t x) eqn:E.
    + apply playhead_inside_contains in E. contradiction.
    + rewrite IH. reflexivity.
Qed.

(** C5.  [on_undo_selection] (undoAt) with the playhead at [t]: if some range
    contains [t], the first such range in list order is removed and every
    other range, and the pending start, stay as they are; if no range contains
    [t], a non-empty selection list is cleared as a whole, an empty one leaves
    only the pending start to clear, and with neither nothing changes. *)
Theorem on_undo_selection_contract (t : Q) (w : MainWindow) :
  (forall l1 r l2,
     selections w = l1 ++ r :: l2 ->
     Forall (fun x => ~ contains x t) l1 -> contains r t ->
     on_undo_selection t w
       = (SelectionRemoved r,
          mkMainWindow (l1 ++ l2) (current_selection_start w) (video_duration w))) /\
  (Forall (fun x => ~ contains x t) (selections w) ->
     (selections w <> [] ->
        on_undo_selection t w
          = (AllSelectionsCleared,
             mkMainWindow [] (current_selection_start w) (video_duration w))) /\
     (selections w = [] -> current_selection_start w <> None ->
        on_undo_selection t w
          = (CurrentStartCancelled, mkMainWindow [] None (video_duration w))) /\
     (selections w = [] -> current_selection_start w = None ->
        on_undo_selection t w = (NoSelectionsToClear, w))).
Proof.
  destruct w as [sels pending d]. unfold on_undo_selection. simpl. split.
  - intros l1 r l2 -> Hnot Hin. rewrite (undo_scan_first t l1 l2 r Hnot Hin). reflexivity.
  - intro Hnot. rewrite (undo_scan_none t _ Hnot). repeat split.
    + intro Hne. destruct sels; [contradiction|reflexivity].
    + intros -> Hp. destruct pending; [reflexivity|contradiction].
    + intros -> ->. reflexivity.
Qed.

Lemma on_undo_selection_contract_witness :
  on_undo_selection 5 (mkMainWindow [(1, 2); (4, 6); (5, 8)] (Some 9) 10)
    = (SelectionRemoved (4, 6), mkMainWindow ([(1, 2)] ++ [(5, 8)]) (Some 9) 10) /\
  on_undo_selection 3 (mkMainWindow [(1, 2); (4, 6); (5, 8)] (Some 9) 10)
    = (AllSelectionsCleared, mkMainWindow [] (Some 9) 10) /\
  on_undo_selection 3 (mkMainWindow [] (Some 9) 10)
    = (CurrentStartCancelled, mkMainWindow [] None 10) /\
  on_undo_selection 3 (mkMainWindow [] None 10)
    = (NoSelectionsToClear, mkMainWindow [] None 10).
Proof.
  assert (out : forall a b c : Q, (c < a \/ b < c) -> ~ contains (a, b) c).
  { intros a b c H [H1 H2]. simpl in *. lra. }
  split; [|split; [|split]].
  - apply (proj1 (on_undo_selection_contract 5
                    (mkMainWindow [(1, 2); (4, 6); (5, 8)] (Some 9) 10))
             [(1, 2)] (4, 6) [(5, 8)]).
    + reflexivity.
    + constructor; [|constructor]. apply out. right. reflexivity.
    + split; unfold Qle; simpl; lia.
  - apply (proj2 (on_undo_selection_contract 3
                    (mkMainWindow [(1, 2); (4, 6); (5, 8)] (Some 9) 10))).
    + repeat constructor; apply out; [right | left | left]; reflexivity.
    + discriminate.
  - apply (proj2 (on_undo_selection_contract 3 (mkMainWindow [] (Some 9) 10))).
    + constructor.
    + reflexivity.
    + discriminate.
  - apply (proj2 (on_undo_selection_contract 3 (mkMainWindow [] None 10))).
    + constructor.
    + reflexivity.
    + reflexivity.
Defined.

Lemma on_begin_selection_selections (t : Q) (w : MainWindow) :
  selections (snd (on_begin_selection t w)) = selections w.
Proof.
  unfold on_begin_selection. destruct (current_selection_start w); reflexivity.
Qed.

Lemma on_end_selection_well_formed (t : Q) (w : MainWindow) :
  Forall well_formed (selections w) ->
  Forall well_formed (selections (snd (on_end_selection t w))).
Proof.
  intro Hw. unfold on_end_selection.
  destruct (current_selection_start w) as [p|]; [|exact Hw].
  by_cases_on (Py.leb t (p + 0.01)); [exact Hw|]. simpl.
  eapply Permutation_Forall.
  - apply Permutation_sym, sort_permutation.
  - apply Forall_app. split; [exact Hw|].
    constructor; [|constructor]. unfold well_formed. simpl. lra.
Qed.

Lemma perform_all_well_formed (acts : list action) (w : MainWindow) :
  Forall well_formed (selections w) ->
  Forall well_formed (selections (perform_all w acts)).
Proof.
  revert w. induction acts as [|a acts IH]; intros w Hw; simpl.
  - exact Hw.
  - apply IH. destruct a as [t|t]; simpl.
    + rewrite on_begin_selection_selections. exact Hw.
    + apply on_end_selection_well_formed, Hw.
Qed.

Lemma on_end_selection_sorted (t : Q) (w : MainWindow) :
  fst (on_end_selection t w) = SegmentSelected ->
  sorted_by_start (selections (snd (on_end_selection t w))).
Proof.
  unfold on_end_selection.
  destruct (current_selection_start w) as [p|]; [|discriminate].
  destruct (Py.leb t (p + 0.01)); [discriminate|]. intros _. simpl.
  apply sorted_tuples_by_start.
Qed.

(** C6.  After any sequence of [on_begin_selection] / [on_end_selection]
    calls on a fresh session, an [on_end_selection] that commits a selection
    leaves the selection list ascending by start, with every range ending
    after it starts. *)
Theorem selections_sorted_after_end_mark (duration : Q) (acts : list action) (t : Q) :
  let w := perform_all (new_session duration) acts in
  fst (on_end_selection t w) = SegmentSelected ->
  sorted_by_start (selections (snd (on_end_selection t w))) /\
  Forall well_formed (selections (snd (on_end_selection t w))).
Proof.
  intros w Hok. split.
  - apply on_end_selection_sorted, Hok.
  - apply on_end_selection_well_formed. apply perform_all_well_formed. constructor.
Qed.

Lemma selections_sorted_after_end_mark_witness :
  let w := perform_all (new_session 10)
             [BeginMark 6; EndMark 8; BeginMark 1; BeginMark 2; EndMark 2; BeginMark 3] in
  sorted_by_start (selections (snd (on_end_selection 4 w))) /\
  Forall well_formed (selections (snd (on_end_selection 4 w))).
Proof.
  apply (selections_sorted_after_end_mark 10
           [BeginMark 6; EndMark 8; BeginMark 1; BeginMark 2; EndMark 2; BeginMark 3] 4).
  reflexivity.
Defined.

(** ** RemoveSelections *)

Lemma py_max_Qmax (a b : Q) : Py.max a b = Qmax a b.
Proof.
  unfold Py.max, Qmax, GenericMinMax.gmax.
  by_cases_on (Py.ltb a b); destruct (a ?= b) eqn:C; try reflexivity.
  - apply Qeq_alt in C. lra.
  - apply Qgt_alt in C. lra.
  - apply Qlt_alt in C. lra.
Qed.

Lemma py_min_Qmin (a b : Q) : Py.min a b = Qmin a b.
Proof.
  unfold Py.min, Qmin, GenericMinMax.gmin.
  by_cases_on (Py.ltb b a); destruct (a ?= b) eqn:C; try reflexivity.
  - apply Qeq_alt in C. lra.
  - apply Qlt_alt in C. lra.
  - apply Qgt_alt in C. lra.
Qed.

Lemma clamp_to_video_Qminmax (duration x : Q) :
  clamp_to_video duration x = Qmax 0 (Qmin x duration).
Proof.
  unfold clamp_to_video. rewrite py_min_Qmin, py_max_Qmax. reflexivity.
Qed.

Lemma keep_if_long_code (a b : Q) (keep : list (Q * Q)) :
  (if Py.leb min_segment_duration (b - a) then keep ++ [(a, b)] else keep)
  = keep ++ keep_if_long a b.
Proof.
  unfold keep_if_long, min_segment_duration.
  by_cases_on (Py.leb 0.05 (b - a)); destruct (Qlt_le_dec (b - a) 0.05); try lra.
  - reflexivity.
  - symmetry. apply app_nil_r.
Qed.

Lemma gap_code (cursor rs : Q) (keep : list (Q * Q)) :
  (if Py.ltb cursor rs
   then if Py.leb min_segment_duration (rs - cursor) then keep ++ [(cursor, rs)] else keep
   else keep)
  = keep ++ (if Qlt_le_dec cursor rs then keep_if_long cursor rs else []).
Proof.
  by_cases_on (Py.ltb cursor rs); destruct (Qlt_le_dec cursor rs); try lra.
  - apply keep_if_long_code.
  - symmetry. apply app_nil_r.
Qed.

Lemma removal_step_walk (duration cursor : Q) (keep : list (Q * Q)) (r : Q * Q) :
  removal_step duration (keep, cursor) r
  = (keep ++ (if Qlt_le_dec cursor (Qmax 0 (Qmin (fst r) duration))
              then keep_if_long cursor (Qmax 0 (Qmin (fst r) duration)) else []),
     Qmax cursor (Qmax 0 (Qmin (snd r) duration))).
Proof.
  unfold removal_step. rewrite gap_code, py_max_Qmax, !clamp_to_video_Qminmax. reflexivity.
Qed.

(** The loop of the code and the walk of the description produce the same
    segments, from any loop state. *)
Lemma removal_loop_walk (duration : Q) (ranges : list (Q * Q)) :
  forall (keep : list (Q * Q)) (cursor : Q),
    (let '(segments_to_keep, current_pos) :=
       fold_left (removal_step duration) ranges (keep, cursor) in
     if Py.ltb current_pos duration then
       if Py.leb min_segment_duration (duration - current_pos)
       then segments_to_keep ++ [(current_pos, duration)]
       else segments_to_keep
     else segments_to_keep)
    = keep ++ complement_walk duration cursor ranges.
Proof.
  induction ranges as [|[rs re] ranges IH]; intros keep cursor.
  - simpl. apply gap_code.
  - cbn [fold_left]. rewrite removal_step_walk. rewrite IH. cbn [complement_walk fst snd].
    rewrite <- app_assoc. reflexivity.
Qed.

Lemma get_segments_walk (w : MainWindow) :
  selections w <> [] -> 0 < video_duration w ->
  _get_segments_to_keep_for_removal w
  = complement_walk (video_duration w) 0 (Py.sorted_by_first (selections w)).
Proof.
  intros Hne Hd. unfold _get_segments_to_keep_for_removal.
  destruct (selections w) as [|r l] eqn:Hs; [contradiction|].
  by_cases_on (Py.leb (video_duration w) 0); [lra|].
  apply (removal_loop_walk (video_duration w) (Py.sorted_by_first (r :: l)) [] 0).
Qed.

Lemma clamp_bounds (duration x : Q) :
  0 <= duration -> 0 <= Qmax 0 (Qmin x duration) <= duration.
Proof.
  intro Hd.
  destruct (Q.max_spec 0 (Qmin x duration)) as [[H1 H2]|[H1 H2]];
    destruct (Q.min_spec x duration) as [[H3 H4]|[H3 H4]]; lra.
Qed.

Lemma clamp_monotone (duration x y : Q) :
  x <= y -> Qmax 0 (Qmin x duration) <= Qmax 0 (Qmin y duration).
Proof.
  intro Hxy.
  destruct (Q.max_spec 0 (Qmin x duration)) as [[H1 H2]|[H1 H2]];
    destruct (Q.min_spec x duration) as [[H3 H4]|[H3 H4]];
    destruct (Q.max_spec 0 (Qmin y duration)) as [[H5 H6]|[H5 H6]];
    destruct (Q.min_spec y duration) as [[H7 H8]|[H7 H8]]; lra.
Qed.

(** What the walk guarantees for its output, from any cursor inside the
    video: every segment starts at or after the cursor, lies in the video, is
    at least 0.05 long, and ends before the next one starts. *)
Lemma complement_walk_invariant (duration : Q) (ranges : list (Q * Q)) :
  0 <= duration -> Forall well_formed ranges ->
  forall cursor, 0 <= cursor <= duration ->
    Forall (fun s => cursor <= fst s /\ snd s <= duration /\ 0.05 <= snd s - fst s)
      (complement_walk duration cursor ranges) /\
    disjoint_ascending (complement_walk duration cursor ranges).
Proof.
  intros Hd Hwf. induction Hwf as [|[rs re] ranges Hr Hwf IH]; intros cursor Hc.
  - simpl. destruct (Qlt_le_dec cursor duration); [|split; constructor].
    unfold keep_if_long. destruct (Qlt_le_dec (duration - cursor) 0.05).
    + split; constructor.
    + split; repeat constructor; simpl; lra.
  - cbn [complement_walk].
    set (rs' := Qmax 0 (Qmin rs duration)).
    set (re' := Qmax 0 (Qmin re duration)).
    assert (Hrs : 0 <= rs' <= duration) by (apply clamp_bounds; exact Hd).
    assert (Hre : 0 <= re' <= duration) by (apply clamp_bounds; exact Hd).
    assert (Hle : rs' <= re').
    { apply clamp_monotone. unfold well_formed in Hr. simpl in Hr. lra. }
    assert (Hc' : cursor <= Qmax cursor re' /\ re' <= Qmax cursor re'
                  /\ Qmax cursor re' <= duration).
    { destruct (Q.max_spec cursor re') as [[H1 H2]|[H1 H2]]; lra. }
    destruct (IH (Qmax cursor re')) as [IHb IHs]; [lra|].
    assert (IHb' : Forall (fun s => cursor <= fst s /\ snd s <= duration
                                    /\ 0.05 <= snd s - fst s)
                     (complement_walk duration (Qmax cursor re') ranges)).
    { eapply Forall_impl; [|exact IHb]. simpl. intros s Hs. lra. }
    destruct (Qlt_le_dec cursor rs'); [|split; assumption].
    unfold keep_if_long. destruct (Qlt_le_dec (rs' - cursor) 0.05); [split; assumption|].
    simpl. split.
    + constructor; [simpl; lra | exact IHb'].
    + constructor; [exact IHs|].
      eapply Forall_impl; [|exact IHb]. simpl. intros s Hs. lra.
Qed.

Lemma disjoint_strictly_ascending (l : list (Q * Q)) :
  Forall (fun s => fst s < snd s) l -> disjoint_ascending l -> strictly_ascending l.
Proof.
  intros Hlen Hs. induction Hs as [|a l Hl IH Ha]; [constructor|].
  inversion Hlen as [|? ? Ha' Hlen']; subst.
  constructor; [apply IH, Hlen'|].
  eapply Forall_impl; [|exact Ha]. simpl. intros b Hb. lra.
Qed.

(** ** Float sets *)

Lemma mem_InA (x : Q) (s : FloatSet.t) : FloatSet.mem x s = true <-> InA Qeq x s.
Proof.
  unfold FloatSet.mem. induction s as [|y s IH]; simpl.
  - split; [discriminate | intro H; inversion H].
  - rewrite orb_true_iff, IH, eqb_eq. split.
    + intros [H|H]; [left | right]; assumption.
    + intro H. inversion H; subst; [left | right]; assumption.
Qed.

Lemma InA_app_Qeq (x : Q) (l1 l2 : list Q) :
  InA Qeq x (l1 ++ l2) <-> InA Qeq x l1 \/ InA Qeq x l2.
Proof. apply InA_app_iff. Qed.

Lemma add_InA (x y : Q) (s : FloatSet.t) :
  InA Qeq x (FloatSet.add y s) <-> x == y \/ InA Qeq x s.
Proof.
  unfold FloatSet.add. destruct (FloatSet.mem y s) eqn:E.
  - apply mem_InA in E. split; [intro H; right; exact H|].
    intros [H|H]; [|exact H].
    eapply InA_eqA; [apply Q_Setoid | symmetry; exact H | exact E].
  - rewrite InA_app_Qeq. split.
    + intros [H|H]; [right; exact H|]. left. inversion H as [? ? H1|? ? H1]; subst.
      * exact H1.
      * inversion H1.
    + intros [H|H]; [right; constructor; exact H | left; exact H].
Qed.

Lemma add_NoDupA (y : Q) (s : FloatSet.t) :
  NoDupA Qeq s -> NoDupA Qeq (FloatSet.add y s).
Proof.
  intro Hs. unfold FloatSet.add. destruct (FloatSet.mem y s) eqn:E; [exact Hs|].
  assert (Hy : ~ InA Qeq y s).
  { intro H. apply mem_InA in H. congruence. }
  clear E. induction Hs as [|z s Hz Hs IH]; simpl.
  - constructor; [intro H; inversion H | constructor].
  - constructor.
    + rewrite InA_app_Qeq. intros [H|H]; [contradiction|].
      inversion H as [? ? H1|? ? H1]; subst; [|inversion H1].
      apply Hy. left. symmetry. exact H1.
    + apply IH. intro H. apply Hy. right. exact H.
Qed.

Lemma of_list_NoDupA (l : list Q) : NoDupA Qeq (FloatSet.of_list l).
Proof.
  unfold FloatSet.of_list.
  assert (G : forall s, NoDupA Qeq s ->
                        NoDupA Qeq (fold_left (fun s y => FloatSet.add y s) l s)).
  { induction l as [|y l IH]; intros s Hs; simpl.
    - exact Hs.
    - apply IH, add_NoDupA, Hs. }
  apply G. constructor.
Qed.

Lemma filter_InA (f : Q -> bool) (x : Q) (l : list Q) :
  (forall a b, a == b -> f a = f b) ->
  InA Qeq x (filter f l) <-> InA Qeq x l /\ f x = true.
Proof.
  intro Hf. induction l as [|y l IH]; simpl.
  - split; [intro H; inversion H | intros [H _]; inversion H].
  - destruct (f y) eqn:E.
    + split.
      * intro H. inversion H as [? ? H1|? ? H1]; subst.
        -- split; [left; exact H1 | rewrite (Hf _ _ H1); exact E].
        -- apply IH in H1. split; [right|]; tauto.
      * intros [H Hx]. inversion H as [? ? H1|? ? H1]; subst.
        -- left. exact H1.
        -- right. apply IH. tauto.
    + rewrite IH. split.
      * intros [H Hx]. split; [right; exact H | exact Hx].
      * intros [H Hx]. inversion H as [? ? H1|? ? H1]; subst.
        -- rewrite (Hf _ _ H1) in Hx. congruence.
        -- tauto.
Qed.

(** ** Sorting floats *)

Lemma sorted_floats_InA (x : Q) (l : list Q) :
  InA Qeq x (Py.sorted_floats l) <-> InA Qeq x l.
Proof.
  rewrite !InA_alt. split; intros [y [Hxy Hy]]; exists y; split; try exact Hxy.
  - eapply Permutation_in; [apply sort_permutation | exact Hy].
  - eapply Permutation_in; [apply Permutation_sym, sort_permutation | exact Hy].
Qed.

Lemma insert_strictly_sorted (x : Q) (l : list Q) :
  StronglySorted Qlt l -> ~ InA Qeq x l -> StronglySorted Qlt (Py.insert Py.ltb x l).
Proof.
  intros Hs Hx. induction Hs as [|y l Hl IH Hy]; simpl.
  - repeat constructor.
  - by_cases_on (Py.ltb y x).
    + constructor.
      * apply IH. intro H. apply Hx. right. exact H.
      * apply Forall_forall. intros z Hz.
        apply (Permutation_in _ (insert_permutation Py.ltb x l)) in Hz.
        destruct Hz as [<-|Hz]; [exact E|].
        rewrite Forall_forall in Hy. apply Hy, Hz.
    + assert (Hxy : x < y).
      { destruct (Qeq_dec x y) as [Heq|Hne].
        - exfalso. apply Hx. left. exact Heq.
        - apply Qle_lteq in E. destruct E as [E|E]; [exact E | contradiction]. }
      constructor; [constructor; assumption|].
      constructor; [exact Hxy|].
      eapply Forall_impl; [|exact Hy]. simpl. intros z Hz. lra.
Qed.

Lemma sorted_floats_strictly (l : list Q) :
  NoDupA Qeq l -> StronglySorted Qlt (Py.sorted_floats l).
Proof.
  intro Hnd. induction Hnd as [|x l Hx Hnd IH]; simpl.
  - constructor.
  - apply insert_strictly_sorted; [exact IH|].
    intro H. apply Hx. apply sorted_floats_InA. exact H.
Qed.

(** ** SplitByTags *)

Lemma split_points_strictly_sorted (tags : list Q) (duration : Q) :
  StronglySorted Qlt (split_points tags duration).
Proof.
  unfold split_points. apply sorted_floats_strictly. apply of_list_NoDupA.
Qed.

Lemma long_enough_code (start_t end_t : Q) :
  Py.ltb (end_t - start_t) 0.05 = negb (long_enough (start_t, end_t)).
Proof.
  unfold long_enough. simpl.
  by_cases_on (Py.ltb (end_t - start_t) 0.05);
    destruct (Qlt_le_dec (end_t - start_t) 0.05); try reflexivity; lra.
Qed.

Lemma tag_split_loop_step (mk : nat -> Q -> Q -> task) (duration : Q) (n : nat)
  (p q : Q) (rest : list Q) :
  tag_split_loop mk duration n (p :: q :: rest)
  = if Py.ltb (clamp_to_video duration q - clamp_to_video duration p) 0.05
    then tag_split_loop mk duration n (q :: rest)
    else mk (n + 1)%nat (clamp_to_video duration p) (clamp_to_video duration q)
           :: tag_split_loop mk duration (n + 1)%nat (q :: rest).
Proof. reflexivity. Qed.

Lemma consecutive_pairs_step (p q : Q) (rest : list Q) :
  consecutive_pairs (p :: q :: rest) = (p, q) :: consecutive_pairs (q :: rest).
Proof. reflexivity. Qed.

(** The tasks of the loop carry, in order, the clamped spans that are long
    enough. *)
Lemma tag_split_loop_bounds (mk : nat -> Q -> Q -> task) (duration : Q) :
  (forall n s e, task_bounds (mk n s e) = Some (s, e)) ->
  forall points n,
    map task_bounds (tag_split_loop mk duration n points)
    = map Some (clamped_spans duration points).
Proof.
  intros Hmk. unfold clamped_spans.
  induction points as [|p rest IH]; intro n; [reflexivity|].
  destruct rest as [|q rest]; [reflexivity|].
  rewrite tag_split_loop_step, consecutive_pairs_step.
  cbn [map filter fst snd].
  rewrite long_enough_code, !clamp_to_video_Qminmax.
  destruct (long_enough (Qmax 0 (Qmin p duration), Qmax 0 (Qmin q duration))).
  - cbn [negb]. rewrite map_cons, Hmk, IH. reflexivity.
  - cbn [negb]. apply IH.
Qed.

Lemma match_nonempty {A B : Type} (l : list A) (a b : B) :
  l <> [] -> match l with [] => a | _ :: _ => b end = b.
Proof. destruct l; [contradiction | reflexivity]. Qed.

Lemma sort_nonempty {A : Type} (lt : A -> A -> bool) (l : list A) :
  l <> [] -> Py.sort lt l <> [].
Proof.
  intros Hne Hs. apply Hne. apply Permutation_nil.
  rewrite <- Hs. apply sort_permutation.
Qed.

(** ** Keyframe tags *)

Lemma closest_step_invariant (t : Q) (seen : list Q) (st : closest_state) (kf : Q) :
  closest_invariant t seen st ->
  closest_invariant t (seen ++ [kf]) (closest_step t st kf).
Proof.
  unfold closest_step, closest_invariant, within_tolerance.
  destruct st as [[c|] [m|]]; try contradiction; cbn [snd diff_below].
  - intros [Hm [Hc [Hw Hmin]]]. subst m.
    by_cases_on (Py.ltb (Qabs (kf - t)) 0.1).
    + by_cases_on (Py.ltb (Qabs (kf - t)) (Qabs (c - t))).
      * split; [reflexivity|]. split; [apply in_or_app; right; left; reflexivity|].
        split; [exact E|]. intros k Hk. apply in_app_or in Hk.
        destruct Hk as [Hk|[<-|[]]]; [|lra]. specialize (Hmin k Hk). lra.
      * split; [reflexivity|]. split; [apply in_or_app; left; exact Hc|].
        split; [exact Hw|]. intros k Hk. apply in_app_or in Hk.
        destruct Hk as [Hk|[<-|[]]]; [apply Hmin, Hk | exact E0].
    + split; [reflexivity|]. split; [apply in_or_app; left; exact Hc|].
      split; [exact Hw|]. intros k Hk. apply in_app_or in Hk.
      destruct Hk as [Hk|[<-|[]]]; [apply Hmin, Hk | lra].
  - intro Hnone. by_cases_on (Py.ltb (Qabs (kf - t)) 0.1).
    + split; [reflexivity|]. split; [apply in_or_app; right; left; reflexivity|].
      split; [exact E|]. intros k Hk. apply in_app_or in Hk.
      destruct Hk as [Hk|[<-|[]]]; [|lra].
      specialize (Hnone k Hk). lra.
    + intros k Hk. apply in_app_or in Hk.
      destruct Hk as [Hk|[<-|[]]]; [apply Hnone, Hk | lra].
Qed.

Lemma closest_loop_invariant (t : Q) (keyframes : list Q) :
  closest_invariant t keyframes (fold_left (closest_step t) keyframes (None, None)).
Proof.
  induction keyframes as [|kf seen IH] using rev_ind.
  - simpl. intros k [].
  - rewrite fold_left_app. simpl. apply closest_step_invariant, IH.
Qed.

Lemma find_closest_kf_some (t : Q) (keyframes : list Q) (c : Q) :
  find_closest_kf t keyframes = Some c ->
  In c keyframes /\ within_tolerance t c /\
  forall k, In k keyframes -> Qabs (c - t) <= Qabs (k - t).
Proof.
  unfold find_closest_kf. intro H.
  pose proof (closest_loop_invariant t keyframes) as Hinv.
  destruct (fold_left (closest_step t) keyframes (None, None)) as [[c'|] [m|]];
    simpl in H; try discriminate; try contradiction.
  inversion H; subst c'. destruct Hinv as [_ Hinv]. exact Hinv.
Qed.

Lemma find_closest_kf_none (t : Q) (keyframes : list Q) :
  find_closest_kf t keyframes = None ->
  forall k, In k keyframes -> ~ within_tolerance t k.
Proof.
  unfold find_closest_kf. intro H.
  pose proof (closest_loop_invariant t keyframes) as Hinv.
  destruct (fold_left (closest_step t) keyframes (None, None)) as [[c'|] [m|]];
    simpl in H; try discriminate; try contradiction.
  exact Hinv.
Qed.

Lemma remove_InA (x c : Q) (s : FloatSet.t) :
  InA Qeq x (FloatSet.remove c s) <-> InA Qeq x s /\ ~ x == c.
Proof.
  unfold FloatSet.remove. rewrite filter_InA.
  - rewrite negb_true_iff, eqb_neq. split; intros [H1 H2]; split; try exact H1.
    + intro H. apply H2. symmetry. exact H.
    + intro H. apply H2. symmetry. exact H.
  - intros a b Hab. unfold Py.eqb. rewrite Hab. reflexivity.
Qed.

(** ** Progress parser *)

(** What the parser needs to know about a decimal digit. *)
Lemma digit_facts (c : ascii) :
  Str.is_digit c = true ->
  Str.is_space c = false /\ Str.lower c = c /\
  Ascii.eqb c ":" = false /\ Ascii.eqb c "." = false /\
  Ascii.eqb c "-" = false /\ Ascii.eqb c "+" = false /\
  Ascii.eqb c "e" = false /\ Ascii.eqb c "i" = false /\ Ascii.eqb c "n" = false /\
  (0 <= Str.digit_value c <= 9)%Z.
Proof.
  destruct c as [[] [] [] [] [] [] [] []]; intro H; try discriminate H;
    vm_compute; repeat split; discriminate.
Qed.

Lemma all_digits_cons (c : ascii) (l : list ascii) :
  all_digits (c :: l) <-> Str.is_digit c = true /\ all_digits l.
Proof.
  unfold all_digits. split.
  - intro H. inversion H; subst. split; assumption.
  - intros [H1 H2]. constructor; assumption.
Qed.

Lemma strip_clean_ends (c z : ascii) (l1 l2 : list ascii) :
  c :: l1 = l2 ++ [z] -> Str.is_space c = false -> Str.is_space z = false ->
  Str.strip (c :: l1) = c :: l1.
Proof.
  intros Hl Hc Hz. unfold Str.strip.
  assert (H1 : Str.lstrip (c :: l1) = c :: l1) by (simpl; rewrite Hc; reflexivity).
  rewrite H1, Hl, rev_unit.
  assert (H2 : Str.lstrip (z :: rev l2) = z :: rev l2) by (simpl; rewrite Hz; reflexivity).
  rewrite H2. rewrite <- rev_unit. apply rev_involutive.
Qed.

Lemma strip_digit_ends (l : list ascii) :
  l <> [] -> (forall c, hd_error l = Some c -> Str.is_space c = false) ->
  (forall z, hd_error (rev l) = Some z -> Str.is_space z = false) ->
  Str.strip l = l.
Proof.
  intros Hne Hhd Hlast. destruct l as [|c l1]; [contradiction|].
  destruct (exists_last Hne) as [l2 [z Hz]].
  apply (strip_clean_ends c z l1 l2 Hz).
  - apply Hhd. reflexivity.
  - apply Hlast. rewrite Hz, rev_unit. reflexivity.
Qed.

Lemma digitpart_all (ds : list ascii) :
  all_digits ds ->
  forall acc n b, ds <> [] \/ b = true ->
    Parse.digitpart acc n b ds
    = Some (fold_left (fun a c => (a * 10 + Str.digit_value c)%Z) ds acc,
            (n + List.length ds)%nat).
Proof.
  intro Hd. induction Hd as [|c ds Hc Hds IH]; intros acc n b Hb.
  - destruct Hb as [Hb|Hb]; [contradiction|]. subst b. simpl.
    rewrite Nat.add_0_r. reflexivity.
  - simpl. rewrite Hc. rewrite IH; [|right; reflexivity].
    rewrite Nat.add_succ_r. reflexivity.
Qed.

Lemma digits_all (ds : list ascii) :
  all_digits ds -> ds <> [] ->
  Parse.digits ds = Some (number_of ds, List.length ds).
Proof.
  intros Hd Hne. unfold Parse.digits, number_of.
  rewrite (digitpart_all ds Hd); [reflexivity | left; exact Hne].
Qed.

Lemma all_digits_hd (ds : list ascii) (c : ascii) :
  all_digits ds -> hd_error ds = Some c -> Str.is_digit c = true.
Proof.
  intros Hd Hc. destruct ds as [|x ds]; [discriminate|].
  inversion Hc; subst. apply all_digits_cons in Hd. tauto.
Qed.

Lemma all_digits_rev (ds : list ascii) : all_digits ds -> all_digits (rev ds).
Proof. unfold all_digits. apply Forall_rev. Qed.

Lemma sign_digit_head (c : ascii) (l : list ascii) :
  Str.is_digit c = true -> Parse.sign (c :: l) = (false, c :: l).
Proof.
  intro Hc. destruct (digit_facts c Hc) as [_ [_ [_ [_ [Hm [Hp _]]]]]].
  unfold Parse.sign. rewrite Hm, Hp. reflexivity.
Qed.

(** [int] of a plain string of digits. *)
Lemma py_int_digits (ds : list ascii) :
  all_digits ds -> ds <> [] -> Parse.py_int ds = Some (number_of ds).
Proof.
  intros Hd Hne. unfold Parse.py_int.
  rewrite strip_digit_ends; [|exact Hne| |].
  - destruct ds as [|c ds']; [contradiction|].
    rewrite sign_digit_head by (apply all_digits_cons in Hd; tauto).
    rewrite digits_all by assumption. reflexivity.
  - intros c Hc. apply (digit_facts c). apply (all_digits_hd ds); assumption.
  - intros z Hz. apply (digit_facts z).
    apply (all_digits_hd (rev ds)); [apply all_digits_rev|]; assumption.
Qed.

Lemma break_none (p : ascii -> bool) (l : list ascii) :
  Forall (fun c => p c = false) l -> Parse.break p l = (l, None).
Proof.
  intro H. induction H as [|c l Hc Hl IH]; simpl; [reflexivity|].
  rewrite Hc, IH. reflexivity.
Qed.

Lemma break_first (p : ascii -> bool) (l1 l2 : list ascii) (x : ascii) :
  Forall (fun c => p c = false) l1 -> p x = true ->
  Parse.break p (l1 ++ x :: l2) = (l1, Some l2).
Proof.
  intros H Hx. induction H as [|c l Hc Hl IH]; simpl.
  - rewrite Hx. reflexivity.
  - rewrite Hc, IH. reflexivity.
Qed.

Lemma split_no_sep (sep : ascii) (l : list ascii) :
  Forall (fun c => Ascii.eqb c sep = false) l -> Str.split sep l = [l].
Proof.
  intro H. induction H as [|c l Hc Hl IH]; simpl; [reflexivity|].
  rewrite Hc, IH. reflexivity.
Qed.

Lemma split_first (sep : ascii) (l1 l2 : list ascii) :
  Forall (fun c => Ascii.eqb c sep = false) l1 ->
  Str.split sep (l1 ++ sep :: l2) = l1 :: Str.split sep l2.
Proof.
  intro H. induction H as [|c l Hc Hl IH]; simpl.
  - rewrite Ascii.eqb_refl. reflexivity.
  - rewrite Hc, IH. reflexivity.
Qed.

Lemma not_special_literal (c : ascii) (l : list ascii) :
  Ascii.eqb c "i" = false -> Ascii.eqb c "n" = false ->
  Str.eqb (c :: l) (list_ascii_of_string "inf")
  || Str.eqb (c :: l) (list_ascii_of_string "infinity") = false /\
  Str.eqb (c :: l) (list_ascii_of_string "nan") = false.
Proof.
  intros Hi Hn. unfold Str.eqb. simpl. rewrite Hi, Hn. split; reflexivity.
Qed.

(** [float] of a plain decimal [ss.ff]. *)
Lemma py_float_decimal (ss ff : list ascii) :
  all_digits ss -> all_digits ff -> ss <> [] -> ff <> [] ->
  Parse.py_float (ss ++ "."%char :: ff)
  = Some (Finite (inject_Z (number_of ss)
                  + inject_Z (number_of ff) / inject_Z (10 ^ Z.of_nat (List.length ff)))).
Proof.
  intros Hss Hff Hns Hnf. unfold Parse.py_float.
  assert (Hlow : map Str.lower (ss ++ "."%char :: ff) = ss ++ "."%char :: ff).
  { rewrite map_app. simpl. f_equal; [|f_equal].
    - rewrite <- (map_id ss) at 2. apply map_ext_in. intros c Hc.
      apply (digit_facts c). unfold all_digits in Hss. rewrite Forall_forall in Hss.
      apply Hss, Hc.
    - rewrite <- (map_id ff) at 2. apply map_ext_in. intros c Hc.
      apply (digit_facts c). unfold all_digits in Hff. rewrite Forall_forall in Hff.
      apply Hff, Hc. }
  rewrite strip_digit_ends.
  - destruct ss as [|c ss']; [contradiction|].
    assert (Hc : Str.is_digit c = true) by (apply all_digits_cons in Hss; tauto).
    change ((c :: ss') ++ "."%char :: ff) with (c :: (ss' ++ "."%char :: ff)) in *.
    rewrite sign_digit_head by exact Hc.
    rewrite Hlow.
    destruct (digit_facts c Hc) as [_ [_ [_ [_ [_ [_ [_ [Hi [Hn _]]]]]]]]].
    destruct (not_special_literal c (ss' ++ "."%char :: ff) Hi Hn) as [H1 H2].
    rewrite H1, H2.
    unfold Parse.floatnumber. rewrite break_none.
    + unfold Parse.number.
      change (c :: ss' ++ "."%char :: ff) with ((c :: ss') ++ "."%char :: ff).
      rewrite break_first.
      * destruct ff as [|f ff']; [contradiction|].
        rewrite !digits_all by assumption. reflexivity.
      * unfold all_digits in Hss. eapply Forall_impl; [|exact Hss].
        intros a Ha. apply (digit_facts a Ha).
      * reflexivity.
    + change (c :: ss' ++ "."%char :: ff) with ((c :: ss') ++ "."%char :: ff).
      apply Forall_app. split; [|constructor; [reflexivity|]].
      * unfold all_digits in Hss. eapply Forall_impl; [|exact Hss].
        intros a Ha. destruct (digit_facts a Ha) as [_ [Hl [_ [_ [_ [_ [He _]]]]]]].
        rewrite Hl. exact He.
      * unfold all_digits in Hff. eapply Forall_impl; [|exact Hff].
        intros a Ha. destruct (digit_facts a Ha) as [_ [Hl [_ [_ [_ [_ [He _]]]]]]].
        rewrite Hl. exact He.
  - destruct ss; [contradiction | discriminate].
  - intros c Hc. apply (digit_facts c). destruct ss as [|x ss']; [contradiction|].
    inversion Hc; subst. apply all_digits_cons in Hss. tauto.
  - intros z Hz. apply (digit_facts z). rewrite rev_app_distr in Hz. simpl in Hz.
    pose proof (all_digits_rev ff Hff) as Hrev.
    destruct (rev ff) as [|y r] eqn:Hr.
    + exfalso. apply Hnf. rewrite <- (rev_involutive ff), Hr. reflexivity.
    + simpl in Hz. inversion Hz; subst. apply all_digits_cons in Hrev. tauto.
Qed.

Lemma digits_no_colon (ds : list ascii) :
  all_digits ds -> Forall (fun c => Ascii.eqb c ":" = false) ds.
Proof.
  unfold all_digits. intro H. eapply Forall_impl; [|exact H].
  intros a Ha. apply (digit_facts a Ha).
Qed.

Lemma split_time_token (hh mm ss ff : list ascii) :
  all_digits hh -> all_digits mm -> all_digits ss -> all_digits ff ->
  Str.split ":" (time_token hh mm ss ff) = [hh; mm; ss ++ "."%char :: ff].
Proof.
  intros Hh Hm Hs Hf. unfold time_token. cbn [app].
  rewrite split_first by (apply digits_no_colon; exact Hh).
  rewrite split_first by (apply digits_no_colon; exact Hm).
  rewrite split_no_sep; [reflexivity|].
  apply Forall_app. split; [apply digits_no_colon; exact Hs|].
  constructor; [reflexivity | apply digits_no_colon; exact Hf].
Qed.

Lemma number_of_nonneg (ds : list ascii) : all_digits ds -> (0 <= number_of ds)%Z.
Proof.
  unfold number_of. intro Hd.
  assert (G : forall acc, (0 <= acc)%Z ->
            (0 <= fold_left (fun a c => (a * 10 + Str.digit_value c)%Z) ds acc)%Z).
  { induction Hd as [|c ds Hc Hds IH]; intros acc Hacc; simpl; [exact Hacc|].
    apply IH. destruct (digit_facts c Hc) as [_ [_ [_ [_ [_ [_ [_ [_ [_ Hv]]]]]]]]]. lia. }
  apply G. lia.
Qed.

Lemma inject_Z_nonneg (z : Z) : (0 <= z)%Z -> 0 <= inject_Z z.
Proof. intro H. unfold Qle. simpl. lia. Qed.

Lemma inject_Z_pos (z : Z) : (0 < z)%Z -> 0 < inject_Z z.
Proof. intro H. unfold Qlt. simpl. lia. Qed.

Lemma token_seconds_nonneg (hh mm ss ff : list ascii) :
  all_digits hh -> all_digits mm -> all_digits ss -> all_digits ff ->
  0 <= token_seconds hh mm ss ff.
Proof.
  intros Hh Hm Hs Hf. unfold token_seconds.
  assert (H1 : 0 <= inject_Z (number_of hh))
    by (apply inject_Z_nonneg, number_of_nonneg; exact Hh).
  assert (H2 : 0 <= inject_Z (number_of mm))
    by (apply inject_Z_nonneg, number_of_nonneg; exact Hm).
  assert (H3 : 0 <= inject_Z (number_of ss))
    by (apply inject_Z_nonneg, number_of_nonneg; exact Hs).
  assert (H4 : 0 <= inject_Z (number_of ff))
    by (apply inject_Z_nonneg, number_of_nonneg; exact Hf).
  assert (H5 : 0 < inject_Z (10 ^ Z.of_nat (List.length ff))).
  { apply inject_Z_pos. apply Z.pow_pos_nonneg; lia. }
  assert (H6 : 0 <= inject_Z (number_of ff) / inject_Z (10 ^ Z.of_nat (List.length ff))).
  { apply Qle_shift_div_l; [exact H5|]. lra. }
  lra.
Qed.

(** The seconds of a time token: [h*3600 + m*60 + s]. *)
Lemma time_token_to_seconds (hh mm ss ff : list ascii) :
  all_digits hh -> all_digits mm -> all_digits ss -> all_digits ff ->
  hh <> [] -> mm <> [] -> ss <> [] -> ff <> [] ->
  exists q, time_str_to_seconds (string_of_list_ascii (time_token hh mm ss ff)) = Finite q
            /\ q == token_seconds hh mm ss ff.
Proof.
  intros Hh Hm Hs Hf Nh Nm Ns Nf. unfold time_str_to_seconds.
  rewrite list_ascii_of_string_of_list_ascii.
  rewrite split_time_token by assumption.
  unfold time_parts_to_seconds.
  rewrite !py_int_digits, py_float_decimal by assumption.
  cbn [int_plus_float]. eexists. split; [reflexivity|].
  unfold token_seconds. rewrite inject_Z_plus, !inject_Z_mult.
  change (inject_Z 3600) with 3600. change (inject_Z 60) with 60. ring.
Qed.

Lemma lit_some (c : ascii) (l l' : list ascii) :
  TimeRegex.lit c l = Some l' -> l = c :: l'.
Proof.
  unfold TimeRegex.lit. destruct l as [|x l0]; [discriminate|].
  destruct (Ascii.eqb x c) eqn:E; [|discriminate].
  apply Ascii.eqb_eq in E. intro H. inversion H; subst. reflexivity.
Qed.

Lemma two_digits_some (l d l' : list ascii) :
  TimeRegex.two_digits l = Some (d, l') ->
  l = d ++ l' /\ all_digits d /\ List.length d = 2%nat.
Proof.
  unfold TimeRegex.two_digits. destruct l as [|a [|b l0]]; try discriminate.
  destruct (Str.is_digit a) eqn:Ea; [|discriminate].
  destruct (Str.is_digit b) eqn:Eb; [|discriminate].
  simpl. intro H. inversion H; subst. split; [reflexivity|]. split; [|reflexivity].
  repeat constructor; assumption.
Qed.

Lemma digit_run_all (l : list ascii) : all_digits (TimeRegex.digit_run l).
Proof.
  induction l as [|c l IH]; simpl; [constructor|].
  destruct (Str.is_digit c) eqn:E; constructor; assumption.
Qed.

Lemma bind_some {A B : Type} (o : option A) (f : A -> option B) (y : B) :
  TimeRegex.bind o f = Some y -> exists a, o = Some a /\ f a = Some y.
Proof.
  destruct o as [a|]; [|discriminate]. intro H. exists a. split; [reflexivity | exact H].
Qed.

(** Group 1 of a match is a time token of two-digit hours, minutes and seconds
    and at least two digits of fraction. *)
Lemma match_here_token (l tok : list ascii) :
  TimeRegex.match_here l = Some tok ->
  exists hh mm ss ff,
    tok = time_token hh mm ss ff /\
    all_digits hh /\ all_digits mm /\ all_digits ss /\ all_digits ff /\
    List.length hh = 2%nat /\ List.length mm = 2%nat /\ List.length ss = 2%nat /\
    (2 <= List.length ff)%nat.
Proof.
  unfold TimeRegex.match_here. intro H.
  apply bind_some in H. destruct H as [l1 [_ H]].
  apply bind_some in H. destruct H as [l2 [_ H]].
  apply bind_some in H. destruct H as [l3 [_ H]].
  apply bind_some in H. destruct H as [l4 [_ H]].
  apply bind_some in H. destruct H as [l5 [_ H]].
  apply bind_some in H. destruct H as [[hh l6] [Hhh H]].
  apply bind_some in H. destruct H as [l7 [_ H]].
  apply bind_some in H. destruct H as [[mm l8] [Hmm H]].
  apply bind_some in H. destruct H as [l9 [_ H]].
  apply bind_some in H. destruct H as [[ss l10] [Hss H]].
  apply bind_some in H. destruct H as [l11 [_ H]].
  cbv zeta in H.
  destruct (2 <=? List.length (TimeRegex.digit_run l11))%nat eqn:Hlen; [|discriminate].
  inversion H; subst tok. clear H.
  apply two_digits_some in Hhh. apply two_digits_some in Hmm. apply two_digits_some in Hss.
  exists hh, mm, ss, (TimeRegex.digit_run l11).
  split; [reflexivity|]. apply Nat.leb_le in Hlen.
  pose proof (digit_run_all l11). tauto.
Qed.

Lemma search_token (l tok : list ascii) :
  TimeRegex.search l = Some tok -> exists l', TimeRegex.match_here l' = Some tok.
Proof.
  induction l as [|c l IH].
  - intro H. vm_compute in H. discriminate H.
  - cbn [TimeRegex.search]. destruct (TimeRegex.match_here (c :: l)) eqn:E.
    + intro H. inversion H; subst. exists (c :: l). exact E.
    + exact IH.
Qed.

Lemma int_of_float_floor (q : Q) : 0 <= q -> int_of_float q = Qfloor q.
Proof.
  intro H. destruct q as [n d]. unfold int_of_float, Qfloor. simpl.
  apply Z.quot_div_nonneg; [|lia].
  unfold Qle in H. simpl in H. lia.
Qed.

Lemma percentage_nonneg (q total : Q) : 0 <= q -> 0 < total -> 0 <= q / total * 100.
Proof.
  intros Hq Ht. apply Qmult_le_0_compat; [|lra].
  apply Qle_shift_div_l; [exact Ht | lra].
Qed.

(** The seconds of a matched token are finite, so [int] in the progress branch
    never raises. *)
Lemma progress_of_line_never_raises (has_callback : bool) (total_duration : option Q)
  (line : string) :
  progress_of_line has_callback total_duration line <> IntRaises.
Proof.
  unfold progress_of_line. destruct total_duration as [total|]; [|discriminate].
  destruct (has_callback && negb (Py.eqb total 0) && Py.ltb 0 total); [|discriminate].
  destruct (TimeRegex.search (Str.strip (list_ascii_of_string line))) as [tok|] eqn:Hs;
    [|discriminate].
  destruct (search_token _ _ Hs) as [l' Hm].
  destruct (match_here_token _ _ Hm)
    as [hh [mm [ss [ff [Htok [Hh [Hmm [Hss [Hf [Lh [Lm [Ls Lf]]]]]]]]]]]].
  assert (Nh : hh <> []) by (intro; subst hh; discriminate).
  assert (Nm : mm <> []) by (intro; subst mm; discriminate).
  assert (Ns : ss <> []) by (intro; subst ss; discriminate).
  assert (Nf : ff <> []) by (intro; subst ff; simpl in Lf; lia).
  destruct (time_token_to_seconds hh mm ss ff Hh Hmm Hss Hf Nh Nm Ns Nf) as [q [Hq _]].
  rewrite Htok, Hq. discriminate.
Qed.

(** ** Executor: what the [try] block does to the state *)

Lemma try_step_refl (st : worker_state) : try_step st st.
Proof.
  unfold try_step. split; [tauto|]. split; [reflexivity|].
  exists []. split; [symmetry; apply app_nil_r | constructor].
Qed.

Lemma try_step_trans (st1 st2 st3 : worker_state) :
  try_step st1 st2 -> try_step st2 st3 -> try_step st1 st3.
Proof.
  unfold try_step. intros [A1 [B1 [es1 [E1 F1]]]] [A2 [B2 [es2 [E2 F2]]]].
  split; [tauto|]. split.
  - intro H. rewrite B2 by exact H. apply B1. intro H1. apply H, A2, H1.
  - exists (es1 ++ es2). split.
    + rewrite E2, E1, app_assoc. reflexivity.
    + apply Forall_app. split; assumption.
Qed.

Lemma bindM_inv {A B : Type} (m : M A) (f : A -> M B) (st st' : worker_state)
  (r : result B) :
  bindM m f st = (r, st') ->
  (exists a st1, m st = (Done a, st1) /\ f a st1 = (r, st')) \/
  (exists e, m st = (Raised e, st') /\ r = Raised e) \/
  (m st = (Returned, st') /\ r = Returned).
Proof.
  unfold bindM. destruct (m st) as [[a|e|] st1]; intro H.
  - left. exists a, st1. split; [reflexivity | exact H].
  - right. left. inversion H; subst. exists e. split; reflexivity.
  - right. right. inversion H; subst. split; reflexivity.
Qed.

(** A step of the monad that keeps [try_step], and what follows it. *)
Lemma bindM_step {A B : Type} (m : M A) (f : A -> M B) (st st' : worker_state)
  (r : result B) :
  bindM m f st = (r, st') ->
  (forall r1 st1, m st = (r1, st1) -> try_step st st1) ->
  (forall a st1, m st = (Done a, st1) -> f a st1 = (r, st') -> try_step st1 st') ->
  try_step st st'.
Proof.
  intros H Hm Hf. destruct (bindM_inv m f st st' r H) as [[a [st1 [H1 H2]]]|[[e [H1 _]]|[H1 _]]].
  - eapply try_step_trans; [apply (Hm _ _ H1) | apply (Hf a st1 H1 H2)].
  - apply (Hm _ _ H1).
  - apply (Hm _ _ H1).
Qed.

Lemma add_event_step (e : event) (st : worker_state) :
  (forall m, e <> error m) -> try_step st (add_event e st).
Proof.
  intro He. unfold try_step, dir_assigned. simpl. split; [tauto|]. split; [reflexivity|].
  exists [e]. split; [reflexivity | constructor; [exact He | constructor]].
Qed.

Lemma emit_step (e : event) (st st' : worker_state) (r : result unit) :
  (forall m, e <> error m) -> emit e st = (r, st') -> try_step st st'.
Proof.
  intros He H. unfold emit, modify in H. inversion H; subst.
  apply add_event_step, He.
Qed.

Lemma same_events_step (st st' : worker_state) :
  emitted st' = emitted st -> temp_dir_exists st' = temp_dir_exists st ->
  (dir_assigned st -> dir_assigned st') -> try_step st st'.
Proof.
  intros He Hx Hd. unfold try_step. split; [exact Hd|]. split; [intros _; exact Hx|].
  exists []. rewrite He. split; [symmetry; apply app_nil_r | constructor].
Qed.

Lemma is_cancelled_step (env : environment) (st st' : worker_state) (r : result bool) :
  is_cancelled env st = (r, st') -> try_step st st'.
Proof.
  unfold is_cancelled. intro H. inversion H; subst.
  apply same_events_step; simpl; tauto.
Qed.

Lemma set_loop_index_step (i : nat) (st st' : worker_state) (r : result unit) :
  set_loop_index i st = (r, st') -> try_step st st'.
Proof.
  unfold set_loop_index, modify. intro H. inversion H; subst.
  apply same_events_step; simpl; tauto.
Qed.

Lemma set_temp_concat_dir_step (d : string) (st st' : worker_state) (r : result unit) :
  set_temp_concat_dir d st = (r, st') -> try_step st st' /\ dir_assigned st'.
Proof.
  unfold set_temp_concat_dir, modify. intro H. inversion H; subst. split.
  - apply same_events_step; simpl; try tauto. unfold dir_assigned. simpl. discriminate.
  - unfold dir_assigned. simpl. discriminate.
Qed.

Lemma makedirs_step (env : environment) (i : nat) (st st' : worker_state)
  (r : result unit) :
  dir_assigned st -> makedirs env i st = (r, st') -> try_step st st'.
Proof.
  unfold makedirs. intros Hd H. destruct (makedirs_error env i).
  - inversion H; subst. apply try_step_refl.
  - unfold modify in H. inversion H; subst. unfold try_step, dir_assigned in *. simpl.
    split; [tauto|]. split; [tauto|].
    exists []. split; [symmetry; apply app_nil_r | constructor].
Qed.

Lemma write_concat_list_step (env : environment) (i : nat) (lines : list string)
  (st st' : worker_state) (r : result unit) :
  write_concat_list env i lines st = (r, st') -> try_step st st'.
Proof.
  unfold write_concat_list. intro H. destruct (open_error env i).
  - inversion H; subst. apply try_step_refl.
  - unfold modify in H. inversion H; subst. apply same_events_step; simpl; tauto.
Qed.

Lemma read_lines_no_error (has_callback : bool) (total : option Q)
  (callback : progress_callback_t) (lines : list string) :
  Forall (fun e => is_segment_processed e = false /\ forall m, e <> error m)
    (fst (read_lines has_callback total callback lines)).
Proof.
  induction lines as [|line lines IH]; simpl; [constructor|].
  destruct (progress_of_line has_callback total line); [exact IH| |constructor].
  destruct (read_lines has_callback total callback lines) as [es raised]. simpl in *.
  constructor; [|exact IH]. unfold call. split; [reflexivity | discriminate].
Qed.

Lemma FfmpegProcess_run_step (env : environment) (cmd : ffmpeg_command)
  (total : option Q) (cb : option progress_callback_t) (st st' : worker_state)
  (r : result (bool * string)) :
  FfmpegProcess_run env cmd total cb st = (r, st') -> try_step st st'.
Proof.
  unfold FfmpegProcess_run. intro H.
  pose proof (read_lines_no_error
                (match cb with Some _ => true | None => false end) total
                (match cb with Some f => f | None => pair end)
                (output_lines (ffmpeg env (ffmpeg_runs st)))) as Hne.
  destruct (read_lines _ total _ (output_lines (ffmpeg env (ffmpeg_runs st))))
    as [es raised].
  simpl in Hne.
  assert (Hst : try_step st
            (mkWorkerState (emitted st ++ es) (temp_dir_exists st) (temp_concat_dir st)
               (loop_index st) (flag_reads st) (S (ffmpeg_runs st)) (launched st ++ [cmd])
               (concat_list st))).
  { unfold try_step, dir_assigned. simpl. split; [tauto|]. split; [reflexivity|].
    exists es. split; [reflexivity|]. eapply Forall_impl; [|exact Hne].
    simpl. tauto. }
  destruct raised; inversion H; subst; exact Hst.
Qed.

Lemma raise_step {A : Type} (e : exn) (st st' : worker_state) (r : result A) :
  raise e st = (r, st') -> try_step st st'.
Proof. unfold raise. intro H. inversion H; subst. apply try_step_refl. Qed.

Lemma ret_step {A : Type} (a : A) (st st' : worker_state) (r : result A) :
  ret a st = (r, st') -> try_step st st'.
Proof. unfold ret. intro H. inversion H; subst. apply try_step_refl. Qed.

Lemma cut_segments_step (env : environment) (d : format_details) (dir : string)
  (i total n_segments : nat) (segs : list (Q * Q)) :
  forall seg_idx st r st',
    cut_segments env d dir i total n_segments seg_idx segs st = (r, st') ->
    try_step st st'.
Proof.
  induction segs as [|[seg_start seg_end] segs IH]; intros seg_idx st r st' H.
  - apply (ret_step _ _ _ _ H).
  - cbn [cut_segments] in H.
    apply (bindM_step _ _ _ _ _ H); [intros; eapply is_cancelled_step; eassumption|].
    intros c st1 _ H1. destruct c; [apply (raise_step _ _ _ _ H1)|].
    apply (bindM_step _ _ _ _ _ H1); [intros; eapply FfmpegProcess_run_step; eassumption|].
    intros res st2 _ H2. destruct (fst res); [|apply (raise_step _ _ _ _ H2)].
    apply (bindM_step _ _ _ _ _ H2); [intros; eapply IH; eassumption|].
    intros files st3 _ H3. apply (ret_step _ _ _ _ H3).
Qed.

Lemma run_task_step (env : environment) (i total : nat) (task_info : task)
  (st st' : worker_state) (r : result unit) :
  run_task env i total task_info st = (r, st') -> try_step st st'.
Proof.
  unfold run_task. intro H.
  destruct (lookup_format _ OUTPUT_FORMATS) as [d|]; [|apply (raise_step _ _ _ _ H)].
  apply (bindM_step _ _ _ _ _ H);
    [intros; eapply emit_step; [|eassumption]; discriminate|].
  intros [] st1 _ H1. destruct task_info as [p k segs g|p k s e g].
  - destruct (bindM_inv _ _ _ _ _ H1) as [[[] [st2 [Ha Hb]]]|[[e [Ha _]]|[Ha _]]];
      try (apply set_temp_concat_dir_step in Ha; tauto).
    apply set_temp_concat_dir_step in Ha. destruct Ha as [Ha Hd].
    apply (try_step_trans _ _ _ Ha).
    apply (bindM_step _ _ _ _ _ Hb); [intros; eapply makedirs_step; eassumption|].
    intros [] st3 _ H3.
    apply (bindM_step _ _ _ _ _ H3); [intros; eapply cut_segments_step; eassumption|].
    intros files st4 _ H4.
    apply (bindM_step _ _ _ _ _ H4); [intros; eapply write_concat_list_step; eassumption|].
    intros [] st5 _ H5.
    destruct (concat_args d) as [args|]; [|apply (raise_step _ _ _ _ H5)].
    apply (bindM_step _ _ _ _ _ H5); [intros; eapply FfmpegProcess_run_step; eassumption|].
    intros res st6 _ H6. destruct (fst res).
    + eapply emit_step; [|exact H6]. discriminate.
    + apply (raise_step _ _ _ _ H6).
  - apply (bindM_step _ _ _ _ _ H1); [intros; eapply FfmpegProcess_run_step; eassumption|].
    intros res st2 _ H2. destruct (fst res).
    + eapply emit_step; [|exact H2]. discriminate.
    + apply (raise_step _ _ _ _ H2).
Qed.

Lemma task_loop_step (env : environment) (total : nat) (tasks : list task) :
  forall i st r st', task_loop env total i tasks st = (r, st') -> try_step st st'.
Proof.
  induction tasks as [|t tasks IH]; intros i st r st' H.
  - apply (ret_step _ _ _ _ H).
  - cbn [task_loop] in H.
    apply (bindM_step _ _ _ _ _ H); [intros; eapply set_loop_index_step; eassumption|].
    intros [] st1 _ H1.
    apply (bindM_step _ _ _ _ _ H1); [intros; eapply is_cancelled_step; eassumption|].
    intros c st2 _ H2. destruct c.
    + apply (bindM_step _ _ _ _ _ H2);
        [intros; eapply emit_step; [|eassumption]; discriminate|].
      intros [] st3 _ H3. unfold return_ in H3. inversion H3; subst. apply try_step_refl.
    + apply (bindM_step _ _ _ _ _ H2); [intros; eapply run_task_step; eassumption|].
      intros [] st3 _ H3. apply (IH _ _ _ _ H3).
Qed.

Lemma try_block_step (env : environment) (tasks : list task)
  (st st' : worker_state) (r : result unit) :
  try_block env tasks st = (r, st') -> try_step st st'.
Proof.
  unfold try_block. intro H.
  apply (bindM_step _ _ _ _ _ H); [intros; eapply task_loop_step; eassumption|].
  intros [] st1 _ H1. eapply emit_step; [|exact H1]. discriminate.
Qed.

(** ** Executor: the temporary directory *)

Lemma handle_fields (env : environment) (e : exn) (st : worker_state) :
  temp_concat_dir (handle env e st) = temp_concat_dir st /\
  temp_dir_exists (handle env e st) = temp_dir_exists st.
Proof. destruct e; simpl; split; reflexivity. Qed.

Lemma try_except_dir (env : environment) (tasks : list task) (st : worker_state) :
  ~ dir_assigned (try_except env tasks st) ->
  temp_dir_exists (try_except env tasks st) = temp_dir_exists st.
Proof.
  unfold try_except. destruct (try_block env tasks st) as [r st1] eqn:E.
  apply try_block_step in E. destruct E as [_ [Hx _]].
  destruct r as [[]|e|]; try exact Hx.
  unfold dir_assigned. destruct (handle_fields env e st1) as [-> ->]. exact Hx.
Qed.

Lemma cleanup_signals (env : environment) (st : worker_state) :
  signals (emitted (cleanup env st)) = signals (emitted st) /\
  terminal_report (cleanup env st) = terminal_report st.
Proof.
  unfold cleanup. destruct (temp_concat_dir st); [|split; reflexivity].
  destruct (temp_dir_exists st); [|split; reflexivity].
  destruct (rmtree_error env); [|split; reflexivity].
  unfold signals, terminal_report. simpl. rewrite !filter_app. simpl.
  rewrite !app_nil_r. split; reflexivity.
Qed.

(** C8.  Whatever the tasks, the encoder, the file system and the cancellation
    do: when [run] ends, a temporary directory set up by a concat task is gone
    if its removal did not fail; a run that set up none leaves the file system
    as it was; a failing removal prints one warning, emits no signal and changes
    neither the signals nor the terminal report of the run.  The directory is
    gone after a successful, a failed and a cancelled concat run. *)
Theorem temp_dir_removed_on_every_outcome (env : environment) (tasks : list task)
  (exists0 : bool) :
  let before := try_except env tasks (initial_state exists0) in
  let final := run env tasks (initial_state exists0) in
  (dir_assigned before -> rmtree_error env = None -> temp_dir_exists final = false) /\
  (~ dir_assigned before -> temp_dir_exists final = exists0) /\
  (rmtree_error env = None -> exists0 = false -> temp_dir_exists final = false) /\
  (forall e_rm, rmtree_error env = Some e_rm ->
     dir_assigned before -> temp_dir_exists before = true ->
     exists dir,
       temp_concat_dir before = Some dir /\
       emitted final
         = emitted before
             ++ [print ("Warning: Could not remove temp directory " ++ dir ++ ": " ++ e_rm)]) /\
  signals (emitted final) = signals (emitted before) /\
  terminal_report final = terminal_report before /\
  (let ok := run (example_env None encoder_ok None) one_concat (initial_state false) in
   terminal_report ok = Some (finished "/out/video_edited.mkv") /\
   dir_assigned ok /\ temp_dir_exists ok = false) /\
  (let failed := run (example_env None encoder_failing None) one_concat
                   (initial_state false) in
   terminal_report failed
     = Some (error "Failed to cut segment 1: FFmpeg failed (code 1): Error opening input") /\
   dir_assigned failed /\ temp_dir_exists failed = false) /\
  (let cancelled := run (example_env (Some 2%nat) encoder_ok None) one_concat
                      (initial_state false) in
   terminal_report cancelled
     = Some (error "Cancelled during segment cutting for concat.") /\
   dir_assigned cancelled /\ temp_dir_exists cancelled = false).
Proof.
  intros before final.
  assert (H1 : dir_assigned before -> rmtree_error env = None ->
               temp_dir_exists final = false).
  { intros Hd Hrm. unfold final, run. fold before. unfold cleanup.
    unfold dir_assigned in Hd. destruct (temp_concat_dir before); [|contradiction].
    destruct (temp_dir_exists before) eqn:Ex; [|exact Ex].
    rewrite Hrm. reflexivity. }
  assert (H2 : ~ dir_assigned before -> temp_dir_exists final = exists0).
  { intro Hd. unfold final, run. fold before. unfold cleanup.
    pose proof (try_except_dir env tasks (initial_state exists0) Hd) as Hx.
    fold before in Hx. simpl in Hx.
    unfold dir_assigned in Hd. destruct (temp_concat_dir before); [|exact Hx].
    exfalso. apply Hd. discriminate. }
  repeat apply conj.
  - exact H1.
  - exact H2.
  - intros Hrm Hx. destruct (temp_concat_dir before) eqn:Ed.
    + apply H1; [unfold dir_assigned; rewrite Ed; discriminate | exact Hrm].
    + rewrite <- Hx. apply H2. unfold dir_assigned. rewrite Ed. tauto.
  - intros e_rm Hrm Hd Hx. unfold final, run. fold before. unfold cleanup.
    unfold dir_assigned in Hd. destruct (temp_concat_dir before) as [dir|]; [|contradiction].
    exists dir. rewrite Hx, Hrm. split; reflexivity.
  - apply cleanup_signals.
  - apply cleanup_signals.
  - vm_compute. reflexivity.
  - unfold dir_assigned. vm_compute. discriminate.
  - vm_compute. reflexivity.
  - vm_compute. reflexivity.
  - unfold dir_assigned. vm_compute. discriminate.
  - vm_compute. reflexivity.
  - vm_compute. reflexivity.
  - unfold dir_assigned. vm_compute. discriminate.
  - vm_compute. reflexivity.
Qed.

Lemma temp_dir_removed_on_every_outcome_witness :
  let env := example_env None encoder_ok (Some "Permission denied"%string) in
  let before := try_except env one_concat (initial_state false) in
  let final := run env one_concat (initial_state false) in
  exists dir,
    temp_concat_dir before = Some dir /\
    emitted final
      = emitted before
          ++ [print ("Warning: Could not remove temp directory " ++ dir
                       ++ ": " ++ "Permission denied")].
Proof.
  apply (proj1 (proj2 (proj2 (proj2
           (temp_dir_removed_on_every_outcome
              (example_env None encoder_ok (Some "Permission denied"%string))
              one_concat false))))).
  - reflexivity.
  - unfold dir_assigned. vm_compute. discriminate.
  - vm_compute. reflexivity.
Defined.

(** ** Executor: cancellation *)

Lemma bindM_done {A B : Type} (m : M A) (f : A -> M B) (st st' : worker_state) (b : B) :
  bindM m f st = (Done b, st') ->
  exists a st1, m st = (Done a, st1) /\ f a st1 = (Done b, st').
Proof.
  intro H. destruct (bindM_inv m f st st' _ H) as [H1|[[e [_ H1]]|[_ H1]]];
    [exact H1 | discriminate | discriminate].
Qed.

Lemma processed_count_add (e : event) (st : worker_state) :
  processed_count (add_event e st)
  = (processed_count st + if is_segment_processed e then 1 else 0)%nat.
Proof.
  unfold processed_count. simpl. rewrite filter_app, length_app. simpl.
  destruct (is_segment_processed e); reflexivity.
Qed.

Lemma quiet_same_events (st st' : worker_state) :
  emitted st' = emitted st -> quiet_step st st'.
Proof. unfold quiet_step, processed_count. intros ->. reflexivity. Qed.

Lemma quiet_trans (st1 st2 st3 : worker_state) :
  quiet_step st1 st2 -> quiet_step st2 st3 -> quiet_step st1 st3.
Proof. unfold quiet_step. intros H1 H2. rewrite H2. exact H1. Qed.

Lemma is_cancelled_quiet (env : environment) (st st' : worker_state) (r : result bool) :
  is_cancelled env st = (r, st') -> quiet_step st st'.
Proof.
  unfold is_cancelled. intro H. inversion H; subst. apply quiet_same_events. reflexivity.
Qed.

Lemma FfmpegProcess_run_quiet (env : environment) (cmd : ffmpeg_command)
  (total : option Q) (cb : option progress_callback_t) (st st' : worker_state)
  (r : result (bool * string)) :
  FfmpegProcess_run env cmd total cb st = (r, st') ->
  quiet_step st st' /\ launched st' = launched st ++ [cmd].
Proof.
  unfold FfmpegProcess_run. intro H.
  pose proof (read_lines_no_error
                (match cb with Some _ => true | None => false end) total
                (match cb with Some f => f | None => pair end)
                (output_lines (ffmpeg env (ffmpeg_runs st)))) as Hne.
  destruct (read_lines _ total _ (output_lines (ffmpeg env (ffmpeg_runs st))))
    as [es raised].
  simpl in Hne.
  assert (Hq : filter is_segment_processed es = []).
  { clear H. induction Hne as [|e es [He _] Hes IH]; simpl; [reflexivity|].
    rewrite He. exact IH. }
  assert (Hst : quiet_step st
            (mkWorkerState (emitted st ++ es) (temp_dir_exists st) (temp_concat_dir st)
               (loop_index st) (flag_reads st) (S (ffmpeg_runs st)) (launched st ++ [cmd])
               (concat_list st))).
  { unfold quiet_step, processed_count. simpl. rewrite filter_app, Hq, app_nil_r.
    reflexivity. }
  destruct raised; inversion H; subst; split; try exact Hst; reflexivity.
Qed.

Lemma cut_segments_quiet (env : environment) (d : format_details) (dir : string)
  (i total n_segments : nat) (segs : list (Q * Q)) :
  forall seg_idx st files st',
    cut_segments env d dir i total n_segments seg_idx segs st = (Done files, st') ->
    quiet_step st st'.
Proof.
  induction segs as [|[seg_start seg_end] segs IH]; intros seg_idx st files st' H.
  - unfold cut_segments, ret in H. inversion H; subst. apply quiet_same_events. reflexivity.
  - cbn [cut_segments] in H.
    apply bindM_done in H. destruct H as [c [st1 [Hc H]]].
    apply is_cancelled_quiet in Hc. destruct c; [discriminate H|].
    apply bindM_done in H. destruct H as [res [st2 [Hr H]]].
    apply FfmpegProcess_run_quiet in Hr. destruct Hr as [Hr _].
    destruct (fst res); [|discriminate H].
    apply bindM_done in H. destruct H as [fs [st3 [Hf H]]].
    apply IH in Hf. unfold ret in H. inversion H; subst.
    eapply quiet_trans; [exact Hc|]. eapply quiet_trans; [exact Hr | exact Hf].
Qed.

(** A task that runs to its end reports itself as processed, once. *)
Lemma run_task_done (env : environment) (i total : nat) (task_info : task)
  (st st' : worker_state) :
  run_task env i total task_info st = (Done tt, st') ->
  processed_count st' = S (processed_count st).
Proof.
  unfold run_task. intro H.
  destruct (lookup_format _ OUTPUT_FORMATS) as [d|]; [|discriminate H].
  apply bindM_done in H. destruct H as [[] [st1 [H0 H]]].
  unfold emit, modify in H0. inversion H0; subst st1. clear H0.
  destruct task_info as [p k segs g|p k s e g].
  - apply bindM_done in H. destruct H as [[] [st2 [Ha H]]].
    unfold set_temp_concat_dir, modify in Ha. inversion Ha; subst st2. clear Ha.
    apply bindM_done in H. destruct H as [[] [st3 [Hb H]]].
    unfold makedirs in Hb. destruct (makedirs_error env i); [discriminate Hb|].
    unfold modify in Hb. inversion Hb; subst st3. clear Hb.
    apply bindM_done in H. destruct H as [files [st4 [Hc H]]].
    apply cut_segments_quiet in Hc.
    apply bindM_done in H. destruct H as [[] [st5 [Hd H]]].
    unfold write_concat_list in Hd. destruct (open_error env i); [discriminate Hd|].
    unfold modify in Hd. inversion Hd; subst st5. clear Hd.
    destruct (concat_args d) as [args|]; [|discriminate H].
    apply bindM_done in H. destruct H as [res [st6 [He H]]].
    apply FfmpegProcess_run_quiet in He. destruct He as [He _].
    destruct (fst res); [|discriminate H].
    unfold emit, modify in H. inversion H; subst st'.
    rewrite processed_count_add. simpl.
    unfold quiet_step in He, Hc. rewrite He. unfold processed_count in *. simpl in *.
    rewrite Hc. rewrite filter_app, length_app. simpl. lia.
  - apply bindM_done in H. destruct H as [res [st2 [He H]]].
    apply FfmpegProcess_run_quiet in He. destruct He as [He _].
    destruct (fst res); [|discriminate H].
    unfold emit, modify in H. inversion H; subst st'.
    rewrite processed_count_add. simpl.
    unfold quiet_step in He. rewrite He. rewrite processed_count_add. simpl. lia.
Qed.

(** Tasks that all run to their end: one report each. *)
Lemma task_loop_done (env : environment) (total : nat) (tasks : list task) :
  forall i st st',
    task_loop env total i tasks st = (Done tt, st') ->
    processed_count st' = (processed_count st + List.length tasks)%nat.
Proof.
  induction tasks as [|t tasks IH]; intros i st st' H.
  - unfold task_loop, ret in H. inversion H; subst. simpl. lia.
  - cbn [task_loop] in H.
    apply bindM_done in H. destruct H as [[] [st1 [Ha H]]].
    unfold set_loop_index, modify in Ha. inversion Ha; subst st1. clear Ha.
    apply bindM_done in H. destruct H as [c [st2 [Hc H]]].
    apply is_cancelled_quiet in Hc. destruct c.
    + apply bindM_done in H. destruct H as [[] [st3 [_ H]]]. discriminate H.
    + apply bindM_done in H. destruct H as [[] [st3 [Hr H]]].
      apply run_task_done in Hr. apply IH in H.
      unfold quiet_step, processed_count in *. simpl in *. lia.
Qed.

(** The loop over a list in two parts. *)
Lemma task_loop_app (env : environment) (total : nat) (l1 l2 : list task) :
  forall i st,
    task_loop env total i (l1 ++ l2) st
    = match task_loop env total i l1 st with
      | (Done _, st1) => task_loop env total (i + List.length l1) l2 st1
      | (Raised e, st1) => (Raised e, st1)
      | (Returned, st1) => (Returned, st1)
      end.
Proof.
  induction l1 as [|t l1 IH]; intros i st.
  - simpl. rewrite Nat.add_0_r. reflexivity.
  - cbn [task_loop app List.length]. unfold bindM.
    destruct (set_loop_index i st) as [[[]|e|] st1]; try reflexivity.
    destruct (is_cancelled env st1) as [[c|e|] st2]; try reflexivity.
    destruct c.
    + destruct (emit (finished "Operation cancelled.") st2) as [[[]|e|] st3];
        reflexivity.
    + destruct (run_task env i total t st2) as [[[]|e|] st3]; try reflexivity.
      rewrite IH. rewrite Nat.add_succ_r. reflexivity.
Qed.

(** The loop at a task before which the flag is seen: it emits [finished]
    and returns. *)
Lemma task_loop_cancelled (env : environment) (total i : nat) (t : task)
  (tasks : list task) (st : worker_state) :
  cancel_pending env st ->
  exists st',
    task_loop env total i (t :: tasks) st = (Returned, st') /\
    emitted st' = emitted st ++ [finished "Operation cancelled."] /\
    launched st' = launched st /\
    temp_concat_dir st' = temp_concat_dir st /\
    temp_dir_exists st' = temp_dir_exists st.
Proof.
  intros [n [Hn Hle]]. cbn [task_loop]. unfold bindM, set_loop_index, modify, is_cancelled.
  simpl. rewrite Hn. apply Nat.leb_le in Hle. rewrite Hle.
  unfold emit, modify, return_. simpl. eexists. split; [reflexivity|].
  simpl. repeat split; reflexivity.
Qed.

Lemma cleanup_emitted (env : environment) (st : worker_state) :
  (emitted (cleanup env st) = emitted st \/
   exists line, emitted (cleanup env st) = emitted st ++ [print line]) /\
  launched (cleanup env st) = launched st.
Proof.
  unfold cleanup. destruct (temp_concat_dir st); [|split; [left|]; reflexivity].
  destruct (temp_dir_exists st); [|split; [left|]; reflexivity].
  destruct (rmtree_error env); split; try reflexivity.
  - right. eexists. reflexivity.
  - left. reflexivity.
Qed.

Lemma cleanup_processed_count (env : environment) (st : worker_state) :
  processed_count (cleanup env st) = processed_count st.
Proof.
  unfold processed_count.
  destruct (cleanup_emitted env st) as [[->|[line ->]] _]; [reflexivity|].
  rewrite filter_app. simpl. rewrite app_nil_r. reflexivity.
Qed.

(** C3 (as the code has it).  When the first tasks of a run have run to their
    end and the flag is seen at the top of the loop before the next task, the
    run starts no further encoder, emits [finished] with the text
    "Operation cancelled." as its last signal and no [error]; the number of
    [segment_processed] signals emitted is the number of tasks completed
    before that point.  A 5-task run cancelled between task 2 and task 3 ends
    with that [finished] after two [segment_processed]. *)
Theorem cancellation_before_task (env : environment) (tasks1 : list task) (t : task)
  (tasks2 : list task) (exists0 : bool) (st1 : worker_state) :
  let tasks := tasks1 ++ t :: tasks2 in
  task_loop env (List.length tasks) 0 tasks1 (initial_state exists0) = (Done tt, st1) ->
  cancel_pending env st1 ->
  let final := run env tasks (initial_state exists0) in
  signals (emitted final) = signals (emitted st1) ++ [finished "Operation cancelled."] /\
  terminal_report final = Some (finished "Operation cancelled.") /\
  processed_count final = List.length tasks1 /\
  Forall (fun e => forall m, e <> error m) (emitted final) /\
  launched final = launched st1 /\
  (let cancelled := run (example_env (Some 2%nat) encoder_ok None) five_cuts
                      (initial_state false) in
   terminal_report cancelled = Some (finished "Operation cancelled.") /\
   processed_count cancelled = 2%nat).
Proof.
  intros tasks Hdone Hcancel final.
  destruct (task_loop_cancelled env (List.length tasks) (0 + List.length tasks1) t tasks2
              st1 Hcancel) as [st' [Hloop [Hev [Hla _]]]].
  assert (Htry : try_except env tasks (initial_state exists0) = st').
  { unfold try_except, try_block, bindM. unfold tasks at 2.
    rewrite task_loop_app. fold tasks. rewrite Hdone, Hloop. reflexivity. }
  assert (Hfinal : final = cleanup env st').
  { unfold final, run. rewrite Htry. reflexivity. }
  assert (Hno : Forall (fun e => forall m, e <> error m) (emitted st')).
  { rewrite Hev. apply Forall_app. split; [|constructor; [discriminate | constructor]].
    destruct (task_loop_step _ _ _ _ _ _ _ Hdone) as [_ [_ [es [Hes Hne]]]].
    rewrite Hes. simpl. exact Hne. }
  repeat apply conj.
  - rewrite Hfinal. destruct (cleanup_signals env st') as [-> _].
    rewrite Hev. unfold signals. rewrite filter_app. reflexivity.
  - rewrite Hfinal. destruct (cleanup_signals env st') as [_ ->].
    unfold terminal_report. rewrite Hev, filter_app. simpl. rewrite rev_unit. reflexivity.
  - rewrite Hfinal, cleanup_processed_count.
    unfold processed_count. rewrite Hev, filter_app. simpl. rewrite app_nil_r.
    apply (task_loop_done _ _ _ _ _ _ Hdone).
  - rewrite Hfinal. destruct (cleanup_emitted env st') as [[->|[line ->]] _]; [exact Hno|].
    apply Forall_app. split; [exact Hno|]. constructor; [discriminate | constructor].
  - rewrite Hfinal. destruct (cleanup_emitted env st') as [_ ->]. exact Hla.
  - vm_compute. reflexivity.
  - vm_compute. reflexivity.
Qed.

Lemma cancellation_before_task_witness :
  let env := example_env (Some 2%nat) encoder_ok None in
  let st1 := snd (task_loop env 5 0 (firstn 2 five_cuts) (initial_state false)) in
  let final := run env five_cuts (initial_state false) in
  signals (emitted final) = signals (emitted st1) ++ [finished "Operation cancelled."] /\
  terminal_report final = Some (finished "Operation cancelled.") /\
  processed_count final = 2%nat /\
  Forall (fun e => forall m, e <> error m) (emitted final) /\
  launched final = launched st1.
Proof.
  pose proof (cancellation_before_task (example_env (Some 2%nat) encoder_ok None)
                (firstn 2 five_cuts) (nth 2 five_cuts (Concat "" "" [] None))
                (skipn 3 five_cuts) false
                (snd (task_loop (example_env (Some 2%nat) encoder_ok None) 5 0
                        (firstn 2 five_cuts) (initial_state false)))) as H.
  cbv zeta in H.
  assert (H1 : task_loop (example_env (Some 2%nat) encoder_ok None)
                 (List.length (firstn 2 five_cuts
                                 ++ nth 2 five_cuts (Concat "" "" [] None)
                                      :: skipn 3 five_cuts))
                 0 (firstn 2 five_cuts) (initial_state false)
               = (Done tt,
                  snd (task_loop (example_env (Some 2%nat) encoder_ok None) 5 0
                         (firstn 2 five_cuts) (initial_state false))))
    by (vm_compute; reflexivity).
  assert (H2 : cancel_pending (example_env (Some 2%nat) encoder_ok None)
                 (snd (task_loop (example_env (Some 2%nat) encoder_ok None) 5 0
                         (firstn 2 five_cuts) (initial_state false))))
    by (exists 2%nat; split; [reflexivity | vm_compute; reflexivity]).
  destruct (H H1 H2) as [A [B [C [D [E _]]]]].
  repeat apply conj; assumption.
Defined.

(** C3, as stated, fails on the report: a 5-task run cancelled after two tasks
    and one cancelled after three end with the same terminal report, so no
    completed-count can be read from it. *)
Lemma cancellation_report_has_no_count :
  let cancelled_after k :=
    run (example_env (Some k) encoder_ok None) five_cuts (initial_state false) in
  terminal_report (cancelled_after 2%nat) = terminal_report (cancelled_after 3%nat) /\
  processed_count (cancelled_after 2%nat) = 2%nat /\
  processed_count (cancelled_after 3%nat) = 3%nat /\
  ~ (exists count_of : option event -> nat,
       forall k, (k < 5)%nat ->
                 count_of (terminal_report (cancelled_after k))
                 = processed_count (cancelled_after k)).
Proof.
  intro cancelled_after.
  assert (H2 : terminal_report (cancelled_after 2%nat)
               = Some (finished "Operation cancelled.")) by (vm_compute; reflexivity).
  assert (H3 : terminal_report (cancelled_after 3%nat)
               = Some (finished "Operation cancelled.")) by (vm_compute; reflexivity).
  assert (C2 : processed_count (cancelled_after 2%nat) = 2%nat) by (vm_compute; reflexivity).
  assert (C3 : processed_count (cancelled_after 3%nat) = 3%nat) by (vm_compute; reflexivity).
  repeat apply conj.
  - rewrite H2, H3. reflexivity.
  - exact C2.
  - exact C3.
  - intros [count_of Hc].
    pose proof (Hc 2%nat ltac:(lia)) as A. pose proof (Hc 3%nat ltac:(lia)) as B.
    rewrite H2, C2 in A. rewrite H3, C3 in B. congruence.
Qed.

(** Cancellation seen at the check before a segment cut of a concat task takes
    the other path of the code: it is reported through [error]. *)
Lemma cancellation_inside_concat_is_reported_as_error :
  terminal_report (run (example_env (Some 2%nat) encoder_ok None) one_concat
                     (initial_state false))
  = Some (error "Cancelled during segment cutting for concat.").
Proof. vm_compute. reflexivity. Qed.

(** * Further properties *)

(** ** Selection list under all four actions *)

Lemma tuple_not_after_trans (a b c : Q * Q) :
  not_after Py.tuple_ltb a b -> not_after Py.tuple_ltb b c -> not_after Py.tuple_ltb a c.
Proof.
  unfold not_after, Py.tuple_ltb. intros Hab Hbc.
  by_cases_on (Py.eqb (fst b) (fst a)); by_cases_on (Py.eqb (fst c) (fst b));
    by_cases_on (Py.eqb (fst c) (fst a));
    try apply ltb_ge in Hab; try apply ltb_ge in Hbc; apply ltb_ge; lra.
Qed.

Lemma sorted_tuples_sorted (l : list (Q * Q)) : tuple_sorted (Py.sorted_tuples l).
Proof.
  apply Sorted_StronglySorted.
  - intros a b c. apply tuple_not_after_trans.
  - apply sort_sorted. apply tuple_ltb_asym.
Qed.

Lemma StronglySorted_remove {A : Type} (R : A -> A -> Prop) (l1 l2 : list A) (x : A) :
  StronglySorted R (l1 ++ x :: l2) -> StronglySorted R (l1 ++ l2).
Proof.
  induction l1 as [|a l1 IH]; simpl; intro H.
  - inversion H; assumption.
  - inversion H as [|? ? Hs Ha]; subst. constructor; [apply IH, Hs|].
    rewrite Forall_app in *. destruct Ha as [Ha1 Ha2]. inversion Ha2; subst.
    split; assumption.
Qed.

(** What a successful scan of [on_undo_selection] has done. *)
Lemma undo_scan_some (t : Q) (l l' : list (Q * Q)) (r : Q * Q) :
  undo_scan t l = Some (r, l') ->
  exists l1 l2, l = l1 ++ r :: l2 /\ l' = l1 ++ l2 /\ contains r t /\
                Forall (fun x => ~ contains x t) l1.
Proof.
  revert l'. induction l as [|x l IH]; simpl; intros l' H; [discriminate|].
  destruct (playhead_inside t x) eqn:E.
  - inversion H; subst. exists [], l'. apply playhead_inside_contains in E.
    split; [reflexivity|]. split; [reflexivity|]. split; [exact E | constructor].
  - destruct (undo_scan t l) as [[y l'']|] eqn:Hs; [|discriminate].
    inversion H; subst. destruct (IH l'' eq_refl) as [l1 [l2 [H1 [H2 [H3 H4]]]]].
    exists (x :: l1), l2. subst.
    split; [reflexivity|]. split; [reflexivity|]. split; [exact H3|].
    constructor; [|exact H4]. intro Hc. apply playhead_inside_contains in Hc. congruence.
Qed.

Lemma undo_scan_none_inv (t : Q) (l : list (Q * Q)) :
  undo_scan t l = None -> Forall (fun x => ~ contains x t) l.
Proof.
  induction l as [|x l IH]; simpl; intro H; [constructor|].
  destruct (playhead_inside t x) eqn:E; [discriminate|].
  destruct (undo_scan t l) as [[y l'']|]; [discriminate|].
  constructor; [|apply IH; reflexivity].
  intro Hc. apply playhead_inside_contains in Hc. congruence.
Qed.

Lemma apply_action_invariant (w : MainWindow) (a : ui_action) :
  tuple_sorted (selections w) /\ Forall well_formed (selections w) ->
  tuple_sorted (selections (apply_action w a)) /\
  Forall well_formed (selections (apply_action w a)).
Proof.
  intros [Hs Hc]. destruct a as [t|t|t|t]; simpl.
  - rewrite on_begin_selection_selections. split; assumption.
  - unfold on_end_selection. destruct (current_selection_start w) as [p|]; [|split; assumption].
    by_cases_on (Py.leb t (p + 0.01)); [split; assumption|]. simpl. split.
    + apply sorted_tuples_sorted.
    + eapply Permutation_Forall; [apply Permutation_sym, sort_permutation|].
      apply Forall_app. split; [exact Hc|]. constructor; [|constructor].
      unfold well_formed. simpl. lra.
  - unfold on_undo_selection. destruct (undo_scan t (selections w)) as [[r l']|] eqn:E.
    + simpl. destruct (undo_scan_some _ _ _ _ E) as [l1 [l2 [H1 [H2 _]]]]. subst l'.
      rewrite H1 in Hs, Hc. split.
      * eapply StronglySorted_remove. exact Hs.
      * rewrite Forall_app in *. destruct Hc as [Hc1 Hc2]. inversion Hc2; subst.
        split; assumption.
    + destruct (selections w) eqn:Es.
      * destruct (current_selection_start w); simpl; rewrite ?Es; split; constructor.
      * simpl. split; constructor.
  - unfold on_undo_current_selection_if_playhead_inside.
    destruct (undo_scan t (selections w)) as [[r l']|] eqn:E; [|split; assumption].
    simpl. destruct (undo_scan_some _ _ _ _ E) as [l1 [l2 [H1 [H2 _]]]]. subst l'.
    rewrite H1 in Hs, Hc. split.
    + eapply StronglySorted_remove. exact Hs.
    + rewrite Forall_app in *. destruct Hc as [Hc1 Hc2]. inversion Hc2; subst.
      split; assumption.
Qed.

Lemma tuple_sorted_by_start (l : list (Q * Q)) : tuple_sorted l -> sorted_by_start l.
Proof.
  unfold tuple_sorted, sorted_by_start. intro H.
  induction H as [|a l Hl IH Ha]; constructor; [exact IH|].
  eapply Forall_impl; [|exact Ha]. intros b Hb. apply tuple_not_after_start, Hb.
Qed.

(** X1.  Whatever sequence of begin, end, undo and delete actions the user
    performs on a fresh session, the selection list stays in sorted order
    (ascending by start, ties by end) and every range in it ends after it
    starts. *)
Theorem selection_list_invariant (duration : Q) (acts : list ui_action) :
  let w := apply_actions (new_session duration) acts in
  tuple_sorted (selections w) /\ sorted_by_start (selections w) /\
  Forall well_formed (selections w).
Proof.
  assert (G : forall acts w,
             tuple_sorted (selections w) /\ Forall well_formed (selections w) ->
             tuple_sorted (selections (apply_actions w acts)) /\
             Forall well_formed (selections (apply_actions w acts))).
  { clear acts. induction acts as [|a acts IH]; intros w Hw; simpl; [exact Hw|].
    apply IH, apply_action_invariant, Hw. }
  destruct (G acts (new_session duration)) as [Hs Hc]; [split; constructor|].
  split; [exact Hs|]. split; [apply tuple_sorted_by_start, Hs | exact Hc].
Qed.

(** X2.  The Delete key removes what undo removes when the playhead is inside
    a range, and is a no-op otherwise: it never clears the list and never
    touches the pending start. *)
Theorem delete_key_is_undo_without_fallback (t : Q) (w : MainWindow) :
  ((exists r, In r (selections w) /\ contains r t) ->
     on_undo_current_selection_if_playhead_inside t w
       = (Some (fst (on_undo_selection t w)), snd (on_undo_selection t w)) /\
     (List.length (selections (snd (on_undo_selection t w))) + 1
      = List.length (selections w))%nat /\
     current_selection_start (snd (on_undo_selection t w)) = current_selection_start w) /\
  ((forall r, In r (selections w) -> ~ contains r t) ->
     on_undo_current_selection_if_playhead_inside t w = (None, w)).
Proof.
  unfold on_undo_current_selection_if_playhead_inside, on_undo_selection. split.
  - intros [r [Hin Hc]].
    destruct (undo_scan t (selections w)) as [[x l']|] eqn:E.
    + simpl. split; [reflexivity|]. split; [|reflexivity].
      destruct (undo_scan_some _ _ _ _ E) as [l1 [l2 [H1 [H2 _]]]]. subst l'.
      rewrite H1, !length_app. simpl. lia.
    + exfalso. apply undo_scan_none_inv in E. rewrite Forall_forall in E.
      exact (E r Hin Hc).
  - intro Hnone. rewrite undo_scan_none; [reflexivity|].
    apply Forall_forall. exact Hnone.
Qed.

Lemma delete_key_is_undo_without_fallback_witness :
  on_undo_current_selection_if_playhead_inside 5
    (mkMainWindow [(1, 2); (4, 6); (5, 8)] (Some 9) 10)
    = (Some (SelectionRemoved (4, 6)), mkMainWindow [(1, 2); (5, 8)] (Some 9) 10) /\
  on_undo_current_selection_if_playhead_inside 3
    (mkMainWindow [(1, 2); (4, 6); (5, 8)] (Some 9) 10)
    = (None, mkMainWindow [(1, 2); (4, 6); (5, 8)] (Some 9) 10).
Proof.
  split.
  - assert (H : exists r, In r [(1, 2); (4, 6); (5, 8)] /\ contains r 5).
    { exists (4, 6). split; [simpl; tauto | split; unfold Qle; simpl; lia]. }
    exact (proj1 (proj1 (delete_key_is_undo_without_fallback 5
                           (mkMainWindow [(1, 2); (4, 6); (5, 8)] (Some 9) 10)) H)).
  - apply (proj2 (delete_key_is_undo_without_fallback 3
                    (mkMainWindow [(1, 2); (4, 6); (5, 8)] (Some 9) 10))).
    intros r Hr [H1 H2]. simpl in Hr.
    destruct Hr as [<-|[<-|[<-|[]]]]; cbn [fst snd] in *; lra.
Defined.





(** ** Keyframe tags under sequences of clicks *)

Lemma remove_NoDupA (c : Q) (s : FloatSet.t) :
  NoDupA Qeq s -> NoDupA Qeq (FloatSet.remove c s).
Proof.
  unfold FloatSet.remove. intro H. induction H as [|y s Hy Hs IH]; simpl; [constructor|].
  destruct (negb (Py.eqb c y)); [|exact IH].
  constructor; [|exact IH]. intro Hin. apply Hy.
  apply (proj1 (remove_InA y c s)) in Hin. tauto.
Qed.

Lemma toggle_keyframes_unchanged (t : Q) (tw : TimelineWidget) :
  _keyframes (snd (toggle_keyframe_selection t tw)) = _keyframes tw /\
  _duration (snd (toggle_keyframe_selection t tw)) = _duration tw.
Proof.
  unfold toggle_keyframe_selection.
  destruct (find_closest_kf t (_keyframes tw)); split; reflexivity.
Qed.

Lemma toggle_tags_invariant (t : Q) (tw : TimelineWidget) :
  Forall (fun x => In x (_keyframes tw)) (_selected_keyframes tw) /\
  NoDupA Qeq (_selected_keyframes tw) ->
  Forall (fun x => In x (_keyframes tw))
    (_selected_keyframes (snd (toggle_keyframe_selection t tw))) /\
  NoDupA Qeq (_selected_keyframes (snd (toggle_keyframe_selection t tw))).
Proof.
  intros [Hin Hnd]. unfold toggle_keyframe_selection.
  destruct (find_closest_kf t (_keyframes tw)) as [c|] eqn:Hf; [|split; assumption].
  destruct (find_closest_kf_some _ _ _ Hf) as [Hc _]. simpl.
  destruct (FloatSet.mem c (_selected_keyframes tw)) eqn:Hm.
  - split; [|apply remove_NoDupA, Hnd].
    unfold FloatSet.remove. rewrite Forall_forall in *. intros x Hx.
    apply filter_In in Hx. apply Hin. tauto.
  - split; [|apply add_NoDupA, Hnd].
    unfold FloatSet.add. rewrite Hm. apply Forall_app. split; [exact Hin|].
    constructor; [exact Hc | constructor].
Qed.

(** X4.  After any sequence of clicks on a loaded timeline, every tagged
    timestamp is one of the known keyframes, no timestamp is tagged twice, the
    keyframe list is untouched, and [get_selected_keyframes] lists the tags in
    strictly ascending order. *)
Theorem tags_stay_within_keyframes (duration : Q) (keyframes clicks : list Q) :
  let tw := click_tags (loaded_timeline duration keyframes) clicks in
  _keyframes tw = Py.sorted_floats keyframes /\
  Forall (fun x => In x keyframes) (_selected_keyframes tw) /\
  NoDupA Qeq (_selected_keyframes tw) /\
  StronglySorted Qlt (get_selected_keyframes tw) /\
  (forall x, InA Qeq x (get_selected_keyframes tw) <-> InA Qeq x (_selected_keyframes tw)).
Proof.
  assert (G : forall clicks tw,
             Forall (fun x => In x (_keyframes tw)) (_selected_keyframes tw) /\
             NoDupA Qeq (_selected_keyframes tw) ->
             _keyframes (click_tags tw clicks) = _keyframes tw /\
             Forall (fun x => In x (_keyframes tw)) (_selected_keyframes (click_tags tw clicks)) /\
             NoDupA Qeq (_selected_keyframes (click_tags tw clicks))).
  { clear clicks. induction clicks as [|t clicks IH]; intros tw Hw; simpl.
    - split; [reflexivity | exact Hw].
    - destruct (toggle_keyframes_unchanged t tw) as [Hk _].
      destruct (IH (snd (toggle_keyframe_selection t tw))) as [H1 [H2 H3]].
      + rewrite Hk. apply toggle_tags_invariant, Hw.
      + rewrite Hk in H1, H2. split; [exact H1|]. split; assumption. }
  intro tw. destruct (G clicks (loaded_timeline duration keyframes)) as [H1 [H2 H3]].
  { split; constructor. }
  fold tw in H1, H2, H3. simpl in H1, H2.
  split; [exact H1|]. split; [|split; [exact H3|split]].
  - eapply Forall_impl; [|exact H2]. intros x Hx.
    eapply Permutation_in; [apply sort_permutation | exact Hx].
  - unfold get_selected_keyframes. apply sorted_floats_strictly. exact H3.
  - intro x. unfold get_selected_keyframes. apply sorted_floats_InA.
Qed.

(** X5.  Clicking twice at the same time is an involution on the tag set: the
    same timestamps are tagged as before, and both clicks return the same
    answer. *)
Theorem toggle_twice_restores (t : Q) (tw : TimelineWidget) :
  let tw1 := snd (toggle_keyframe_selection t tw) in
  let tw2 := snd (toggle_keyframe_selection t tw1) in
  (forall x, InA Qeq x (_selected_keyframes tw2) <-> InA Qeq x (_selected_keyframes tw)) /\
  _keyframes tw2 = _keyframes tw /\
  fst (toggle_keyframe_selection t tw1) = fst (toggle_keyframe_selection t tw).
Proof.
  unfold toggle_keyframe_selection.
  destruct (find_closest_kf t (_keyframes tw)) as [c|] eqn:Hf; simpl; rewrite Hf; simpl.
  - split; [|split; reflexivity]. intro x.
    destruct (FloatSet.mem c (_selected_keyframes tw)) eqn:Hm.
    + assert (Hm1 : FloatSet.mem c (FloatSet.remove c (_selected_keyframes tw)) = false).
      { destruct (FloatSet.mem c (FloatSet.remove c (_selected_keyframes tw))) eqn:E;
          [|reflexivity].
        apply mem_InA, remove_InA in E. exfalso. apply (proj2 E). reflexivity. }
      rewrite Hm1. rewrite add_InA, remove_InA. apply mem_InA in Hm.
      split.
      * intros [H|[H _]]; [|exact H].
        eapply InA_eqA; [apply Q_Setoid | symmetry; exact H | exact Hm].
      * intro H. destruct (Qeq_dec x c) as [E|E]; [left; exact E | right; tauto].
    + assert (Hm1 : FloatSet.mem c (FloatSet.add c (_selected_keyframes tw)) = true).
      { apply mem_InA, add_InA. left. reflexivity. }
      rewrite Hm1. rewrite remove_InA, add_InA.
      assert (Hnot : ~ InA Qeq c (_selected_keyframes tw)).
      { intro H. apply mem_InA in H. congruence. }
      split.
      * intros [[H|H] Hne]; [contradiction | exact H].
      * intro H. split; [right; exact H|]. intro E. apply Hnot.
        eapply InA_eqA; [apply Q_Setoid | exact E | exact H].
  - split; [tauto | split; reflexivity].
Qed.

(** ** Plans of [on_save_video] *)

(** What [on_save_video] has done when it starts the worker, by save action. *)
Lemma on_save_video_started (rq : save_request) (w : MainWindow) (tw : TimelineWidget)
  (tasks : list task) :
  on_save_video rq w tw = Some (StartWorker tasks) ->
  exists fmt,
    lookup_format (output_format_key rq) OUTPUT_FORMATS = Some fmt /\
    dialog_answer rq <> EmptyString /\ tasks <> [] /\
    ((save_action_id rq = 0%Z /\ selections w <> [] /\
      tasks = [Concat (dialog_answer rq) (output_format_key rq)
                 (Py.sorted_tuples (selections w)) (gif_scale fmt rq)]) \/
     (save_action_id rq = 1%Z /\
      exists segs, segments_for_concat 1 w = inr segs /\
        tasks = [Concat (dialog_answer rq) (output_format_key rq) segs
                   (gif_scale fmt rq)]) \/
     (save_action_id rq = 2%Z /\
      tasks = selection_split_loop (planned_single_cut rq fmt "_part_") 0 (selections w)) \/
     (save_action_id rq = 3%Z /\
      tasks = tag_split_loop (planned_single_cut rq fmt "_tag_split_") (video_duration w) 0
                (split_points (Py.sorted_floats (get_selected_keyframes tw))
                   (video_duration w)))).
Proof.
  unfold on_save_video.
  destruct (lookup_format (output_format_key rq) OUTPUT_FORMATS) as [fmt|];
    [|discriminate].
  assert (Start : forall l r, Some (match l with [] => NoTasks | _ :: _ => StartWorker l end)
                              = Some (StartWorker r) -> l = r /\ r <> []).
  { intros l r H. destruct l; inversion H; subst. split; [reflexivity | discriminate]. }
  intro H. cbv zeta in H. exists fmt. split; [reflexivity|].
  destruct (Z.eqb_spec (save_action_id rq) 0) as [E0|N0].
  - rewrite E0 in *. cbn [Z.eqb orb] in H.
    unfold segments_for_concat in H. cbn [Z.eqb] in H.
    destruct (selections w) as [|r0 l0] eqn:Es; [discriminate H|].
    destruct (String.eqb (dialog_answer rq) "") eqn:Ed; [discriminate H|].
    apply String.eqb_neq in Ed. inversion H; subst.
    split; [exact Ed|]. split; [discriminate|]. left.
    split; [reflexivity|]. split; [discriminate | reflexivity].
  - destruct (Z.eqb_spec (save_action_id rq) 1) as [E1|N1].
    + rewrite E1 in *. cbn [Z.eqb Pos.eqb orb] in H.
      destruct (segments_for_concat 1 w) as [early|segs] eqn:Es.
      { exfalso. unfold segments_for_concat in Es. cbn [Z.eqb] in Es.
        destruct (selections w);
          [destruct (Py.leb (video_duration w) 0)
          |destruct (_get_segments_to_keep_for_removal w)];
          inversion Es; subst; discriminate H. }
      destruct (String.eqb (dialog_answer rq) "") eqn:Ed; [discriminate H|].
      apply String.eqb_neq in Ed. inversion H; subst.
      split; [exact Ed|]. split; [discriminate|]. right. left.
      split; [reflexivity|]. exists segs. split; reflexivity.
    + cbn [orb] in H.
      destruct (Z.eqb_spec (save_action_id rq) 2) as [E2|N2].
      * destruct (selections w) as [|r0 l0] eqn:Es; [discriminate H|].
        destruct (String.eqb (dialog_answer rq) "") eqn:Ed; [discriminate H|].
        apply String.eqb_neq in Ed. apply Start in H. destruct H as [H1 H2].
        split; [exact Ed|]. split; [exact H2|]. right. right. left.
        split; [exact E2|]. symmetry. exact H1.
      * destruct (Z.eqb_spec (save_action_id rq) 3) as [E3|N3]; [|discriminate H].
        destruct (Py.sorted_floats (get_selected_keyframes tw)) as [|t0 ts] eqn:Et;
          [discriminate H|].
        destruct (String.eqb (dialog_answer rq) "") eqn:Ed; [discriminate H|].
        apply String.eqb_neq in Ed. apply Start in H. destruct H as [H1 H2].
        split; [exact Ed|]. split; [exact H2|]. right. right. right.
        split; [exact E3|]. symmetry. exact H1.
Qed.

Lemma selection_split_loop_forall (P : task -> Prop) (mk : nat -> Q -> Q -> task) :
  (forall n s e, P (mk n s e)) ->
  forall sels i, Forall P (selection_split_loop mk i sels).
Proof.
  intros Hmk sels. induction sels as [|[s e] sels IH]; intro i; simpl; constructor.
  - apply Hmk.
  - apply IH.
Qed.

Lemma tag_split_loop_forall (P : task -> Prop) (mk : nat -> Q -> Q -> task) (d : Q) :
  (forall n s e, P (mk n s e)) ->
  forall points c, Forall P (tag_split_loop mk d c points).
Proof.
  intros Hmk points. induction points as [|p rest IH]; intro c; [constructor|].
  destruct rest as [|q rest]; [constructor|].
  rewrite tag_split_loop_step.
  destruct (Py.ltb _ 0.05); [apply IH|]. constructor; [apply Hmk | apply IH].
Qed.

Lemma segments_for_concat_nonempty (id : Z) (w : MainWindow) (segs : list (Q * Q)) :
  segments_for_concat id w = inr segs -> segs <> [].
Proof.
  unfold segments_for_concat. destruct (id =? 0)%Z.
  - destruct (selections w) as [|r l] eqn:E; [discriminate|].
    intro H. injection H as <-. apply (sort_nonempty Py.tuple_ltb (r :: l)). discriminate.
  - destruct (selections w) as [|r l] eqn:E.
    + destruct (Py.leb (video_duration w) 0); [discriminate|].
      intro H. inversion H; subst. discriminate.
    + destruct (_get_segments_to_keep_for_removal w); [discriminate|].
      intro H. inversion H; subst. discriminate.
Qed.

(** X6.  Whenever [on_save_video] starts the worker, the plan is not empty,
    every task carries the chosen format, that format is in the registry, a
    keep or remove plan is a single concat task over at least one segment
    written to the chosen file, and a split plan consists of single cuts with
    both bounds set: the executor never meets a missing key or an empty
    concat in a plan. *)
Theorem started_plans_are_runnable (rq : save_request) (w : MainWindow)
  (tw : TimelineWidget) (tasks : list task) :
  on_save_video rq w tw = Some (StartWorker tasks) ->
  tasks <> [] /\
  Forall runnable tasks /\
  Forall (fun t => task_format_key t = output_format_key rq) tasks /\
  ((save_action_id rq = 0%Z \/ save_action_id rq = 1%Z) ->
     exists segs g, tasks = [Concat (dialog_answer rq) (output_format_key rq) segs g]) /\
  ((save_action_id rq <> 0%Z /\ save_action_id rq <> 1%Z) ->
     Forall (fun t => task_is_concat t = false) tasks).
Proof.
  intro H. destruct (on_save_video_started rq w tw tasks H)
    as [fmt [Hf [Hd [Hne [[E [Hs Ht]]|[[E [segs [Hs Ht]]]|[[E Ht]|[E Ht]]]]]]]].
  - subst tasks. split; [exact Hne|]. repeat apply conj.
    + constructor; [|constructor]. split; [unfold planned_single_cut; cbn [task_format_key]; rewrite Hf; discriminate|].
      apply sort_nonempty, Hs.
    + repeat constructor.
    + intros _. eexists. eexists. reflexivity.
    + intros [N _]. contradiction.
  - subst tasks. split; [exact Hne|]. repeat apply conj.
    + constructor; [|constructor]. split; [unfold planned_single_cut; cbn [task_format_key]; rewrite Hf; discriminate|].
      eapply segments_for_concat_nonempty. exact Hs.
    + repeat constructor.
    + intros _. eexists. eexists. reflexivity.
    + intros [_ N]. contradiction.
  - split; [exact Hne|]. subst tasks. repeat apply conj.
    + apply selection_split_loop_forall. intros n s e.
      split; [unfold planned_single_cut; cbn [task_format_key]; rewrite Hf; discriminate | split; discriminate].
    + apply selection_split_loop_forall. reflexivity.
    + intros [E'|E']; rewrite E in E'; discriminate.
    + intros _. apply selection_split_loop_forall. reflexivity.
  - split; [exact Hne|]. subst tasks. repeat apply conj.
    + apply tag_split_loop_forall. intros n s e.
      split; [unfold planned_single_cut; cbn [task_format_key]; rewrite Hf; discriminate | split; discriminate].
    + apply tag_split_loop_forall. reflexivity.
    + intros [E'|E']; rewrite E in E'; discriminate.
    + intros _. apply tag_split_loop_forall. reflexivity.
Qed.

Lemma started_plans_are_runnable_witness :
  let tasks :=
    [Concat "/out/clip_cleaned.gif" "GIF (Animated)" [(0, 2); (8, 10)] (Some 480%Z)] in
  tasks <> [] /\
  Forall runnable tasks /\
  Forall (fun t => task_format_key t = "GIF (Animated)"%string) tasks /\
  ((1 = 0 \/ 1 = 1)%Z ->
     exists segs g, tasks = [Concat "/out/clip_cleaned.gif" "GIF (Animated)" segs g]) /\
  ((1 <> 0 /\ 1 <> 1)%Z -> Forall (fun t => task_is_concat t = false) tasks).
Proof.
  apply (started_plans_are_runnable
           (mkSaveRequest 1 "GIF (Animated)" "clip" ".mkv" "/out/clip_cleaned.gif"
              (Some 1920%Z))
           (mkMainWindow [(2, 5); (4, 8)] None 10)
           (mkTimelineWidget 10 [] [])).
  reflexivity.
Defined.

Lemma selection_split_loop_bounds (mk : nat -> Q -> Q -> task) :
  (forall n s e, task_bounds (mk n s e) = Some (s, e)) ->
  forall sels i, map task_bounds (selection_split_loop mk i sels) = map Some sels.
Proof.
  intros Hmk sels. induction sels as [|[s e] sels IH]; intro i; simpl; [reflexivity|].
  rewrite Hmk, IH. reflexivity.
Qed.

Lemma selection_split_loop_paths (mk : nat -> Q -> Q -> task) (path : nat -> string) :
  (forall n s e, task_output_path (mk n s e) = path n) ->
  forall sels i,
    map task_output_path (selection_split_loop mk i sels)
    = map path (seq (S i) (List.length sels)).
Proof.
  intros Hmk sels. induction sels as [|[s e] sels IH]; intro i; simpl; [reflexivity|].
  rewrite Hmk, IH, Nat.add_1_r. reflexivity.
Qed.

(** X7.  SplitBySelections exports the selections as they are: with a known
    format, an empty list ends with the "No Selections" box, a dismissed
    directory dialog ends without a plan, and otherwise there is exactly one
    single-cut task per selection, in list order, with the selection's own
    bounds (no clamping, no merging of overlaps), named with the part numbers
    1, 2, ... *)
Theorem split_by_selections_plan (rq : save_request) (w : MainWindow)
  (tw : TimelineWidget) (fmt : format_details) :
  save_action_id rq = 2%Z ->
  lookup_format (output_format_key rq) OUTPUT_FORMATS = Some fmt ->
  (selections w = [] -> on_save_video rq w tw = Some NoSelections) /\
  (selections w <> [] -> dialog_answer rq = EmptyString ->
     on_save_video rq w tw = Some DialogCancelled) /\
  (selections w <> [] -> dialog_answer rq <> EmptyString ->
     exists tasks,
       on_save_video rq w tw = Some (StartWorker tasks) /\
       map task_bounds tasks = map Some (selections w) /\
       map task_output_path tasks
       = map (fun n => task_output_path (planned_single_cut rq fmt "_part_" n 0 0))
           (seq 1 (List.length (selections w)))).
Proof.
  intros Hid Hf. unfold on_save_video. rewrite Hf, Hid. cbn [Z.eqb Pos.eqb orb].
  repeat apply conj.
  - intros ->. reflexivity.
  - intros Hne Hd. rewrite match_nonempty by exact Hne. rewrite Hd. reflexivity.
  - intros Hne Hd. rewrite match_nonempty by exact Hne.
    apply String.eqb_neq in Hd. rewrite Hd.
    exists (selection_split_loop (planned_single_cut rq fmt "_part_") 0 (selections w)).
    split; [|split].
    + destruct (selections w) as [|[s e] l]; [contradiction | reflexivity].
    + apply selection_split_loop_bounds. reflexivity.
    + apply selection_split_loop_paths. reflexivity.
Qed.

Lemma split_by_selections_plan_witness :
  exists tasks,
    on_save_video (mkSaveRequest 2 "Original Format (Lossless)" "clip" ".mkv" "/out" None)
      (mkMainWindow [(2, 5); (4, 8)] None 10) (mkTimelineWidget 10 [] [])
      = Some (StartWorker tasks) /\
    map task_bounds tasks = [Some (2, 5); Some (4, 8)] /\
    map task_output_path tasks = ["/out/clip_part_1.mkv"; "/out/clip_part_2.mkv"]%string.
Proof.
  apply (proj2 (proj2 (split_by_selections_plan
                  (mkSaveRequest 2 "Original Format (Lossless)" "clip" ".mkv" "/out" None)
                  (mkMainWindow [(2, 5); (4, 8)] None 10) (mkTimelineWidget 10 [] [])
                  (mkFormat None ["-c"; "copy"; "-map"; "0"]%string false false false)
                  eq_refl eq_refl))); discriminate.
Defined.

Lemma consecutive_pairs_after (h : Q) (rest : list Q) :
  StronglySorted Qlt (h :: rest) ->
  Forall (fun s => h <= fst s /\ fst s < snd s) (consecutive_pairs (h :: rest)).
Proof.
  revert h. induction rest as [|q rest IH]; intros h Hs; [constructor|].
  rewrite consecutive_pairs_step.
  inversion Hs as [|? ? Hs' Hh]; subst. inversion Hh as [|? ? Hhq Hh']; subst.
  constructor; [simpl; lra|].
  eapply Forall_impl; [|apply IH, Hs']. simpl. intros s [H1 H2]. lra.
Qed.

Lemma consecutive_pairs_disjoint (points : list Q) :
  StronglySorted Qlt points -> disjoint_ascending (consecutive_pairs points).
Proof.
  unfold disjoint_ascending.
  induction points as [|p rest IH]; intro Hs; [constructor|].
  destruct rest as [|q rest]; [constructor|].
  rewrite consecutive_pairs_step.
  inversion Hs as [|? ? Hs' Hp]; subst.
  constructor; [apply IH, Hs'|].
  eapply Forall_impl; [|apply consecutive_pairs_after, Hs']. simpl. intros s [H1 _]. exact H1.
Qed.

Lemma StronglySorted_map {A B : Type} (R : A -> A -> Prop) (S : B -> B -> Prop)
  (f : A -> B) (l : list A) :
  (forall a b, R a b -> S (f a) (f b)) ->
  StronglySorted R l -> StronglySorted S (map f l).
Proof.
  intros Hf Hs. induction Hs as [|a l Hl IH Ha]; simpl; constructor; [exact IH|].
  apply Forall_map. eapply Forall_impl; [|exact Ha]. intros b. apply Hf.
Qed.

Lemma StronglySorted_filter {A : Type} (R : A -> A -> Prop) (f : A -> bool) (l : list A) :
  StronglySorted R l -> StronglySorted R (filter f l).
Proof.
  intro Hs. induction Hs as [|a l Hl IH Ha]; simpl; [constructor|].
  destruct (f a); [|exact IH]. constructor; [exact IH|].
  apply Forall_forall. intros b Hb. apply filter_In in Hb.
  rewrite Forall_forall in Ha. apply Ha. tauto.
Qed.

(** The clamped spans of ascending points: ordered, disjoint, inside the
    video, none empty. *)
Lemma clamped_spans_geometry (duration : Q) (points : list Q) :
  StronglySorted Qlt points ->
  disjoint_ascending (clamped_spans duration points) /\
  Forall (fun s => 0 <= fst s /\ snd s <= duration /\ fst s < snd s)
    (clamped_spans duration points).
Proof.
  intro Hs. unfold clamped_spans. split.
  - apply StronglySorted_filter.
    apply StronglySorted_map with (R := fun a b => snd a <= fst b /\ fst b < snd b).
    + intros a b [H _]. simpl. apply clamp_monotone. exact H.
    + pose proof (consecutive_pairs_disjoint points Hs) as Hd. unfold disjoint_ascending in Hd.
      assert (Hlt : Forall (fun s => fst s < snd s) (consecutive_pairs points)).
      { destruct points as [|h rest]; [constructor|].
        eapply Forall_impl; [|apply consecutive_pairs_after, Hs]. simpl. tauto. }
      induction Hd as [|a l Hl IH Ha]; constructor.
      * apply IH. inversion Hlt; assumption.
      * inversion Hlt as [|? ? _ Hlt']; subst.
        rewrite Forall_forall in *. intros b Hb. split; [apply Ha, Hb | apply Hlt', Hb].
  - apply Forall_forall. intros s Hin. apply filter_In in Hin. destruct Hin as [Hin Hlong].
    apply in_map_iff in Hin. destruct Hin as [[p q] [Heq _]]. subst s. simpl in *.
    unfold long_enough in Hlong. simpl in Hlong.
    destruct (Qlt_le_dec (Qmax 0 (Qmin q duration) - Qmax 0 (Qmin p duration)) 0.05);
      [discriminate|].
    assert (H0 : 0 <= Qmax 0 (Qmin p duration)) by apply Q.le_max_l.
    split; [exact H0|]. split; [|lra].
    destruct (Q.max_spec 0 (Qmin q duration)) as [[H1 H2]|[H1 H2]]; [|lra].
    rewrite H2. apply Q.le_min_r.
Qed.

(** X8.  The tasks of a SplitByTags plan come in ascending order, none overlaps
    another, each lies inside the video and each ends after it starts. *)
Theorem tag_split_tasks_geometry (rq : save_request) (w : MainWindow)
  (tw : TimelineWidget) (tasks : list task) :
  save_action_id rq = 3%Z ->
  on_save_video rq w tw = Some (StartWorker tasks) ->
  exists spans,
    map task_bounds tasks = map Some spans /\
    spans <> [] /\
    disjoint_ascending spans /\ strictly_ascending spans /\
    Forall (fun s => 0 <= fst s /\ snd s <= video_duration w /\ fst s < snd s)
      spans.
Proof.
  intros Hid H. destruct (on_save_video_started rq w tw tasks H)
    as [fmt [Hf [Hd [Hne [[E _]|[[E _]|[[E _]|[_ Ht]]]]]]]];
    try (rewrite Hid in E; discriminate).
  set (points := split_points (Py.sorted_floats (get_selected_keyframes tw))
                   (video_duration w)) in *.
  exists (clamped_spans (video_duration w) points).
  assert (Hb : map task_bounds tasks = map Some (clamped_spans (video_duration w) points)).
  { subst tasks. apply tag_split_loop_bounds. reflexivity. }
  destruct (clamped_spans_geometry (video_duration w) points) as [Hdis Hbnd].
  { apply split_points_strictly_sorted. }
  split; [exact Hb|]. split; [|split; [exact Hdis|split; [|exact Hbnd]]].
  - intro Hnil. rewrite Hnil in Hb. simpl in Hb. apply map_eq_nil in Hb. contradiction.
  - apply disjoint_strictly_ascending; [|exact Hdis].
    eapply Forall_impl; [|exact Hbnd]. simpl. intros s Hs. lra.
Qed.

Lemma tag_split_tasks_geometry_witness :
  exists spans,
    map task_bounds
      [planned_single_cut (mkSaveRequest 3 "MP4 (H.264 + AAC)" "clip" ".mkv" "/out" None)
         (mkFormat (Some ".mp4"%string) [] false false true) "_tag_split_" 1 0 3;
       planned_single_cut (mkSaveRequest 3 "MP4 (H.264 + AAC)" "clip" ".mkv" "/out" None)
         (mkFormat (Some ".mp4"%string) [] false false true) "_tag_split_" 2 3 9.98]
    = map Some spans /\
    spans <> [] /\
    disjoint_ascending spans /\ strictly_ascending spans /\
    Forall (fun s => 0 <= fst s /\ snd s <= 10 /\ fst s < snd s) spans.
Proof.
  apply (tag_split_tasks_geometry
           (mkSaveRequest 3 "MP4 (H.264 + AAC)" "clip" ".mkv" "/out" None)
           (mkMainWindow [] None 10) (mkTimelineWidget 10 [3; 9.98] [9.98; 3])).
  - reflexivity.
  - reflexivity.
Defined.

(** ** Output paths of a plan *)

Lemma append_inj_l (a x y : string) : (a ++ x = a ++ y)%string -> x = y.
Proof.
  induction a as [|c a IH]; simpl; intro H; [exact H|].
  inversion H. apply IH. assumption.
Qed.

Lemma list_ascii_of_append (a b : string) :
  list_ascii_of_string (a ++ b)%string = list_ascii_of_string a ++ list_ascii_of_string b.
Proof.
  induction a as [|c a IH]; simpl; [reflexivity|]. rewrite IH. reflexivity.
Qed.

Lemma append_inj_r (x y e : string) : (x ++ e = y ++ e)%string -> x = y.
Proof.
  intro H. apply (f_equal list_ascii_of_string) in H.
  rewrite !list_ascii_of_append in H. apply app_inv_tail in H.
  rewrite <- (string_of_list_ascii_of_string x), <- (string_of_list_ascii_of_string y), H.
  reflexivity.
Qed.

Lemma str_of_nat_inj (n m : nat) : str_of_nat n = str_of_nat m -> n = m.
Proof.
  unfold str_of_nat. intro H. apply DecimalNat.Unsigned.to_uint_inj.
  apply (f_equal NilEmpty.uint_of_string) in H. rewrite !NilEmpty.usu in H.
  inversion H. reflexivity.
Qed.

Lemma path_join_inj (a : string) (c : ascii) (r1 r2 : string) :
  path_join a (String c r1) = path_join a (String c r2) -> r1 = r2.
Proof.
  unfold path_join. destruct (Ascii.eqb c "/").
  - intro H. inversion H. reflexivity.
  - destruct (ends_with_slash a || String.eqb a ""); intro H.
    + apply append_inj_l in H. inversion H. reflexivity.
    + apply append_inj_l in H. apply (append_inj_l "/") in H. inversion H. reflexivity.
Qed.

(** The names [on_save_video] gives to the parts are different for different
    part numbers. *)
Lemma planned_path_inj (rq : save_request) (fmt : format_details) (infix : string)
  (n m : nat) (s e s' e' : Q) :
  infix <> EmptyString ->
  task_output_path (planned_single_cut rq fmt infix n s e)
  = task_output_path (planned_single_cut rq fmt infix m s' e') ->
  n = m.
Proof.
  intros Hinfix. unfold planned_single_cut, task_output_path.
  set (x := match ext fmt with Some e0 => e0 | None => source_ext rq end).
  assert (Hsplit : exists c pre,
            forall k, (base_output_filename rq ++ infix ++ str_of_nat k ++ x)%string
                      = String c (pre ++ str_of_nat k ++ x)%string).
  { destruct (base_output_filename rq) as [|c b].
    - destruct infix as [|c i]; [contradiction|]. exists c, i. reflexivity.
    - exists c, (b ++ infix)%string. intro k. simpl. f_equal.
      induction b as [|c' b IH]; simpl; [reflexivity|]. rewrite IH. reflexivity. }
  destruct Hsplit as [c [pre Hk]]. rewrite !Hk. intro H.
  apply path_join_inj in H. apply append_inj_l in H. apply append_inj_r in H.
  apply str_of_nat_inj, H.
Qed.

Lemma tag_split_loop_paths (mk : nat -> Q -> Q -> task) (path : nat -> string) (d : Q) :
  (forall n s e, task_output_path (mk n s e) = path n) ->
  forall points c,
    map task_output_path (tag_split_loop mk d c points)
    = map path (seq (S c) (List.length (tag_split_loop mk d c points))).
Proof.
  intros Hmk points. induction points as [|p rest IH]; intro c; [reflexivity|].
  destruct rest as [|q rest]; [reflexivity|].
  rewrite tag_split_loop_step.
  destruct (Py.ltb _ 0.05); [apply IH|].
  cbn [map List.length seq]. rewrite Hmk, IH, Nat.add_1_r. reflexivity.
Qed.

Lemma NoDup_map_inj {A B : Type} (f : A -> B) (l : list A) :
  (forall a b, f a = f b -> a = b) -> NoDup l -> NoDup (map f l).
Proof.
  intros Hf Hl. induction Hl as [|a l Ha Hl IH]; simpl; constructor; [|exact IH].
  intro Hin. apply in_map_iff in Hin. destruct Hin as [b [Hb Hin]].
  apply Hf in Hb. subst b. contradiction.
Qed.

(** X9.  The output paths of a plan are pairwise different: no task of a plan
    overwrites the output of another. *)
Theorem plan_output_paths_distinct (rq : save_request) (w : MainWindow)
  (tw : TimelineWidget) (tasks : list task) :
  on_save_video rq w tw = Some (StartWorker tasks) ->
  NoDup (map task_output_path tasks).
Proof.
  intro H. destruct (on_save_video_started rq w tw tasks H)
    as [fmt [Hf [Hd [Hne [[E [Hs Ht]]|[[E [segs [Hs Ht]]]|[[E Ht]|[E Ht]]]]]]]].
  - subst tasks. simpl. constructor; [intros []|constructor].
  - subst tasks. simpl. constructor; [intros []|constructor].
  - subst tasks.
    rewrite (selection_split_loop_paths _
               (fun n => task_output_path (planned_single_cut rq fmt "_part_" n 0 0)))
      by reflexivity.
    apply NoDup_map_inj; [|apply seq_NoDup].
    intros a b Hab. eapply planned_path_inj; [|exact Hab]. discriminate.
  - subst tasks.
    rewrite (tag_split_loop_paths _
               (fun n => task_output_path (planned_single_cut rq fmt "_tag_split_" n 0 0)))
      by reflexivity.
    apply NoDup_map_inj; [|apply seq_NoDup].
    intros a b Hab. eapply planned_path_inj; [|exact Hab]. discriminate.
Qed.

Lemma plan_output_paths_distinct_witness :
  NoDup (map task_output_path
           [planned_single_cut
              (mkSaveRequest 2 "MP4 (H.264 + AAC)" "clip" ".mkv" "/out/" None)
              (mkFormat (Some ".mp4"%string) [] false false true) "_part_" 1 2 5;
            planned_single_cut
              (mkSaveRequest 2 "MP4 (H.264 + AAC)" "clip" ".mkv" "/out/" None)
              (mkFormat (Some ".mp4"%string) [] false false true) "_part_" 2 4 8]).
Proof.
  apply (plan_output_paths_distinct
           (mkSaveRequest 2 "MP4 (H.264 + AAC)" "clip" ".mkv" "/out/" None)
           (mkMainWindow [(2, 5); (4, 8)] None 10) (mkTimelineWidget 10 [] [])).
  reflexivity.
Defined.

(** ** RemoveSelections keeps nothing that was selected *)

Lemma clamp_le_self (duration x : Q) :
  0 < Qmax 0 (Qmin x duration) -> Qmax 0 (Qmin x duration) <= x.
Proof.
  intro H.
  destruct (Q.max_spec 0 (Qmin x duration)) as [[H1 H2]|[H1 H2]];
    destruct (Q.min_spec x duration) as [[H3 H4]|[H3 H4]]; lra.
Qed.

Lemma clamp_ge_self (duration x : Q) :
  x <= duration -> x <= Qmax 0 (Qmin x duration).
Proof.
  intro H.
  destruct (Q.max_spec 0 (Qmin x duration)) as [[H1 H2]|[H1 H2]];
    destruct (Q.min_spec x duration) as [[H3 H4]|[H3 H4]]; lra.
Qed.

Lemma complement_walk_avoids (duration : Q) (ranges : list (Q * Q)) :
  0 <= duration -> sorted_by_start ranges -> Forall well_formed ranges ->
  forall cursor, 0 <= cursor <= duration ->
    Forall (fun s => forall r, In r ranges -> snd s <= fst r \/ snd r <= fst s)
      (complement_walk duration cursor ranges).
Proof.
  intros Hd Hs Hwf. unfold sorted_by_start in Hs.
  induction Hs as [|[rs re] ranges Hs IH Hhd]; intros cursor Hc.
  - apply Forall_forall. intros s _ r [].
  - inversion Hwf as [|? ? Hr Hwf']; subst. unfold well_formed in Hr. simpl in Hr.
    cbn [complement_walk].
    set (rs' := Qmax 0 (Qmin rs duration)).
    set (re' := Qmax 0 (Qmin re duration)).
    assert (Hrs : 0 <= rs' <= duration) by (apply clamp_bounds; exact Hd).
    assert (Hre : 0 <= re' <= duration) by (apply clamp_bounds; exact Hd).
    assert (Hc' : cursor <= Qmax cursor re' /\ re' <= Qmax cursor re'
                  /\ Qmax cursor re' <= duration).
    { destruct (Q.max_spec cursor re') as [[H1 H2]|[H1 H2]]; lra. }
    destruct (complement_walk_invariant duration ranges Hd Hwf' (Qmax cursor re'))
      as [Hinv _]; [lra|].
    apply Forall_app. split.
    + destruct (Qlt_le_dec cursor rs'); [|constructor].
      unfold keep_if_long. destruct (Qlt_le_dec (rs' - cursor) 0.05); constructor;
        [|constructor].
      simpl. intros r [<-|Hin]; simpl.
      * left. apply clamp_le_self. fold rs'. lra.
      * left. rewrite Forall_forall in Hhd. specialize (Hhd r Hin). simpl in Hhd.
        assert (rs' <= rs) by (apply clamp_le_self; fold rs'; lra). lra.
    + specialize (IH Hwf' (Qmax cursor re')).
      assert (IH' : Forall (fun s => forall r, In r ranges ->
                                 snd s <= fst r \/ snd r <= fst s)
                      (complement_walk duration (Qmax cursor re') ranges))
        by (apply IH; lra).
      rewrite Forall_forall in *. intros s Hin r [<-|Hr'].
      * right. simpl. specialize (Hinv s Hin). simpl in Hinv.
        destruct (Qlt_le_dec duration re) as [Hbig|Hsmall].
        -- assert (re' == duration).
           { unfold re'. destruct (Q.max_spec 0 (Qmin re duration)) as [[H1 H2]|[H1 H2]];
               destruct (Q.min_spec re duration) as [[H3 H4]|[H3 H4]]; lra. }
           lra.
        -- assert (re <= re') by (apply clamp_ge_self; exact Hsmall). lra.
      * apply (IH' s Hin r Hr').
Qed.

(** X10.  RemoveSelections keeps nothing that was selected: for ranges that end
    after they start and a positive duration, no keep-segment overlaps any
    selected range (each keep-segment ends before the range starts or starts
    after it ends). *)
Theorem keep_segments_avoid_selections (w : MainWindow) :
  Forall well_formed (selections w) -> 0 < video_duration w ->
  forall s r,
    In s (_get_segments_to_keep_for_removal w) -> In r (selections w) ->
    snd s <= fst r \/ snd r <= fst s.
Proof.
  intros Hwf Hd s r Hs Hr.
  rewrite get_segments_walk in Hs; [|intro E; rewrite E in Hr; contradiction | exact Hd].
  pose proof (complement_walk_avoids (video_duration w)
                (Py.sorted_by_first (selections w))) as H.
  assert (Hall : Forall (fun s => forall r, In r (Py.sorted_by_first (selections w)) ->
                             snd s <= fst r \/ snd r <= fst s)
                   (complement_walk (video_duration w) 0
                      (Py.sorted_by_first (selections w)))).
  { apply H; [lra | apply sorted_by_first_by_start | | lra].
    eapply Permutation_Forall; [apply Permutation_sym, sort_permutation | exact Hwf]. }
  rewrite Forall_forall in Hall. apply (Hall s Hs).
  eapply Permutation_in; [apply Permutation_sym, sort_permutation | exact Hr].
Qed.

Lemma keep_segments_avoid_selections_witness :
  snd (4.5, 6) <= fst (2, 4.5) \/ snd (2, 4.5) <= fst (4.5, 6).
Proof.
  apply (keep_segments_avoid_selections
           (mkMainWindow [(6, 9); (2, 4.5); (3, 4)] None 10)).
  - repeat constructor.
  - reflexivity.
  - vm_compute. right. left. reflexivity.
  - simpl. right. left. reflexivity.
Defined.

(** ** Executor: one terminal signal, and no run after a failed one *)

Lemma hoare_bind {A B : Type} (pre : worker_state -> Prop) (m : M A) (f : A -> M B)
  (mid : result A -> worker_state -> Prop) (post : result B -> worker_state -> Prop) :
  hoare pre m mid ->
  (forall a, hoare (mid (Done a)) (f a) post) ->
  (forall e st, mid (Raised e) st -> post (Raised e) st) ->
  (forall st, mid Returned st -> post Returned st) ->
  hoare pre (bindM m f) post.
Proof.
  intros Hm Hf He Hr st r st' Hpre H.
  destruct (bindM_inv m f st st' r H) as [[a [st1 [H1 H2]]]|[[e [H1 ->]]|[H1 ->]]].
  - apply (Hf a st1 r st'); [apply (Hm _ _ _ Hpre H1) | exact H2].
  - apply He. apply (Hm _ _ _ Hpre H1).
  - apply Hr. apply (Hm _ _ _ Hpre H1).
Qed.

(** The same, where every point satisfies the loop's conditions. *)
Lemma loop_bind (env : environment) {A B : Type} (m : M A) (f : A -> M B) :
  hoare (loop_pre env) m (loop_post env) ->
  (forall a, hoare (loop_pre env) (f a) (loop_post env)) ->
  hoare (loop_pre env) (bindM m f) (loop_post env).
Proof.
  intros Hm Hf. apply (hoare_bind _ m f (loop_post env)); [exact Hm | | |].
  - intro a. exact (Hf a).
  - intros e st H. exact H.
  - intros st H. exact H.
Qed.

Lemma all_runs_ok_last (env : environment) (st : worker_state) :
  all_runs_ok env st -> only_last_run_failed env st.
Proof. intros [H1 H2]. split; [exact H1|]. intros n Hn. apply H2. lia. Qed.

Lemma loop_ret (env : environment) {A : Type} (a : A) :
  hoare (loop_pre env) (ret a) (loop_post env).
Proof. intros st r st' Hpre H. unfold ret in H. inversion H; subst. exact Hpre. Qed.

Lemma loop_raise (env : environment) {A : Type} (e : exn) :
  hoare (loop_pre env) (@raise A e) (loop_post env).
Proof.
  intros st r st' [Hn Ha] H. unfold raise in H. inversion H; subst.
  split; [exact Hn | apply all_runs_ok_last, Ha].
Qed.

(** A step that changes neither the events nor the encoder runs. *)
Lemma loop_pre_same (env : environment) (st st' : worker_state) :
  emitted st' = emitted st -> launched st' = launched st ->
  ffmpeg_runs st' = ffmpeg_runs st -> loop_pre env st -> loop_pre env st'.
Proof.
  unfold loop_pre, not_terminated, all_runs_ok. intros -> -> ->. tauto.
Qed.

Lemma loop_emit (env : environment) (e : event) :
  is_terminal e = false -> hoare (loop_pre env) (emit e) (loop_post env).
Proof.
  intros He st r st' [Hn Ha] H. unfold emit, modify in H. inversion H; subst.
  split; [|exact Ha].
  unfold not_terminated in *. simpl. rewrite filter_app, Hn. simpl. rewrite He. reflexivity.
Qed.

Lemma loop_set_loop_index (env : environment) (i : nat) :
  hoare (loop_pre env) (set_loop_index i) (loop_post env).
Proof.
  intros st r st' Hpre H. unfold set_loop_index, modify in H. inversion H; subst.
  apply (loop_pre_same env st); [reflexivity | reflexivity | reflexivity | exact Hpre].
Qed.

Lemma loop_set_temp_concat_dir (env : environment) (d : string) :
  hoare (loop_pre env) (set_temp_concat_dir d) (loop_post env).
Proof.
  intros st r st' Hpre H. unfold set_temp_concat_dir, modify in H. inversion H; subst.
  apply (loop_pre_same env st); [reflexivity | reflexivity | reflexivity | exact Hpre].
Qed.

Lemma loop_is_cancelled (env : environment) :
  hoare (loop_pre env) (is_cancelled env) (loop_post env).
Proof.
  intros st r st' Hpre H. unfold is_cancelled in H. inversion H; subst.
  apply (loop_pre_same env st); [reflexivity | reflexivity | reflexivity | exact Hpre].
Qed.

Lemma loop_makedirs (env : environment) (i : nat) :
  hoare (loop_pre env) (makedirs env i) (loop_post env).
Proof.
  unfold makedirs. destruct (makedirs_error env i); [apply loop_raise|].
  intros st r st' Hpre H. unfold modify in H. inversion H; subst.
  apply (loop_pre_same env st); [reflexivity | reflexivity | reflexivity | exact Hpre].
Qed.

Lemma loop_write_concat_list (env : environment) (i : nat) (lines : list string) :
  hoare (loop_pre env) (write_concat_list env i lines) (loop_post env).
Proof.
  unfold write_concat_list. destruct (open_error env i); [apply loop_raise|].
  intros st r st' Hpre H. unfold modify in H. inversion H; subst.
  apply (loop_pre_same env st); [reflexivity | reflexivity | reflexivity | exact Hpre].
Qed.

Lemma read_lines_not_terminal (has_callback : bool) (total : option Q)
  (callback : progress_callback_t) (lines : list string) :
  filter is_terminal (fst (read_lines has_callback total callback lines)) = [].
Proof.
  induction lines as [|line lines IH]; simpl; [reflexivity|].
  destruct (progress_of_line has_callback total line); [exact IH| |reflexivity].
  destruct (read_lines has_callback total callback lines) as [es raised]. simpl in *.
  exact IH.
Qed.

(** An encoder run followed by the test of its result: the run is counted, and
    what follows a result that is true starts with every run succeeded. *)
Lemma loop_FfmpegProcess_run (env : environment) (cmd : ffmpeg_command)
  (total : option Q) (cb : option progress_callback_t) {B : Type}
  (f : bool * string -> M B) :
  (forall res, fst res = true -> hoare (loop_pre env) (f res) (loop_post env)) ->
  (forall res, fst res = false -> exists e, f res = raise e) ->
  hoare (loop_pre env) (bindM (FfmpegProcess_run env cmd total cb) f) (loop_post env).
Proof.
  intros Hok Hfail.
  apply (hoare_bind _ _ f
           (fun r st => match r with
                        | Done res => not_terminated st /\ only_last_run_failed env st /\
                                      (fst res = true -> all_runs_ok env st)
                        | _ => False
                        end)).
  - intros st r st' [Hn [Hc Ha]] H. unfold FfmpegProcess_run in H.
    pose proof (read_lines_not_terminal
                  (match cb with Some _ => true | None => false end) total
                  (match cb with Some f => f | None => pair end)
                  (output_lines (ffmpeg env (ffmpeg_runs st)))) as Hnt.
    destruct (read_lines _ total _ (output_lines (ffmpeg env (ffmpeg_runs st))))
      as [es raised].
    simpl in Hnt.
    assert (Hn' : filter is_terminal (emitted st ++ es) = []).
    { rewrite filter_app, Hnt, app_nil_r. exact Hn. }
    assert (Hl : forall n, (S n < List.length (launched st ++ [cmd]))%nat ->
                           exit_ok (ffmpeg env n) = true).
    { intros n Hlt. rewrite length_app in Hlt. simpl in Hlt. apply Ha. lia. }
    assert (Hc' : S (ffmpeg_runs st) = List.length (launched st ++ [cmd])).
    { rewrite length_app. simpl. lia. }
    destruct raised; inversion H; subst; unfold not_terminated, only_last_run_failed,
      all_runs_ok; simpl; (split; [exact Hn'|]); (split; [split; [exact Hc' | exact Hl]|]).
    + discriminate.
    + intro Hex. split; [exact Hc'|]. intros n Hlt.
      rewrite length_app in Hlt. simpl in Hlt.
      destruct (Nat.eq_dec n (List.length (launched st))) as [->|Hne].
      * rewrite <- Hc. exact Hex.
      * apply Ha. lia.
  - intros res st r st' [Hn [Hl Ha]] H.
    destruct (fst res) eqn:Hres.
    + apply (Hok res Hres st r st'); [split; [exact Hn | apply Ha; reflexivity] | exact H].
    + destruct (Hfail res Hres) as [e He]. rewrite He in H. unfold raise in H.
      inversion H; subst. split; assumption.
  - intros e st [].
  - intros st [].
Qed.

Lemma loop_cut_segments (env : environment) (d : format_details) (dir : string)
  (i total n_segments : nat) (segs : list (Q * Q)) :
  forall seg_idx,
    hoare (loop_pre env) (cut_segments env d dir i total n_segments seg_idx segs)
      (loop_post env).
Proof.
  induction segs as [|[seg_start seg_end] segs IH]; intro seg_idx.
  - apply loop_ret.
  - cbn [cut_segments]. apply loop_bind; [apply loop_is_cancelled|].
    intros [|]; [apply loop_raise|].
    apply loop_FfmpegProcess_run.
    + intros res Hres. cbv beta. rewrite Hres.
      apply loop_bind; [apply IH | intro files; apply loop_ret].
    + intros res Hres. cbv beta. rewrite Hres. eexists. reflexivity.
Qed.

Lemma loop_run_task (env : environment) (i total : nat) (task_info : task) :
  hoare (loop_pre env) (run_task env i total task_info) (loop_post env).
Proof.
  unfold run_task.
  destruct (lookup_format _ OUTPUT_FORMATS) as [d|]; [|apply loop_raise].
  apply loop_bind; [apply loop_emit; reflexivity|]. intros [].
  destruct task_info as [p k segs g|p k s e g].
  - apply loop_bind; [apply loop_set_temp_concat_dir|]. intros [].
    apply loop_bind; [apply loop_makedirs|]. intros [].
    apply loop_bind; [apply loop_cut_segments|]. intro files.
    apply loop_bind; [apply loop_write_concat_list|]. intros [].
    destruct (concat_args d) as [args|]; [|apply loop_raise].
    apply loop_FfmpegProcess_run.
    + intros res Hres. cbv beta. rewrite Hres. apply loop_emit. reflexivity.
    + intros res Hres. cbv beta. rewrite Hres. eexists. reflexivity.
  - apply loop_FfmpegProcess_run.
    + intros res Hres. cbv beta. rewrite Hres. apply loop_emit. reflexivity.
    + intros res Hres. cbv beta. rewrite Hres. eexists. reflexivity.
Qed.

Lemma just_terminated_add (e : event) (st : worker_state) :
  is_terminal e = true -> not_terminated st -> just_terminated (add_event e st).
Proof.
  intros He Hn. exists (emitted st), e. split; [reflexivity|]. split; assumption.
Qed.

Lemma loop_task_loop (env : environment) (total : nat) (tasks : list task) :
  forall i, hoare (loop_pre env) (task_loop env total i tasks) (loop_post env).
Proof.
  induction tasks as [|t tasks IH]; intro i.
  - apply loop_ret.
  - cbn [task_loop]. apply loop_bind; [apply loop_set_loop_index|]. intros [].
    apply loop_bind; [apply loop_is_cancelled|]. intros [|].
    + intros st r st' [Hn Ha] H. unfold bindM, emit, modify, return_ in H.
      inversion H; subst. split; [apply just_terminated_add; [reflexivity | exact Hn]|].
      exact Ha.
    + apply loop_bind; [apply loop_run_task | intros []; apply IH].
Qed.

(** When the [finally] clause is entered, the last event is the one terminal
    signal; a failed encoder run was the last, and is reported as an error. *)
Lemma try_except_post (env : environment) (tasks : list task) (st : worker_state) :
  loop_pre env st ->
  just_terminated (try_except env tasks st) /\
  only_last_run_failed env (try_except env tasks st) /\
  (all_runs_ok env (try_except env tasks st) \/
   exists m, terminal_report (try_except env tasks st) = Some (error m)).
Proof.
  intro Hpre. unfold try_except.
  destruct (try_block env tasks st) as [r st1] eqn:E.
  assert (H : match r with
              | Raised _ => not_terminated st1 /\ only_last_run_failed env st1
              | _ => just_terminated st1 /\ all_runs_ok env st1
              end).
  { revert E. unfold try_block.
    apply (hoare_bind (loop_pre env) _ _ (loop_post env)
             (fun r st1 => match r with
                           | Raised _ => not_terminated st1 /\ only_last_run_failed env st1
                           | _ => just_terminated st1 /\ all_runs_ok env st1
                           end)); [apply loop_task_loop | | | | exact Hpre].
    - intros [] st0 r0 st0' [Hn Ha] H. unfold emit, modify in H. inversion H; subst.
      split; [apply just_terminated_add; [reflexivity | exact Hn] | exact Ha].
    - intros e st0 H. exact H.
    - intros st0 H. exact H. }
  destruct r as [[]|e|].
  - destruct H as [Hj Ha]. split; [exact Hj|]. split; [apply all_runs_ok_last, Ha|].
    left. exact Ha.
  - destruct H as [Hn Hl].
    assert (Hf : launched (handle env e st1) = launched st1 /\
                 ffmpeg_runs (handle env e st1) = ffmpeg_runs st1)
      by (destruct e; split; reflexivity).
    destruct Hf as [Hf1 Hf2].
    assert (He : exists es m, emitted (handle env e st1) = es ++ [error m] /\
                              filter is_terminal es = []).
    { unfold not_terminated in Hn.
      destruct e as [msg|msg|msg]; simpl.
      - exists (emitted st1). eexists. split; [reflexivity | exact Hn].
      - exists (emitted st1). eexists. split; [reflexivity | exact Hn].
      - eexists. eexists. split; [reflexivity|].
        rewrite !filter_app, Hn. reflexivity. }
    destruct He as [es [m [He Hes]]].
    split; [exists es, (error m); split; [exact He | split; [reflexivity | exact Hes]]|].
    split.
    + unfold only_last_run_failed in *. rewrite Hf1, Hf2. exact Hl.
    + right. exists m. unfold terminal_report. rewrite He, filter_app, Hes. reflexivity.
  - destruct H as [Hj Ha]. split; [exact Hj|]. split; [apply all_runs_ok_last, Ha|].
    left. exact Ha.
Qed.

Lemma initial_state_loop_pre (env : environment) (exists_ : bool) :
  loop_pre env (initial_state exists_).
Proof.
  split; [reflexivity|]. split; [reflexivity|]. simpl. intros n Hn. lia.
Qed.

(** X11.  Whatever the tasks and the environment, a run from the start emits
    exactly one terminal signal ([finished] or [error]): no terminal signal
    comes before it, and no signal at all after it (only the warning of the
    [finally] clause can follow, and it is printed, not emitted). *)
Theorem run_emits_one_terminal_signal (env : environment) (output_tasks : list task)
  (exists_ : bool) :
  exists before e after,
    emitted (run env output_tasks (initial_state exists_)) = before ++ [e] ++ after /\
    is_terminal e = true /\
    filter is_terminal before = [] /\
    signals after = [].
Proof.
  destruct (try_except_post env output_tasks (initial_state exists_)
              (initial_state_loop_pre env exists_)) as [[es [e [He [Ht Hes]]]] _].
  unfold run.
  destruct (cleanup_emitted env (try_except env output_tasks (initial_state exists_)))
    as [[Hc|[line Hc]] _]; rewrite Hc, He.
  - exists es, e, []. repeat apply conj; try assumption; reflexivity.
  - exists es, e, [print line]. rewrite <- app_assoc.
    repeat apply conj; try assumption; reflexivity.
Qed.

(** X12.  An encoder run that fails is the last one the worker starts, and the
    run is reported with [error]: if the [n]-th command launched (from 0)
    exits unsuccessfully, exactly [n + 1] commands were launched and the
    terminal signal is an [error]. *)
Theorem failed_encoder_run_ends_the_work (env : environment) (output_tasks : list task)
  (exists_ : bool) (n : nat) :
  (n < List.length (launched (run env output_tasks (initial_state exists_))))%nat ->
  exit_ok (ffmpeg env n) = false ->
  S n = List.length (launched (run env output_tasks (initial_state exists_))) /\
  exists m, terminal_report (run env output_tasks (initial_state exists_))
            = Some (error m).
Proof.
  destruct (try_except_post env output_tasks (initial_state exists_)
              (initial_state_loop_pre env exists_)) as [_ [[_ Hl] Hd]].
  unfold run.
  destruct (cleanup_signals env (try_except env output_tasks (initial_state exists_)))
    as [_ Ht].
  destruct (cleanup_emitted env (try_except env output_tasks (initial_state exists_)))
    as [_ Hc].
  rewrite Hc, Ht. intros Hn Hex. split.
  - destruct (Nat.eq_dec (S n)
                (List.length (launched (try_except env output_tasks (initial_state exists_)))))
      as [Heq|Hne]; [exact Heq|].
    rewrite Hl in Hex by lia. discriminate Hex.
  - destruct Hd as [[_ Ha]|Hm]; [|exact Hm].
    rewrite (Ha n Hn) in Hex. discriminate Hex.
Qed.

Lemma failed_encoder_run_ends_the_work_witness :
  (0 < List.length (launched (run (example_env None encoder_failing None) five_cuts
                                 (initial_state false))))%nat /\
  exit_ok (ffmpeg (example_env None encoder_failing None) 0) = false /\
  1%nat = List.length (launched (run (example_env None encoder_failing None) five_cuts
                                  (initial_state false))) /\
  exists m, terminal_report (run (example_env None encoder_failing None) five_cuts
                               (initial_state false)) = Some (error m).
Proof.
  assert (H1 : (0 < List.length (launched (run (example_env None encoder_failing None)
                                             five_cuts (initial_state false))))%nat)
    by (vm_compute; lia).
  assert (H2 : exit_ok (ffmpeg (example_env None encoder_failing None) 0) = false)
    by reflexivity.
  split; [exact H1|]. split; [exact H2|].
  exact (failed_encoder_run_ends_the_work (example_env None encoder_failing None)
           five_cuts false 0 H1 H2).
Defined.

(** ** Executor: the run in which nothing goes wrong *)

Lemma read_lines_never_raises (has_callback : bool) (total : option Q)
  (callback : progress_callback_t) (lines : list string) :
  snd (read_lines has_callback total callback lines) = false.
Proof.
  induction lines as [|line lines IH]; simpl; [reflexivity|].
  pose proof (progress_of_line_never_raises has_callback total line) as Hp.
  destruct (progress_of_line has_callback total line); [exact IH| |congruence].
  destruct (read_lines has_callback total callback lines) as [es raised]. exact IH.
Qed.

Lemma is_cancelled_never (env : environment) (st : worker_state) :
  cancelled_from env = None ->
  exists st', is_cancelled env st = (Done false, st') /\
              launched st' = launched st /\ ffmpeg_runs st' = ffmpeg_runs st.
Proof.
  intro Hc. unfold is_cancelled. rewrite Hc. eexists. split; [reflexivity|].
  split; reflexivity.
Qed.

Lemma FfmpegProcess_run_succeeds (env : environment) (cmd : ffmpeg_command)
  (total : option Q) (cb : option progress_callback_t) (st : worker_state) :
  exit_ok (ffmpeg env (ffmpeg_runs st)) = true ->
  exists res st', FfmpegProcess_run env cmd total cb st = (Done res, st') /\
                  fst res = true /\ launched st' = launched st ++ [cmd].
Proof.
  intro Hok. unfold FfmpegProcess_run.
  pose proof (read_lines_never_raises
                (match cb with Some _ => true | None => false end) total
                (match cb with Some f => f | None => pair end)
                (output_lines (ffmpeg env (ffmpeg_runs st)))) as Hr.
  destruct (read_lines _ total _ (output_lines (ffmpeg env (ffmpeg_runs st))))
    as [es raised].
  simpl in Hr. subst raised. eexists. eexists. split; [reflexivity|].
  split; [exact Hok | reflexivity].
Qed.

Lemma cut_segments_succeeds (env : environment) (d : format_details) (dir : string)
  (i total n_segments : nat) (segs : list (Q * Q)) :
  trouble_free env ->
  forall seg_idx st,
    exists files st',
      cut_segments env d dir i total n_segments seg_idx segs st = (Done files, st') /\
      List.length (launched st') = (List.length (launched st) + List.length segs)%nat.
Proof.
  intros [Hc [Hok _]].
  induction segs as [|[seg_start seg_end] segs IH]; intros seg_idx st.
  - exists [], st. split; [reflexivity | simpl; lia].
  - cbn [cut_segments]. unfold bindM at 1.
    destruct (is_cancelled_never env st Hc) as [st1 [-> [Hl1 _]]].
    unfold bindM at 1.
    match goal with
    | |- context [FfmpegProcess_run env ?cmd ?t ?cb st1] =>
        destruct (FfmpegProcess_run_succeeds env cmd t cb st1 (Hok _))
          as [res [st2 [-> [Hres Hl2]]]]
    end.
    rewrite Hres. unfold bindM at 1.
    destruct (IH (S seg_idx) st2) as [files [st3 [-> Hl3]]].
    eexists. eexists. split; [reflexivity|].
    rewrite Hl3, Hl2, Hl1, length_app. simpl. lia.
Qed.

Lemma concat_args_known (d : format_details) : concat_args d <> None.
Proof.
  unfold concat_args. destruct (is_gif d && negb (needs_reencode d)).
  - vm_compute. discriminate.
  - destruct (negb (needs_reencode d)); discriminate.
Qed.

Lemma run_task_succeeds (env : environment) (i total : nat) (task_info : task)
  (st : worker_state) :
  trouble_free env -> known_format task_info ->
  exists st',
    run_task env i total task_info st = (Done tt, st') /\
    List.length (launched st')
    = (List.length (launched st) + encoder_runs task_info)%nat.
Proof.
  intros Htf Hk. pose proof Htf as [Hc [Hok [Hmk Hop]]].
  unfold known_format in Hk. unfold run_task.
  replace (match task_info with Concat _ k _ _ => k | SingleCut _ k _ _ _ => k end)
    with (task_format_key task_info) by (destruct task_info; reflexivity).
  destruct (lookup_format (task_format_key task_info) OUTPUT_FORMATS) as [d|];
    [|congruence].
  unfold bindM at 1. unfold emit at 1, modify at 1.
  destruct task_info as [p k segs g|p k s e g].
  - unfold bindM at 1. unfold set_temp_concat_dir, modify.
    unfold bindM at 1. unfold makedirs. rewrite Hmk. unfold modify.
    unfold bindM at 1.
    match goal with
    | |- context [cut_segments env d ?dir i total ?n 0 segs ?st0] =>
        destruct (cut_segments_succeeds env d dir i total n segs Htf 0%nat st0)
          as [files [st1 [-> Hl1]]]
    end.
    unfold bindM at 1. unfold write_concat_list. rewrite Hop. unfold modify.
    pose proof (concat_args_known d) as Hca.
    destruct (concat_args d) as [args|]; [|congruence].
    unfold bindM at 1.
    match goal with
    | |- context [FfmpegProcess_run env ?cmd ?t ?cb ?st0] =>
        destruct (FfmpegProcess_run_succeeds env cmd t cb st0 (Hok _))
          as [res [st2 [-> [Hres Hl2]]]]
    end.
    rewrite Hres. unfold emit, modify. eexists. split; [reflexivity|].
    simpl in *. rewrite Hl2, length_app, Hl1. simpl. lia.
  - unfold bindM at 1.
    match goal with
    | |- context [FfmpegProcess_run env ?cmd ?t ?cb ?st0] =>
        destruct (FfmpegProcess_run_succeeds env cmd t cb st0 (Hok _))
          as [res [st2 [-> [Hres Hl2]]]]
    end.
    rewrite Hres. unfold emit, modify. eexists. split; [reflexivity|].
    simpl in *. rewrite Hl2, length_app. simpl. lia.
Qed.

Lemma task_loop_succeeds (env : environment) (total : nat) (tasks : list task) :
  trouble_free env -> Forall known_format tasks ->
  forall i st,
    exists st',
      task_loop env total i tasks st = (Done tt, st') /\
      List.length (launched st')
      = (List.length (launched st) + list_sum (map encoder_runs tasks))%nat.
Proof.
  intros Htf Hk. induction Hk as [|t tasks Ht Hk IH]; intros i st.
  - exists st. split; [reflexivity | simpl; lia].
  - cbn [task_loop]. unfold bindM at 1. unfold set_loop_index, modify.
    unfold bindM at 1.
    destruct Htf as [Hc Hrest].
    match goal with
    | |- context [is_cancelled env ?st0] =>
        destruct (is_cancelled_never env st0 Hc) as [st1 [-> [Hl1 _]]]
    end.
    unfold bindM at 1.
    destruct (run_task_succeeds env i total t st1 (conj Hc Hrest) Ht) as [st2 [-> Hl2]].
    destruct (IH (S i) st2) as [st3 [-> Hl3]].
    exists st3. split; [reflexivity|].
    rewrite Hl3, Hl2, Hl1. simpl. lia.
Qed.

(** X13.  When nobody cancels, every encoder run succeeds, the directory and
    the list file can be written, every task names a known format and no cut
    is shorter than a millisecond (a shorter one can make the percentage of a
    progress line too large for a float), the run ends with [finished]
    carrying the completion message, reports every task as processed, and has
    launched one command per single cut and one per segment plus one for the
    join of a concat task. *)
Theorem trouble_free_run_completes (env : environment) (output_tasks : list task)
  (exists_ : bool) :
  trouble_free env -> Forall known_format output_tasks ->
  Forall no_instant_cut output_tasks ->
  terminal_report (run env output_tasks (initial_state exists_))
  = Some (finished (completion_message output_tasks)) /\
  processed_count (run env output_tasks (initial_state exists_))
  = List.length output_tasks /\
  List.length (launched (run env output_tasks (initial_state exists_)))
  = list_sum (map encoder_runs output_tasks).
Proof.
  intros Htf Hk _.
  destruct (task_loop_succeeds env (List.length output_tasks) output_tasks Htf Hk
              0%nat (initial_state exists_)) as [st1 [Hloop Hl]].
  pose proof (task_loop_done _ _ _ _ _ _ Hloop) as Hp.
  pose proof (task_loop_step _ _ _ _ _ _ _ Hloop) as [_ [_ [es [He Hes]]]].
  assert (Hte : try_except env output_tasks (initial_state exists_)
                = add_event (finished (completion_message output_tasks)) st1).
  { unfold try_except, try_block, bindM. rewrite Hloop. reflexivity. }
  unfold run.
  destruct (cleanup_signals env (try_except env output_tasks (initial_state exists_)))
    as [_ ->].
  rewrite cleanup_processed_count.
  destruct (cleanup_emitted env (try_except env output_tasks (initial_state exists_)))
    as [_ ->].
  rewrite Hte. split; [|split].
  - unfold terminal_report. simpl. rewrite filter_app. simpl. rewrite rev_app_distr.
    reflexivity.
  - rewrite processed_count_add. simpl. rewrite Hp. simpl. lia.
  - simpl. rewrite Hl. simpl. lia.
Qed.

Lemma trouble_free_run_completes_witness :
  trouble_free (example_env None encoder_ok None) /\
  Forall known_format one_concat /\
  Forall no_instant_cut one_concat /\
  terminal_report (run (example_env None encoder_ok None) one_concat (initial_state false))
  = Some (finished (completion_message one_concat)) /\
  processed_count (run (example_env None encoder_ok None) one_concat (initial_state false))
  = List.length one_concat /\
  List.length (launched (run (example_env None encoder_ok None) one_concat
                           (initial_state false)))
  = list_sum (map encoder_runs one_concat).
Proof.
  assert (H1 : trouble_free (example_env None encoder_ok None)).
  { unfold trouble_free. simpl. repeat apply conj; try reflexivity; intros; reflexivity. }
  assert (H2 : Forall known_format one_concat).
  { constructor; [|constructor]. unfold known_format. vm_compute. discriminate. }
  assert (H3 : Forall no_instant_cut one_concat).
  { repeat constructor; unfold Qle; simpl; lia. }
  split; [exact H1|]. split; [exact H2|]. split; [exact H3|].
  exact (trouble_free_run_completes (example_env None encoder_ok None) one_concat false
           H1 H2 H3).
Defined.

(** ** Executor: the progress values *)

Lemma int_of_float_range (x : Q) : 0 <= x -> x <= 100 -> (0 <= int_of_float x <= 100)%Z.
Proof.
  intros H0 H1. rewrite int_of_float_floor by exact H0. split.
  - change 0%Z with (Qfloor 0). apply Qfloor_resp_le, H0.
  - change 100%Z with (Qfloor 100). apply Qfloor_resp_le, H1.
Qed.

Lemma int_of_float_below (x : Q) : 0 <= x -> 0 <= inject_Z (int_of_float x) <= x.
Proof.
  intro H. rewrite int_of_float_floor by exact H. split; [|apply Qfloor_le].
  change 0 with (inject_Z 0). rewrite <- Zle_Qle.
  change 0%Z with (Qfloor 0). apply Qfloor_resp_le, H.
Qed.

Lemma Qnat_nonneg (n : nat) : 0 <= Qnat n.
Proof. unfold Qnat. change 0 with (inject_Z 0). rewrite <- Zle_Qle. lia. Qed.

Lemma Qnat_S (n : nat) : Qnat (S n) == Qnat n + 1.
Proof. unfold Qnat. rewrite Nat2Z.inj_succ, <- Z.add_1_r, inject_Z_plus. reflexivity. Qed.

Lemma Qnat_le (n m : nat) : (n <= m)%nat -> Qnat n <= Qnat m.
Proof. intro H. unfold Qnat. rewrite <- Zle_Qle. lia. Qed.

Lemma Qnat_pos (n : nat) : (0 < n)%nat -> 0 < Qnat n.
Proof. intro H. unfold Qnat. change 0 with (inject_Z 0). rewrite <- Zlt_Qlt. lia. Qed.

(** The share of the tasks before number [i], and of one task. *)
Lemma share_bounds (i total : nat) :
  (i < total)%nat ->
  0 < / Qnat total /\ 0 <= Qnat i * / Qnat total /\
  Qnat i * / Qnat total + / Qnat total <= 1.
Proof.
  intro H. assert (Ht : 0 < Qnat total) by (apply Qnat_pos; lia).
  assert (Hu : 0 < / Qnat total) by (apply Qinv_lt_0_compat, Ht).
  split; [exact Hu|]. split.
  - apply Qmult_le_0_compat; [apply Qnat_nonneg | lra].
  - assert (Hi : Qnat i + 1 <= Qnat total).
    { rewrite <- Qnat_S. apply Qnat_le. lia. }
    assert (E : Qnat total * / Qnat total == 1) by (apply Qmult_inv_r; lra).
    assert (Hm : (Qnat i + 1) * / Qnat total <= Qnat total * / Qnat total).
    { apply Qmult_le_compat_r; [exact Hi | lra]. }
    rewrite E in Hm. lra.
Qed.

Lemma percent_share (p : Z) : (0 <= p <= 100)%Z -> 0 <= inject_Z p / 100 <= 1.
Proof.
  intros [H0 H1]. rewrite Zle_Qle in H0, H1.
  change (inject_Z 0) with 0 in H0. change (inject_Z 100) with 100 in H1.
  unfold Qdiv. change (/ 100) with (1 # 100). lra.
Qed.

(** The callback of a single cut. *)
Lemma single_cut_callback_bounded (i total : nat) (p : Z) :
  (i < total)%nat -> (0 <= p <= 100)%Z ->
  (0 <= int_of_float (inject_Z (int_of_float (Qnat i / Qnat total * 100))
                      + inject_Z p / 100 * (1 / Qnat total * 100)) <= 100)%Z.
Proof.
  intros Hi Hp. destruct (share_bounds i total Hi) as [Hu [Hy Hs]].
  destruct (percent_share p Hp) as [Hp0 Hp1].
  assert (Ha : 0 <= Qnat i / Qnat total * 100) by (unfold Qdiv; lra).
  destruct (int_of_float_below _ Ha) as [Hf0 Hf1].
  unfold Qdiv in *. set (u := / Qnat total) in *. set (y := Qnat i * u) in *.
  set (q := inject_Z p * / 100) in *.
  set (f := inject_Z (int_of_float (y * 100))) in *.
  assert (Hq : 0 <= q * u <= u) by (split; nra).
  apply int_of_float_range; lra.
Qed.

(** The callback of the cut of segment [seg_idx] of [n] in a concat task. *)
Lemma seg_callback_bounded (i total n seg_idx : nat) (p : Z) :
  (i < total)%nat -> (seg_idx < n)%nat -> (0 <= p <= 100)%Z ->
  (0 <= int_of_float (inject_Z (int_of_float (Qnat i / Qnat total * 100))
                      + Qnat seg_idx * (1 / Qnat total * (1 / Qnat n) * 50)
                      + inject_Z p / 100 * (1 / Qnat total * (1 / Qnat n) * 50)) <= 100)%Z.
Proof.
  intros Hi Hn Hp. destruct (share_bounds i total Hi) as [Hu [Hy Hs]].
  destruct (share_bounds seg_idx n Hn) as [Hv [Hz Hw]].
  destruct (percent_share p Hp) as [Hp0 Hp1].
  assert (Ha : 0 <= Qnat i / Qnat total * 100) by (unfold Qdiv; lra).
  destruct (int_of_float_below _ Ha) as [Hf0 Hf1].
  unfold Qdiv in *. set (u := / Qnat total) in *. set (y := Qnat i * u) in *.
  set (v := / Qnat n) in *. set (z := Qnat seg_idx * v) in *.
  set (q := inject_Z p * / 100) in *.
  set (f := inject_Z (int_of_float (y * 100))) in *.
  assert (E1 : Qnat seg_idx * (1 * u * (1 * v) * 50) == z * u * 50) by (unfold z; ring).
  assert (E2 : q * (1 * u * (1 * v) * 50) == (q * v) * u * 50) by ring.
  assert (Hqv : 0 <= q * v <= v) by (split; nra).
  assert (Hzu : 0 <= (z + q * v) * u <= u) by (split; nra).
  apply int_of_float_range; rewrite E1, E2; nra.
Qed.

(** The callback of the join of a concat task. *)
Lemma concat_callback_bounded (i total : nat) (p : Z) :
  (2 * i + 1 <= total)%nat -> (0 <= p <= 100)%Z ->
  (0 <= int_of_float (inject_Z (int_of_float (Qnat i / Qnat total * 100) + 50)
                      + inject_Z p / 100 * (50 / Qnat total)) <= 100)%Z.
Proof.
  intros Hi Hp. assert (Hlt : (i < total)%nat) by lia.
  destruct (share_bounds i total Hlt) as [Hu [Hy Hs]].
  destruct (percent_share p Hp) as [Hp0 Hp1].
  assert (Ha : 0 <= Qnat i / Qnat total * 100) by (unfold Qdiv; lra).
  destruct (int_of_float_below _ Ha) as [Hf0 Hf1].
  assert (Hh : 2 * (Qnat i * / Qnat total) + / Qnat total <= 1).
  { assert (Ht : 0 < Qnat total) by (apply Qnat_pos; lia).
    assert (H2 : 2 * Qnat i + 1 <= Qnat total).
    { unfold Qnat. change 2 with (inject_Z 2). change 1 with (inject_Z 1).
      rewrite <- inject_Z_mult, <- inject_Z_plus, <- Zle_Qle. lia. }
    assert (E : Qnat total * / Qnat total == 1) by (apply Qmult_inv_r; lra).
    assert (Hm : (2 * Qnat i + 1) * / Qnat total <= Qnat total * / Qnat total).
    { apply Qmult_le_compat_r; [exact H2 | lra]. }
    rewrite E in Hm. lra. }
  rewrite inject_Z_plus. change (inject_Z 50) with 50.
  unfold Qdiv in *. set (u := / Qnat total) in *. set (y := Qnat i * u) in *.
  set (q := inject_Z p * / 100) in *.
  set (f := inject_Z (int_of_float (y * 100))) in *.
  assert (Hq : 0 <= q * u <= u) by (split; nra).
  apply int_of_float_range; lra.
Qed.

(** The percentage [FfmpegProcess.run] hands to its callback. *)
Lemma progress_of_line_range (has_callback : bool) (total_duration : option Q)
  (line : string) (p : Z) (msg : string) :
  progress_of_line has_callback total_duration line = Progress p msg ->
  (0 <= p <= 100)%Z.
Proof.
  unfold progress_of_line. destruct total_duration as [total|]; [|discriminate].
  destruct (has_callback && negb (Py.eqb total 0) && Py.ltb 0 total) eqn:Hc;
    [|discriminate].
  apply andb_prop in Hc. destruct Hc as [_ Hpos]. apply ltb_lt in Hpos.
  destruct (TimeRegex.search (Str.strip (list_ascii_of_string line))) as [tok|] eqn:Hs;
    [|discriminate].
  destruct (search_token _ _ Hs) as [l' Hm].
  destruct (match_here_token _ _ Hm)
    as [hh [mm [ss [ff [Htok [Hh [Hmm [Hss [Hf [Lh [Lm [Ls Lf]]]]]]]]]]]].
  assert (Nh : hh <> []) by (intro; subst hh; discriminate).
  assert (Nm : mm <> []) by (intro; subst mm; discriminate).
  assert (Ns : ss <> []) by (intro; subst ss; discriminate).
  assert (Nf : ff <> []) by (intro; subst ff; simpl in Lf; lia).
  destruct (time_token_to_seconds hh mm ss ff Hh Hmm Hss Hf Nh Nm Ns Nf) as [q [Hq Hv]].
  rewrite Htok, Hq. intro H. inversion H; subst. clear H.
  assert (Hq0 : 0 <= q).
  { rewrite Hv. apply token_seconds_nonneg; assumption. }
  pose proof (percentage_nonneg q total Hq0 Hpos) as Hx.
  rewrite int_of_float_floor by exact Hx.
  assert (0 <= Qfloor (q / total * 100))%Z
    by (change 0%Z with (Qfloor 0); apply Qfloor_resp_le, Hx).
  lia.
Qed.

Lemma read_lines_percents (has_callback : bool) (total : option Q)
  (callback : progress_callback_t) (lines : list string) :
  bounded_callback callback ->
  Forall percent_ok (fst (read_lines has_callback total callback lines)).
Proof.
  intro Hcb. induction lines as [|line lines IH]; simpl; [constructor|].
  destruct (progress_of_line has_callback total line) as [|p msg|] eqn:Hp;
    [exact IH| |constructor].
  destruct (read_lines has_callback total callback lines) as [es raised]. simpl in *.
  constructor; [|exact IH]. unfold call, percent_ok.
  apply Hcb. eapply progress_of_line_range. exact Hp.
Qed.

Lemma keeps_bind {A B : Type} (m : M A) (f : A -> M B) :
  keeps_percents m -> (forall a, keeps_percents (f a)) -> keeps_percents (bindM m f).
Proof.
  intros Hm Hf. unfold keeps_percents.
  apply (hoare_bind _ m f (fun _ st => percents_ok st)); [exact Hm | | |].
  - intro a. exact (Hf a).
  - intros e st H. exact H.
  - intros st H. exact H.
Qed.

(** A step that leaves the events as they are. *)
Lemma keeps_silent {A : Type} (m : M A) :
  (forall st r st', m st = (r, st') -> emitted st' = emitted st) -> keeps_percents m.
Proof.
  intros Hm st r st' Hpre H. unfold percents_ok. rewrite (Hm _ _ _ H). exact Hpre.
Qed.

Lemma keeps_ret {A : Type} (a : A) : keeps_percents (ret a).
Proof. apply keeps_silent. intros st r st' H. inversion H; subst. reflexivity. Qed.

Lemma keeps_raise {A : Type} (e : exn) : keeps_percents (@raise A e).
Proof. apply keeps_silent. intros st r st' H. inversion H; subst. reflexivity. Qed.

Lemma keeps_return {A : Type} : keeps_percents (@return_ A).
Proof. apply keeps_silent. intros st r st' H. inversion H; subst. reflexivity. Qed.

Lemma keeps_emit (e : event) : percent_ok e -> keeps_percents (emit e).
Proof.
  intros He st r st' Hpre H. unfold emit, modify in H. inversion H; subst.
  unfold percents_ok. simpl. apply Forall_app. split; [exact Hpre|].
  constructor; [exact He | constructor].
Qed.

Lemma keeps_is_cancelled (env : environment) : keeps_percents (is_cancelled env).
Proof. apply keeps_silent. intros st r st' H. inversion H; subst. reflexivity. Qed.

Lemma keeps_set_loop_index (i : nat) : keeps_percents (set_loop_index i).
Proof. apply keeps_silent. intros st r st' H. inversion H; subst. reflexivity. Qed.

Lemma keeps_set_temp_concat_dir (d : string) : keeps_percents (set_temp_concat_dir d).
Proof. apply keeps_silent. intros st r st' H. inversion H; subst. reflexivity. Qed.

Lemma keeps_makedirs (env : environment) (i : nat) : keeps_percents (makedirs env i).
Proof.
  apply keeps_silent. intros st r st' H. unfold makedirs in H.
  destruct (makedirs_error env i); inversion H; subst; reflexivity.
Qed.

Lemma keeps_write_concat_list (env : environment) (i : nat) (lines : list string) :
  keeps_percents (write_concat_list env i lines).
Proof.
  apply keeps_silent. intros st r st' H. unfold write_concat_list in H.
  destruct (open_error env i); inversion H; subst; reflexivity.
Qed.

Lemma keeps_FfmpegProcess_run (env : environment) (cmd : ffmpeg_command)
  (total : option Q) (cb : option progress_callback_t) :
  (forall f, cb = Some f -> bounded_callback f) ->
  keeps_percents (FfmpegProcess_run env cmd total cb).
Proof.
  intros Hcb st r st' Hpre H. unfold FfmpegProcess_run in H.
  assert (Hb : bounded_callback (match cb with Some f => f | None => pair end)).
  { destruct cb as [f|]; [apply Hcb; reflexivity|]. intros p msg Hp. exact Hp. }
  pose proof (read_lines_percents
                (match cb with Some _ => true | None => false end) total _
                (output_lines (ffmpeg env (ffmpeg_runs st))) Hb) as Hes.
  destruct (read_lines _ total _ (output_lines (ffmpeg env (ffmpeg_runs st))))
    as [es raised].
  simpl in Hes.
  destruct raised; inversion H; subst; unfold percents_ok; simpl;
    apply Forall_app; split; assumption.
Qed.

Lemma keeps_cut_segments (env : environment) (d : format_details) (dir : string)
  (i total n_segments : nat) (segs : list (Q * Q)) :
  (i < total)%nat ->
  forall seg_idx,
    (seg_idx + List.length segs = n_segments)%nat ->
    keeps_percents (cut_segments env d dir i total n_segments seg_idx segs).
Proof.
  intro Hi. induction segs as [|[seg_start seg_end] segs IH]; intros seg_idx Hn.
  - apply keeps_ret.
  - cbn [cut_segments]. apply keeps_bind; [apply keeps_is_cancelled|].
    intros [|]; [apply keeps_raise|].
    apply keeps_bind.
    + apply keeps_FfmpegProcess_run. intros f Hf.
      destruct (needs_reencode d); [|discriminate Hf].
      injection Hf as <-. intros p msg Hp. cbn [fst].
      apply seg_callback_bounded; [exact Hi | simpl in Hn; lia | exact Hp].
    + intro res. destruct (fst res); [|apply keeps_raise].
      apply keeps_bind; [apply IH; simpl in Hn; lia | intro files; apply keeps_ret].
Qed.

Lemma keeps_run_task (env : environment) (i total : nat) (task_info : task) :
  progress_fits total i task_info -> keeps_percents (run_task env i total task_info).
Proof.
  intros [Hi Hfit]. unfold run_task.
  destruct (lookup_format _ OUTPUT_FORMATS) as [d|]; [|apply keeps_raise].
  apply keeps_bind; [apply keeps_emit; simpl; lia|]. intros [].
  destruct task_info as [p k segs g|p k s e g].
  - apply keeps_bind; [apply keeps_set_temp_concat_dir|]. intros [].
    apply keeps_bind; [apply keeps_makedirs|]. intros [].
    apply keeps_bind; [apply keeps_cut_segments; [exact Hi | reflexivity]|]. intro files.
    apply keeps_bind; [apply keeps_write_concat_list|]. intros [].
    destruct (concat_args d) as [args|]; [|apply keeps_raise].
    apply keeps_bind.
    + apply keeps_FfmpegProcess_run. intros f Hf.
      destruct (needs_reencode d || is_gif d && negb (needs_reencode d));
        [|discriminate Hf].
      injection Hf as <-. intros pc msg Hp. cbn [fst].
      apply concat_callback_bounded; [exact Hfit | exact Hp].
    + intro res. destruct (fst res); [apply keeps_emit; exact I | apply keeps_raise].
  - apply keeps_bind.
    + apply keeps_FfmpegProcess_run. intros f Hf.
      destruct (needs_reencode d); [|discriminate Hf].
      injection Hf as <-. intros pc msg Hp. cbn [fst].
      apply single_cut_callback_bounded; [exact Hi | exact Hp].
    + intro res. destruct (fst res); [apply keeps_emit; exact I | apply keeps_raise].
Qed.

Lemma keeps_task_loop (env : environment) (total : nat) (tasks : list task) :
  forall i, all_fit total i tasks -> keeps_percents (task_loop env total i tasks).
Proof.
  induction tasks as [|t tasks IH]; intros i Hfit.
  - apply keeps_ret.
  - destruct Hfit as [Ht Hrest]. cbn [task_loop].
    apply keeps_bind; [apply keeps_set_loop_index|]. intros [].
    apply keeps_bind; [apply keeps_is_cancelled|]. intros [|].
    + apply keeps_bind; [apply keeps_emit; exact I | intros []; apply keeps_return].
    + apply keeps_bind; [apply keeps_run_task; exact Ht | intros []; apply IH; exact Hrest].
Qed.

(** The whole run keeps the progress values in range when every task fits. *)
Lemma run_percents (env : environment) (tasks : list task) (exists_ : bool) :
  all_fit (List.length tasks) 0 tasks ->
  percents_ok (run env tasks (initial_state exists_)).
Proof.
  intro Hfit.
  assert (Ht : percents_ok (try_except env tasks (initial_state exists_))).
  { unfold try_except. destruct (try_block env tasks (initial_state exists_)) as [r st1] eqn:E.
    assert (H1 : percents_ok st1).
    { revert E. unfold try_block.
      apply (keeps_bind _ _ (keeps_task_loop env _ tasks 0%nat Hfit)
               (fun _ => keeps_emit (finished (completion_message tasks)) I)).
      constructor. }
    destruct r as [[]|e|]; try exact H1.
    unfold percents_ok in *. destruct e; simpl;
      repeat (apply Forall_app; split; [|constructor; [exact I | constructor]]);
      exact H1. }
  unfold run, percents_ok in *.
  destruct (cleanup_emitted env (try_except env tasks (initial_state exists_)))
    as [[->|[line ->]] _]; [exact Ht|].
  apply Forall_app. split; [exact Ht | constructor; [exact I | constructor]].
Qed.

Lemma all_fit_single_cuts (total : nat) (tasks : list task) :
  Forall (fun t => task_is_concat t = false) tasks ->
  forall i, (i + List.length tasks <= total)%nat -> all_fit total i tasks.
Proof.
  induction 1 as [|t tasks Ht _ IH]; intros i Hi; [exact I|].
  simpl in Hi. split.
  - split; [lia|]. destruct t; [discriminate Ht | exact I].
  - apply IH. lia.
Qed.

(** X14.  For every plan [on_save_video] starts, whatever the encoder prints
    and whatever else happens, each [progress_update] the run emits carries a
    percentage between 0 and 100. *)
Theorem planned_progress_stays_in_range (rq : save_request) (w : MainWindow)
  (tw : TimelineWidget) (tasks : list task) (env : environment) (exists_ : bool)
  (percentage : Z) (msg : string) :
  on_save_video rq w tw = Some (StartWorker tasks) ->
  In (progress_update percentage msg) (emitted (run env tasks (initial_state exists_))) ->
  (0 <= percentage <= 100)%Z.
Proof.
  intros Hplan Hin.
  assert (Hfit : all_fit (List.length tasks) 0 tasks).
  { destruct (on_save_video_started rq w tw tasks Hplan)
      as [fmt [_ [_ [_ [[_ [_ Ht]]|[[_ [segs [_ Ht]]]|[[_ Ht]|[_ Ht]]]]]]]]; subst tasks.
    - simpl. repeat split; lia.
    - simpl. repeat split; lia.
    - apply all_fit_single_cuts; [|simpl; lia].
      apply selection_split_loop_forall. reflexivity.
    - apply all_fit_single_cuts; [|simpl; lia].
      apply tag_split_loop_forall. reflexivity. }
  pose proof (run_percents env tasks exists_ Hfit) as Hok.
  unfold percents_ok in Hok. rewrite Forall_forall in Hok.
  exact (Hok _ Hin).
Qed.

Lemma planned_progress_stays_in_range_witness :
  on_save_video
    (mkSaveRequest 0 "MP4 (H.264 + AAC)" "clip" ".mkv" "/out/clip_edited.mp4" None)
    (mkMainWindow [(2, 5); (6, 8)] None 10) (mkTimelineWidget 10 [] [])
  = Some (StartWorker [Concat "/out/clip_edited.mp4" "MP4 (H.264 + AAC)" [(2, 5); (6, 8)]
                         None]) /\
  In (progress_update 60 "Task 1, Finalizing: Encoding... 00:00:01.00")
    (emitted (run (example_env None encoder_ok None)
                [Concat "/out/clip_edited.mp4" "MP4 (H.264 + AAC)" [(2, 5); (6, 8)] None]
                (initial_state false))) /\
  (0 <= 60 <= 100)%Z.
Proof.
  assert (H1 : on_save_video
    (mkSaveRequest 0 "MP4 (H.264 + AAC)" "clip" ".mkv" "/out/clip_edited.mp4" None)
    (mkMainWindow [(2, 5); (6, 8)] None 10) (mkTimelineWidget 10 [] [])
  = Some (StartWorker [Concat "/out/clip_edited.mp4" "MP4 (H.264 + AAC)" [(2, 5); (6, 8)]
                         None])) by reflexivity.
  assert (H2 : In (progress_update 60 "Task 1, Finalizing: Encoding... 00:00:01.00")
    (emitted (run (example_env None encoder_ok None)
                [Concat "/out/clip_edited.mp4" "MP4 (H.264 + AAC)" [(2, 5); (6, 8)] None]
                (initial_state false)))).
  { vm_compute. tauto. }
  split; [exact H1|]. split; [exact H2|].
  exact (planned_progress_stays_in_range _ _ _ _ _ _ _ _ H1 H2).
Defined.

(** ** Executor: the reports of processed tasks *)

(** A step that reports no task. *)
Lemma reported_same (l : list event) (st st' : worker_state) :
  emitted st' = emitted st -> reported l st -> reported l st'.
Proof. unfold reported. intros ->. tauto. Qed.

Lemma reported_add (l : list event) (e : event) (st : worker_state) :
  reported l st ->
  reported (l ++ if is_segment_processed e then [e] else []) (add_event e st).
Proof.
  unfold reported. intros <-. simpl. rewrite filter_app. simpl.
  destruct (is_segment_processed e); reflexivity.
Qed.

(** A first step that reports nothing, before a rest that may. *)
Lemma reported_skip {A B : Type} (l : list event) (m : M A) (k : A -> M B)
  (post : result B -> worker_state -> Prop) :
  hoare (reported l) m (fun _ st => reported l st) ->
  (forall a, hoare (reported l) (k a) post) ->
  (forall e st, reported l st -> post (Raised e) st) ->
  (forall st, reported l st -> post Returned st) ->
  hoare (reported l) (bindM m k) post.
Proof.
  intros Hm Hk He Hr.
  apply (hoare_bind _ m k (fun _ st => reported l st)); assumption.
Qed.

Lemma reported_bind {A B : Type} (l : list event) (m : M A) (f : A -> M B) :
  hoare (reported l) m (fun _ st => reported l st) ->
  (forall a, hoare (reported l) (f a) (fun _ st => reported l st)) ->
  hoare (reported l) (bindM m f) (fun _ st => reported l st).
Proof.
  intros Hm Hf. apply reported_skip; [exact Hm | exact Hf | |]; intros; assumption.
Qed.

Lemma reported_silent {A : Type} (l : list event) (m : M A) :
  (forall st r st', m st = (r, st') -> emitted st' = emitted st) ->
  hoare (reported l) m (fun _ st => reported l st).
Proof.
  intros Hm st r st' Hpre H. apply (reported_same l st); [apply (Hm _ _ _ H) | exact Hpre].
Qed.

Lemma reported_FfmpegProcess_run (l : list event) (env : environment)
  (cmd : ffmpeg_command) (total : option Q) (cb : option progress_callback_t) :
  hoare (reported l) (FfmpegProcess_run env cmd total cb) (fun _ st => reported l st).
Proof.
  intros st r st' Hpre H. unfold FfmpegProcess_run in H.
  pose proof (read_lines_no_error
                (match cb with Some _ => true | None => false end) total
                (match cb with Some f => f | None => pair end)
                (output_lines (ffmpeg env (ffmpeg_runs st)))) as Hne.
  destruct (read_lines _ total _ (output_lines (ffmpeg env (ffmpeg_runs st))))
    as [es raised].
  simpl in Hne.
  assert (Hq : filter is_segment_processed es = []).
  { clear H. induction Hne as [|e es [He _] Hes IH]; simpl; [reflexivity|].
    rewrite He. exact IH. }
  unfold reported in *.
  destruct raised; inversion H; subst; simpl; rewrite filter_app, Hq, app_nil_r;
    reflexivity.
Qed.

Lemma reported_cut_segments (l : list event) (env : environment) (d : format_details)
  (dir : string) (i total n_segments : nat) (segs : list (Q * Q)) :
  forall seg_idx,
    hoare (reported l) (cut_segments env d dir i total n_segments seg_idx segs)
      (fun _ st => reported l st).
Proof.
  induction segs as [|[seg_start seg_end] segs IH]; intro seg_idx.
  - apply reported_silent. intros st r st' H. inversion H; subst. reflexivity.
  - cbn [cut_segments]. apply reported_bind.
    + apply reported_silent. intros st r st' H. inversion H; subst. reflexivity.
    + intros [|].
      * apply reported_silent. intros st r st' H. inversion H; subst. reflexivity.
      * apply reported_bind; [apply reported_FfmpegProcess_run|].
        intro res. destruct (fst res).
        -- apply reported_bind; [apply IH|]. intro files.
           apply reported_silent. intros st r st' H. inversion H; subst. reflexivity.
        -- apply reported_silent. intros st r st' H. inversion H; subst. reflexivity.
Qed.

(** An encoder run and the report or the exception that follows it. *)
Lemma reported_run_and_report (l : list event) (env : environment)
  (cmd : ffmpeg_command) (total : option Q) (cb : option progress_callback_t)
  (e : event) (fail : bool * string -> exn) :
  is_segment_processed e = true ->
  hoare (reported l)
    (bindM (FfmpegProcess_run env cmd total cb)
       (fun r => if fst r then emit e else raise (fail r)))
    (fun r st => match r with
                 | Done _ => reported (l ++ [e]) st
                 | _ => reported l st
                 end).
Proof.
  intro He.
  apply reported_skip; [apply reported_FfmpegProcess_run | | |].
  - intros res st r st' Hpre H. destruct (fst res).
    + unfold emit, modify in H. inversion H; subst.
      pose proof (reported_add l e st Hpre) as Ha. rewrite He in Ha. exact Ha.
    + unfold raise in H. inversion H; subst. exact Hpre.
  - intros e0 st H. exact H.
  - intros st H. exact H.
Qed.

(** A task reports itself when it runs to its end, and only then. *)
Lemma reported_run_task (l : list event) (env : environment) (i total : nat)
  (task_info : task) :
  hoare (reported l) (run_task env i total task_info)
    (fun r st => match r with
                 | Done _ => reported (l ++ [segment_processed (i + 1) total
                                               (task_output_path task_info)]) st
                 | _ => reported l st
                 end).
Proof.
  unfold run_task.
  destruct (lookup_format _ OUTPUT_FORMATS) as [d|].
  2:{ intros st r st' Hpre H. unfold raise in H. inversion H; subst. exact Hpre. }
  apply reported_skip; [| | intros; assumption | intros; assumption].
  - intros st r st' Hpre H. unfold emit, modify in H. inversion H; subst.
    match goal with
    | |- reported l (add_event ?e st) =>
        pose proof (reported_add l e st Hpre) as Ha
    end.
    simpl in Ha. rewrite app_nil_r in Ha. exact Ha.
  - intros [].
    destruct task_info as [p k segs g|p k s e g].
    + apply reported_skip;
        [apply reported_silent; intros st r st' H; inversion H; subst; reflexivity
        | | intros; assumption | intros; assumption].
      intros [].
      apply reported_skip;
        [apply reported_silent; intros st r st' H; unfold makedirs in H;
         destruct (makedirs_error env i); inversion H; subst; reflexivity
        | | intros; assumption | intros; assumption].
      intros [].
      apply reported_skip;
        [apply reported_cut_segments | | intros; assumption | intros; assumption].
      intro files.
      apply reported_skip;
        [apply reported_silent; intros st r st' H; unfold write_concat_list in H;
         destruct (open_error env i); inversion H; subst; reflexivity
        | | intros; assumption | intros; assumption].
      intros [].
      destruct (concat_args d) as [args|].
      * apply (reported_run_and_report l env _ _ _
                 (segment_processed (i + 1) total p)
                 (fun r => FfmpegProcessingError ("Concatenation failed: " ++ snd r)%string)).
        reflexivity.
      * intros st r st' Hpre H. unfold raise in H. inversion H; subst. exact Hpre.
    + apply (reported_run_and_report l env _ _ _
               (segment_processed (i + 1) total p)
               (fun r => FfmpegProcessingError
                           ("Processing failed for " ++ basename p ++ ": " ++ snd r)%string)).
      reflexivity.
Qed.

(** The loop reports a prefix of its tasks, all of them when it ends
    normally. *)
Lemma reported_task_loop (env : environment) (total : nat) (tasks : list task) :
  forall i l,
    hoare (reported l) (task_loop env total i tasks)
      (fun r st => exists k,
                     (k <= List.length tasks)%nat /\
                     (forall u, r = Done u -> k = List.length tasks) /\
                     reported (l ++ reports total i (firstn k tasks)) st).
Proof.
  induction tasks as [|t tasks IH]; intros i l st r st' Hpre H.
  - unfold task_loop, ret in H. inversion H; subst. exists 0%nat.
    split; [simpl; lia|]. split; [reflexivity|]. simpl. rewrite app_nil_r. exact Hpre.
  - cbn [task_loop] in H.
    apply bindM_inv in H.
    destruct H as [[[] [st1 [H1 H]]]|[[e [H1 ->]]|[H1 ->]]];
      try (unfold set_loop_index, modify in H1; discriminate H1).
    unfold set_loop_index, modify in H1. inversion H1; subst st1. clear H1.
    apply bindM_inv in H.
    destruct H as [[c [st2 [H2 H]]]|[[e [H2 ->]]|[H2 ->]]];
      try (unfold is_cancelled in H2; discriminate H2).
    assert (Hpre2 : reported l st2).
    { unfold is_cancelled in H2. inversion H2; subst. exact Hpre. }
    clear H2. destruct c.
    + unfold bindM, emit, modify, return_ in H. inversion H; subst.
      exists 0%nat. split; [simpl; lia|]. split; [discriminate|].
      simpl. rewrite app_nil_r.
      pose proof (reported_add l (finished "Operation cancelled.") st2 Hpre2) as Ha.
      simpl in Ha. rewrite app_nil_r in Ha. exact Ha.
    + apply bindM_inv in H.
      destruct H as [[[] [st3 [H3 H]]]|[[e [H3 ->]]|[H3 ->]]].
      * pose proof (reported_run_task l env i total t st2 _ st3 Hpre2 H3) as Hr.
        destruct (IH (S i) _ st3 r st' Hr H) as [k [Hk [Hd Hrep]]].
        exists (S k). split; [simpl; lia|]. split.
        -- intros u Hu. simpl. rewrite (Hd u Hu). reflexivity.
        -- simpl. rewrite <- app_assoc in Hrep. exact Hrep.
      * pose proof (reported_run_task l env i total t st2 _ st' Hpre2 H3) as Hr.
        exists 0%nat. split; [simpl; lia|]. split; [discriminate|].
        simpl. rewrite app_nil_r. exact Hr.
      * pose proof (reported_run_task l env i total t st2 _ st' Hpre2 H3) as Hr.
        exists 0%nat. split; [simpl; lia|]. split; [discriminate|].
        simpl. rewrite app_nil_r. exact Hr.
Qed.

(** X15.  The [segment_processed] signals of a run are those of the first [k]
    tasks for some [k], in task order: the [j]-th of them carries the number
    [j], the number of tasks and the output path of the [j]-th task. *)
Theorem processed_reports_follow_the_tasks (env : environment)
  (output_tasks : list task) (exists_ : bool) :
  exists k,
    (k <= List.length output_tasks)%nat /\
    filter is_segment_processed (emitted (run env output_tasks (initial_state exists_)))
    = reports (List.length output_tasks) 0 (firstn k output_tasks).
Proof.
  assert (Ht : exists k, (k <= List.length output_tasks)%nat /\
                 reported (reports (List.length output_tasks) 0 (firstn k output_tasks))
                   (try_except env output_tasks (initial_state exists_))).
  { unfold try_except.
    destruct (try_block env output_tasks (initial_state exists_)) as [r st1] eqn:E.
    unfold try_block in E. apply bindM_inv in E.
    assert (H0 : reported [] (initial_state exists_)) by reflexivity.
    destruct E as [[[] [st0 [E1 E2]]]|[[e [E1 ->]]|[E1 ->]]].
    - destruct (reported_task_loop env _ output_tasks 0%nat [] _ _ _ H0 E1)
        as [k [Hk [_ Hr]]].
      exists k. split; [exact Hk|]. unfold emit, modify in E2. inversion E2; subst.
      pose proof (reported_add _ (finished (completion_message output_tasks)) st0 Hr) as Ha.
      simpl in Ha. rewrite app_nil_r in Ha. exact Ha.
    - destruct (reported_task_loop env _ output_tasks 0%nat [] _ _ _ H0 E1)
        as [k [Hk [_ Hr]]].
      exists k. split; [exact Hk|]. simpl in Hr. unfold reported in *.
      destruct e; simpl; rewrite ?filter_app; simpl; rewrite ?app_nil_r; exact Hr.
    - destruct (reported_task_loop env _ output_tasks 0%nat [] _ _ _ H0 E1)
        as [k [Hk [_ Hr]]].
      exists k. split; [exact Hk | exact Hr]. }
  destruct Ht as [k [Hk Hr]]. exists k. split; [exact Hk|].
  unfold run, reported in *.
  destruct (cleanup_emitted env (try_except env output_tasks (initial_state exists_)))
    as [[->|[line ->]] _]; [exact Hr|].
  rewrite filter_app. simpl. rewrite app_nil_r. exact Hr.
Qed.

(** ** The Save button and the guards of [on_save_video] *)

(** What the enabled Save button tells about the state. *)
Lemma save_video_button_enabled (has_path : bool) (video_fps : Q) (is_processing : bool)
  (checked_id : Z) (w : MainWindow) (tw : TimelineWidget) :
  save_video_button (update_ui_state has_path video_fps is_processing checked_id w tw)
  = true ->
  0 < video_duration w /\
  ((checked_id = 0%Z \/ checked_id = 1%Z \/ checked_id = 2%Z) /\ selections w <> [] \/
   checked_id = 3%Z /\ get_selected_keyframes tw <> []).
Proof.
  unfold update_ui_state. cbn [save_video_button].
  destruct has_path; [|discriminate]. cbn [andb].
  destruct (Py.ltb 0 (video_duration w)) eqn:Hd; [|discriminate].
  apply ltb_lt in Hd. cbn [andb]. destruct is_processing; [discriminate|]. cbn [negb].
  intro H. split; [exact Hd|].
  assert (Hn : forall (A : Type) (l : list A), nonempty l = true -> l <> [])
    by (intros A [|x l]; [discriminate | discriminate]).
  destruct (Z.eqb_spec checked_id 0) as [E0|_].
  { destruct (nonempty (selections w)) eqn:Hs.
    - left. split; [tauto | apply Hn, Hs].
    - subst checked_id. discriminate H. }
  destruct (Z.eqb_spec checked_id 1) as [E1|_].
  { destruct (nonempty (selections w)) eqn:Hs.
    - left. split; [tauto | apply Hn, Hs].
    - subst checked_id. discriminate H. }
  destruct (Z.eqb_spec checked_id 2) as [E2|_].
  { destruct (nonempty (selections w)) eqn:Hs.
    - left. split; [tauto | apply Hn, Hs].
    - subst checked_id. discriminate H. }
  destruct (Z.eqb_spec checked_id 3) as [E3|_]; [|discriminate H].
  destruct (nonempty (get_selected_keyframes tw)) eqn:Hs; [|discriminate H].
  right. split; [exact E3 | apply Hn, Hs].
Qed.

Lemma sorted_floats_nonempty (l : list Q) :
  l <> [] -> Py.sorted_floats l <> [].
Proof. intro H. apply sort_nonempty, H. Qed.

(** X16.  When [update_ui_state] has enabled the Save button for the checked
    save action, [on_save_video] does not stop at one of its three guards (no
    selections, no tags selected, no video duration); with a known format and
    an answered dialog, keeping the selections and splitting by them always
    start the worker with at least one task. *)
Theorem enabled_save_button_passes_the_guards (has_path : bool) (video_fps : Q)
  (is_processing : bool) (rq : save_request) (w : MainWindow) (tw : TimelineWidget) :
  save_video_button
    (update_ui_state has_path video_fps is_processing (save_action_id rq) w tw) = true ->
  on_save_video rq w tw <> Some NoSelections /\
  on_save_video rq w tw <> Some NoTagsSelected /\
  on_save_video rq w tw <> Some NoVideoDuration /\
  (lookup_format (output_format_key rq) OUTPUT_FORMATS <> None ->
   dialog_answer rq <> EmptyString ->
   save_action_id rq = 0%Z \/ save_action_id rq = 2%Z ->
   exists t tasks, on_save_video rq w tw = Some (StartWorker (t :: tasks))).
Proof.
  intro H. apply save_video_button_enabled in H. destruct H as [Hd H].
  unfold on_save_video.
  destruct (lookup_format (output_format_key rq) OUTPUT_FORMATS) as [fmt|] eqn:Hf.
  2:{ repeat apply conj; try discriminate. intros N. contradiction. }
  cbv zeta.
  assert (Hans : dialog_answer rq <> EmptyString ->
                 String.eqb (dialog_answer rq) "" = false).
  { intro Hne. apply String.eqb_neq. exact Hne. }
  destruct H as [[Hid Hs]|[Hid Hs]].
  - destruct (selections w) as [|r l] eqn:Es; [contradiction|].
    destruct Hid as [E|[E|E]]; rewrite E; cbn [Z.eqb orb].
    + unfold segments_for_concat. cbn [Z.eqb]. rewrite Es.
      destruct (String.eqb (dialog_answer rq) "") eqn:Ed.
      * repeat apply conj; try discriminate. intros _ Hne. discriminate (Hans Hne).
      * repeat apply conj; try discriminate. intros _ _ _. eexists. eexists. reflexivity.
    + unfold segments_for_concat. cbn [Z.eqb]. rewrite Es.
      destruct (_get_segments_to_keep_for_removal w) as [|s segs].
      * repeat apply conj; try discriminate. intros _ _ [N|N]; discriminate N.
      * destruct (String.eqb (dialog_answer rq) "");
          repeat apply conj; try discriminate; intros _ _ [N|N]; discriminate N.
    + destruct (String.eqb (dialog_answer rq) "") eqn:Ed.
      * repeat apply conj; try discriminate. intros _ Hne. discriminate (Hans Hne).
      * destruct r as [a b]. cbn [selection_split_loop].
        repeat apply conj; try discriminate. intros _ _ _. eexists. eexists. reflexivity.
  - rewrite Hid. cbn [Z.eqb orb].
    destruct (Py.sorted_floats (get_selected_keyframes tw)) as [|k ks] eqn:Ek.
    { exfalso. apply (sorted_floats_nonempty _ Hs). exact Ek. }
    destruct (String.eqb (dialog_answer rq) "").
    + repeat apply conj; try discriminate. intros _ _ [N|N]; discriminate N.
    + match goal with
      | |- context [tag_split_loop ?mk ?d ?c ?pts] => destruct (tag_split_loop mk d c pts)
      end; repeat apply conj; try discriminate; intros _ _ [N|N]; discriminate N.
Qed.

Lemma enabled_save_button_passes_the_guards_witness :
  let rq := mkSaveRequest 2 "MP4 (H.264 + AAC)" "clip" ".mkv" "/out" None in
  let w := mkMainWindow [(2, 5); (6, 8)] None 10 in
  let tw := mkTimelineWidget 10 [] [] in
  save_video_button (update_ui_state true 25 false (save_action_id rq) w tw) = true /\
  on_save_video rq w tw <> Some NoSelections /\
  on_save_video rq w tw <> Some NoTagsSelected /\
  on_save_video rq w tw <> Some NoVideoDuration /\
  (lookup_format (output_format_key rq) OUTPUT_FORMATS <> None ->
   dialog_answer rq <> EmptyString ->
   save_action_id rq = 0%Z \/ save_action_id rq = 2%Z ->
   exists t tasks, on_save_video rq w tw = Some (StartWorker (t :: tasks))).
Proof.
  intros rq w tw.
  assert (H : save_video_button
                (update_ui_state true 25 false (save_action_id rq) w tw) = true)
    by reflexivity.
  split; [exact H|].
  exact (enabled_save_button_passes_the_guards true 25 false rq w tw H).
Defined.

(** ** Probing: the duration *)

Lemma and_then_returns {A B : Type} (m : outcome A) (k : A -> outcome B) (b : B) :
  and_then m k = Returns b -> exists a, m = Returns a /\ k a = Returns b.
Proof.
  destruct m as [a|e]; simpl; intro H; [|discriminate H].
  exists a. split; [reflexivity | exact H].
Qed.

Lemma float_ltb_leb (a b : pyfloat) :
  PyFloat.ltb a b = true -> PyFloat.leb b a = false.
Proof.
  unfold PyFloat.leb.
  destruct a as [p|[|]|], b as [q|[|]|]; simpl; try discriminate; try reflexivity.
  intro H. apply ltb_lt in H.
  assert (H1 : Py.ltb q p = false) by (apply ltb_ge; lra).
  assert (H2 : Py.eqb q p = false) by (apply eqb_neq; lra).
  rewrite H1, H2. reflexivity.
Qed.

Lemma float_ltb_trans (a b c : pyfloat) :
  PyFloat.ltb a b = true -> PyFloat.ltb b c = true -> PyFloat.ltb a c = true.
Proof.
  destruct a as [p|[|]|], b as [q|[|]|], c as [r|[|]|]; simpl;
    try discriminate; try reflexivity.
  intros H1 H2. apply ltb_lt in H1, H2. apply ltb_lt. lra.
Qed.

(** What [get_video_duration] returns is 0.0 or positive, never negative and
    never nan. *)
Lemma get_video_duration_range (video_info : json) (d : pyfloat) :
  get_video_duration video_info = Returns d ->
  d = Finite 0 \/ PyFloat.ltb (Finite 0) d = true.
Proof.
  unfold get_video_duration. intro H.
  apply and_then_returns in H. destruct H as [duration [_ H]].
  apply and_then_returns in H. destruct H as [[m|] [Hs H]].
  - injection H as <-. right.
    destruct (PyFloat.leb duration (Finite 0) && Json.truthy video_info);
      [|discriminate Hs].
    apply and_then_returns in Hs. destruct Hs as [[|] [_ Hs]]; [|discriminate Hs].
    apply and_then_returns in Hs. destruct Hs as [streams [_ Hs]].
    apply and_then_returns in Hs. destruct Hs as [items [_ Hs]].
    apply and_then_returns in Hs. destruct Hs as [mx [_ Hs]].
    destruct (PyFloat.ltb (Finite 0) mx) eqn:L; inversion Hs; subst. exact L.
  - destruct (PyFloat.ltb (Finite 0) duration) eqn:L; injection H as <-.
    + right. exact L.
    + left. reflexivity.
Qed.

(** What [float] raises: the errors of the handlers, or the overflow of an
    integer. *)
Lemma float_error (x : json) (e : pyerr) :
  Json.float_ x = Raises e -> value_or_type_error e = true \/ e = OverflowError.
Proof.
  destruct x as [|b|n|f|s|items|entries]; simpl; intro Ef; try discriminate Ef;
    try (injection Ef as <-; left; reflexivity).
  - destruct (PyFloat.int_too_large n); [|discriminate Ef].
    injection Ef as <-. right. reflexivity.
  - destruct (Parse.py_float _); [discriminate Ef|]. injection Ef as <-. left. reflexivity.
Qed.

(** On objects nothing but that overflow is raised in the loop over the
    streams. *)
Lemma max_stream_duration_loop_returns (items : list json) :
  forallb is_dict items = true ->
  forall m, (exists m', max_stream_duration_loop m items = Returns m') \/
            max_stream_duration_loop m items = Raises OverflowError.
Proof.
  induction items as [|stream rest IH]; intros Hd m.
  - left. exists m. reflexivity.
  - simpl in Hd. apply andb_prop in Hd. destruct Hd as [Hs Hr].
    destruct stream as [| | | | | |entries]; try discriminate Hs.
    cbn [max_stream_duration_loop Json.contains Json.getitem and_then].
    destruct (Json.lookup "duration" entries) as [x|]; [|apply IH, Hr].
    destruct (Json.truthy x && negb (Json.eq_str x "N/A")); [|apply IH, Hr].
    destruct (Json.float_ x) as [sd|e] eqn:Ef; [apply IH, Hr|].
    destruct (float_error x e Ef) as [He | ->]; [|right; reflexivity].
    rewrite He. apply IH, Hr.
Qed.

Lemma format_duration_returns (video_info : json) :
  ffprobe_shaped video_info = true ->
  (exists d, format_duration video_info = Returns d) \/
  format_duration video_info = Raises OverflowError.
Proof.
  destruct video_info as [| | | | | |entries]; try discriminate.
  cbn [ffprobe_shaped]. intro H. apply andb_prop in H. destruct H as [Hf _].
  unfold format_duration.
  destruct (Json.truthy (JDict entries)); [|left; eexists; reflexivity].
  cbn [Json.contains Json.getitem and_then].
  destruct (Json.lookup "format" entries) as [format|]; [|left; eexists; reflexivity].
  cbn [and_then].
  destruct format as [| | | | | |fentries]; try discriminate Hf.
  cbn [Json.contains Json.getitem Json.get and_then].
  destruct (Json.lookup "duration" fentries) as [x|]; [|left; eexists; reflexivity].
  cbn [and_then].
  destruct (Json.truthy x && negb (Json.eq_str x "N/A")); [|left; eexists; reflexivity].
  destruct (Json.float_ x) as [d|e] eqn:Ef; [left; eexists; reflexivity|].
  destruct (float_error x e Ef) as [He | ->]; [|right; reflexivity].
  rewrite He. left. eexists. reflexivity.
Qed.

(** X17.  On what ffprobe prints (an object whose "format" is an object and
    whose "streams" are a list of objects) [get_video_duration] raises nothing
    but the [OverflowError] of a duration given as an integer too large for a
    float, and what it returns is 0.0 or a positive float: never a negative
    number, never nan. *)
Theorem get_video_duration_on_probe_output (video_info : json) :
  ffprobe_shaped video_info = true ->
  (exists d, get_video_duration video_info = Returns d /\
             (d = Finite 0 \/ PyFloat.ltb (Finite 0) d = true)) \/
  get_video_duration video_info = Raises OverflowError.
Proof.
  intro Hs.
  assert (Hr : (exists d, get_video_duration video_info = Returns d) \/
               get_video_duration video_info = Raises OverflowError).
  { unfold get_video_duration.
    destruct (format_duration_returns video_info Hs) as [[duration Hd] | Hd];
      rewrite Hd; cbn [and_then]; [|right; reflexivity].
    destruct video_info as [| | | | | |entries]; try discriminate Hs.
    cbn [ffprobe_shaped] in Hs. apply andb_prop in Hs. destruct Hs as [_ Hst].
    destruct (PyFloat.leb duration (Finite 0) && Json.truthy (JDict entries));
      [|left; eexists; reflexivity].
    cbn [Json.contains Json.getitem and_then].
    destruct (Json.lookup "streams" entries) as [streams|]; [|left; eexists; reflexivity].
    cbn [and_then].
    destruct streams as [| | | | |items|]; try discriminate Hst.
    cbn [Json.iterate and_then].
    destruct (max_stream_duration_loop_returns items Hst (Finite 0)) as [[m ->] | ->];
      cbn [and_then]; [|right; reflexivity].
    left. destruct (PyFloat.ltb (Finite 0) m); eexists; reflexivity. }
  destruct Hr as [[d Hd] | Hr]; [left | right; exact Hr].
  exists d. split; [exact Hd|].
  apply (get_video_duration_range video_info d Hd).
Qed.

Lemma get_video_duration_on_probe_output_witness :
  ffprobe_shaped example_video_info = true /\
  ((exists d, get_video_duration example_video_info = Returns d /\
              (d = Finite 0 \/ PyFloat.ltb (Finite 0) d = true)) \/
   get_video_duration example_video_info = Raises OverflowError).
Proof.
  split; [reflexivity|].
  apply (get_video_duration_on_probe_output example_video_info). reflexivity.
Defined.

(** ** Probing: the signals of [VideoProberWorker] *)

Lemma prober_fallback_positive (env : probe_environment) (video_info : json)
  (d : pyfloat) :
  prober_fallback env video_info = Returns (inr d) -> PyFloat.ltb (Finite 0) d = true.
Proof.
  unfold prober_fallback.
  destruct (Json.truthy video_info); [|discriminate].
  intro H. apply and_then_returns in H. destruct H as [[|] [_ H]]; [|discriminate H].
  apply and_then_returns in H. destruct H as [streams [_ H]].
  apply and_then_returns in H. destruct H as [items [_ H]].
  apply and_then_returns in H. destruct H as [state [_ H]].
  destruct (snd state); [|discriminate H]. cbn [andb] in H.
  destruct (PyFloat.ltb (Finite 0) (fst state)) eqn:L; inversion H; subst. exact L.
Qed.

(** X18.  The signals of a probing run are [info_ready], [duration_ready],
    [fps_ready] and [keyframes_ready] in this order, or a beginning of that
    sequence followed by exactly one error, which is then the last signal; a
    duration is announced only when it is positive and a frame rate only when
    it is not negative. *)
Theorem prober_signal_protocol (env : probe_environment) :
  probe_trace_ok (VideoProberWorker_run env) /\
  Forall probe_signal_ok (VideoProberWorker_run env).
Proof.
  unfold VideoProberWorker_run.
  assert (F1 : forall s, is_probe_failure s = true ->
                 probe_trace_ok [s] /\ Forall probe_signal_ok [s]).
  { intros s Hs. split.
    - right. exists [], s. split; [reflexivity|]. split; [exact Hs|].
      exists JNull, NaN, 0. reflexivity.
    - constructor; [destruct s; try discriminate Hs; exact I | constructor]. }
  destruct (video_info_probe env) as [[video_info|]|e];
    [|apply F1; reflexivity|apply F1; reflexivity].
  destruct (Json.truthy video_info); cbn [negb]; [|apply F1; reflexivity].
  assert (F2 : forall s, is_probe_failure s = true ->
                 probe_trace_ok ([info_ready video_info] ++ [s]) /\
                 Forall probe_signal_ok ([info_ready video_info] ++ [s])).
  { intros s Hs. split.
    - right. exists [info_ready video_info], s. split; [reflexivity|].
      split; [exact Hs|]. exists video_info, NaN, 0. reflexivity.
    - constructor; [exact I|].
      constructor; [destruct s; try discriminate Hs; exact I | constructor]. }
  destruct (get_video_duration video_info) as [duration|e] eqn:Hd;
    [|apply F2; reflexivity].
  assert (Hpos : forall d,
             (if PyFloat.leb duration (Finite 0)
              then prober_fallback env video_info
              else Returns (inr duration)) = Returns (inr d) ->
             PyFloat.ltb (Finite 0) d = true).
  { intros d H. destruct (PyFloat.leb duration (Finite 0)) eqn:L.
    - apply (prober_fallback_positive env video_info d H).
    - injection H as <-.
      destruct (get_video_duration_range video_info duration Hd) as [->|Hp];
        [|exact Hp].
      unfold PyFloat.leb in L. simpl in L. discriminate L. }
  destruct (if PyFloat.leb duration (Finite 0)
            then prober_fallback env video_info
            else Returns (inr duration)) as [[msg|d]|e];
    [apply F2; reflexivity| |apply F2; reflexivity].
  specialize (Hpos d eq_refl).
  assert (Hfps : forall fps, 0 <= (if Py.leb fps 0 then 0 else fps)).
  { intro fps. destruct (Py.leb fps 0) eqn:L; [lra|]. apply leb_gt in L. lra. }
  destruct (get_video_fps video_info) as [fps|e].
  2:{ split.
      - right. exists [info_ready video_info; duration_ready d], (probe_exception e).
        split; [reflexivity|]. split; [reflexivity|].
        exists video_info, d, 0. reflexivity.
      - repeat constructor. exact Hpos. }
  destruct (get_keyframes (keyframes_probe env)) as [keyframes|e].
  - split.
    + left. eexists. eexists. eexists. eexists. reflexivity.
    + repeat constructor; [exact Hpos | apply Hfps].
  - split.
    + right.
      exists [info_ready video_info; duration_ready d;
              fps_ready (if Py.leb fps 0 then 0 else fps)], (probe_exception e).
      split; [reflexivity|]. split; [reflexivity|].
      eexists. eexists. eexists. reflexivity.
    + repeat constructor; [exact Hpos | apply Hfps].
Qed.

(** ** Probing: the fallback of the worker *)

(** Once the maximum is positive it stays positive. *)
Lemma max_stream_duration_loop_positive (items : list json) :
  forall m m',
    PyFloat.ltb (Finite 0) m = true ->
    max_stream_duration_loop m items = Returns m' ->
    PyFloat.ltb (Finite 0) m' = true.
Proof.
  induction items as [|stream rest IH]; intros m m' Hm H.
  - injection H as <-. exact Hm.
  - cbn [max_stream_duration_loop] in H.
    apply and_then_returns in H. destruct H as [[|] [_ H]]; [|apply (IH _ _ Hm H)].
    destruct (Json.getitem "duration" stream) as [x|e].
    + destruct (Json.truthy x && negb (Json.eq_str x "N/A")); [|apply (IH _ _ Hm H)].
      destruct (Json.float_ x) as [sd|e].
      * destruct (PyFloat.ltb m sd) eqn:L; [|apply (IH _ _ Hm H)].
        apply (IH _ _ (float_ltb_trans _ _ _ Hm L) H).
      * destruct (value_or_type_error e); [apply (IH _ _ Hm H) | discriminate H].
    + destruct (value_or_type_error e); [apply (IH _ _ Hm H) | discriminate H].
Qed.

(** A value [get_video_duration] skips is not a positive duration. *)
Lemma skipped_duration_not_positive (x : json) (sd : pyfloat) :
  Json.truthy x && negb (Json.eq_str x "N/A") = false ->
  Json.float_ x = Returns sd ->
  PyFloat.ltb (Finite 0) sd = false.
Proof.
  intros Hs Hf. destruct x as [|b|n|f|s|items|entries]; simpl in Hf;
    try discriminate Hf.
  - injection Hf as <-. simpl in Hs. rewrite andb_true_r in Hs. subst b. reflexivity.
  - destruct (PyFloat.int_too_large n); [discriminate Hf|].
    injection Hf as <-. simpl in Hs. rewrite andb_true_r in Hs.
    apply negb_false_iff in Hs. apply Z.eqb_eq in Hs. subst n. reflexivity.
  - injection Hf as <-. simpl in Hs. rewrite andb_true_r in Hs.
    destruct f as [q|neg|]; try discriminate Hs.
    apply negb_false_iff in Hs. apply eqb_eq in Hs.
    simpl. apply ltb_ge. lra.
  - simpl in Hs.
    destruct (String.eqb s "") eqn:E1.
    + apply String.eqb_eq in E1. subst s. vm_compute in Hf. discriminate Hf.
    + simpl in Hs. apply negb_false_iff in Hs. apply String.eqb_eq in Hs. subst s.
      vm_compute in Hf. discriminate Hf.
Qed.

(** When the loop of [get_video_duration] ends without a positive maximum,
    the loop of the worker over the same streams finds none either. *)
Lemma prober_stream_loop_finds_nothing (items : list json) :
  forall m' found state,
    max_stream_duration_loop (Finite 0) items = Returns m' ->
    PyFloat.ltb (Finite 0) m' = false ->
    prober_stream_loop (Finite 0, found) items = Returns state ->
    state = (Finite 0, found).
Proof.
  induction items as [|stream rest IH]; intros m' found state H Hm Hp.
  - injection Hp as <-. reflexivity.
  - cbn [max_stream_duration_loop] in H. cbn [prober_stream_loop] in Hp.
    destruct (Json.contains "duration" stream) as [[|]|e]; cbn [and_then] in H, Hp;
      [| apply (IH _ _ _ H Hm Hp) | discriminate H].
    destruct (Json.getitem "duration" stream) as [x|e] eqn:Eg; cbn [and_then] in Hp.
    2:{ assert (He : e = TypeError \/ e = KeyError).
        { destruct stream as [| | | | | |entries]; simpl in Eg;
            try (injection Eg as <-; left; reflexivity).
          destruct (Json.lookup "duration" entries); [discriminate Eg|].
          injection Eg as <-. right. reflexivity. }
        destruct He as [-> | ->]; discriminate Hp. }
    destruct (Json.float_ x) as [sd|e] eqn:Ef.
    + assert (Hsd : PyFloat.ltb (Finite 0) sd = false /\
                    max_stream_duration_loop (Finite 0) rest = Returns m').
      { destruct (Json.truthy x && negb (Json.eq_str x "N/A")) eqn:Hs.
        - destruct (PyFloat.ltb (Finite 0) sd) eqn:L; [|split; [reflexivity | exact H]].
          rewrite (max_stream_duration_loop_positive rest sd m' L H) in Hm.
          discriminate Hm.
        - split; [apply (skipped_duration_not_positive x sd Hs Ef) | exact H]. }
      destruct Hsd as [Hsd H']. cbn [fst] in Hp. rewrite Hsd in Hp.
      apply (IH _ _ _ H' Hm Hp).
    + destruct e; try discriminate Hp.
      assert (H' : max_stream_duration_loop (Finite 0) rest = Returns m').
      { destruct (Json.truthy x && negb (Json.eq_str x "N/A")); exact H. }
      apply (IH _ _ _ H' Hm Hp).
Qed.

Lemma float_leb_total (a : pyfloat) :
  a <> NaN -> PyFloat.ltb (Finite 0) a = false -> PyFloat.leb a (Finite 0) = true.
Proof.
  unfold PyFloat.leb. destruct a as [q|[|]|]; simpl; intros Hn H;
    try reflexivity; try discriminate H; [|contradiction].
  apply ltb_ge in H. destruct (Py.ltb q 0) eqn:L; [reflexivity|].
  apply ltb_ge in L. simpl. apply eqb_eq. lra.
Qed.

(** X19.  The duration the worker announces is the one [get_video_duration]
    returned: unless the "format" duration reads as nan, the loop over the
    streams in [VideoProberWorker.run] never supplies a duration of its
    own. *)
Theorem prober_announces_the_duration_of_get_video_duration
  (env : probe_environment) (video_info : json) (d : pyfloat) :
  video_info_probe env = Returns (Some video_info) ->
  format_duration video_info <> Returns NaN ->
  In (duration_ready d) (VideoProberWorker_run env) ->
  get_video_duration video_info = Returns d.
Proof.
  intros Hv Hn. unfold VideoProberWorker_run. rewrite Hv.
  destruct (Json.truthy video_info) eqn:Ht; cbn [negb].
  2:{ intros [N|[]]. discriminate N. }
  destruct (get_video_duration video_info) as [duration|e] eqn:Hd.
  2:{ intros [N|[N|[]]]; discriminate N. }
  assert (Hsame : forall d',
             (if PyFloat.leb duration (Finite 0)
              then prober_fallback env video_info
              else Returns (inr duration)) = Returns (inr d') -> d' = duration).
  { intros d' H. destruct (PyFloat.leb duration (Finite 0)) eqn:L;
      [|injection H as <-; reflexivity].
    exfalso.
    (* the duration is 0.0: the streams gave nothing positive *)
    unfold get_video_duration in Hd.
    apply and_then_returns in Hd. destruct Hd as [fd [Hfd Hd]].
    apply and_then_returns in Hd. destruct Hd as [[m|] [Hs Hd]].
    { injection Hd as <-.
      assert (Hm : PyFloat.ltb (Finite 0) m = true).
      { destruct (get_video_duration_range video_info m) as [->|Hp]; [| |exact Hp].
        - unfold get_video_duration. rewrite Hfd. cbn [and_then]. rewrite Hs. reflexivity.
        - exfalso.
          destruct (PyFloat.leb fd (Finite 0) && Json.truthy video_info);
            [|discriminate Hs].
          apply and_then_returns in Hs. destruct Hs as [[|] [_ Hs]]; [|discriminate Hs].
          apply and_then_returns in Hs. destruct Hs as [streams [_ Hs]].
          apply and_then_returns in Hs. destruct Hs as [items [_ Hs]].
          apply and_then_returns in Hs. destruct Hs as [mx [_ Hs]].
          destruct (PyFloat.ltb (Finite 0) mx) eqn:Lm; inversion Hs; subst.
          discriminate Lm. }
      rewrite (float_ltb_leb _ _ Hm) in L. discriminate L. }
    assert (Hfd0 : PyFloat.ltb (Finite 0) fd = false).
    { destruct (PyFloat.ltb (Finite 0) fd) eqn:Lf; [|reflexivity].
      injection Hd as <-. rewrite (float_ltb_leb _ _ Lf) in L. discriminate L. }
    assert (Hfdn : fd <> NaN) by (intro N; subst fd; apply Hn; exact Hfd).
    rewrite (float_leb_total fd Hfdn Hfd0), Ht in Hs. cbn [andb] in Hs.
    unfold prober_fallback in H. rewrite Ht in H.
    destruct (Json.contains "streams" video_info) as [[|]|e]; cbn [and_then] in Hs, H;
      [| discriminate H | discriminate H].
    destruct (Json.getitem "streams" video_info) as [streams|e]; cbn [and_then] in Hs, H;
      [|discriminate H].
    destruct (Json.iterate streams) as [items|e]; cbn [and_then] in Hs, H;
      [|discriminate H].
    destruct (max_stream_duration_loop (Finite 0) items) as [mx|e] eqn:Hl;
      cbn [and_then] in Hs; [|discriminate Hs].
    destruct (PyFloat.ltb (Finite 0) mx) eqn:Lm; [discriminate Hs|].
    destruct (prober_stream_loop (Finite 0, false) items) as [state|e] eqn:Hp;
      cbn [and_then] in H; [|discriminate H].
    rewrite (prober_stream_loop_finds_nothing items mx false state Hl Lm Hp) in H.
    cbn [snd andb] in H. discriminate H. }
  destruct (if PyFloat.leb duration (Finite 0)
            then prober_fallback env video_info
            else Returns (inr duration)) as [[msg|d']|e].
  - intros [N|[N|[]]]; discriminate N.
  - specialize (Hsame d' eq_refl). subst d'.
    assert (Hin : forall rest, In (duration_ready d)
                    ([info_ready video_info] ++ [duration_ready duration] ++ rest) ->
                  (forall s, In s rest -> s <> duration_ready d) ->
                  Returns duration = Returns d).
    { intros rest [N|[N|N]] Hrest; [discriminate N | injection N as <-; reflexivity|].
      exfalso. apply (Hrest _ N). reflexivity. }
    destruct (get_video_fps video_info) as [fps|e].
    + destruct (get_keyframes (keyframes_probe env)) as [keyframes|e]; intro H.
      * apply (Hin [fps_ready (if Py.leb fps 0 then 0 else fps); keyframes_ready keyframes]).
        -- repeat rewrite <- app_assoc in H. exact H.
        -- intros s [<-|[<-|[]]]; discriminate.
      * apply (Hin [fps_ready (if Py.leb fps 0 then 0 else fps); probe_exception e]).
        -- repeat rewrite <- app_assoc in H. exact H.
        -- intros s [<-|[<-|[]]]; discriminate.
    + intro H. apply (Hin [probe_exception e]).
      * repeat rewrite <- app_assoc in H. exact H.
      * intros s [<-|[]]; discriminate.
  - intros [N|[N|[]]]; discriminate N.
Qed.

Lemma prober_announces_the_duration_of_get_video_duration_witness :
  let env := mkProbeEnvironment "/in/video.mkv" (Returns (Some example_video_info))
               (Completed EmptyString) in
  video_info_probe env = Returns (Some example_video_info) /\
  format_duration example_video_info <> Returns NaN /\
  In (duration_ready (Finite 12.500000)) (VideoProberWorker_run env) /\
  get_video_duration example_video_info = Returns (Finite 12.500000).
Proof.
  intro env.
  assert (H1 : video_info_probe env = Returns (Some example_video_info)) by reflexivity.
  assert (H2 : format_duration example_video_info <> Returns NaN)
    by (vm_compute; discriminate).
  assert (H3 : In (duration_ready (Finite 12.500000)) (VideoProberWorker_run env))
    by (vm_compute; right; left; reflexivity).
  split; [exact H1|]. split; [exact H2|]. split; [exact H3|].
  exact (prober_announces_the_duration_of_get_video_duration env example_video_info
           (Finite 12.500000) H1 H2 H3).
Defined.

(** ** Probing: the keyframes *)

Lemma float_eqb_sym (a b : pyfloat) : PyFloat.eqb a b = PyFloat.eqb b a.
Proof.
  destruct a as [p|[|]|], b as [q|[|]|]; simpl; try reflexivity.
  destruct (Py.eqb p q) eqn:E.
  - apply eqb_eq in E. symmetry. apply eqb_eq. lra.
  - apply eqb_neq in E. symmetry. apply eqb_neq. lra.
Qed.

Lemma float_eqb_trans (a b c : pyfloat) :
  PyFloat.eqb a b = true -> PyFloat.eqb b c = true -> PyFloat.eqb a c = true.
Proof.
  destruct a as [p|[|]|], b as [q|[|]|], c as [r|[|]|]; simpl;
    try discriminate; try reflexivity.
  intros H1 H2. apply eqb_eq in H1, H2. apply eqb_eq. lra.
Qed.

(** Two floats that are not nan and not equal are ordered. *)
Lemma float_trichotomy (a b : pyfloat) :
  a <> NaN -> b <> NaN -> PyFloat.eqb a b = false -> PyFloat.ltb b a = false ->
  PyFloat.ltb a b = true.
Proof.
  destruct a as [p|[|]|], b as [q|[|]|]; simpl; intros Ha Hb He Hl;
    try reflexivity; try discriminate; try contradiction.
  apply eqb_neq in He. apply ltb_ge in Hl. apply ltb_lt.
  destruct (Qlt_le_dec p q) as [H|H]; [exact H|].
  exfalso. apply He. lra.
Qed.

Lemma float_in_app (x : pyfloat) (l1 l2 : list pyfloat) :
  float_in x (l1 ++ l2) = float_in x l1 || float_in x l2.
Proof. unfold float_in. apply existsb_app. Qed.

Lemma float_in_false (x : pyfloat) (l : list pyfloat) :
  float_in x l = false -> Forall (fun y => PyFloat.eqb x y = false) l.
Proof.
  induction l as [|y l IH]; simpl; intro H; [constructor|].
  apply orb_false_elim in H. destruct H as [H1 H2].
  constructor; [exact H1 | apply IH, H2].
Qed.

Lemma float_in_permutation (x : pyfloat) (l1 l2 : list pyfloat) :
  Permutation l1 l2 -> float_in x l1 = float_in x l2.
Proof.
  induction 1 as [|y l1 l2 _ IH|y z l|l1 l2 l3 _ IH1 _ IH2]; simpl.
  - reflexivity.
  - rewrite IH. reflexivity.
  - destruct (PyFloat.eqb x y), (PyFloat.eqb x z); reflexivity.
  - rewrite IH1. exact IH2.
Qed.

(** [set] keeps the membership, and none of its elements twice. *)
Lemma set_of_list_fold (x : pyfloat) (l : list pyfloat) :
  forall s,
    float_in x (fold_left (fun s y => if existsb (PyFloat.eqb y) s then s else s ++ [y]) l s)
    = float_in x s || float_in x l.
Proof.
  induction l as [|y l IH]; intro s; simpl.
  - rewrite orb_false_r. reflexivity.
  - rewrite IH. destruct (existsb (PyFloat.eqb y) s) eqn:E.
    + destruct (PyFloat.eqb x y) eqn:Exy; [|reflexivity].
      assert (Hs : float_in x s = true).
      { unfold float_in. apply existsb_exists in E. destruct E as [z [Hz Eyz]].
        apply existsb_exists. exists z. split; [exact Hz|].
        apply (float_eqb_trans x y z Exy Eyz). }
      rewrite Hs. reflexivity.
    + rewrite float_in_app. simpl. rewrite orb_false_r, orb_assoc. reflexivity.
Qed.

Lemma set_of_list_in (x : pyfloat) (l : list pyfloat) :
  float_in x (PyFloat.set_of_list l) = float_in x l.
Proof. unfold PyFloat.set_of_list. rewrite set_of_list_fold. reflexivity. Qed.

Lemma distinct_snoc (s : list pyfloat) (y : pyfloat) :
  StronglySorted (fun a b => PyFloat.eqb a b = false) s ->
  float_in y s = false ->
  StronglySorted (fun a b => PyFloat.eqb a b = false) (s ++ [y]).
Proof.
  intros Hs Hy. induction Hs as [|a s Hs IH Ha]; simpl.
  - repeat constructor.
  - simpl in Hy. apply orb_false_elim in Hy. destruct Hy as [Hya Hy].
    constructor; [apply IH, Hy|].
    apply Forall_app. split; [exact Ha|].
    constructor; [rewrite float_eqb_sym; exact Hya | constructor].
Qed.

Lemma set_of_list_distinct (l : list pyfloat) :
  StronglySorted (fun a b => PyFloat.eqb a b = false) (PyFloat.set_of_list l).
Proof.
  unfold PyFloat.set_of_list.
  assert (G : forall s, StronglySorted (fun a b => PyFloat.eqb a b = false) s ->
                StronglySorted (fun a b => PyFloat.eqb a b = false)
                  (fold_left (fun s y => if existsb (PyFloat.eqb y) s then s else s ++ [y])
                     l s)).
  { induction l as [|y l IH]; intros s Hs; simpl; [exact Hs|].
    apply IH. destruct (existsb (PyFloat.eqb y) s) eqn:E; [exact Hs|].
    apply distinct_snoc; assumption. }
  apply G. constructor.
Qed.

Lemma set_of_list_no_nan (l : list pyfloat) :
  Forall (fun x => x <> NaN) l -> Forall (fun x => x <> NaN) (PyFloat.set_of_list l).
Proof.
  unfold PyFloat.set_of_list. intro H.
  assert (G : forall s, Forall (fun x => x <> NaN) s ->
                Forall (fun x => x <> NaN)
                  (fold_left (fun s y => if existsb (PyFloat.eqb y) s then s else s ++ [y])
                     l s)).
  { induction H as [|y l Hy Hl IH]; intros s Hs; simpl; [exact Hs|].
    apply IH. destruct (existsb (PyFloat.eqb y) s); [exact Hs|].
    apply Forall_app. split; [exact Hs | constructor; [exact Hy | constructor]]. }
  apply G. constructor.
Qed.

Lemma insert_strictly_ascending (x : pyfloat) (l : list pyfloat) :
  x <> NaN -> Forall (fun y => y <> NaN) l -> float_in x l = false ->
  StronglySorted float_lt l -> StronglySorted float_lt (Py.insert PyFloat.ltb x l).
Proof.
  intros Hx Hn Hin Hs. induction Hs as [|y l Hs IH Hy]; simpl.
  - repeat constructor.
  - inversion Hn as [|? ? Hyn Hln]; subst.
    simpl in Hin. apply orb_false_elim in Hin. destruct Hin as [Hxy Hin].
    destruct (PyFloat.ltb y x) eqn:L.
    + constructor; [apply IH; assumption|].
      apply (Permutation_Forall (Permutation_sym (insert_permutation PyFloat.ltb x l))).
      constructor; [exact L | exact Hy].
    + assert (Hlt : float_lt x y) by (apply float_trichotomy; assumption).
      constructor; [constructor; assumption|].
      constructor; [exact Hlt|].
      eapply Forall_impl; [|exact Hy]. intros z Hz.
      apply (float_ltb_trans x y z Hlt Hz).
Qed.

Lemma sort_strictly_ascending (l : list pyfloat) :
  Forall (fun y => y <> NaN) l ->
  StronglySorted (fun a b => PyFloat.eqb a b = false) l ->
  StronglySorted float_lt (Py.sort PyFloat.ltb l).
Proof.
  intros Hn Hd. induction Hd as [|x l Hd IH Hx]; simpl; [constructor|].
  inversion Hn as [|? ? Hxn Hln]; subst.
  apply insert_strictly_ascending.
  - exact Hxn.
  - apply (Permutation_Forall (Permutation_sym (sort_permutation PyFloat.ltb l))). exact Hln.
  - rewrite (float_in_permutation x _ _ (sort_permutation PyFloat.ltb l)).
    unfold float_in. clear -Hx. induction Hx as [|y l Hy _ IHx]; simpl; [reflexivity|].
    rewrite Hy, IHx. reflexivity.
  - apply IH, Hln.
Qed.

(** X20.  When ffprobe ends normally and no line of its output reads as nan,
    [get_keyframes] returns the floats of the lines that parse, strictly
    ascending: each value once, and no other value. *)
Theorem keyframes_ascending_and_distinct (stdout : string) :
  Forall (fun x => x <> NaN) (keyframe_values stdout) ->
  exists keyframes,
    get_keyframes (Completed stdout) = Returns keyframes /\
    StronglySorted float_lt keyframes /\
    forall x, float_in x keyframes = float_in x (keyframe_values stdout).
Proof.
  intro Hn. exists (PyFloat.sorted_set (keyframe_values stdout)).
  split; [reflexivity|]. unfold PyFloat.sorted_set. split.
  - apply sort_strictly_ascending;
      [apply set_of_list_no_nan, Hn | apply set_of_list_distinct].
  - intro x.
    rewrite (float_in_permutation x _ _ (sort_permutation PyFloat.ltb _)).
    apply set_of_list_in.
Qed.

Lemma keyframes_ascending_and_distinct_witness :
  let stdout := ("0.000000" ++ String "010"%char ("2.002000" ++ String "010"%char
                  ("0.000000" ++ String "010"%char EmptyString)))%string in
  Forall (fun x => x <> NaN) (keyframe_values stdout) /\
  exists keyframes,
    get_keyframes (Completed stdout) = Returns keyframes /\
    StronglySorted float_lt keyframes /\
    forall x, float_in x keyframes = float_in x (keyframe_values stdout).
Proof.
  intro stdout.
  assert (H : Forall (fun x => x <> NaN) (keyframe_values stdout)).
  { vm_compute. repeat constructor; discriminate. }
  split; [exact H|].
  exact (keyframes_ascending_and_distinct stdout H).
Defined.

(** X21.  When the ffprobe run of [get_keyframes] exits with an error code
    and has written to stderr, the handler raises instead of returning an
    empty list, and the probing run ends with an error signal: no keyframes
    are announced. *)
Theorem failed_keyframe_probe_ends_in_error (env : probe_environment) (stderr : string) :
  keyframes_probe env = CalledProcessError stderr ->
  stderr <> EmptyString ->
  exists results failure,
    VideoProberWorker_run env = results ++ [failure] /\
    is_probe_failure failure = true.
Proof.
  intros Hk Hne.
  assert (Hg : get_keyframes (keyframes_probe env) = Raises AttributeError).
  { rewrite Hk. simpl. destruct (String.eqb_spec stderr ""); [contradiction | reflexivity]. }
  unfold VideoProberWorker_run. rewrite Hg.
  destruct (video_info_probe env) as [[video_info|]|e].
  - destruct (Json.truthy video_info); cbn [negb].
    + destruct (get_video_duration video_info) as [duration|e].
      * destruct (if PyFloat.leb duration (Finite 0)
                  then prober_fallback env video_info
                  else Returns (inr duration)) as [[msg|d]|e].
        -- eexists. eexists. split; reflexivity.
        -- destruct (get_video_fps video_info) as [fps|e].
           ++ eexists. eexists. split; reflexivity.
           ++ eexists. eexists. split; reflexivity.
        -- eexists. eexists. split; reflexivity.
      * eexists. eexists. split; reflexivity.
    + exists []. eexists. split; reflexivity.
  - exists []. eexists. split; reflexivity.
  - exists []. eexists. split; reflexivity.
Qed.

Lemma failed_keyframe_probe_ends_in_error_witness :
  let env := mkProbeEnvironment "/in/video.mkv" (Returns (Some example_video_info))
               (CalledProcessError "Invalid data found when processing input") in
  keyframes_probe env = CalledProcessError "Invalid data found when processing input" /\
  "Invalid data found when processing input"%string <> EmptyString /\
  exists results failure,
    VideoProberWorker_run env = results ++ [failure] /\
    is_probe_failure failure = true.
Proof.
  intro env.
  assert (H1 : keyframes_probe env
               = CalledProcessError "Invalid data found when processing input")
    by reflexivity.
  assert (H2 : "Invalid data found when processing input"%string <> EmptyString)
    by discriminate.
  split; [exact H1|]. split; [exact H2|].
  exact (failed_keyframe_probe_ends_in_error env _ H1 H2).
Defined.

(** ** Probing: the picture size and the frame rate *)

Lemma dimensions_loop_range (items : list json) (w h : Z) :
  dimensions_loop items = Returns (w, h) ->
  (w = 0 /\ h = 0)%Z \/ (0 < w /\ 0 < h)%Z.
Proof.
  induction items as [|stream rest IH]; intro H.
  - injection H as <- <-. left. split; reflexivity.
  - cbn [dimensions_loop] in H.
    apply and_then_returns in H. destruct H as [codec_type [_ H]].
    destruct (Json.eq_str codec_type "video"); [|apply IH, H].
    apply and_then_returns in H. destruct H as [wv [_ H]].
    apply and_then_returns in H. destruct H as [width [_ H]].
    apply and_then_returns in H. destruct H as [hv [_ H]].
    apply and_then_returns in H. destruct H as [height [_ H]].
    destruct ((0 <? width)%Z && (0 <? height)%Z) eqn:E; [|apply IH, H].
    injection H as <- <-. right.
    apply andb_prop in E. destruct E as [E1 E2].
    apply Z.ltb_lt in E1, E2. split; assumption.
Qed.

(** X22.  What [get_video_dimensions] returns is (0, 0) or a width and a
    height that are both positive. *)
Theorem get_video_dimensions_range (video_info : json) (w h : Z) :
  get_video_dimensions video_info = Returns (w, h) ->
  (w = 0 /\ h = 0)%Z \/ (0 < w /\ 0 < h)%Z.
Proof.
  unfold get_video_dimensions.
  destruct (Json.truthy video_info).
  2:{ intro H. injection H as <- <-. left. split; reflexivity. }
  intro H. apply and_then_returns in H. destruct H as [[|] [_ H]].
  - apply and_then_returns in H. destruct H as [streams [_ H]].
    apply and_then_returns in H. destruct H as [items [_ H]].
    apply (dimensions_loop_range items w h H).
  - injection H as <- <-. left. split; reflexivity.
Qed.

Lemma get_video_dimensions_range_witness :
  get_video_dimensions example_video_info = Returns (1920, 1080)%Z /\
  ((1920 = 0 /\ 1080 = 0)%Z \/ (0 < 1920 /\ 0 < 1080)%Z).
Proof.
  assert (H : get_video_dimensions example_video_info = Returns (1920, 1080)%Z)
    by reflexivity.
  split; [exact H|].
  exact (get_video_dimensions_range example_video_info 1920 1080 H).
Defined.

Lemma fps_loop_skips (pre : list json) (rest : list json) :
  Forall (fun v => is_other_stream v = true) pre ->
  fps_loop (pre ++ rest) = fps_loop rest.
Proof.
  induction 1 as [|v pre Hv _ IH]; [reflexivity|].
  cbn [app fps_loop]. unfold is_other_stream in Hv.
  apply andb_prop in Hv. destruct Hv as [Hd Hnv].
  destruct v as [| | | | | |entries]; try discriminate Hd.
  cbn [Json.get is_video_stream] in *.
  destruct (Json.lookup "codec_type" entries) as [c|]; cbn [and_then].
  - apply negb_true_iff in Hnv. rewrite Hnv. exact IH.
  - exact IH.
Qed.

(** X23.  The frame rate comes from the first video stream alone: when the
    streams before it are objects of another kind, [get_video_fps] returns,
    or raises, what it does on a file whose only stream is that one, whatever
    streams follow. *)
Theorem get_video_fps_of_first_video_stream (entries stream : list (string * json))
  (before after : list json) :
  Json.lookup "streams" entries = Some (JList (before ++ JDict stream :: after)) ->
  Forall (fun v => is_other_stream v = true) before ->
  Json.lookup "codec_type" stream = Some (JStr "video") ->
  get_video_fps (JDict entries)
  = get_video_fps (JDict [("streams"%string, JList [JDict stream])]).
Proof.
  intros Hs Hb Hc. unfold get_video_fps.
  assert (Ht : Json.truthy (JDict entries) = true).
  { destruct entries; [discriminate Hs | reflexivity]. }
  rewrite Ht. cbn [Json.truthy Json.contains Json.getitem and_then]. rewrite Hs.
  cbn [and_then Json.iterate]. rewrite (fps_loop_skips before _ Hb).
  change (Json.lookup "streams" [("streams"%string, JList [JDict stream])])
    with (Some (JList [JDict stream])).
  cbn [and_then Json.iterate fps_loop Json.get]. rewrite Hc.
  cbn [and_then Json.eq_str]. rewrite String.eqb_refl.
  destruct (Json.lookup "avg_frame_rate" stream) as [avg_str|]; cbn [and_then].
  - destruct (frame_rate_of avg_str) as [[rate|]|e]; cbn [and_then]; [reflexivity | | reflexivity].
    destruct (Json.lookup "r_frame_rate" stream) as [r_str|]; cbn [and_then].
    + destruct (frame_rate_of r_str) as [[rate|]|e]; reflexivity.
    + destruct (frame_rate_of JNull) as [[rate|]|e]; reflexivity.
  - destruct (frame_rate_of JNull) as [[rate|]|e]; cbn [and_then]; [reflexivity | | reflexivity].
    destruct (Json.lookup "r_frame_rate" stream) as [r_str|]; cbn [and_then].
    + destruct (frame_rate_of r_str) as [[rate|]|e]; reflexivity.
    + destruct (frame_rate_of JNull) as [[rate|]|e]; reflexivity.
Qed.

Lemma get_video_fps_of_first_video_stream_witness :
  get_video_fps example_video_info
  = get_video_fps
      (JDict [("streams"%string,
               JList [JDict [("codec_type"%string, JStr "video");
                             ("avg_frame_rate"%string, JStr "30000/1001");
                             ("r_frame_rate"%string, JStr "30/1");
                             ("width"%string, JInt 1920); ("height"%string, JInt 1080);
                             ("duration"%string, JStr "12.4")]])]).
Proof.
  apply (get_video_fps_of_first_video_stream _
           [("codec_type"%string, JStr "video");
            ("avg_frame_rate"%string, JStr "30000/1001");
            ("r_frame_rate"%string, JStr "30/1");
            ("width"%string, JInt 1920); ("height"%string, JInt 1080);
            ("duration"%string, JStr "12.4")]
           []
           [JDict [("codec_type"%string, JStr "audio"); ("duration"%string, JStr "12.5")]]).
  - reflexivity.
  - constructor.
  - reflexivity.
Defined.

(** ** A click on a keyframe tag *)

Lemma tag_under_click_in (tw : TimelineWidget) (width height : Z) (x y : Q)
  (keyframes : list Q) (kf : Q) :
  tag_under_click tw width height x y keyframes = Some kf -> In kf keyframes.
Proof.
  induction keyframes as [|k rest IH]; cbn [tag_under_click]; [discriminate|].
  cbv zeta.
  match goal with
  | |- (if ?c then _ else _) = _ -> _ => destruct c
  end.
  - intro H. injection H as <-. left. reflexivity.
  - intro H. right. apply IH, H.
Qed.

(** The search at the time of a known keyframe finds that keyframe. *)
Lemma find_closest_kf_exact (kf : Q) (keyframes : list Q) :
  In kf keyframes -> exists c, find_closest_kf kf keyframes = Some c /\ c == kf.
Proof.
  intro Hin. destruct (find_closest_kf kf keyframes) as [c|] eqn:Hf.
  - exists c. split; [reflexivity|].
    destruct (find_closest_kf_some _ _ _ Hf) as [_ [_ Hmin]].
    specialize (Hmin kf Hin).
    assert (H0 : Qabs (kf - kf) == 0).
    { assert (E : kf - kf == 0) by ring. rewrite E. reflexivity. }
    rewrite H0 in Hmin.
    apply Qabs_Qle_condition in Hmin. lra.
  - exfalso. apply (find_closest_kf_none _ _ Hf kf Hin).
    unfold within_tolerance.
    assert (E : kf - kf == 0) by ring. rewrite E. reflexivity.
Qed.

Lemma mem_Qeq (a b : Q) (s : FloatSet.t) : a == b -> FloatSet.mem a s = FloatSet.mem b s.
Proof.
  intro H. unfold FloatSet.mem. induction s as [|y s IH]; simpl; [reflexivity|].
  rewrite IH. unfold Py.eqb. rewrite H. reflexivity.
Qed.

Lemma mem_by_InA (a b : Q) (s t : FloatSet.t) :
  (InA Qeq a s <-> InA Qeq b t) -> FloatSet.mem a s = FloatSet.mem b t.
Proof.
  intro H. destruct (FloatSet.mem a s) eqn:E1, (FloatSet.mem b t) eqn:E2; try reflexivity.
  - apply mem_InA in E1. apply H in E1. apply mem_InA in E1. congruence.
  - apply mem_InA in E2. apply H in E2. apply mem_InA in E2. congruence.
Qed.

(** X24.  When a mouse press on the timeline hits a keyframe tag, the
    keyframe the widget reports is one of its keyframes, and the slot of the
    main window toggles exactly that keyframe: its membership in the tag set
    is flipped, no other timestamp enters or leaves the set, and the message
    says "deselected" when it was selected before and "selected" otherwise. *)
Theorem clicked_tag_is_toggled (left : bool) (x y : Q) (width height : Z)
  (tw : TimelineWidget) (kf : Q) :
  mousePressEvent left x y width height tw = Some (keyframe_tag_clicked kf) ->
  In kf (_keyframes tw) /\
  exists sel',
    on_keyframe_tag_clicked kf tw
    = (Some (if FloatSet.mem kf (_selected_keyframes tw) then TagDeselected else TagSelected),
       mkTimelineWidget (_duration tw) (_keyframes tw) sel') /\
    FloatSet.mem kf sel' = negb (FloatSet.mem kf (_selected_keyframes tw)) /\
    forall other, ~ other == kf ->
                  FloatSet.mem other sel' = FloatSet.mem other (_selected_keyframes tw).
Proof.
  unfold mousePressEvent. destruct left; [|discriminate].
  destruct (tag_under_click tw width height x y (_keyframes tw)) as [k|] eqn:Hu;
    [|discriminate].
  intro H. injection H as ->.
  pose proof (tag_under_click_in _ _ _ _ _ _ _ Hu) as Hin. split; [exact Hin|].
  destruct (find_closest_kf_exact kf (_keyframes tw) Hin) as [c [Hf Hc]].
  unfold on_keyframe_tag_clicked, toggle_keyframe_selection. rewrite Hf.
  set (sel := _selected_keyframes tw).
  set (sel' := if FloatSet.mem c sel then FloatSet.remove c sel else FloatSet.add c sel).
  exists sel'.
  assert (Hmem : FloatSet.mem kf sel' = negb (FloatSet.mem kf sel)).
  { unfold sel'. rewrite <- (mem_Qeq kf c sel) by (symmetry; exact Hc).
    destruct (FloatSet.mem kf sel) eqn:E; simpl.
    - destruct (FloatSet.mem kf (FloatSet.remove c sel)) eqn:E'; [|reflexivity].
      apply mem_InA in E'. apply remove_InA in E'. destruct E' as [_ N].
      exfalso. apply N. symmetry. exact Hc.
    - destruct (FloatSet.mem kf (FloatSet.add c sel)) eqn:E'; [reflexivity|].
      assert (Hi : InA Qeq kf (FloatSet.add c sel)).
      { apply add_InA. left. symmetry. exact Hc. }
      apply mem_InA in Hi. congruence. }
  split; [|split; [exact Hmem|]].
  - f_equal. f_equal. unfold get_selected_keyframes. cbn [_selected_keyframes].
    change (existsb (Py.eqb kf) (Py.sorted_floats (FloatSet.elements sel')))
      with (FloatSet.mem kf (Py.sorted_floats (FloatSet.elements sel'))).
    rewrite (mem_by_InA kf kf (Py.sorted_floats (FloatSet.elements sel')) sel')
      by (apply sorted_floats_InA).
    rewrite Hmem. destruct (FloatSet.mem kf sel); reflexivity.
  - intros other Hne. apply mem_by_InA. unfold sel'.
    destruct (FloatSet.mem c sel).
    + rewrite remove_InA. split; [tauto|]. intro H. split; [exact H|].
      intro E. apply Hne. rewrite E. exact Hc.
    + rewrite add_InA. split; [|tauto]. intros [E|H]; [|exact H].
      exfalso. apply Hne. rewrite E. exact Hc.
Qed.

Lemma clicked_tag_is_toggled_witness :
  let tw := mkTimelineWidget 10 [0; 2; 4] [2] in
  mousePressEvent true 161 70 800 80 tw = Some (keyframe_tag_clicked 2) /\
  In 2 (_keyframes tw) /\
  exists sel',
    on_keyframe_tag_clicked 2 tw
    = (Some (if FloatSet.mem 2 (_selected_keyframes tw) then TagDeselected else TagSelected),
       mkTimelineWidget (_duration tw) (_keyframes tw) sel') /\
    FloatSet.mem 2 sel' = negb (FloatSet.mem 2 (_selected_keyframes tw)) /\
    forall other, ~ other == 2 ->
                  FloatSet.mem other sel' = FloatSet.mem other (_selected_keyframes tw).
Proof.
  intro tw.
  assert (H : mousePressEvent true 161 70 800 80 tw = Some (keyframe_tag_clicked 2))
    by reflexivity.
  split; [exact H|].
  exact (clicked_tag_is_toggled true 161 70 800 80 tw 2 H).
Defined.

(** * Properties of the binary64 layer *)

Import PrimFloat.

(** ** Binary64: the order of the floats *)

Lemma digits2_pos_bounds (m : positive) :
  (2 ^ (Z.pos (SpecFloat.digits2_pos m) - 1) <= Z.pos m
   < 2 ^ Z.pos (SpecFloat.digits2_pos m))%Z.
Proof.
  induction m as [m IH|m IH|]; simpl SpecFloat.digits2_pos.
  - rewrite Pos2Z.inj_succ.
    replace (Z.succ (Z.pos (SpecFloat.digits2_pos m)) - 1)%Z
      with (Z.succ (Z.pos (SpecFloat.digits2_pos m) - 1))%Z by lia.
    rewrite !Z.pow_succ_r by lia. lia.
  - rewrite Pos2Z.inj_succ.
    replace (Z.succ (Z.pos (SpecFloat.digits2_pos m)) - 1)%Z
      with (Z.succ (Z.pos (SpecFloat.digits2_pos m) - 1))%Z by lia.
    rewrite !Z.pow_succ_r by lia. lia.
  - simpl. lia.
Qed.

(** What validity says about the mantissa and the exponent of a double. *)
Lemma valid_finite (s : bool) (m : positive) (e : Z) :
  SpecFloat.valid_binary FloatOps.prec FloatOps.emax (SpecFloat.S754_finite s m e) = true ->
  (- 1074 <= e <= 971 /\ Z.pos m < 2 ^ 53 /\ (- 1074 < e -> 2 ^ 52 <= Z.pos m))%Z.
Proof.
  unfold SpecFloat.valid_binary, SpecFloat.bounded, SpecFloat.canonical_mantissa,
    SpecFloat.fexp, SpecFloat.emin, FloatOps.prec, FloatOps.emax.
  intro H. apply andb_true_iff in H. destruct H as [H1 H2].
  apply Z.eqb_eq in H1. apply Z.leb_le in H2.
  pose proof (digits2_pos_bounds m) as [Hlo Hhi].
  set (d := Z.pos (SpecFloat.digits2_pos m)) in *.
  assert (Hd : (d <= 53)%Z) by lia.
  assert (Hm : (Z.pos m < 2 ^ 53)%Z).
  { eapply Z.lt_le_trans; [exact Hhi|]. apply Z.pow_le_mono_r; lia. }
  split; [lia|]. split; [exact Hm|].
  intro He. assert (d = 53)%Z by lia.
  replace 52%Z with (d - 1)%Z by lia. exact Hlo.
Qed.

Lemma SFcompare_rank (f1 f2 : SpecFloat.spec_float) :
  SpecFloat.valid_binary FloatOps.prec FloatOps.emax f1 = true ->
  SpecFloat.valid_binary FloatOps.prec FloatOps.emax f2 = true ->
  f1 <> SpecFloat.S754_nan -> f2 <> SpecFloat.S754_nan ->
  SpecFloat.SFcompare f1 f2 = Some (SFrank f1 ?= SFrank f2)%Z.
Proof.
  intros V1 V2 N1 N2.
  destruct f1 as [s1|s1| |s1 m1 e1]; try congruence;
    destruct f2 as [s2|s2| |s2 m2 e2]; try congruence;
    try (apply valid_finite in V1; destruct V1 as [E1 [M1 L1]]);
    try (apply valid_finite in V2; destruct V2 as [E2 [M2 L2]]);
    cbn [SpecFloat.SFcompare SFrank]; cbv zeta.
  - reflexivity.
  - destruct s2; reflexivity.
  - destruct s2; f_equal; symmetry;
      [apply Z.compare_gt_iff | apply Z.compare_lt_iff]; lia.
  - destruct s1; reflexivity.
  - destruct s1, s2; reflexivity.
  - destruct s1, s2; f_equal; symmetry;
      try (apply Z.compare_lt_iff; lia); apply Z.compare_gt_iff; lia.
  - destruct s1; f_equal; symmetry;
      [apply Z.compare_lt_iff | apply Z.compare_gt_iff]; lia.
  - destruct s1, s2; f_equal; symmetry;
      try (apply Z.compare_lt_iff; lia); apply Z.compare_gt_iff; lia.
  - rewrite Pos.compare_cont_spec. cbn [Pos.switch_Eq].
    change (Pos.compare m1 m2) with (Z.pos m1 ?= Z.pos m2)%Z.
    destruct s1, s2; f_equal.
    + destruct (Z.compare_spec e1 e2) as [He|He|He].
      * subst e2. rewrite Z.compare_opp.
        destruct (Z.compare_spec (Z.pos m1) (Z.pos m2)) as [Hm|Hm|Hm]; symmetry; cbn [CompOpp].
        -- apply Z.compare_eq_iff. lia.
        -- apply Z.compare_gt_iff. lia.
        -- apply Z.compare_lt_iff. lia.
      * symmetry. apply Z.compare_gt_iff. specialize (L2 ltac:(lia)). nia.
      * symmetry. apply Z.compare_lt_iff. specialize (L1 ltac:(lia)). nia.
    + symmetry. apply Z.compare_lt_iff. lia.
    + symmetry. apply Z.compare_gt_iff. lia.
    + destruct (Z.compare_spec e1 e2) as [He|He|He].
      * subst e2.
        destruct (Z.compare_spec (Z.pos m1) (Z.pos m2)) as [Hm|Hm|Hm]; symmetry.
        -- apply Z.compare_eq_iff. lia.
        -- apply Z.compare_lt_iff. lia.
        -- apply Z.compare_gt_iff. lia.
      * symmetry. apply Z.compare_lt_iff. specialize (L2 ltac:(lia)). nia.
      * symmetry. apply Z.compare_gt_iff. specialize (L1 ltac:(lia)). nia.
Qed.

Lemma number_not_nan (x : PrimFloat.float) :
  number x <-> FloatOps.Prim2SF x <> SpecFloat.S754_nan.
Proof.
  unfold number, PrimFloat.is_nan. rewrite FloatAxioms.eqb_spec.
  pose proof (FloatAxioms.Prim2SF_valid x) as V.
  destruct (FloatOps.Prim2SF x) as [s|s| |s m e] eqn:E.
  - split; [discriminate | reflexivity].
  - split; [discriminate | destruct s; reflexivity].
  - split; [discriminate | congruence].
  - split; [discriminate|]. intros _.
    unfold SpecFloat.SFeqb.
    rewrite (SFcompare_rank _ _ V V) by discriminate.
    rewrite Z.compare_refl. reflexivity.
Qed.

Lemma compare_rank (x y : PrimFloat.float) :
  number x -> number y ->
  SpecFloat.SFcompare (FloatOps.Prim2SF x) (FloatOps.Prim2SF y)
  = Some (rank x ?= rank y)%Z.
Proof.
  intros Hx Hy. apply SFcompare_rank.
  - apply FloatAxioms.Prim2SF_valid.
  - apply FloatAxioms.Prim2SF_valid.
  - apply number_not_nan, Hx.
  - apply number_not_nan, Hy.
Qed.

Lemma compare_nan (x y : PrimFloat.float) :
  ~ (number x /\ number y) ->
  SpecFloat.SFcompare (FloatOps.Prim2SF x) (FloatOps.Prim2SF y) = None.
Proof.
  intro H.
  destruct (FloatOps.Prim2SF x) as [s|s| |s m e] eqn:Ex;
    destruct (FloatOps.Prim2SF y) as [s'|s'| |s' m' e'] eqn:Ey; try reflexivity;
    exfalso; apply H; split; apply number_not_nan; congruence.
Qed.

Lemma number_dec (x : PrimFloat.float) : {number x} + {~ number x}.
Proof.
  unfold number. destruct (PrimFloat.is_nan x); [right; discriminate | left; reflexivity].
Qed.

(** The three comparisons of floats, on numbers. *)
Lemma ltb_rank (x y : PrimFloat.float) :
  number x -> number y -> PrimFloat.ltb x y = (rank x <? rank y)%Z.
Proof.
  intros Hx Hy. rewrite FloatAxioms.ltb_spec. unfold SpecFloat.SFltb.
  rewrite (compare_rank x y Hx Hy). unfold Z.ltb.
  destruct (rank x ?= rank y)%Z; reflexivity.
Qed.

Lemma leb_rank (x y : PrimFloat.float) :
  number x -> number y -> PrimFloat.leb x y = (rank x <=? rank y)%Z.
Proof.
  intros Hx Hy. rewrite FloatAxioms.leb_spec. unfold SpecFloat.SFleb.
  rewrite (compare_rank x y Hx Hy). unfold Z.leb.
  destruct (rank x ?= rank y)%Z; reflexivity.
Qed.

Lemma eqb_rank (x y : PrimFloat.float) :
  number x -> number y -> PrimFloat.eqb x y = (rank x =? rank y)%Z.
Proof.
  intros Hx Hy. rewrite FloatAxioms.eqb_spec. unfold SpecFloat.SFeqb.
  rewrite (compare_rank x y Hx Hy).
  destruct (Z.compare_spec (rank x) (rank y)) as [E|E|E]; symmetry.
  - apply Z.eqb_eq, E.
  - apply Z.eqb_neq. lia.
  - apply Z.eqb_neq. lia.
Qed.

(** A comparison that holds is one of numbers. *)
Lemma ltb_true (x y : PrimFloat.float) :
  PrimFloat.ltb x y = true <-> number x /\ number y /\ (rank x < rank y)%Z.
Proof.
  split.
  - intro H. destruct (number_dec x) as [Hx|Hx]; [destruct (number_dec y) as [Hy|Hy]|].
    + rewrite ltb_rank in H by assumption. apply Z.ltb_lt in H. tauto.
    + rewrite FloatAxioms.ltb_spec in H. unfold SpecFloat.SFltb in H.
      rewrite compare_nan in H by tauto. discriminate.
    + rewrite FloatAxioms.ltb_spec in H. unfold SpecFloat.SFltb in H.
      rewrite compare_nan in H by tauto. discriminate.
  - intros [Hx [Hy H]]. rewrite ltb_rank by assumption. apply Z.ltb_lt, H.
Qed.

Lemma leb_true (x y : PrimFloat.float) :
  PrimFloat.leb x y = true <-> number x /\ number y /\ (rank x <= rank y)%Z.
Proof.
  split.
  - intro H. destruct (number_dec x) as [Hx|Hx]; [destruct (number_dec y) as [Hy|Hy]|].
    + rewrite leb_rank in H by assumption. apply Z.leb_le in H. tauto.
    + rewrite FloatAxioms.leb_spec in H. unfold SpecFloat.SFleb in H.
      rewrite compare_nan in H by tauto. discriminate.
    + rewrite FloatAxioms.leb_spec in H. unfold SpecFloat.SFleb in H.
      rewrite compare_nan in H by tauto. discriminate.
  - intros [Hx [Hy H]]. rewrite leb_rank by assumption. apply Z.leb_le, H.
Qed.

Lemma eqb_true (x y : PrimFloat.float) :
  PrimFloat.eqb x y = true <-> number x /\ number y /\ rank x = rank y.
Proof.
  split.
  - intro H. destruct (number_dec x) as [Hx|Hx]; [destruct (number_dec y) as [Hy|Hy]|].
    + rewrite eqb_rank in H by assumption. apply Z.eqb_eq in H. tauto.
    + rewrite FloatAxioms.eqb_spec in H. unfold SpecFloat.SFeqb in H.
      rewrite compare_nan in H by tauto. discriminate.
    + rewrite FloatAxioms.eqb_spec in H. unfold SpecFloat.SFeqb in H.
      rewrite compare_nan in H by tauto. discriminate.
  - intros [Hx [Hy H]]. rewrite eqb_rank by assumption. apply Z.eqb_eq, H.
Qed.

Lemma ltb_false (x y : PrimFloat.float) :
  number x -> number y -> PrimFloat.ltb x y = false <-> (rank y <= rank x)%Z.
Proof.
  intros Hx Hy. rewrite ltb_rank by assumption. rewrite Z.ltb_ge. tauto.
Qed.

Lemma leb_false (x y : PrimFloat.float) :
  number x -> number y -> PrimFloat.leb x y = false <-> (rank y < rank x)%Z.
Proof.
  intros Hx Hy. rewrite leb_rank by assumption. rewrite Z.leb_gt. tauto.
Qed.

Lemma eqb_false (x y : PrimFloat.float) :
  number x -> number y -> PrimFloat.eqb x y = false <-> rank x <> rank y.
Proof.
  intros Hx Hy. rewrite eqb_rank by assumption. rewrite Z.eqb_neq. tauto.
Qed.

Lemma number_zero : number 0%float.
Proof. reflexivity. Qed.

Lemma rank_zero : rank 0%float = 0%Z.
Proof. reflexivity. Qed.

(** [max] and [min] of numbers. *)
Lemma max_number (a b : PrimFloat.float) :
  number a -> number b ->
  number (B64.max a b) /\ rank (B64.max a b) = Z.max (rank a) (rank b).
Proof.
  intros Ha Hb. unfold B64.max. rewrite ltb_rank by assumption.
  destruct (rank a <? rank b)%Z eqn:E.
  - apply Z.ltb_lt in E. split; [exact Hb | lia].
  - apply Z.ltb_ge in E. split; [exact Ha | lia].
Qed.

Lemma min_number (a b : PrimFloat.float) :
  number a -> number b ->
  number (B64.min a b) /\ rank (B64.min a b) = Z.min (rank a) (rank b).
Proof.
  intros Ha Hb. unfold B64.min. rewrite ltb_rank by assumption.
  destruct (rank b <? rank a)%Z eqn:E.
  - apply Z.ltb_lt in E. split; [exact Hb | lia].
  - apply Z.ltb_ge in E. split; [exact Ha | lia].
Qed.

Lemma clamp_number (duration x : PrimFloat.float) :
  number duration -> number x ->
  number (B64.clamp_to_video duration x) /\
  rank (B64.clamp_to_video duration x) = Z.max 0 (Z.min (rank x) (rank duration)).
Proof.
  intros Hd Hx. unfold B64.clamp_to_video.
  destruct (min_number x duration Hx Hd) as [N1 R1].
  destruct (max_number 0%float _ number_zero N1) as [N2 R2].
  split; [exact N2|]. rewrite R2, R1, rank_zero. reflexivity.
Qed.

(** ** Binary64: what rounding does to the sign *)

Section Rounding.
Let prec := FloatOps.prec.
Let emax := FloatOps.emax.














End Rounding.

(** ** Binary64: signs of the operations *)











Local Open Scope float_scope.
Set Warnings "-inexact-float".

(** ** Binary64: sorting *)

Lemma float_ltb_asym (x y : float) : (x <? y) = true -> (y <? x) = false.
Proof.
  intro H. apply ltb_true in H. destruct H as [Hx [Hy H]].
  apply ltb_false; [assumption | assumption | lia].
Qed.

Lemma float_tuple_ltb_asym (a b : float * float) :
  B64.tuple_ltb a b = true -> B64.tuple_ltb b a = false.
Proof.
  unfold B64.tuple_ltb. intro H.
  destruct (fst a =? fst b) eqn:E.
  - apply eqb_true in E. destruct E as [Na [Nb E]].
    assert (E' : (fst b =? fst a) = true) by (apply eqb_true; auto).
    rewrite E'. apply float_ltb_asym, H.
  - apply ltb_true in H. destruct H as [Na [Nb H]].
    assert (E' : (fst b =? fst a) = false) by (apply eqb_false; auto; lia).
    rewrite E'. apply ltb_false; auto; lia.
Qed.

Lemma Sorted_numbers_ascending (l : list (float * float)) :
  starts_are_numbers l ->
  Sorted (fun a b => (rank (fst a) <= rank (fst b))%Z) l -> ascending_by_start l.
Proof.
  intros Hn Hs.
  assert (Hss : StronglySorted (fun a b => (rank (fst a) <= rank (fst b))%Z) l).
  { apply Sorted_StronglySorted; [|exact Hs]. intros a b c Hab Hbc. lia. }
  clear Hs. unfold ascending_by_start.
  induction Hss as [|a l Hl IH Ha]; [constructor|].
  inversion Hn as [|? ? Na Nl]; subst.
  constructor; [apply IH, Nl|].
  rewrite Forall_forall in *. intros b Hb.
  apply leb_true. split; [exact Na|]. split; [apply Nl, Hb | apply Ha, Hb].
Qed.

Lemma Sorted_in_weaken {A : Type} (R S : A -> A -> Prop) (l : list A) :
  (forall a b, In a l -> In b l -> R a b -> S a b) -> Sorted R l -> Sorted S l.
Proof.
  intros HRS Hs. induction Hs as [|a l Hl IH Hhd]; constructor.
  - apply IH. intros x y Hx Hy. apply HRS; right; assumption.
  - destruct Hhd as [|b l' Hab]; constructor.
    apply HRS; [left; reflexivity | right; left; reflexivity | exact Hab].
Qed.

Lemma float_sorted_tuples_ascending (l : list (float * float)) :
  starts_are_numbers l -> ascending_by_start (B64.sorted_tuples l).
Proof.
  intro Hn.
  assert (Hn' : starts_are_numbers (B64.sorted_tuples l)).
  { unfold starts_are_numbers.
    eapply Permutation_Forall; [apply Permutation_sym, sort_permutation | exact Hn]. }
  apply Sorted_numbers_ascending; [exact Hn'|].
  apply Sorted_in_weaken with (R := not_after B64.tuple_ltb).
  - unfold starts_are_numbers in Hn'. rewrite Forall_forall in Hn'.
    intros a b Ha Hb. unfold not_after, B64.tuple_ltb. intro H.
    pose proof (Hn' a Ha) as Na. pose proof (Hn' b Hb) as Nb.
    destruct (fst b =? fst a) eqn:E.
    + apply eqb_true in E. lia.
    + apply ltb_false in H; assumption.
  - apply sort_sorted. apply float_tuple_ltb_asym.
Qed.

Lemma float_sorted_by_first_ascending (l : list (float * float)) :
  starts_are_numbers l -> ascending_by_start (B64.sorted_by_first l).
Proof.
  intro Hn.
  assert (Hn' : starts_are_numbers (B64.sorted_by_first l)).
  { unfold starts_are_numbers.
    eapply Permutation_Forall; [apply Permutation_sym, sort_permutation | exact Hn]. }
  apply Sorted_numbers_ascending; [exact Hn'|].
  apply Sorted_in_weaken with (R := not_after (fun a b => (fst a <? fst b))).
  - unfold starts_are_numbers in Hn'. rewrite Forall_forall in Hn'.
    intros a b Ha Hb. unfold not_after. intro H.
    apply ltb_false in H; auto.
  - apply sort_sorted. intros x y. apply float_ltb_asym.
Qed.

(** ** Binary64: the end mark *)

(** C4 (as the code has it).  [on_end_selection] (endMark) with the playhead
    at [t]: with no pending start it reports that no selection is active;
    with a pending start [p] for which [t <= p + 0.01] holds as the machine
    computes the sum and the comparison, it reports an invalid selection;
    in both cases the state is returned as it was.  Otherwise the new list
    holds the old ranges and [(p, t)], ascending by start when the starts are
    numbers, and the pending start is cleared. *)
Theorem on_end_selection_contract (t : float) (w : B64.MainWindow) :
  (B64.current_selection_start w = None ->
     B64.on_end_selection t w = (NoActiveSelection, w)) /\
  (forall p, B64.current_selection_start w = Some p ->
     (t <=? p + 0.01) = true ->
     B64.on_end_selection t w = (InvalidSelection, w)) /\
  (forall p, B64.current_selection_start w = Some p ->
     (t <=? p + 0.01) = false ->
     exists sels',
       B64.on_end_selection t w
         = (SegmentSelected, B64.mkMainWindow sels' None (B64.video_duration w)) /\
       Permutation sels' (B64.selections w ++ [(p, t)]) /\
       (starts_are_numbers (B64.selections w) -> number p -> ascending_by_start sels')).
Proof.
  unfold B64.on_end_selection. repeat apply conj.
  - intros ->. reflexivity.
  - intros p -> Hle. rewrite Hle. reflexivity.
  - intros p -> Hgt. rewrite Hgt.
    eexists. split; [reflexivity|]. split.
    + apply sort_permutation.
    + intros Hn Hp. apply float_sorted_tuples_ascending.
      apply Forall_app. split; [exact Hn|]. constructor; [exact Hp | constructor].
Qed.

Lemma on_end_selection_contract_witness :
  B64.on_end_selection 1 (B64.mkMainWindow [(4, 5)] None 10)
    = (NoActiveSelection, B64.mkMainWindow [(4, 5)] None 10) /\
  B64.on_end_selection 2.01 (B64.mkMainWindow [(4, 5)] (Some 2) 10)
    = (InvalidSelection, B64.mkMainWindow [(4, 5)] (Some 2) 10) /\
  exists sels',
    B64.on_end_selection 3 (B64.mkMainWindow [(4, 5)] (Some 2) 10)
      = (SegmentSelected, B64.mkMainWindow sels' None 10) /\
    Permutation sels' ([(4, 5)] ++ [(2, 3)]) /\
    (starts_are_numbers [(4, 5)] -> number 2 -> ascending_by_start sels').
Proof.
  split; [|split].
  - apply (proj1 (on_end_selection_contract 1 (B64.mkMainWindow [(4, 5)] None 10))).
    reflexivity.
  - apply (proj1 (proj2 (on_end_selection_contract 2.01
                           (B64.mkMainWindow [(4, 5)] (Some 2) 10))) 2);
      reflexivity.
  - apply (proj2 (proj2 (on_end_selection_contract 3
                           (B64.mkMainWindow [(4, 5)] (Some 2) 10))) 2);
      reflexivity.
Defined.

(** C4, as stated, fails in both directions once the sum is rounded.  With
    the playhead at 1000 ms and then at 1010 ms the end time, a double above
    1.01, exceeds the start by more than 0.01, yet the mark is refused; with
    the playhead at 11 ms and then at 21 ms the two marks are 10 ms apart,
    yet the range is committed. *)
Lemma on_end_selection_rounding_counterexample :
  (* the playhead at 1000 ms and at 1010 ms *)
  B64._get_current_playhead_time_sec 1000 = 1 /\
  B64._get_current_playhead_time_sec 1010 = 1.01 /\
  (exact 1 + (1 # 100) < exact 1.01)%Q /\
  B64.on_end_selection 1.01 (B64.mkMainWindow [] (Some 1) 10)
    = (InvalidSelection, B64.mkMainWindow [] (Some 1) 10) /\
  (* the playhead at 11 ms and at 21 ms *)
  B64._get_current_playhead_time_sec 11 = 0.011 /\
  B64._get_current_playhead_time_sec 21 = 0.021 /\
  (21 <= 11 + 10)%Z /\
  B64.on_end_selection 0.021 (B64.mkMainWindow [] (Some 0.011) 10)
    = (SegmentSelected, B64.mkMainWindow [(0.011, 0.021)] None 10).
Proof.
  repeat apply conj; try (vm_compute; reflexivity).
  lia.
Qed.

(** ** Binary64: RemoveSelections *)

Lemma kept_gap_code (cursor rs : float) (keep : list (float * float)) :
  (if cursor <? rs
   then if B64.min_segment_duration <=? rs - cursor
        then keep ++ [(cursor, rs)] else keep
   else keep)%list
  = (keep ++ kept_gap cursor rs)%list.
Proof.
  unfold kept_gap, B64.min_segment_duration.
  destruct (cursor <? rs); [destruct (0.05 <=? rs - cursor)|];
    try reflexivity; symmetry; apply app_nil_r.
Qed.

(** The loop of the code and the walk of the description produce the same
    segments, from any loop state. *)
Lemma float_removal_loop_walk (duration : float) (ranges : list (float * float)) :
  forall (keep : list (float * float)) (cursor : float),
    (let '(segments_to_keep, current_pos) :=
       fold_left (B64.removal_step duration) ranges (keep, cursor) in
     if current_pos <? duration then
       if B64.min_segment_duration <=? duration - current_pos
       then segments_to_keep ++ [(current_pos, duration)]
       else segments_to_keep
     else segments_to_keep)%list
    = (keep ++ cursor_walk duration cursor ranges)%list.
Proof.
  induction ranges as [|[rs re] ranges IH]; intros keep cursor.
  - simpl. apply kept_gap_code.
  - cbn [fold_left]. unfold B64.removal_step at 2. cbn [fst snd].
    rewrite kept_gap_code. rewrite IH. cbn [cursor_walk].
    rewrite <- app_assoc. reflexivity.
Qed.

Lemma float_get_segments_walk (w : B64.MainWindow) :
  B64.selections w <> [] -> (0 <? B64.video_duration w) = true ->
  B64._get_segments_to_keep_for_removal w
  = cursor_walk (B64.video_duration w) 0 (B64.sorted_by_first (B64.selections w)).
Proof.
  intros Hne Hd. unfold B64._get_segments_to_keep_for_removal.
  destruct (B64.selections w) as [|r l] eqn:Hs; [contradiction|].
  apply ltb_true in Hd. destruct Hd as [N0 [Nd Hd]].
  assert (E : (B64.video_duration w <=? 0) = false) by (apply leb_false; auto).
  rewrite E.
  apply (float_removal_loop_walk (B64.video_duration w)
           (B64.sorted_by_first (r :: l)) [] 0).
Qed.

Lemma float_insert_by_first_strict (x : float * float) (l : list (float * float)) :
  number (fst x) -> starts_are_numbers l ->
  starts_increase l -> ~ InA equal_starts x l ->
  starts_increase (Py.insert (fun a b => fst a <? fst b) x l).
Proof.
  unfold starts_increase, equal_starts, starts_are_numbers. intros Nx Nl Hs Hx.
  induction Hs as [|y l Hl IH Hy]; simpl.
  - repeat constructor.
  - inversion Nl as [|? ? Ny Nl']; subst.
    destruct (fst y <? fst x) eqn:E.
    + constructor.
      * apply IH; [exact Nl'|]. intro H. apply Hx. right. exact H.
      * apply Forall_forall. intros z Hz.
        apply (Permutation_in _ (insert_permutation _ x l)) in Hz.
        destruct Hz as [<-|Hz]; [exact E|].
        rewrite Forall_forall in Hy. apply Hy, Hz.
    + apply ltb_false in E; [|assumption|assumption].
      assert (Hne : rank (fst x) <> rank (fst y)).
      { intro Heq. apply Hx. left. apply eqb_true. auto. }
      assert (Hxy : (fst x <? fst y) = true) by (apply ltb_true; repeat split; auto; lia).
      constructor; [constructor; assumption|].
      constructor; [exact Hxy|].
      rewrite Forall_forall in *. intros z Hz.
      specialize (Hy z Hz). apply ltb_true in Hy. apply ltb_true.
      destruct Hy as [_ [Nz Hy]]. repeat split; auto. lia.
Qed.

Lemma float_sorted_by_first_strict (l : list (float * float)) :
  starts_are_numbers l -> NoDupA equal_starts l ->
  starts_increase (B64.sorted_by_first l).
Proof.
  intros Hn Hnd. induction Hnd as [|x l Hx Hnd IH]; simpl.
  - constructor.
  - inversion Hn as [|? ? Nx Nl]; subst.
    apply float_insert_by_first_strict.
    + exact Nx.
    + unfold starts_are_numbers.
      eapply Permutation_Forall; [apply Permutation_sym, sort_permutation | exact Nl].
    + apply IH, Nl.
    + intro H. apply Hx. rewrite InA_alt in *. destruct H as [y [Hxy Hy]].
      exists y. split; [exact Hxy|].
      eapply Permutation_in; [apply sort_permutation | exact Hy].
Qed.

(** A list with strictly increasing starts is the only sorted arrangement of
    its elements. *)
Lemma float_sorted_arrangement_unique (s1 : list (float * float)) :
  starts_increase s1 ->
  forall s2, ascending_by_start s2 -> Permutation s1 s2 -> s1 = s2.
Proof.
  unfold starts_increase, ascending_by_start.
  intro H1. induction H1 as [|a s1 Hs1 IH Ha]; intros s2 H2 Hp.
  - apply Permutation_nil in Hp. subst. reflexivity.
  - destruct s2 as [|b s2].
    + apply Permutation_sym, Permutation_nil in Hp. discriminate.
    + inversion H2 as [|? ? Hs2 Hb]; subst.
      assert (Hab : a = b).
      { pose proof (Permutation_in b (Permutation_sym Hp) (or_introl eq_refl)) as Hb1.
        pose proof (Permutation_in a Hp (or_introl eq_refl)) as Ha1.
        destruct Hb1 as [Hb1|Hb1]; [exact Hb1|].
        destruct Ha1 as [Ha1|Ha1]; [symmetry; exact Ha1|].
        rewrite Forall_forall in Ha, Hb.
        specialize (Ha b Hb1). specialize (Hb a Ha1).
        apply ltb_true in Ha. apply leb_true in Hb. lia. }
      subst b. f_equal. apply IH; [exact Hs2|].
      apply Permutation_cons_inv in Hp. exact Hp.
Qed.

(** Ranges with pairwise different starts give the same keep-segments in
    whatever order they are held. *)
Lemma float_get_segments_order_independent (w w' : B64.MainWindow) :
  B64.video_duration w' = B64.video_duration w ->
  Permutation (B64.selections w) (B64.selections w') ->
  starts_are_numbers (B64.selections w) ->
  NoDupA equal_starts (B64.selections w) ->
  B64._get_segments_to_keep_for_removal w' = B64._get_segments_to_keep_for_removal w.
Proof.
  intros Hd Hp Hn Hnd.
  assert (Hs : B64.sorted_by_first (B64.selections w)
               = B64.sorted_by_first (B64.selections w')).
  { apply float_sorted_arrangement_unique.
    - apply float_sorted_by_first_strict; assumption.
    - apply float_sorted_by_first_ascending. unfold starts_are_numbers.
      eapply Permutation_Forall; [exact Hp | exact Hn].
    - eapply perm_trans; [apply sort_permutation|].
      eapply perm_trans; [exact Hp | apply Permutation_sym, sort_permutation]. }
  unfold B64._get_segments_to_keep_for_removal. rewrite Hd.
  destruct (B64.selections w) as [|r l] eqn:E;
    destruct (B64.selections w') as [|r' l'] eqn:E'.
  - reflexivity.
  - apply Permutation_nil in Hp. discriminate.
  - apply Permutation_sym, Permutation_nil in Hp. discriminate.
  - rewrite Hs. reflexivity.
Qed.

Lemma ends_after_start_numbers (l : list (float * float)) :
  Forall ends_after_start l -> starts_are_numbers l.
Proof.
  unfold starts_are_numbers. apply Forall_impl. intros r H.
  apply ltb_true in H. tauto.
Qed.

(** C1 (as the code has it).  For ranges that each end after they start and
    a video of positive duration, the keep-segments of
    [_get_segments_to_keep_for_removal] are those of the cursor walk over the
    ranges sorted by start: the cursor starts at 0, each
    range is clamped to the video, the gap from the cursor to the start of
    the range is kept when the cursor is before that start and the difference
    the machine computes is at least the double 0.05, the cursor moves to the
    larger of itself and the end of the range, and the rest of the video is
    treated the same way.  [on_save_video] plans them, or reports that nothing
    is left.  [(2,5),(4,8)] over 10 gives [(0,2),(8,10)] in either order, and
    the result does not depend on the order of ranges with different
    starts. *)
Theorem keep_segments_follow_walk (w : B64.MainWindow) :
  Forall ends_after_start (B64.selections w) ->
  (0 <? B64.video_duration w) = true ->
  (B64.selections w <> [] ->
     B64._get_segments_to_keep_for_removal w
       = cursor_walk (B64.video_duration w) 0 (B64.sorted_by_first (B64.selections w)) /\
     Permutation (B64.sorted_by_first (B64.selections w)) (B64.selections w) /\
     ascending_by_start (B64.sorted_by_first (B64.selections w))) /\
  B64.segments_for_concat 1 w
    = match kept_segments (B64.selections w) (B64.video_duration w) with
      | [] => inl NothingToSave
      | segs => inr segs
      end /\
  B64._get_segments_to_keep_for_removal (B64.mkMainWindow [(2, 5); (4, 8)] None 10)
    = [(0, 2); (8, 10)] /\
  B64._get_segments_to_keep_for_removal (B64.mkMainWindow [(4, 8); (2, 5)] None 10)
    = [(0, 2); (8, 10)] /\
  (forall w',
     B64.video_duration w' = B64.video_duration w ->
     Permutation (B64.selections w) (B64.selections w') ->
     NoDupA equal_starts (B64.selections w) ->
     B64._get_segments_to_keep_for_removal w'
     = B64._get_segments_to_keep_for_removal w) /\
  B64._get_segments_to_keep_for_removal
    (B64.perform_all (B64.new_session 10)
       [B64.BeginMark 2; B64.EndMark 5; B64.BeginMark 4; B64.EndMark 8])
    = [(0, 2); (8, 10)] /\
  B64._get_segments_to_keep_for_removal
    (B64.perform_all (B64.new_session 10)
       [B64.BeginMark 4; B64.EndMark 8; B64.BeginMark 2; B64.EndMark 5])
    = [(0, 2); (8, 10)].
Proof.
  intros Hwf Hd. apply ends_after_start_numbers in Hwf. repeat apply conj.
  - intro Hne. split; [apply float_get_segments_walk; assumption|]. split.
    + apply sort_permutation.
    + apply float_sorted_by_first_ascending, Hwf.
  - unfold B64.segments_for_concat, kept_segments. simpl.
    destruct (B64.selections w) as [|r l] eqn:Hs.
    + pose proof Hd as Hd'. apply ltb_true in Hd'. destruct Hd' as [N0 [Nd Hd']].
      assert (E : (B64.video_duration w <=? 0) = false) by (apply leb_false; auto).
      rewrite E. reflexivity.
    + rewrite float_get_segments_walk; [rewrite Hs; reflexivity | congruence | exact Hd].
  - vm_compute. reflexivity.
  - vm_compute. reflexivity.
  - intros w' Hd' Hp. apply float_get_segments_order_independent; assumption.
  - vm_compute. reflexivity.
  - vm_compute. reflexivity.
Qed.

Lemma keep_segments_follow_walk_witness :
  B64.segments_for_concat 1 (B64.mkMainWindow [(4, 8); (2, 5)] None 10)
    = inr [(0, 2); (8, 10)].
Proof.
  refine (proj1 (proj2 (keep_segments_follow_walk
                          (B64.mkMainWindow [(4, 8); (2, 5)] None 10) _ eq_refl))).
  repeat constructor.
Defined.

(** C1, as stated, fails on a gap the subtraction rounds up: with ranges
    marked at 0 ms to 11 ms and at 61 ms to 1 s, the gap between them is kept
    although it is shorter than 0.05. *)
Lemma keep_segments_rounded_gap_counterexample :
  B64._get_current_playhead_time_sec 11 = 0.011 /\
  B64._get_current_playhead_time_sec 61 = 0.061 /\
  B64._get_segments_to_keep_for_removal
    (B64.mkMainWindow [(0, 0.011); (0.061, 1)] None 1)
    = [(0.011, 0.061)] /\
  (exact 0.061 - exact 0.011 < 1 # 20)%Q.
Proof.
  repeat apply conj; vm_compute; reflexivity.
Qed.

(** What the walk guarantees for its output, from any cursor inside the
    video. *)
Lemma cursor_walk_invariant (duration : float) (ranges : list (float * float)) :
  number duration -> (0 <= rank duration)%Z -> Forall ends_after_start ranges ->
  forall cursor, number cursor -> (0 <= rank cursor <= rank duration)%Z ->
    Forall (fun s => number (fst s) /\ number (snd s) /\
                     (rank cursor <= rank (fst s) < rank (snd s))%Z /\
                     (rank (snd s) <= rank duration)%Z /\
                     (0.05 <=? snd s - fst s) = true)
      (cursor_walk duration cursor ranges) /\
    StronglySorted (fun a b => (rank (snd a) <= rank (fst b))%Z)
      (cursor_walk duration cursor ranges).
Proof.
  intros Nd Hd Hwf. induction Hwf as [|[rs re] ranges Hr Hwf IH]; intros cursor Nc Hc.
  - simpl. unfold kept_gap.
    destruct (cursor <? duration) eqn:E1; [|split; constructor].
    destruct (0.05 <=? duration - cursor) eqn:E2; [|split; constructor].
    apply ltb_true in E1. destruct E1 as [_ [_ E1]].
    split; repeat constructor; simpl; auto; lia.
  - cbn [cursor_walk].
    unfold ends_after_start in Hr. cbn [fst snd] in Hr.
    apply ltb_true in Hr. destruct Hr as [Nrs [Nre Hr]].
    destruct (clamp_number duration rs Nd Nrs) as [Ns Rs].
    destruct (clamp_number duration re Nd Nre) as [Ne Re].
    set (rs' := B64.clamp_to_video duration rs) in *.
    set (re' := B64.clamp_to_video duration re) in *.
    destruct (max_number cursor re' Nc Ne) as [Nm Rm].
    destruct (IH (B64.max cursor re') Nm) as [IHb IHs]; [lia|].
    assert (IHb' : Forall (fun s => number (fst s) /\ number (snd s) /\
                                    (rank cursor <= rank (fst s) < rank (snd s))%Z /\
                                    (rank (snd s) <= rank duration)%Z /\
                                    (0.05 <=? snd s - fst s) = true)
                     (cursor_walk duration (B64.max cursor re') ranges)).
    { eapply Forall_impl; [|exact IHb]. simpl. intros s Hs.
      destruct Hs as [H1 [H2 [H3 [H4 H5]]]]. repeat split; auto; lia. }
    unfold kept_gap.
    destruct (cursor <? rs') eqn:E1; [|split; assumption].
    destruct (0.05 <=? rs' - cursor) eqn:E2; [|split; assumption].
    apply ltb_true in E1. destruct E1 as [_ [_ E1]].
    simpl. split.
    + constructor; [simpl; repeat split; auto; lia | exact IHb'].
    + constructor; [exact IHs|].
      eapply Forall_impl; [|exact IHb]. simpl. intros s Hs. lia.
Qed.

(** C10 (as the code has it).  For ranges that each end after they start,
    overlapping or not, in any order, and a positive duration, the
    keep-segments have strictly increasing starts, each ends before the next
    starts, each lies within the video and ends after it starts, and the
    length the machine computes for each is at least the double 0.05. *)
Theorem keep_segments_invariant (w : B64.MainWindow) :
  Forall ends_after_start (B64.selections w) -> (0 <? B64.video_duration w) = true ->
  starts_increase (B64._get_segments_to_keep_for_removal w) /\
  one_after_another (B64._get_segments_to_keep_for_removal w) /\
  Forall (fun s => (0 <=? fst s) = true /\ (snd s <=? B64.video_duration w) = true /\
                   (fst s <? snd s) = true /\ (0.05 <=? snd s - fst s) = true)
    (B64._get_segments_to_keep_for_removal w).
Proof.
  intros Hwf Hd.
  destruct (B64.selections w) as [|r l] eqn:Hs.
  - unfold B64._get_segments_to_keep_for_removal. rewrite Hs.
    repeat split; constructor.
  - rewrite float_get_segments_walk; [|congruence|exact Hd].
    apply ltb_true in Hd. destruct Hd as [N0 [Nd Hd]]. rewrite rank_zero in Hd.
    destruct (cursor_walk_invariant (B64.video_duration w)
                (B64.sorted_by_first (B64.selections w)) Nd ltac:(lia))
      with (cursor := 0) as [Hb Hdisj].
    + eapply Permutation_Forall; [apply Permutation_sym, sort_permutation|].
      rewrite Hs. exact Hwf.
    + exact N0.
    + rewrite rank_zero. lia.
    + set (segs := cursor_walk (B64.video_duration w) 0
                     (B64.sorted_by_first (B64.selections w))) in *.
      rewrite rank_zero in Hb.
      assert (Hone : one_after_another segs).
      { unfold one_after_another. clear - Hb Hdisj.
        induction Hdisj as [|a l Hl IH Ha]; [constructor|].
        inversion Hb as [|? ? Hba Hbl]; subst.
        constructor; [apply IH, Hbl|].
        rewrite Forall_forall in *. intros b Hin.
        apply leb_true. repeat split; [tauto | apply (Hbl b Hin) | apply Ha, Hin]. }
      split; [|split; [exact Hone|]].
      * unfold starts_increase. clear - Hb Hdisj.
        induction Hdisj as [|a l Hl IH Ha]; [constructor|].
        inversion Hb as [|? ? Hba Hbl]; subst.
        constructor; [apply IH, Hbl|].
        rewrite Forall_forall in *. intros b Hin.
        apply ltb_true. repeat split; [tauto | apply (Hbl b Hin) |].
        specialize (Ha b Hin). lia.
      * eapply Forall_impl; [|exact Hb]. simpl.
        intros s [H1 [H2 [H3 [H4 H5]]]]. repeat split.
        -- apply leb_true. rewrite rank_zero. repeat split; auto. lia.
        -- apply leb_true. repeat split; auto.
        -- apply ltb_true. repeat split; auto. lia.
        -- exact H5.
Qed.

Lemma keep_segments_invariant_witness :
  let w := B64.mkMainWindow [(6, 9); (2, 5); (4, 7); (9.5, 9.52)] None 10 in
  starts_increase (B64._get_segments_to_keep_for_removal w) /\
  one_after_another (B64._get_segments_to_keep_for_removal w) /\
  Forall (fun s => (0 <=? fst s) = true /\ (snd s <=? B64.video_duration w) = true /\
                   (fst s <? snd s) = true /\ (0.05 <=? snd s - fst s) = true)
    (B64._get_segments_to_keep_for_removal w).
Proof.
  apply (keep_segments_invariant
           (B64.mkMainWindow [(6, 9); (2, 5); (4, 7); (9.5, 9.52)] None 10)).
  - repeat constructor.
  - reflexivity.
Defined.

(** C10, as stated, fails on the length: with ranges marked at 0 ms to 4 ms
    and at 54 ms to 1 s, a kept segment is shorter than 0.05. *)
Lemma keep_segments_short_segment_counterexample :
  B64._get_current_playhead_time_sec 4 = 0.004 /\
  B64._get_current_playhead_time_sec 54 = 0.054 /\
  Forall ends_after_start [(0, 0.004); (0.054, 1)] /\
  In (0.004, 0.054)
     (B64._get_segments_to_keep_for_removal
        (B64.mkMainWindow [(0, 0.004); (0.054, 1)] None 1)) /\
  (exact 0.054 - exact 0.004 < 1 # 20)%Q.
Proof.
  repeat apply conj; try (vm_compute; reflexivity).
  - repeat constructor.
  - vm_compute. left. reflexivity.
Qed.

(** ** Binary64: sets of floats *)

Lemma same_float_sym (a b : float) : same_float a b -> same_float b a.
Proof.
  unfold same_float. intro H. apply eqb_true in H. apply eqb_true.
  destruct H as [Ha [Hb H]]. auto.
Qed.

Lemma same_float_trans (a b c : float) :
  same_float a b -> same_float b c -> same_float a c.
Proof.
  unfold same_float. intros H1 H2. apply eqb_true in H1, H2. apply eqb_true.
  destruct H1 as [Ha [Hb H1]], H2 as [_ [Hc H2]]. repeat split; auto. congruence.
Qed.

Lemma float_mem_InA (x : float) (s : B64.FloatSet.t) :
  B64.FloatSet.mem x s = true <-> InA same_float x s.
Proof.
  unfold B64.FloatSet.mem. induction s as [|y s IH]; simpl.
  - split; [discriminate | intro H; inversion H].
  - rewrite orb_true_iff, IH. split.
    + intros [H|H]; [left | right]; assumption.
    + intro H. inversion H; subst; [left | right]; assumption.
Qed.

Lemma InA_same_float (x y : float) (s : list float) :
  same_float x y -> InA same_float y s -> InA same_float x s.
Proof.
  intros Hxy H. rewrite InA_alt in *. destruct H as [z [Hyz Hz]].
  exists z. split; [eapply same_float_trans; eassumption | exact Hz].
Qed.

Lemma float_add_InA (x y : float) (s : B64.FloatSet.t) :
  InA same_float x (B64.FloatSet.add y s) <-> same_float x y \/ InA same_float x s.
Proof.
  unfold B64.FloatSet.add. destruct (B64.FloatSet.mem y s) eqn:E.
  - apply float_mem_InA in E. split; [intro H; right; exact H|].
    intros [H|H]; [|exact H]. eapply InA_same_float; eassumption.
  - rewrite InA_app_iff. split.
    + intros [H|H]; [right; exact H|]. left. inversion H as [? ? H1|? ? H1]; subst.
      * exact H1.
      * inversion H1.
    + intros [H|H]; [right; constructor; exact H | left; exact H].
Qed.

Lemma float_add_NoDupA (y : float) (s : B64.FloatSet.t) :
  NoDupA same_float s -> NoDupA same_float (B64.FloatSet.add y s).
Proof.
  intro Hs. unfold B64.FloatSet.add. destruct (B64.FloatSet.mem y s) eqn:E; [exact Hs|].
  assert (Hy : ~ InA same_float y s).
  { intro H. apply float_mem_InA in H. congruence. }
  clear E. induction Hs as [|z s Hz Hs IH]; simpl.
  - constructor; [intro H; inversion H | constructor].
  - constructor.
    + rewrite InA_app_iff. intros [H|H]; [contradiction|].
      inversion H as [? ? H1|? ? H1]; subst; [|inversion H1].
      apply Hy. left. apply same_float_sym. exact H1.
    + apply IH. intro H. apply Hy. right. exact H.
Qed.

Lemma float_fold_add_InA (x : float) (l : list float) :
  forall s, InA same_float x (fold_left (fun s y => B64.FloatSet.add y s) l s)
            <-> InA same_float x s \/ InA same_float x l.
Proof.
  induction l as [|y l IH]; intro s; simpl.
  - split; [intro H; left; exact H | intros [H|H]; [exact H | inversion H]].
  - rewrite IH, float_add_InA. split.
    + intros [[H|H]|H].
      * right. left. exact H.
      * left. exact H.
      * right. right. exact H.
    + intros [H|H].
      * left. right. exact H.
      * inversion H; subst; [left; left | right]; assumption.
Qed.

Lemma float_of_list_InA (x : float) (l : list float) :
  InA same_float x (B64.FloatSet.of_list l) <-> InA same_float x l.
Proof.
  unfold B64.FloatSet.of_list. rewrite float_fold_add_InA. split.
  - intros [H|H]; [inversion H | exact H].
  - intro H. right. exact H.
Qed.

Lemma float_of_list_NoDupA (l : list float) : NoDupA same_float (B64.FloatSet.of_list l).
Proof.
  unfold B64.FloatSet.of_list.
  assert (G : forall s, NoDupA same_float s ->
                        NoDupA same_float (fold_left (fun s y => B64.FloatSet.add y s) l s)).
  { induction l as [|y l IH]; intros s Hs; simpl.
    - exact Hs.
    - apply IH, float_add_NoDupA, Hs. }
  apply G. constructor.
Qed.

Lemma float_of_list_incl (l : list float) :
  forall x, In x (B64.FloatSet.of_list l) -> In x l.
Proof.
  unfold B64.FloatSet.of_list.
  assert (G : forall s x, In x (fold_left (fun s y => B64.FloatSet.add y s) l s) ->
                          In x s \/ In x l).
  { induction l as [|y l IH]; intros s x; simpl.
    - intro H. left. exact H.
    - intro H. apply IH in H. destruct H as [H|H]; [|right; right; exact H].
      unfold B64.FloatSet.add in H. destruct (B64.FloatSet.mem y s).
      + left. exact H.
      + apply in_app_or in H. destruct H as [H|[H|[]]]; [left; exact H|].
        right. left. exact H. }
  intros x H. destruct (G [] x H) as [[]|H']. exact H'.
Qed.

Lemma float_filter_InA (f : float -> bool) (x : float) (l : list float) :
  (forall a b, same_float a b -> f a = f b) ->
  InA same_float x (filter f l) <-> InA same_float x l /\ f x = true.
Proof.
  intro Hf. induction l as [|y l IH]; simpl.
  - split; [intro H; inversion H | intros [H _]; inversion H].
  - destruct (f y) eqn:E.
    + split.
      * intro H. inversion H as [? ? H1|? ? H1]; subst.
        -- split; [left; exact H1 | rewrite (Hf _ _ H1); exact E].
        -- apply IH in H1. split; [right|]; tauto.
      * intros [H Hx]. inversion H as [? ? H1|? ? H1]; subst.
        -- left. exact H1.
        -- right. apply IH. tauto.
    + rewrite IH. split.
      * intros [H Hx]. split; [right; exact H | exact Hx].
      * intros [H Hx]. inversion H as [? ? H1|? ? H1]; subst.
        -- rewrite (Hf _ _ H1) in Hx. congruence.
        -- tauto.
Qed.

Lemma leb_same_float (a b c : float) : same_float a b -> (a <=? c) = (b <=? c).
Proof.
  unfold same_float. intro H. apply eqb_true in H. destruct H as [Na [Nb H]].
  destruct (a <=? c) eqn:E1; destruct (b <=? c) eqn:E2; try reflexivity.
  - apply leb_true in E1. destruct E1 as [_ [Nc E1]].
    assert (X : (b <=? c) = true) by (apply leb_true; repeat split; auto; lia).
    congruence.
  - apply leb_true in E2. destruct E2 as [_ [Nc E2]].
    assert (X : (a <=? c) = true) by (apply leb_true; repeat split; auto; lia).
    congruence.
Qed.

(** ** Binary64: sorting floats *)

Lemma float_sorted_floats_InA (x : float) (l : list float) :
  InA same_float x (B64.sorted_floats l) <-> InA same_float x l.
Proof.
  rewrite !InA_alt. split; intros [y [Hxy Hy]]; exists y; split; try exact Hxy.
  - eapply Permutation_in; [apply sort_permutation | exact Hy].
  - eapply Permutation_in; [apply Permutation_sym, sort_permutation | exact Hy].
Qed.

Lemma float_insert_strictly_sorted (x : float) (l : list float) :
  number x -> Forall number l ->
  points_increase l -> ~ InA same_float x l -> points_increase (Py.insert ltb x l).
Proof.
  unfold points_increase. intros Nx Nl Hs Hx. induction Hs as [|y l Hl IH Hy]; simpl.
  - repeat constructor.
  - inversion Nl as [|? ? Ny Nl']; subst.
    destruct (y <? x) eqn:E.
    + constructor.
      * apply IH; [exact Nl'|]. intro H. apply Hx. right. exact H.
      * apply Forall_forall. intros z Hz.
        apply (Permutation_in _ (insert_permutation ltb x l)) in Hz.
        destruct Hz as [<-|Hz]; [exact E|].
        rewrite Forall_forall in Hy. apply Hy, Hz.
    + apply ltb_false in E; [|assumption|assumption].
      assert (Hne : rank x <> rank y).
      { intro Heq. apply Hx. left. apply eqb_true. auto. }
      assert (Hxy : (x <? y) = true) by (apply ltb_true; repeat split; auto; lia).
      constructor; [constructor; assumption|].
      constructor; [exact Hxy|].
      rewrite Forall_forall in *. intros z Hz.
      specialize (Hy z Hz). apply ltb_true in Hy. apply ltb_true.
      destruct Hy as [_ [Nz Hy]]. repeat split; auto. lia.
Qed.

Lemma float_sorted_floats_strictly (l : list float) :
  Forall number l -> NoDupA same_float l -> points_increase (B64.sorted_floats l).
Proof.
  intros Hn Hnd. induction Hnd as [|x l Hx Hnd IH]; simpl.
  - constructor.
  - inversion Hn as [|? ? Nx Nl]; subst.
    apply float_insert_strictly_sorted.
    + exact Nx.
    + eapply Permutation_Forall; [apply Permutation_sym, sort_permutation | exact Nl].
    + apply IH, Nl.
    + intro H. apply Hx. apply float_sorted_floats_InA. exact H.
Qed.

(** ** Binary64: SplitByTags *)

Lemma float_split_points_strictly_sorted (tags : list float) (duration : float) :
  points_increase (B64.split_points tags duration).
Proof.
  unfold B64.split_points. apply float_sorted_floats_strictly.
  - unfold B64.FloatSet.elements. apply Forall_forall. intros x Hx.
    apply float_of_list_incl in Hx. apply filter_In in Hx. destruct Hx as [_ Hx].
    apply leb_true in Hx. tauto.
  - apply float_of_list_NoDupA.
Qed.

Lemma InA_singleton (x y : float) : InA same_float x [y] <-> same_float x y.
Proof.
  split.
  - intro H. inversion H as [? ? H1|? ? H1]; subst; [exact H1 | inversion H1].
  - intro H. left. exact H.
Qed.

Lemma float_split_points_InA (tags : list float) (duration p : float) :
  InA same_float p (B64.split_points tags duration)
  <-> (same_float p 0 \/ InA same_float p tags \/ same_float p duration)
      /\ (p <=? duration + 0.001) = true.
Proof.
  unfold B64.split_points. rewrite float_sorted_floats_InA. unfold B64.FloatSet.elements.
  rewrite float_of_list_InA, float_filter_InA.
  - rewrite !InA_app_iff, !InA_singleton. tauto.
  - intros a b Hab. apply leb_same_float, Hab.
Qed.

Lemma float_tag_split_loop_step (mk : nat -> float -> float -> B64.task) (duration : float)
  (n : nat) (p q : float) (rest : list float) :
  B64.tag_split_loop mk duration n (p :: q :: rest)
  = if B64.clamp_to_video duration q - B64.clamp_to_video duration p <? 0.05
    then B64.tag_split_loop mk duration n (q :: rest)
    else mk (n + 1)%nat (B64.clamp_to_video duration p) (B64.clamp_to_video duration q)
           :: B64.tag_split_loop mk duration (n + 1)%nat (q :: rest).
Proof. reflexivity. Qed.

(** The tasks of the loop carry, in order, the clamped spans that are long
    enough. *)
Lemma float_tag_split_loop_bounds (mk : nat -> float -> float -> B64.task)
  (duration : float) :
  (forall n s e, trim_bounds (mk n s e) = Some (s, e)) ->
  forall points n,
    map trim_bounds (B64.tag_split_loop mk duration n points)
    = map Some (spans_in_video duration points).
Proof.
  intros Hmk. unfold spans_in_video.
  induction points as [|p rest IH]; intro n; [reflexivity|].
  destruct rest as [|q rest]; [reflexivity|].
  rewrite float_tag_split_loop_step.
  change (neighbours (p :: q :: rest)) with ((p, q) :: neighbours (q :: rest)).
  cbn [map filter fst snd]. unfold spans_enough at 1. cbn [fst snd].
  destruct (B64.clamp_to_video duration q - B64.clamp_to_video duration p <? 0.05).
  - cbn [negb]. apply IH.
  - cbn [negb]. rewrite map_cons, Hmk, IH. reflexivity.
Qed.

(** C2 (as the code has it).  With save action 3, a known format, an output
    directory and at least one tag, the split points are strictly increasing
    and are, up to [==], 0, the tags and the duration, each kept when it is at
    most [duration + 0.001] as the machine computes it; the plan has one
    single-cut task per consecutive pair of points whose span, computed after
    both points are clamped to the video, is not below the double 0.05, with
    the clamped points as bounds, and no error for the others.  Tags 3 and 7.5
    over 10 give the three tasks (0,3), (3,7.5), (7.5,10). *)
Theorem split_by_tags_plan (rq : save_request) (w : B64.MainWindow)
  (tw : B64.TimelineWidget) (fmt : format_details) :
  save_action_id rq = 3%Z ->
  lookup_format (output_format_key rq) OUTPUT_FORMATS = Some fmt ->
  dialog_answer rq <> EmptyString ->
  B64._selected_keyframes tw <> [] ->
  (exists points tasks,
     points_increase points /\
     (forall p, InA same_float p points
                <-> (same_float p 0 \/ InA same_float p (B64._selected_keyframes tw)
                     \/ same_float p (B64.video_duration w))
                    /\ (p <=? B64.video_duration w + 0.001) = true) /\
     B64.on_save_video rq w tw
       = Some (match tasks with [] => B64.Early NoTasks | _ :: _ => B64.Start tasks end) /\
     map trim_bounds tasks = map Some (spans_in_video (B64.video_duration w) points)) /\
  (exists t1 t2 t3,
     B64.on_save_video (mkSaveRequest 3 "MP4 (H.264 + AAC)" "clip" ".mkv" "/out" None)
       (B64.mkMainWindow [] None 10) (B64.mkTimelineWidget 10 [3; 7.5] [7.5; 3])
       = Some (B64.Start [t1; t2; t3]) /\
     map trim_bounds [t1; t2; t3] = [Some (0, 3); Some (3, 7.5); Some (7.5, 10)]).
Proof.
  intros Hid Hfmt Hdir Htags. split.
  - set (selected_tags := B64.sorted_floats (B64.get_selected_keyframes tw)).
    exists (B64.split_points selected_tags (B64.video_duration w)).
    eexists. split; [apply float_split_points_strictly_sorted|]. split; [|split].
    + intro p. rewrite float_split_points_InA.
      unfold selected_tags, B64.get_selected_keyframes.
      rewrite !float_sorted_floats_InA. unfold B64.FloatSet.elements. reflexivity.
    + unfold B64.on_save_video. rewrite Hfmt, Hid. cbn [Z.eqb Pos.eqb orb].
      fold selected_tags.
      rewrite match_nonempty.
      * destruct (String.eqb (dialog_answer rq) "") eqn:Hd.
        -- apply String.eqb_eq in Hd. contradiction.
        -- reflexivity.
      * unfold selected_tags, B64.get_selected_keyframes, B64.sorted_floats.
        apply sort_nonempty, sort_nonempty. exact Htags.
    + apply float_tag_split_loop_bounds. intros n s e. reflexivity.
  - do 3 eexists. split; vm_compute; reflexivity.
Qed.

Lemma split_by_tags_plan_witness :
  exists points tasks,
    points_increase points /\
    (forall p, InA same_float p points
               <-> (same_float p 0 \/ InA same_float p [9.98; 3] \/ same_float p 10)
                   /\ (p <=? 10 + 0.001) = true) /\
    B64.on_save_video (mkSaveRequest 3 "GIF (Animated)" "clip" ".mkv" "/out" (Some 1920%Z))
      (B64.mkMainWindow [] None 10) (B64.mkTimelineWidget 10 [3; 9.98] [9.98; 3])
      = Some (match tasks with [] => B64.Early NoTasks | _ :: _ => B64.Start tasks end) /\
    map trim_bounds tasks = map Some (spans_in_video 10 points).
Proof.
  refine (proj1 (split_by_tags_plan
                   (mkSaveRequest 3 "GIF (Animated)" "clip" ".mkv" "/out" (Some 1920%Z))
                   (B64.mkMainWindow [] None 10)
                   (B64.mkTimelineWidget 10 [3; 9.98] [9.98; 3])
                   (mkFormat (Some ".gif"%string)
                      ["-vf"; "fps=10,scale=480:-1:flags=lanczos"; "-loop"; "0"]%string
                      false true true)
                   eq_refl eq_refl _ _)); discriminate.
Defined.

(** C2, as stated, fails on a tag before the start of the video (a keyframe
    with a negative timestamp): the points -1 and 0 are 1 apart, but both are
    clamped to 0 before the test and the pair is skipped. *)
Lemma split_by_tags_unclamped_counterexample :
  let rq := mkSaveRequest 3 "MP4 (H.264 + AAC)" "clip" ".mkv" "/out" None in
  let w := B64.mkMainWindow [] None 10 in
  let tw := B64.mkTimelineWidget 10 [-1; 4] [-1] in
  B64.split_points (B64.sorted_floats (B64.get_selected_keyframes tw)) 10 = [-1; 0; 10] /\
  spans_as_described [-1; 0; 10] = [(-1, 0); (0, 10)] /\
  ~ (exists tasks,
       B64.on_save_video rq w tw = Some (B64.Start tasks) /\
       map trim_bounds tasks = map Some (spans_as_described [-1; 0; 10])).
Proof.
  split; [vm_compute; reflexivity|]. split; [vm_compute; reflexivity|].
  intros [tasks [Hplan Hb]]. vm_compute in Hplan. inversion Hplan; subst.
  vm_compute in Hb. discriminate Hb.
Qed.

(** ** Binary64: keyframe tags *)


















(** ** Binary64: progress parser *)















